(** * Website tech-stack detector: a shallow embedding of [src/main.js]

    The development follows the source file top-down: the JavaScript string
    and regular-expression primitives the scanner relies on, the signature
    tables ([WAF_PATTERNS], [TECH_PATTERNS], ...), the pure helpers
    ([deduplicateArray], [humanizeTechName], [buildVerdict], [extractVersion],
    [detectWAF], [analyzeStaticResponse]) and finally the two crawler phases
    of the main actor, modelled as steps on an explicit state holding the
    in-memory [results] array and the dataset.

    Strings are byte strings; on the ASCII range [toLowerCase] and the [i]
    flag of a RegExp agree with JavaScript. *)

From Stdlib Require Import List String Ascii Arith Bool Lia.
Import ListNotations.
Open Scope string_scope.
Open Scope list_scope.
Open Scope nat_scope.

(* ================================================================== *)
(** ** JavaScript strings *)
(* ================================================================== *)

Module JsString.

Definition code (c : ascii) : nat := nat_of_ascii c.

Definition is_upper (c : ascii) : bool := (65 <=? code c) && (code c <=? 90).
Definition is_lower (c : ascii) : bool := (97 <=? code c) && (code c <=? 122).
Definition is_digit (c : ascii) : bool := (48 <=? code c) && (code c <=? 57).
Definition is_word (c : ascii) : bool :=
  is_upper c || is_lower c || is_digit c || (code c =? 95).

Definition lower_char (c : ascii) : ascii :=
  if is_upper c then ascii_of_nat (code c + 32) else c.
Definition upper_char (c : ascii) : ascii :=
  if is_lower c then ascii_of_nat (code c - 32) else c.

Fixpoint toLowerCase (s : string) : string :=
  match s with
  | EmptyString => EmptyString
  | String c s' => String (lower_char c) (toLowerCase s')
  end.

Fixpoint toUpperCase (s : string) : string :=
  match s with
  | EmptyString => EmptyString
  | String c s' => String (upper_char c) (toUpperCase s')
  end.

(** [s.startsWith(p)] *)
Definition startsWith (s p : string) : bool := String.prefix p s.

(** [s.includes(p)] *)
Fixpoint includes (s p : string) : bool :=
  String.prefix p s ||
  match s with
  | EmptyString => false
  | String _ s' => includes s' p
  end.

(** [s.charAt(0).toUpperCase() + s.slice(1)] *)
Definition capitalize (s : string) : string :=
  match s with
  | EmptyString => EmptyString
  | String c s' => String (upper_char c) s'
  end.

(** [arr.join(sep)] *)
Definition join (sep : string) (l : list string) : string := String.concat sep l.

(** [s.split(/[_-]/)]: a non-empty list of the parts between separators. *)
Fixpoint split_on (sep : ascii -> bool) (s : string) : list string :=
  match s with
  | EmptyString => [EmptyString]
  | String c s' =>
      if sep c then EmptyString :: split_on sep s'
      else match split_on sep s' with
           | [] => [String c EmptyString]
           | p :: ps => String c p :: ps
           end
  end.

(** [s.replace(/[^a-z0-9]/g, '')] *)
Fixpoint keep_chars (keep : ascii -> bool) (s : string) : string :=
  match s with
  | EmptyString => EmptyString
  | String c s' => if keep c then String c (keep_chars keep s') else keep_chars keep s'
  end.

(** The double-quote character, which a string literal cannot hold. *)
Definition dq : string := String (ascii_of_nat 34) EmptyString.

(** Truthiness of a string: the empty string is falsy. *)
Definition truthy (s : string) : bool :=
  match s with EmptyString => false | _ => true end.

(** [a || b] on strings. *)
Definition or_else (a b : string) : string := if truthy a then a else b.

End JsString.

Import JsString.

(* ================================================================== *)
(** ** Regular expressions

    A backtracking matcher in the order of ECMAScript's: the results of
    [run] are listed by priority (greedy quantifiers try the longest
    repetition first, alternatives left to right), so the head of the list
    is the match [RegExp.prototype.exec] reports at that start position. *)
(* ================================================================== *)

Module Regex.

Inductive citem : Type :=
| CChar (c : ascii)
| CRange (lo hi : ascii)
| CDigit.

Inductive regex : Type :=
| REmpty
| RChar (c : ascii)
| RAny
| RDigit
| RClass (neg : bool) (items : list citem)
| RWordB
| RBol
| RSeq (r1 r2 : regex)
| RAlt (r1 r2 : regex)
| RStar (r : regex)
| RGroup (idx : nat) (r : regex).

(** *** Parsing the source text of a pattern *)

Definition escape_atom (c : ascii) : regex :=
  if (c =? "d")%char then RDigit
  else if (c =? "b")%char then RWordB
  else RChar c.

Definition escape_item (c : ascii) : citem :=
  if (c =? "d")%char then CDigit else CChar c.

(** Items of a character class, up to the closing bracket. *)
Fixpoint parse_items (s : list ascii) (acc : list citem)
  : option (list citem * list ascii) :=
  match s with
  | [] => None
  | "]"%char :: rest => Some (rev acc, rest)
  | "\"%char :: c :: rest => parse_items rest (escape_item c :: acc)
  | "\"%char :: [] => None
  | c :: "-"%char :: "]"%char :: rest => Some (rev (CChar "-" :: CChar c :: acc), rest)
  | c :: "-"%char :: d :: rest => parse_items rest (CRange c d :: acc)
  | c :: rest => parse_items rest (CChar c :: acc)
  end.

Definition parse_class (s : list ascii) : option (regex * list ascii) :=
  match s with
  | "^"%char :: rest =>
      match parse_items rest [] with
      | Some (items, rest') => Some (RClass true items, rest')
      | None => None
      end
  | _ =>
      match parse_items s [] with
      | Some (items, rest') => Some (RClass false items, rest')
      | None => None
      end
  end.

Fixpoint read_nat (s : list ascii) (acc : nat) (seen : bool)
  : option (nat * list ascii) :=
  match s with
  | c :: rest =>
      if is_digit c then read_nat rest (10 * acc + (code c - 48)) true
      else if seen then Some (acc, s) else None
  | [] => None
  end.

Fixpoint rrepeat (n : nat) (r : regex) : regex :=
  match n with
  | 0 => REmpty
  | S n' => RSeq r (rrepeat n' r)
  end.

(** A quantifier after an atom, if there is one.  A brace that does not
    open [{n}] is left in place and read as a literal character. *)
Definition quant (a : regex) (s : list ascii) : regex * list ascii :=
  match s with
  | "*"%char :: rest => (RStar a, rest)
  | "+"%char :: rest => (RSeq a (RStar a), rest)
  | "?"%char :: rest => (RAlt a REmpty, rest)
  | "{"%char :: rest =>
      match read_nat rest 0 false with
      | Some (n, "}"%char :: rest') => (rrepeat n a, rest')
      | _ => (a, s)
      end
  | _ => (a, s)
  end.

Definition finish (done : option regex) (cur : regex) : regex :=
  match done with
  | Some d => RAlt d cur
  | None => cur
  end.

(** A disjunction, up to the end of the text or an unmatched closing
    parenthesis.  [gi] counts the groups opened so far. *)
Fixpoint parse_disj (fuel : nat) (s : list ascii) (gi : nat)
    (done : option regex) (cur : regex)
  : option (regex * list ascii * nat) :=
  match fuel with
  | 0 => None
  | S f =>
      match s with
      | [] => Some (finish done cur, [], gi)
      | ")"%char :: _ => Some (finish done cur, s, gi)
      | "|"%char :: rest => parse_disj f rest gi (Some (finish done cur)) REmpty
      | "("%char :: rest =>
          match parse_disj f rest (S gi) None REmpty with
          | Some (r, ")"%char :: rest', gi') =>
              let (a, rest'') := quant (RGroup (S gi) r) rest' in
              parse_disj f rest'' gi' done (RSeq cur a)
          | _ => None
          end
      | "["%char :: rest =>
          match parse_class rest with
          | Some (a0, rest') =>
              let (a, rest'') := quant a0 rest' in
              parse_disj f rest'' gi done (RSeq cur a)
          | None => None
          end
      | "\"%char :: c :: rest =>
          let (a, rest') := quant (escape_atom c) rest in
          parse_disj f rest' gi done (RSeq cur a)
      | "\"%char :: [] => None
      | "."%char :: rest =>
          let (a, rest') := quant RAny rest in
          parse_disj f rest' gi done (RSeq cur a)
      | "^"%char :: rest => parse_disj f rest gi done (RSeq cur RBol)
      | c :: rest =>
          let (a, rest') := quant (RChar c) rest in
          parse_disj f rest' gi done (RSeq cur a)
      end
  end.

Definition parse (src : string) : option regex :=
  let s := list_ascii_of_string src in
  match parse_disj (S (List.length s)) s 0 None REmpty with
  | Some (r, [], _) => Some r
  | _ => None
  end.

(** *** Matching *)

Record mstate : Type := mk_mstate {
  prev : option ascii;       (* the character before the current position *)
  rest : list ascii;         (* the input from the current position on *)
  cap1 : option (list ascii) (* what group 1 captured, if it took part *)
}.

Definition item_match (c : ascii) (it : citem) : bool :=
  match it with
  | CChar d => (c =? d)%char
  | CRange lo hi => (code lo <=? code c) && (code c <=? code hi)
  | CDigit => is_digit c
  end.

Definition class_match (ci : bool) (items : list citem) (c : ascii) : bool :=
  existsb (item_match c) items
  || (ci && (existsb (item_match (lower_char c)) items
             || existsb (item_match (upper_char c)) items)).

Definition char_match (ci : bool) (d c : ascii) : bool :=
  if ci then (lower_char c =? lower_char d)%char else (c =? d)%char.

Definition is_line_end (c : ascii) : bool := (code c =? 10) || (code c =? 13).

Definition step_if (p : ascii -> bool) (st : mstate) : list mstate :=
  match rest st with
  | c :: tl => if p c then [mk_mstate (Some c) tl (cap1 st)] else []
  | [] => []
  end.

Definition word_before (st : mstate) : bool :=
  match prev st with Some c => is_word c | None => false end.
Definition word_after (st : mstate) : bool :=
  match rest st with c :: _ => is_word c | [] => false end.

Definition set_cap (idx : nat) (st st' : mstate) : mstate :=
  if idx =? 1
  then mk_mstate (prev st') (rest st')
         (Some (firstn (List.length (rest st) - List.length (rest st')) (rest st)))
  else st'.

Fixpoint run (ci : bool) (r : regex) (st : mstate) {struct r} : list mstate :=
  match r with
  | REmpty => [st]
  | RChar d => step_if (char_match ci d) st
  | RAny => step_if (fun c => negb (is_line_end c)) st
  | RDigit => step_if is_digit st
  | RClass neg items => step_if (fun c => xorb neg (class_match ci items c)) st
  | RWordB => if xorb (word_before st) (word_after st) then [st] else []
  | RBol => match prev st with None => [st] | Some _ => [] end
  | RSeq r1 r2 => flat_map (run ci r2) (run ci r1 st)
  | RAlt r1 r2 => run ci r1 st ++ run ci r2 st
  | RStar r1 =>
      (fix star (n : nat) (s0 : mstate) {struct n} : list mstate :=
         match n with
         | 0 => [s0]
         | S n' =>
             flat_map
               (fun s1 =>
                  if List.length (rest s1) <? List.length (rest s0)
                  then star n' s1 else [])
               (run ci r1 s0)
             ++ [s0]
         end) (List.length (rest st)) st
  | RGroup idx r1 => map (set_cap idx st) (run ci r1 st)
  end.

(** The leftmost match: the first start position with a match, and there
    the match of highest priority. *)
Fixpoint search (ci : bool) (r : regex) (p : option ascii) (s : list ascii)
  : option mstate :=
  match run ci r (mk_mstate p s None) with
  | st :: _ => Some st
  | [] =>
      match s with
      | [] => None
      | c :: s' => search ci r (Some c) s'
      end
  end.

(** A RegExp object without the [g] flag: its source and its [i] flag. *)
Record RegExp : Type := mk_RegExp { source : string; ignoreCase : bool }.

Definition exec (re : RegExp) (text : string) : option mstate :=
  match parse (source re) with
  | Some r => search (ignoreCase re) r None (list_ascii_of_string text)
  | None => None
  end.

(** [re.test(text)] *)
Definition test (re : RegExp) (text : string) : bool :=
  match exec re text with Some _ => true | None => false end.

(** [text.match(re)[1]] when there is a match and group 1 took part. *)
Definition match1 (re : RegExp) (text : string) : option string :=
  match exec re text with
  | Some st =>
      match cap1 st with
      | Some c => Some (string_of_list_ascii c)
      | None => None
      end
  | None => None
  end.

Definition rx (src : string) : RegExp := mk_RegExp src false.
Definition rxi (src : string) : RegExp := mk_RegExp src true.

End Regex.

Import Regex.

(* ================================================================== *)
(** ** JavaScript objects used as maps

    Property order is insertion order (none of the keys used here is an
    array index), which [Object.entries] and [Object.keys] expose; the
    tie-breaks of the scanner depend on it, so an object is a list. *)
(* ================================================================== *)

Module JsObject.

Definition Obj (V : Type) : Type := list (string * V).

Fixpoint obj_get {V : Type} (o : Obj V) (k : string) : option V :=
  match o with
  | [] => None
  | (k', v) :: o' => if String.eqb k' k then Some v else obj_get o' k
  end.

(** [o[k] = v]: an existing property keeps its place. *)
Fixpoint obj_set {V : Type} (o : Obj V) (k : string) (v : V) : Obj V :=
  match o with
  | [] => [(k, v)]
  | (k', v') :: o' =>
      if String.eqb k' k then (k', v) :: o' else (k', v') :: obj_set o' k v
  end.

Definition obj_keys {V : Type} (o : Obj V) : list string := map fst o.

End JsObject.

Import JsObject.

(* ================================================================== *)
(** ** The signature tables *)
(* ================================================================== *)

Record WafPattern : Type := mk_WafPattern {
  w_headers : option (list string);
  w_cookies : option (list string);
  w_server : option RegExp;
  w_html : option RegExp
}.

Definition WAF_PATTERNS : list (string * WafPattern) := [
  ("cloudflare", mk_WafPattern
     (* headers *) (Some ["cf-ray"; "cf-cache-status"; "__cfduid"; "cf-request-id"])
     (* cookies *) (Some ["__cfduid"; "__cf_bm"; "__cfwaf"])
     (* server *) (Some (rxi "cloudflare"))
     (* html *) (Some (rxi "cloudflare|cf-html|cf-error")));
  ("akamai", mk_WafPattern
     (* headers *) (Some ["akamai-origin-hop"; "akamai-grn"; "akamai-request-bc"; "x-akamai-transformed"])
     (* cookies *) None
     (* server *) (Some (rxi "akamaighost|akamaitechnologies"))
     (* html *) None);
  ("imperva", mk_WafPattern
     (* headers *) (Some ["x-cdn"; "x-iinfo"; "x-originating-ip"])
     (* cookies *) (Some ["incap_ses"; "visid_incap"; "__incap_0"])
     (* server *) None
     (* html *) (Some (rxi "incapsula|imperva")));
  ("perimeterx", mk_WafPattern
     (* headers *) (Some ["x-px-authorization"])
     (* cookies *) (Some ["_px3"; "_px2"; "_pxvid"; "_pxAppId"])
     (* server *) None
     (* html *) None);
  ("kasada", mk_WafPattern
     (* headers *) None
     (* cookies *) (Some ["x-kpsdk-ct"; "x-kpsdk-cd"; "kas.u"])
     (* server *) None
     (* html *) None);
  ("datadome", mk_WafPattern
     (* headers *) (Some ["x-datadome-cid"])
     (* cookies *) (Some ["datadome"; "__dd_btid"])
     (* server *) None
     (* html *) None);
  ("awswaf", mk_WafPattern
     (* headers *) (Some ["x-amzn-waf-action"; "x-amzn-waf-flags"])
     (* cookies *) None
     (* server *) None
     (* html *) None);
  ("modsecurity", mk_WafPattern
     (* headers *) (Some ["mod-security"])
     (* cookies *) None
     (* server *) None
     (* html *) (Some (rxi "modsecurity|mod_security")))
].

Record MetaRule : Type := mk_MetaRule {
  meta_name : string;
  meta_content : option RegExp
}.

(** One entry of [TECH_PATTERNS].  A channel the entry does not have is the
    empty list (its loop then runs zero times); a single pattern is the
    one-element list [Array.isArray(p) ? p : [p]] makes of it. *)
Record TechPattern : Type := mk_TechPattern {
  p_script : list RegExp;
  p_link : list RegExp;
  p_meta : list MetaRule;
  p_html : list RegExp;
  p_headers : list (string * RegExp);
  p_cdn : list string;
  p_window : list string;
  p_endpoints : list string
}.

Definition TECH_PATTERNS : list (string * TechPattern) := [
  ("react", mk_TechPattern
     (* script *) [rxi "react[@\-.].*\.js|react\.production|react\.development"]
     (* link *) []
     (* meta *) [mk_MetaRule "generator" (Some (rxi "react"))]
     (* html *) [rxi ("<div[^>]+id=[" ++ dq ++ "']root[" ++ dq ++ "']")%string; rxi "ReactDOM\.render|ReactDOM\.createRoot"]
     (* headers *) []
     (* cdn *) ["unpkg.com/react"; "cdnjs.com/ajax/libs/react"]
     (* window *) ["React"; "__REACT_DEVTOOLS_GLOBAL_HOOK__"; "__REACT_PROFILER_ENABLED__"]
     (* endpoints *) []);
  ("vue", mk_TechPattern
     (* script *) [rxi "vue[@\-.].*\.js|vue\.global|vue\.esm"]
     (* link *) []
     (* meta *) []
     (* html *) [rx "data-v-[a-f0-9]{8}"; rxi "v-if|v-for|v-bind|v-on"]
     (* headers *) []
     (* cdn *) ["unpkg.com/vue"; "cdn.jsdelivr.net/npm/vue"]
     (* window *) ["Vue"; "__VUE__"; "__VUE_DEVTOOLS_GLOBAL_HOOK__"]
     (* endpoints *) []);
  ("angular", mk_TechPattern
     (* script *) [rxi "@angular\/core|angular\.min\.js|angular\.js"]
     (* link *) []
     (* meta *) [mk_MetaRule "generator" (Some (rxi "angular"))]
     (* html *) [rxi ("ng-version=[" ++ dq ++ "']\d+\.\d+")%string; rxi "_nghost-|_ngcontent-|<app-root"]
     (* headers *) []
     (* cdn *) []
     (* window *) ["ng"; "getAllAngularRootElements"]
     (* endpoints *) []);
  ("svelte", mk_TechPattern
     (* script *) [rxi "svelte[@\-.].*\.js"]
     (* link *) []
     (* meta *) []
     (* html *) [rx "svelte-[a-z0-9]+"; rxi "hidden={true}"]
     (* headers *) []
     (* cdn *) []
     (* window *) ["__SVELTE__"]
     (* endpoints *) []);
  ("nextjs", mk_TechPattern
     (* script *) [rxi "_next\/static|__NEXT_DATA__|next\/image"]
     (* link *) []
     (* meta *) [mk_MetaRule "next-head-count" None; mk_MetaRule "next-size-adjust" None]
     (* html *) [rxi "<script[^>]+_next\/static"; rx "__NEXT_DATA__"]
     (* headers *) [("x-nextjs", rx ".+")]
     (* cdn *) []
     (* window *) ["__NEXT_DATA__"; "__NEXT_ROUTER_READYSTATE__"]
     (* endpoints *) []);
  ("nuxtjs", mk_TechPattern
     (* script *) [rxi "_nuxt\/|nuxt\.app"]
     (* link *) []
     (* meta *) []
     (* html *) [rxi ("<div[^>]+id=[" ++ dq ++ "']__nuxt")%string; rx "__NUXT__"]
     (* headers *) []
     (* cdn *) []
     (* window *) ["$nuxt"; "__NUXT__"; "__NUXT_STRAPI__"]
     (* endpoints *) []);
  ("gatsby", mk_TechPattern
     (* script *) []
     (* link *) []
     (* meta *) [mk_MetaRule "generator" (Some (rxi "gatsby"))]
     (* html *) [rxi ("<div[^>]+id=[" ++ dq ++ "']___gatsby")%string; rx "gatsby-focus-wrapper"]
     (* headers *) []
     (* cdn *) []
     (* window *) ["__GATSBY__"; "___GATSBY_PLUGIN_INIT"]
     (* endpoints *) []);
  ("remix", mk_TechPattern
     (* script *) [rxi "remix|@remix-run"]
     (* link *) []
     (* meta *) []
     (* html *) [rxi "remix-route|remix-page"]
     (* headers *) []
     (* cdn *) []
     (* window *) ["__remixContext"; "__remixRouteModules"]
     (* endpoints *) []);
  ("astro", mk_TechPattern
     (* script *) [rxi "astro|astro\.default"]
     (* link *) []
     (* meta *) []
     (* html *) [rxi "astro-root|astro-island"]
     (* headers *) []
     (* cdn *) []
     (* window *) ["__astro"]
     (* endpoints *) []);
  ("wordpress", mk_TechPattern
     (* script *) [rxi "wp-emoji-release\.min\.js|wp-admin"]
     (* link *) [rxi "wp-content\/themes\/|wp-includes\/css\/"]
     (* meta *) [mk_MetaRule "generator" (Some (rxi "wordpress"))]
     (* html *) [rxi "wp-content\/themes\/"; rxi "wp-content\/plugins\/"; rxi "wp-includes\/"]
     (* headers *) []
     (* cdn *) []
     (* window *) []
     (* endpoints *) []);
  ("drupal", mk_TechPattern
     (* script *) []
     (* link *) []
     (* meta *) [mk_MetaRule "generator" (Some (rxi "drupal"))]
     (* html *) [rxi "Drupal\.settings|drupal\.org"; rx "sites\/default\/files"]
     (* headers *) []
     (* cdn *) []
     (* window *) []
     (* endpoints *) ["/jsonapi"]);
  ("joomla", mk_TechPattern
     (* script *) []
     (* link *) []
     (* meta *) [mk_MetaRule "generator" (Some (rxi "joomla"))]
     (* html *) [rxi "\/components\/com_|\/modules\/mod_|joomla"]
     (* headers *) []
     (* cdn *) []
     (* window *) []
     (* endpoints *) ["/index.php?option=com_api"]);
  ("shopify", mk_TechPattern
     (* script *) [rxi "Shopify\.shop|Shopify\.theme"]
     (* link *) []
     (* meta *) []
     (* html *) [rxi "cdn\.shopify\.com|shopify-buy\.js|Shopify\..*="]
     (* headers *) [("x-shopify-stage", rx ".+")]
     (* cdn *) []
     (* window *) []
     (* endpoints *) []);
  ("magento", mk_TechPattern
     (* script *) [rxi "mage\/cookies\.js|magento"]
     (* link *) []
     (* meta *) [mk_MetaRule "generator" (Some (rxi "magento"))]
     (* html *) [rxi "Mage\.Cookies"; rxi "var BLANK_URL.*checkout\/cart"]
     (* headers *) []
     (* cdn *) []
     (* window *) ["Mage"]
     (* endpoints *) []);
  ("wix", mk_TechPattern
     (* script *) [rxi "static\.wixstatic\.com|wix-code-viewer"]
     (* link *) []
     (* meta *) [mk_MetaRule "generator" (Some (rxi "wix\.com"))]
     (* html *) [rxi "static\.parastorage\.com|wixstatic\.com"]
     (* headers *) []
     (* cdn *) []
     (* window *) []
     (* endpoints *) []);
  ("squarespace", mk_TechPattern
     (* script *) []
     (* link *) []
     (* meta *) [mk_MetaRule "generator" (Some (rxi "squarespace"))]
     (* html *) [rxi "squarespace|sqs\-"]
     (* headers *) []
     (* cdn *) []
     (* window *) []
     (* endpoints *) []);
  ("weebly", mk_TechPattern
     (* script *) [rxi "cdn\d+\.editmysite\.com|weebly\.com\/weebly"]
     (* link *) []
     (* meta *) [mk_MetaRule "generator" (Some (rxi "weebly"))]
     (* html *) [rxi ("class=[" ++ dq ++ "']weebly-")%string]
     (* headers *) []
     (* cdn *) []
     (* window *) []
     (* endpoints *) []);
  ("typo3", mk_TechPattern
     (* script *) []
     (* link *) []
     (* meta *) [mk_MetaRule "generator" (Some (rxi "typo3"))]
     (* html *) [rxi "typo3|\/typo3"]
     (* headers *) []
     (* cdn *) []
     (* window *) []
     (* endpoints *) []);
  ("bootstrap", mk_TechPattern
     (* script *) [rxi "bootstrap[@\-.]\.min\.js|bootstrap[@\-.].*\.bundle"]
     (* link *) [rxi "bootstrap[@\-.].*\.min\.css|bootstrap[@\-.].*\.css"]
     (* meta *) []
     (* html *) [rxi ("class=[" ++ dq ++ "'][^" ++ dq ++ "']*(btn-primary|btn-secondary|btn-success|btn-danger)[^" ++ dq ++ "']*[" ++ dq ++ "']")%string; rxi ("class=[" ++ dq ++ "'][^" ++ dq ++ "']*(container-fluid|row|col-)")%string]
     (* headers *) []
     (* cdn *) []
     (* window *) []
     (* endpoints *) []);
  ("tailwind", mk_TechPattern
     (* script *) [rxi "cdn\.tailwindcss\.com"]
     (* link *) [rxi "tailwindcss|tailwind.*\.css"]
     (* meta *) []
     (* html *) [rxi ("class=[" ++ dq ++ "'][^" ++ dq ++ "']*(bg-gradient-|from-|to-|via-)[^" ++ dq ++ "']*[" ++ dq ++ "']")%string; rxi ("class=[" ++ dq ++ "'][^" ++ dq ++ "']*(hover:|focus:|active:|group-)")%string]
     (* headers *) []
     (* cdn *) []
     (* window *) []
     (* endpoints *) []);
  ("materialui", mk_TechPattern
     (* script *) [rxi "@mui\/material|material\-ui"]
     (* link *) []
     (* meta *) []
     (* html *) [rxi "MuiButton|MuiPaper|MuiTypography|MuiContainer"]
     (* headers *) []
     (* cdn *) []
     (* window *) []
     (* endpoints *) []);
  ("bulma", mk_TechPattern
     (* script *) []
     (* link *) [rxi "bulma(@[\d.]+)?\/css\/bulma|bulma\.min\.css"]
     (* meta *) []
     (* html *) [rxi ("class=[" ++ dq ++ "'][^" ++ dq ++ "']*(is-primary|is-link|is-info|is-success)[^" ++ dq ++ "']*[" ++ dq ++ "']")%string; rxi ("class=[" ++ dq ++ "'][^" ++ dq ++ "']*(hero|card|panel|notification|message)\b")%string]
     (* headers *) []
     (* cdn *) []
     (* window *) []
     (* endpoints *) []);
  ("foundation", mk_TechPattern
     (* script *) [rxi "foundation[@\-.].*\.js"]
     (* link *) [rxi "foundation[@\-.].*\.css"]
     (* meta *) []
     (* html *) []
     (* headers *) []
     (* cdn *) []
     (* window *) []
     (* endpoints *) []);
  ("semanticui", mk_TechPattern
     (* script *) [rxi "semantic[@\-.]ui.*\.js"]
     (* link *) [rxi "semantic[@\-.]ui.*\.css"]
     (* meta *) []
     (* html *) []
     (* headers *) []
     (* cdn *) []
     (* window *) []
     (* endpoints *) []);
  ("jquery", mk_TechPattern
     (* script *) [rxi "jquery[@\-.].*\.js"]
     (* link *) []
     (* meta *) []
     (* html *) []
     (* headers *) []
     (* cdn *) []
     (* window *) ["jQuery"; "$"]
     (* endpoints *) []);
  ("lodash", mk_TechPattern
     (* script *) [rxi "lodash[@\-.].*\.js"]
     (* link *) []
     (* meta *) []
     (* html *) []
     (* headers *) []
     (* cdn *) []
     (* window *) ["_"]
     (* endpoints *) []);
  ("underscore", mk_TechPattern
     (* script *) [rxi "underscore[@\-.].*\.js"]
     (* link *) []
     (* meta *) []
     (* html *) []
     (* headers *) []
     (* cdn *) []
     (* window *) ["_"]
     (* endpoints *) []);
  ("momentjs", mk_TechPattern
     (* script *) [rxi "moment[@\-.].*\.js"]
     (* link *) []
     (* meta *) []
     (* html *) []
     (* headers *) []
     (* cdn *) []
     (* window *) ["moment"]
     (* endpoints *) []);
  ("d3", mk_TechPattern
     (* script *) [rxi "d3[@\-.].*\.js"]
     (* link *) []
     (* meta *) []
     (* html *) []
     (* headers *) []
     (* cdn *) []
     (* window *) ["d3"]
     (* endpoints *) []);
  ("threejs", mk_TechPattern
     (* script *) [rxi "three[@\-.].*\.js|three\.min\.js"]
     (* link *) []
     (* meta *) []
     (* html *) []
     (* headers *) []
     (* cdn *) []
     (* window *) ["THREE"]
     (* endpoints *) []);
  ("googleanalytics", mk_TechPattern
     (* script *) [rxi "google\-analytics\.com|googletagmanager\.com\/gtag|analytics\.js"; rxi "ga\(|gtag\("]
     (* link *) []
     (* meta *) []
     (* html *) [rxi "gtag\(|_gaq|ga\("]
     (* headers *) []
     (* cdn *) []
     (* window *) []
     (* endpoints *) []);
  ("gtm", mk_TechPattern
     (* script *) [rxi "googletagmanager\.com\/gtm\.js"]
     (* link *) []
     (* meta *) []
     (* html *) [rxi "<!-- Google Tag Manager -->|noscript.*googletagmanager"]
     (* headers *) []
     (* cdn *) []
     (* window *) []
     (* endpoints *) []);
  ("hotjar", mk_TechPattern
     (* script *) [rxi "static\.hotjar\.com|hj\-*script"]
     (* link *) []
     (* meta *) []
     (* html *) []
     (* headers *) []
     (* cdn *) []
     (* window *) ["hj"; "hjSiteId"]
     (* endpoints *) []);
  ("mixpanel", mk_TechPattern
     (* script *) [rxi "cdn\.mxpnl\.com|mixpanel\.com\/track"]
     (* link *) []
     (* meta *) []
     (* html *) []
     (* headers *) []
     (* cdn *) []
     (* window *) ["mixpanel"]
     (* endpoints *) []);
  ("segment", mk_TechPattern
     (* script *) [rxi "segment\.com|analytics\.js"]
     (* link *) []
     (* meta *) []
     (* html *) []
     (* headers *) []
     (* cdn *) []
     (* window *) ["analytics"]
     (* endpoints *) []);
  ("amplitude", mk_TechPattern
     (* script *) [rxi "cdn\.amplitude\.com"]
     (* link *) []
     (* meta *) []
     (* html *) []
     (* headers *) []
     (* cdn *) []
     (* window *) ["amplitude"]
     (* endpoints *) []);
  ("intercom", mk_TechPattern
     (* script *) [rxi "intercom\.io|app\.intercom\.com"]
     (* link *) []
     (* meta *) []
     (* html *) []
     (* headers *) []
     (* cdn *) []
     (* window *) ["Intercom"; "intercomSettings"]
     (* endpoints *) []);
  ("sentry", mk_TechPattern
     (* script *) [rxi "sentry\.io|@sentry"]
     (* link *) []
     (* meta *) []
     (* html *) []
     (* headers *) []
     (* cdn *) []
     (* window *) ["Sentry"]
     (* endpoints *) []);
  ("vercel", mk_TechPattern
     (* script *) []
     (* link *) []
     (* meta *) []
     (* html *) [rxi "vercel|vercel\.com"]
     (* headers *) [("x-vercel-id", rx ".+"); ("x-vercel-cache", rx ".+"); ("x-vercel-skew", rx ".+")]
     (* cdn *) []
     (* window *) []
     (* endpoints *) []);
  ("netlify", mk_TechPattern
     (* script *) []
     (* link *) []
     (* meta *) [mk_MetaRule "generator" (Some (rxi "netlify"))]
     (* html *) [rxi "netlify|netlify\.com"]
     (* headers *) [("x-nf-request-id", rx ".+"); ("x-nf-cache", rx ".+")]
     (* cdn *) []
     (* window *) []
     (* endpoints *) []);
  ("heroku", mk_TechPattern
     (* script *) []
     (* link *) []
     (* meta *) []
     (* html *) [rxi "heroku\.com"]
     (* headers *) [("x-heroku", rx ".+")]
     (* cdn *) []
     (* window *) []
     (* endpoints *) []);
  ("digitalocean", mk_TechPattern
     (* script *) []
     (* link *) []
     (* meta *) []
     (* html *) []
     (* headers *) [("server", rxi "digitalocean|DO-AppPlatform")]
     (* cdn *) []
     (* window *) []
     (* endpoints *) []);
  ("aws", mk_TechPattern
     (* script *) []
     (* link *) []
     (* meta *) []
     (* html *) [rxi "amazonaws\.com|aws\.amazon\.com"]
     (* headers *) [("server", rxi "amazon|aws|elasticloadbalancing")]
     (* cdn *) []
     (* window *) []
     (* endpoints *) []);
  ("cloudflare", mk_TechPattern
     (* script *) []
     (* link *) []
     (* meta *) []
     (* html *) []
     (* headers *) [("cf-ray", rx ".+"); ("cf-cache-status", rx ".+")]
     (* cdn *) []
     (* window *) []
     (* endpoints *) []);
  ("cloudfront", mk_TechPattern
     (* script *) []
     (* link *) []
     (* meta *) []
     (* html *) []
     (* headers *) [("x-amz-cf-pop", rx ".+"); ("x-amz-cf-id", rx ".+")]
     (* cdn *) []
     (* window *) []
     (* endpoints *) []);
  ("fastly", mk_TechPattern
     (* script *) []
     (* link *) []
     (* meta *) []
     (* html *) []
     (* headers *) [("x-served-by", rxi "cache-.*\.fastly\.net"); ("x-fastly-request-id", rx ".+")]
     (* cdn *) []
     (* window *) []
     (* endpoints *) []);
  ("akamai_cdn", mk_TechPattern
     (* script *) []
     (* link *) []
     (* meta *) []
     (* html *) []
     (* headers *) [("x-akamai-transformed", rx ".+")]
     (* cdn *) []
     (* window *) []
     (* endpoints *) [])
].

Inductive Category : Type :=
| frontend | backend | cms | analytics | hosting | cdn | libraries.

Definition Category_eqb (a b : Category) : bool :=
  match a, b with
  | frontend, frontend | backend, backend | cms, cms | analytics, analytics
  | hosting, hosting | cdn, cdn | libraries, libraries => true
  | _, _ => false
  end.

Definition TECH_CATEGORIES : list (Category * list string) := [
  (frontend, ["react"; "vue"; "angular"; "svelte"; "nextjs"; "nuxtjs"; "gatsby"; "remix"; "astro"]);
  (cms, ["wordpress"; "drupal"; "joomla"; "shopify"; "magento"; "wix"; "squarespace"; "weebly"; "typo3"]);
  (analytics, ["googleanalytics"; "gtm"; "hotjar"; "mixpanel"; "segment"; "amplitude"; "intercom"; "sentry"]);
  (hosting, ["vercel"; "netlify"; "heroku"; "digitalocean"; "aws"]);
  (cdn, ["cloudflare"; "cloudfront"; "fastly"; "akamai_cdn"])
].

Definition MIN_CONFIDENCE_BY_CATEGORY : list (Category * nat) := [
  (cms, 3); (frontend, 2); (analytics, 2); (hosting, 2); (cdn, 2); (libraries, 2)
].

Record Inference : Type := mk_Inference {
  inf_languages : option (list string);
  inf_databases : option (list string)
}.

Definition STACK_INFERENCES : Obj Inference := [
  ("wordpress", mk_Inference (Some ["PHP"]) (Some ["MySQL/MariaDB"]));
  ("drupal", mk_Inference (Some ["PHP"]) (Some ["MySQL/MariaDB"; "PostgreSQL"]));
  ("joomla", mk_Inference (Some ["PHP"]) (Some ["MySQL/MariaDB"]));
  ("magento", mk_Inference (Some ["PHP"]) (Some ["MySQL/MariaDB"]));
  ("shopify", mk_Inference (Some ["Ruby on Rails"]) (Some ["Shopify managed store"]));
  ("wix", mk_Inference (Some ["Wix platform"]) (Some ["Wix Data"]));
  ("squarespace", mk_Inference (Some ["Squarespace platform"]) (Some ["Squarespace Data"]));
  ("weebly", mk_Inference (Some ["Weebly platform"]) (Some ["Weebly Data"]));
  ("typo3", mk_Inference (Some ["PHP"]) (Some ["MySQL/MariaDB"]));
  ("nextjs", mk_Inference (Some ["Node.js"]) None);
  ("nuxtjs", mk_Inference (Some ["Node.js"]) None);
  ("react", mk_Inference (Some ["JavaScript/TypeScript"]) None);
  ("vue", mk_Inference (Some ["JavaScript/TypeScript"]) None);
  ("angular", mk_Inference (Some ["JavaScript/TypeScript"]) None);
  ("svelte", mk_Inference (Some ["JavaScript/TypeScript"]) None);
  ("astro", mk_Inference (Some ["JavaScript/TypeScript"]) None)
].

Definition DISPLAY_NAMES : Obj string := [
  ("nextjs", "Next.js");
  ("nuxtjs", "Nuxt.js");
  ("gatsby", "Gatsby");
  ("remix", "Remix");
  ("astro", "Astro");
  ("jquery", "jQuery");
  ("lodash", "Lodash");
  ("momentjs", "Moment.js");
  ("googleanalytics", "Google Analytics");
  ("gtm", "Google Tag Manager");
  ("materialui", "Material UI");
  ("aws", "AWS");
  ("akamai_cdn", "Akamai CDN")
].

(* ================================================================== *)
(** ** Helpers *)
(* ================================================================== *)

(** [deduplicateArray]: the filter with its [seen] set of lower-cased
    items made explicit. *)
Fixpoint dedup_from (seen : list string) (arr : list string) : list string :=
  match arr with
  | [] => []
  | item :: tl =>
      let lower := toLowerCase item in
      if existsb (String.eqb lower) seen then dedup_from seen tl
      else item :: dedup_from (lower :: seen) tl
  end.

Definition deduplicateArray (arr : list string) : list string :=
  dedup_from [] arr.

Definition is_name_sep (c : ascii) : bool := (c =? "_")%char || (c =? "-")%char.

Definition humanizeTechName (name : string) : string :=
  if negb (truthy name) then ""
  else
    let lower := toLowerCase name in
    match obj_get DISPLAY_NAMES lower with
    | Some shown => shown
    | None => join " " (map capitalize (split_on is_name_sep lower))
    end.

(** A version is a string or [null]; the empty string is as falsy as [null]. *)
Definition version_truthy (v : option string) : bool :=
  match v with Some s => truthy s | None => false end.

Definition formatTechName (name : string) (version : option string) : string :=
  match version with
  | Some v => if truthy v then (name ++ " " ++ v)%string else name
  | None => name
  end.

Definition getCategoryForTech (techName : string) : Category :=
  let lower := toLowerCase techName in
  match find (fun entry => existsb (String.eqb lower) (snd entry)) TECH_CATEGORIES with
  | Some (category, _) => category
  | None => libraries
  end.

Definition min_confidence (category : Category) : nat :=
  match find (fun entry => Category_eqb (fst entry) category) MIN_CONFIDENCE_BY_CATEGORY with
  | Some (_, n) => if n =? 0 then 2 else n
  | None => 2
  end.

Definition confidenceFromScore (score : nat) : string :=
  if 6 <=? score then "high"
  else if 3 <=? score then "medium"
  else "low".

Definition browser_key_mapping : Obj string := [
  ("nextjs", "nextjs"); ("nuxtjs", "nuxtjs"); ("react", "react"); ("vue", "vue");
  ("angular", "angular"); ("svelte", "svelte"); ("astro", "astro");
  ("jquery", "jquery"); ("lodash", "lodash"); ("momentjs", "momentjs");
  ("d3", "d3"); ("threejs", "threejs"); ("mixpanel", "mixpanel");
  ("sentry", "sentry"); ("intercom", "intercom"); ("hotjar", "hotjar");
  ("amplitude", "amplitude")
].

Definition mapBrowserTechToKey (displayName : string) : option string :=
  let normalized :=
    keep_chars (fun c => is_lower c || is_digit c) (toLowerCase displayName) in
  match obj_get browser_key_mapping normalized with
  | Some key => if truthy key then Some key else None
  | None => None
  end.

(** *** Stable sort by descending confidence

    [arr.sort((a, b) => conf b - conf a)]: the sort of the engine is stable,
    and a stable sort is determined by its comparator, so insertion from the
    right stands for it: an element goes in front of the first one that does
    not score higher than it. *)
Section SortDesc.

Context {A : Type} (conf : A -> nat).

Fixpoint insert_desc (x : A) (l : list A) : list A :=
  match l with
  | [] => [x]
  | y :: l' => if conf y <=? conf x then x :: l else y :: insert_desc x l'
  end.

Definition sort_desc (l : list A) : list A := fold_right insert_desc [] l.

End SortDesc.

(** *** Records of a scan *)

Record TechMeta : Type := mk_TechMeta {
  confidence : nat;
  version : option string;
  category : Category;
  displayName : string;
  sources : list string
}.

Record Technologies : Type := mk_Technologies {
  t_frontend : list string;
  t_backend : list string;
  t_cms : list string;
  t_analytics : list string;
  t_hosting : list string;
  t_cdn : list string;
  t_libraries : list string
}.

Definition tech_get (t : Technologies) (c : Category) : list string :=
  match c with
  | frontend => t_frontend t | backend => t_backend t | cms => t_cms t
  | analytics => t_analytics t | hosting => t_hosting t | cdn => t_cdn t
  | libraries => t_libraries t
  end.

Definition tech_set (t : Technologies) (c : Category) (l : list string) : Technologies :=
  match c with
  | frontend => mk_Technologies l (t_backend t) (t_cms t) (t_analytics t) (t_hosting t) (t_cdn t) (t_libraries t)
  | backend => mk_Technologies (t_frontend t) l (t_cms t) (t_analytics t) (t_hosting t) (t_cdn t) (t_libraries t)
  | cms => mk_Technologies (t_frontend t) (t_backend t) l (t_analytics t) (t_hosting t) (t_cdn t) (t_libraries t)
  | analytics => mk_Technologies (t_frontend t) (t_backend t) (t_cms t) l (t_hosting t) (t_cdn t) (t_libraries t)
  | hosting => mk_Technologies (t_frontend t) (t_backend t) (t_cms t) (t_analytics t) l (t_cdn t) (t_libraries t)
  | cdn => mk_Technologies (t_frontend t) (t_backend t) (t_cms t) (t_analytics t) (t_hosting t) l (t_libraries t)
  | libraries => mk_Technologies (t_frontend t) (t_backend t) (t_cms t) (t_analytics t) (t_hosting t) (t_cdn t) l
  end.

(** [Object.keys(technologies)], in the order the literal declares them. *)
Definition all_categories : list Category :=
  [frontend; backend; cms; analytics; hosting; cdn; libraries].

(** [Object.keys(technologies).forEach(key => technologies[key] = f(technologies[key]))] *)
Definition tech_map (f : list string -> list string) (t : Technologies) : Technologies :=
  mk_Technologies (f (t_frontend t)) (f (t_backend t)) (f (t_cms t))
    (f (t_analytics t)) (f (t_hosting t)) (f (t_cdn t)) (f (t_libraries t)).

(** [Object.values(technologies).flat()] *)
Definition tech_flat (t : Technologies) : list string :=
  flat_map (tech_get t) all_categories.

Definition empty_technologies : Technologies := mk_Technologies [] [] [] [] [] [] [].

(** A response header is a string, or an array of strings when repeated. *)
Inductive HeaderValue : Type :=
| HStr (s : string)
| HArr (l : list string).

Definition hv_truthy (v : HeaderValue) : bool :=
  match v with HStr s => truthy s | HArr _ => true end.

(** String coercion, as in a template literal or [RegExp.prototype.test]. *)
Definition hv_string (v : HeaderValue) : string :=
  match v with HStr s => s | HArr l => join "," l end.

Definition Headers : Type := Obj HeaderValue.

(** [headers[name] || ''], coerced to a string. *)
Definition header_text (headers : Headers) (name : string) : string :=
  match obj_get headers name with
  | Some v => if hv_truthy v then hv_string v else ""
  | None => ""
  end.

Inductive WafInfo : Type :=
| WafNone                                               (* { detected: false } *)
| WafHit (provider conf : string) (score : nat).        (* { detected: true, ... } *)

Record ServerInfo : Type := mk_ServerInfo {
  software : HeaderValue;
  poweredBy : option HeaderValue
}.

(* ================================================================== *)
(** ** The verdict *)
(* ================================================================== *)

Record Pick : Type := mk_Pick {
  pk_key : string;
  pk_displayName : string;
  pk_version : option string;
  pk_confidence : nat
}.

Record Primary : Type := mk_Primary {
  pr_cms : option Pick;
  pr_frontend : option Pick;
  pr_hosting : option Pick;
  pr_cdn : option Pick
}.

Record Inferred : Type := mk_Inferred {
  languages : list string;
  databases : list string
}.

Record Verdict : Type := mk_Verdict {
  v_primary : Primary;
  v_inferred : Inferred;
  v_confidence : string;
  v_summary : string
}.

Definition entry_conf (e : string * TechMeta) : nat := confidence (snd e).

Definition pickTop (techMatches : Obj TechMeta) (c : Category) : option Pick :=
  let candidates := filter (fun e => Category_eqb (category (snd e)) c) techMatches in
  match sort_desc entry_conf candidates with
  | [] => None
  | (key, meta) :: _ =>
      Some (mk_Pick key
              (or_else (displayName meta) (humanizeTechName key))
              (if version_truthy (version meta) then version meta else None)
              (confidence meta))
  end.

(** [addInference(key)]: what it pushes onto [inferred.languages] and
    [inferred.databases]. *)
Definition addInference (key : option string) (inferred : Inferred) : Inferred :=
  match key with
  | None => inferred
  | Some k =>
      if negb (truthy k) then inferred
      else
        match obj_get STACK_INFERENCES (toLowerCase k) with
        | None => inferred
        | Some inference =>
            mk_Inferred
              (languages inferred ++ match inf_languages inference with Some l => l | None => [] end)
              (databases inferred ++ match inf_databases inference with Some l => l | None => [] end)
        end
  end.

Definition serverBlob (serverInfo : ServerInfo) : string :=
  let sw := if hv_truthy (software serverInfo) then hv_string (software serverInfo) else "" in
  let pb := match poweredBy serverInfo with
            | Some v => if hv_truthy v then hv_string v else ""
            | None => ""
            end in
  toLowerCase (sw ++ " " ++ pb)%string.

Definition banner_languages (blob : string) : list string :=
  (if includes blob "php" then ["PHP"] else [])
  ++ (if includes blob "asp.net" then [".NET"] else [])
  ++ (if includes blob "node" then ["Node.js"] else [])
  ++ (if includes blob "python" then ["Python"] else [])
  ++ (if includes blob "ruby" then ["Ruby"] else [])
  ++ (if includes blob "laravel" then ["PHP"] else []).

Definition pick_line (label : string) (p : option Pick) : list string :=
  match p with
  | Some pk => [(label ++ formatTechName (pk_displayName pk) (pk_version pk))%string]
  | None => []
  end.

Definition pick_score (p : option Pick) : nat :=
  match p with Some pk => pk_confidence pk | None => 0 end.

Definition topScore (primary : Primary) : nat :=
  Nat.max (pick_score (pr_cms primary))
    (Nat.max (pick_score (pr_frontend primary))
       (Nat.max (pick_score (pr_hosting primary)) (pick_score (pr_cdn primary)))).

(** [buildVerdict]; its first parameter is never read. *)
Definition buildVerdict (technologies : Technologies) (techMatches : Obj TechMeta)
    (waf : WafInfo) (serverInfo : ServerInfo) : Verdict :=
  let primary :=
    mk_Primary (pickTop techMatches cms) (pickTop techMatches frontend)
      (pickTop techMatches hosting) (pickTop techMatches cdn) in
  let inferred0 := mk_Inferred [] [] in
  let inferred1 := addInference (option_map pk_key (pr_cms primary)) inferred0 in
  let inferred2 := addInference (option_map pk_key (pr_frontend primary)) inferred1 in
  let langs := languages inferred2 ++ banner_languages (serverBlob serverInfo) in
  let inferred :=
    mk_Inferred (deduplicateArray langs) (deduplicateArray (databases inferred2)) in
  let summaryParts :=
    pick_line "CMS: " (pr_cms primary)
    ++ pick_line "Frontend: " (pr_frontend primary)
    ++ pick_line "Hosting: " (pr_hosting primary)
    ++ pick_line "CDN: " (pr_cdn primary)
    ++ match waf with
       | WafHit provider conf _ => [("WAF: " ++ provider ++ " (" ++ conf ++ ")")%string]
       | WafNone => []
       end
    ++ match languages inferred with
       | [] => []
       | ls => [("Language: " ++ join ", " ls)%string]
       end
    ++ match databases inferred with
       | [] => []
       | ds => [("Database: " ++ join ", " ds)%string]
       end in
  mk_Verdict primary inferred (confidenceFromScore (topScore primary))
    (join " | " summaryParts).

(* ================================================================== *)
(** ** Version extraction *)
(* ================================================================== *)

(** The four [contextPatterns].  The first two come from template literals,
    where a backslash before a dot, a slash or a dash is dropped: their dots
    match any character. *)
Definition contextPatterns (techName : string) : list RegExp := [
  rxi (techName ++ "[@/-]v?(\d+.\d+.\d+)")%string;
  rxi (techName ++ "[@/-](\d+.\d+)")%string;
  rx "\/([\d.]+)\/";
  rx "@([\d.]+)\/"
].

Definition version_shape : RegExp := rx "^\d+\.\d+".

Fixpoint first_version (patterns : list RegExp) (text : string) : option string :=
  match patterns with
  | [] => None
  | pattern :: more =>
      match match1 pattern text with
      | Some v =>
          if truthy v && test version_shape v then Some v
          else first_version more text
      | None => first_version more text
      end
  end.

Definition extractVersion (text techName : string) : option string :=
  if negb (truthy text) then None
  else first_version (contextPatterns techName) text.

(* ================================================================== *)
(** ** WAF detection *)
(* ================================================================== *)

Record WafResult : Type := mk_WafResult {
  waf_name : string;
  waf_confidence : string;
  waf_score : nat
}.

Definition count {A : Type} (f : A -> bool) (l : list A) : nat :=
  List.length (filter f l).

Definition has_header (headers : Headers) (h : string) : bool :=
  match obj_get headers (toLowerCase h) with Some _ => true | None => false end.

Definition cookie_seen (cookies : list string) (c : string) : bool :=
  existsb (fun cookie => startsWith (toLowerCase cookie) (toLowerCase c)) cookies.

Definition header_points (patterns : WafPattern) (headers : Headers) : nat :=
  match w_headers patterns with
  | Some hs => count (has_header headers) hs * 3
  | None => 0
  end.

Definition cookie_points (patterns : WafPattern) (cookies : list string) : nat :=
  match w_cookies patterns with
  | Some cs => count (cookie_seen cookies) cs * 2
  | None => 0
  end.

Definition server_points (patterns : WafPattern) (headers : Headers) : nat :=
  match w_server patterns with
  | Some re => if test re (header_text headers "server") then 2 else 0
  | None => 0
  end.

Definition html_points (patterns : WafPattern) (html : string) : nat :=
  match w_html patterns with
  | Some re => if truthy html && test re html then 1 else 0
  | None => 0
  end.

Definition provider_score (patterns : WafPattern) (headers : Headers)
    (cookies : list string) (html : string) : nat :=
  header_points patterns headers + cookie_points patterns cookies
  + server_points patterns headers + html_points patterns html.

(** [wafScores]: the providers that scored, in the order of the table. *)
Definition waf_scores (table : Obj WafPattern) (headers : Headers)
    (cookies : list string) (html : string) : Obj nat :=
  filter (fun e => 0 <? snd e)
    (map (fun e => (fst e, provider_score (snd e) headers cookies html)) table).

(** [entries.reduce((a, b) => a[1] > b[1] ? a : b)] *)
Definition reduce_top (first : string * nat) (others : list (string * nat)) : string * nat :=
  fold_left (fun a b => if snd b <? snd a then a else b) others first.

Definition waf_tier (score : nat) : string :=
  if 5 <=? score then "high" else if 3 <=? score then "medium" else "low".

Definition detectWAF_with (table : Obj WafPattern) (headers : Headers)
    (cookies : list string) (html : string) : option WafResult :=
  match waf_scores table headers cookies html with
  | [] => None
  | first :: others =>
      let topWaf := reduce_top first others in
      Some (mk_WafResult (capitalize (fst topWaf)) (waf_tier (snd topWaf)) (snd topWaf))
  end.

Definition detectWAF : Headers -> list string -> string -> option WafResult :=
  detectWAF_with WAF_PATTERNS.

(* ================================================================== *)
(** ** Static analysis *)
(* ================================================================== *)

(** What the HTML query engine answers about a parsed document, for the
    selectors the scanner uses.  Attribute reads are recorded after their
    [|| ''] default: an absent attribute is the empty string. *)
Record ScriptEl : Type := mk_ScriptEl {
  el_src : string;      (* $(el).attr('src') || '' *)
  el_html : string      (* $(el).html() || '' *)
}.

Definition JsonValue : Type := string.

Record Document : Type := mk_Document {
  doc_scripts : list ScriptEl;           (* $('script'), in document order *)
  doc_stylesheets : list string;         (* href of each link[rel=stylesheet] *)
  doc_metas : list (string * string);    (* name and content of each meta[name] *)
  doc_title : string;                    (* $('title').text() *)
  doc_ldjson : list (option JsonValue)   (* JSON.parse of each ld+json script; None when it throws *)
}.

(** [$('meta[name=...]').attr('content') || '']: the attribute of the first
    element selected. *)
Definition meta_attr (doc : Document) (name : string) : string :=
  match obj_get (doc_metas doc) name with
  | Some content => content
  | None => ""
  end.

Record ScanAcc : Type := mk_ScanAcc {
  acc_confidence : nat;
  acc_version : option string;
  acc_sources : list string     (* a Set, in insertion order *)
}.

Definition set_add (x : string) (s : list string) : list string :=
  if existsb (String.eqb x) s then s else s ++ [x].

(** A hit on a channel that carries a version ([script], [stylesheet], [meta]). *)
Definition hit_versioned (weight : nat) (source : string) (text techName : string)
    (a : ScanAcc) : ScanAcc :=
  mk_ScanAcc (acc_confidence a + weight)
    (if version_truthy (acc_version a) then acc_version a else extractVersion text techName)
    (set_add source (acc_sources a)).

Definition hit (weight : nat) (source : string) (a : ScanAcc) : ScanAcc :=
  mk_ScanAcc (acc_confidence a + weight) (acc_version a) (set_add source (acc_sources a)).

Definition scan_scripts (techName : string) (pats : list RegExp) (doc : Document)
    (a : ScanAcc) : ScanAcc :=
  fold_left
    (fun a el =>
       let fullContent := (el_src el ++ el_html el)%string in
       fold_left
         (fun a p => if test p fullContent then hit_versioned 3 "script" fullContent techName a else a)
         pats a)
    (doc_scripts doc) a.

Definition scan_links (techName : string) (pats : list RegExp) (doc : Document)
    (a : ScanAcc) : ScanAcc :=
  fold_left
    (fun a href =>
       fold_left
         (fun a p => if test p href then hit_versioned 2 "stylesheet" href techName a else a)
         pats a)
    (doc_stylesheets doc) a.

Definition scan_metas (techName : string) (rules : list MetaRule) (doc : Document)
    (a : ScanAcc) : ScanAcc :=
  fold_left
    (fun a rule =>
       let content := meta_attr doc (meta_name rule) in
       match meta_content rule with
       | Some re => if test re content then hit_versioned 2 "meta" content techName a else a
       | None => a
       end)
    rules a.

Definition scan_html (pats : list RegExp) (html : string) (a : ScanAcc) : ScanAcc :=
  fold_left (fun a p => if test p html then hit 2 "html" a else a) pats a.

Definition scan_headers (pats : list (string * RegExp)) (headers : Headers)
    (a : ScanAcc) : ScanAcc :=
  fold_left
    (fun a hp =>
       let headerValue := header_text headers (toLowerCase (fst hp)) in
       if test (snd hp) headerValue then hit 2 "header" a else a)
    pats a.

Definition scan_cdn (cdns : list string) (doc : Document) (a : ScanAcc) : ScanAcc :=
  fold_left
    (fun a cdn_ref =>
       fold_left
         (fun a el => if includes (el_src el) cdn_ref then hit 1 "cdn" a else a)
         (doc_scripts doc) a)
    cdns a.

(** The evidence for one technology: the six channel checks in source order. *)
Definition scan_tech (techName : string) (patterns : TechPattern) (doc : Document)
    (html : string) (headers : Headers) : ScanAcc :=
  scan_cdn (p_cdn patterns) doc
    (scan_headers (p_headers patterns) headers
       (scan_html (p_html patterns) html
          (scan_metas techName (p_meta patterns) doc
             (scan_links techName (p_link patterns) doc
                (scan_scripts techName (p_script patterns) doc
                   (mk_ScanAcc 0 None [])))))).

Record CmsCandidate : Type := mk_CmsCandidate {
  c_key : string;
  c_displayName : string;
  c_confidence : nat;
  c_version : option string
}.

Record LoopState : Type := mk_LoopState {
  ls_technologies : Technologies;
  ls_techMatches : Obj TechMeta;
  ls_cmsCandidates : list CmsCandidate
}.

(** The body of the loop over [TECH_PATTERNS], given the evidence found. *)
Definition record_tech (techName : string) (a : ScanAcc) (st : LoopState) : LoopState :=
  let confidence := acc_confidence a in
  let version := acc_version a in
  let category := getCategoryForTech techName in
  let threshold := min_confidence category in
  let displayName := humanizeTechName techName in
  if threshold <=? confidence then
    let techString := formatTechName displayName version in
    mk_LoopState
      (if Category_eqb category cms then ls_technologies st
       else tech_set (ls_technologies st) category
              (tech_get (ls_technologies st) category ++ [techString]))
      (obj_set (ls_techMatches st) techName
         (mk_TechMeta confidence version category displayName (acc_sources a)))
      (if Category_eqb category cms
       then ls_cmsCandidates st ++ [mk_CmsCandidate techName displayName confidence version]
       else ls_cmsCandidates st)
  else st.

(** After the loop: the single CMS winner. *)
Definition resolve_cms (st : LoopState) : LoopState :=
  match sort_desc c_confidence (ls_cmsCandidates st) with
  | [] => st
  | topCMS :: _ =>
      mk_LoopState
        (tech_set (ls_technologies st) cms
           [formatTechName (c_displayName topCMS) (c_version topCMS)])
        (match obj_get (ls_techMatches st) (c_key topCMS) with
         | Some _ => ls_techMatches st
         | None =>
             obj_set (ls_techMatches st) (c_key topCMS)
               (mk_TechMeta (c_confidence topCMS) (c_version topCMS) cms
                  (c_displayName topCMS) ["html"])
         end)
        (sort_desc c_confidence (ls_cmsCandidates st))
  end.

Record Analysis : Type := mk_Analysis {
  a_technologies : Technologies;
  a_structuredData : list JsonValue;
  a_techMatches : Obj TechMeta
}.

Definition structured_data (doc : Document) : list JsonValue :=
  flat_map (fun parsed => match parsed with Some j => [j] | None => [] end) (doc_ldjson doc).

Section Scanner.

(** The HTML parser, [cheerio.load]: a collaborator of the scanner. *)
Variable cheerioLoad : string -> Document.

Definition scan_corpus (corpus : Obj TechPattern) (html : string) (headers : Headers)
  : LoopState :=
  let doc := cheerioLoad html in
  fold_left
    (fun st entry =>
       record_tech (fst entry) (scan_tech (fst entry) (snd entry) doc html headers) st)
    corpus (mk_LoopState empty_technologies [] []).

Definition analyzeStaticResponse (html : string) (headers : Headers) (url : string)
  : Analysis :=
  let st := resolve_cms (scan_corpus TECH_PATTERNS html headers) in
  mk_Analysis
    (* every item is a string already, so the clean-up only deduplicates *)
    (tech_map deduplicateArray (ls_technologies st))
    (structured_data (cheerioLoad html))
    (ls_techMatches st).

End Scanner.

(* ================================================================== *)
(** ** Browser detection *)
(* ================================================================== *)

(** What reading [window[prop]] gives inside the page. *)
Inductive PropState : Type :=
| PropUndefined
| PropNull
| PropDefined
| PropThrows.

Definition Window : Type := string -> PropState.

Definition browser_checks : Obj (list string) := [
  ("React", ["React"; "__REACT_DEVTOOLS_GLOBAL_HOOK__"; "__REACT_PROFILER_ENABLED__"]);
  ("Vue", ["Vue"; "__VUE__"; "__VUE_DEVTOOLS_GLOBAL_HOOK__"]);
  ("Angular", ["ng"; "angular"; "getAllAngularRootElements"; "ng.probe"]);
  ("jQuery", ["jQuery"; "$"]);
  ("Next.js", ["__NEXT_DATA__"; "__NEXT_ROUTER_READYSTATE__"]);
  ("Nuxt.js", ["$nuxt"; "__NUXT__"; "__NUXT_STRAPI__"]);
  ("Svelte", ["__SVELTE__"]);
  ("Astro", ["__astro"]);
  ("Lodash", ["_"]);
  ("Moment.js", ["moment"]);
  ("D3", ["d3"]);
  ("Three.js", ["THREE"]);
  ("Mixpanel", ["mixpanel"]);
  ("Sentry", ["Sentry"]);
  ("Intercom", ["Intercom"]);
  ("Hotjar", ["hj"; "hjSiteId"]);
  ("Amplitude", ["amplitude"])
].

Definition prop_present (win : Window) (prop : string) : bool :=
  match win prop with PropDefined => true | _ => false end.

(** [[...new Set(detected)]] *)
Fixpoint unique (l : list string) (seen : list string) : list string :=
  match l with
  | [] => []
  | x :: tl =>
      if existsb (String.eqb x) seen then unique tl seen
      else x :: unique tl (x :: seen)
  end.

(** The function evaluated in the page by [extractBrowserTechnologies]. *)
Definition detect_globals (win : Window) : list string :=
  unique
    (flat_map
       (fun check => if existsb (prop_present win) (snd check) then [fst check] else [])
       browser_checks)
    [].

(** The Tier-2 merge of one runtime detection into the analysis of the
    rendered page. *)
Definition merge_browser_tech (tech : string) (acc : Technologies * Obj TechMeta)
  : Technologies * Obj TechMeta :=
  let (technologies, techMatches) := acc in
  match mapBrowserTechToKey tech with
  | None => acc
  | Some key =>
      let shown := humanizeTechName key in
      let formatted := formatTechName shown None in
      let cat := getCategoryForTech key in
      let technologies' :=
        if Category_eqb cat frontend
           && negb (existsb (fun item => String.eqb (toLowerCase item) (toLowerCase formatted))
                      (t_frontend technologies))
        then tech_set technologies frontend (t_frontend technologies ++ [formatted])
        else technologies in
      let existing :=
        match obj_get techMatches key with
        | Some m => m
        | None => mk_TechMeta 0 None cat shown []
        end in
      let existing' :=
        mk_TechMeta (Nat.max (confidence existing) 3) (version existing)
          (category existing) (displayName existing)
          (deduplicateArray (sources existing ++ ["window"])) in
      (technologies', obj_set techMatches key existing')
  end.

Definition merge_browser_techs (browserTechs : list string)
    (technologies : Technologies) (techMatches : Obj TechMeta)
  : Technologies * Obj TechMeta :=
  fold_left (fun acc tech => merge_browser_tech tech acc) browserTechs
    (technologies, techMatches).

(* ================================================================== *)
(** ** The actor: records, state and the two crawler phases *)
(* ================================================================== *)

Record Apis : Type := mk_Apis {
  graphql : bool;
  rest_api : bool;
  endpoints : list string
}.

Record Metadata : Type := mk_Metadata {
  title : option string;
  description : option string;
  structuredData : list JsonValue
}.

(** One element of [results], which is also what [Dataset.pushData]
    serialises.  A failed record has only [url], [status], [error] and
    [scannedAt]; a property it lacks is [None]. *)
Record ScanResult : Type := mk_ScanResult {
  url : string;
  status : string;
  error : option string;
  technologies : option Technologies;
  waf : option WafInfo;
  apis : option Apis;
  metadata : option Metadata;
  server : option ServerInfo;
  detectionMethod : option string;
  verdict : option Verdict;
  detectionDetails : option (Obj TechMeta);
  scannedAt : string
}.

Definition failedResult (u msg now : string) : ScanResult :=
  mk_ScanResult u "failed" (Some msg) None None None None None None None None now.

Definition deduplicateResult (result : ScanResult) : ScanResult :=
  mk_ScanResult (url result) (status result) (error result)
    (option_map (tech_map deduplicateArray) (technologies result))
    (waf result)
    (option_map
       (fun a => mk_Apis (graphql a) (rest_api a) (deduplicateArray (endpoints a)))
       (apis result))
    (metadata result)
    (server result)
    (detectionMethod result)
    (option_map
       (fun v =>
          mk_Verdict (v_primary v)
            (mk_Inferred (deduplicateArray (languages (v_inferred v)))
               (deduplicateArray (databases (v_inferred v))))
            (v_confidence v) (v_summary v))
       (verdict result))
    (detectionDetails result)
    (scannedAt result).

(** The shared state of the run.  [dataset] is the append-only sink:
    [Dataset.pushData] stores a serialised copy, so a later change of the
    object in [results] does not reach what was pushed. *)
Record ActorState : Type := mk_ActorState {
  results : list ScanResult;
  dataset : list ScanResult;
  processedCount : nat
}.

Definition initial_state : ActorState := mk_ActorState [] [] 0.

Record Input : Type := mk_Input {
  urls : list string;
  maxConcurrency : nat;
  usePlaywrightFallback : bool;
  shouldProbeApi : bool;
  timeout : nat
}.

(** **** A small state-and-exception monad for the handlers

    An exception leaves the state as it is at the throw, as in JavaScript:
    [catch] does not roll anything back. *)
Inductive Outcome (A : Type) : Type :=
| Ok (a : A)
| Throw (msg : string).
Arguments Ok {A} a.
Arguments Throw {A} msg.

Definition M (A : Type) : Type := ActorState -> Outcome A * ActorState.

Definition ret {A : Type} (a : A) : M A := fun st => (Ok a, st).

Definition bind {A B : Type} (m : M A) (k : A -> M B) : M B :=
  fun st =>
    match m st with
    | (Ok a, st') => k a st'
    | (Throw msg, st') => (Throw msg, st')
    end.

Definition await {A : Type} (o : Outcome A) : M A := fun st => (o, st).

Definition modify (f : ActorState -> ActorState) : M unit :=
  fun st => (Ok tt, f st).

Definition get_state : M ActorState := fun st => (Ok st, st).

(** [try { body } catch (error) { handler(error) }] *)
Definition try_catch (body : M unit) (handler : string -> M unit) : M unit :=
  fun st =>
    match body st with
    | (Ok tt, st') => (Ok tt, st')
    | (Throw msg, st') => handler msg st'
    end.

Notation "x <- m ;; k" := (bind m (fun x => k))
  (at level 61, m at next level, right associativity).
Notation "m ;;; k" := (bind m (fun _ => k))
  (at level 61, right associativity).

Definition push_result (r : ScanResult) : M unit :=
  modify (fun st => mk_ActorState (results st ++ [r]) (dataset st) (processedCount st)).

(** [await Dataset.pushData(r)]: the sink stores a copy of the record, or
    it rejects the write and the awaited promise with it. *)
Definition pushData (r : ScanResult) (written : Outcome unit) : M unit :=
  fun st =>
    match written with
    | Ok _ => (Ok tt, mk_ActorState (results st) (dataset st ++ [r]) (processedCount st))
    | Throw msg => (Throw msg, st)
    end.

Definition count_processed : M unit :=
  modify (fun st => mk_ActorState (results st) (dataset st) (S (processedCount st))).

(** **** What the environment hands to the handlers *)

(** What one run of the static handler meets: the response fetched for it
    and how its awaited calls end. *)
Record Fetched : Type := mk_Fetched {
  f_headers : Headers;              (* response.headers || {} *)
  f_body : string;
  f_probe : Outcome Apis;           (* how the raced [probeApiEndpoints] call ends *)
  f_fault : option string;          (* an exception raised while the response is analysed *)
  f_now : string;                   (* new Date().toISOString() in the try block *)
  f_stored : Outcome unit;          (* how Dataset.pushData(cleanResult) ends *)
  f_now_catch : string;             (* new Date().toISOString() in the catch block *)
  f_stored_catch : Outcome unit     (* how Dataset.pushData(failedResult) ends *)
}.

(** What one run of the browser handler meets. *)
Record Visit : Type := mk_Visit {
  vis_load : Outcome unit;          (* page.waitForLoadState(...) *)
  vis_content : Outcome string;     (* page.content() *)
  vis_headers : option Headers;     (* response ? response.headers() : {} *)
  vis_window : Outcome Window;      (* page.evaluate(...) reaching the globals *)
  vis_stored : Outcome unit         (* how Dataset.pushData(cleanResult) ends *)
}.

(** A handler run that comes to its writes while the second crawler is at
    work: a run of the browser handler, or a run of the static handler that
    has outlived its time limit and is still under way. *)
Inductive LaterRun : Type :=
| Rendering (v : Visit)
| Overdue (f : Fetched).

Definition cookies_of (headers : Headers) : list string :=
  match obj_get headers "set-cookie" with
  | Some (HArr l) => l
  | Some (HStr s) => if truthy s then [s] else []
  | None => []
  end.

Definition wafInfo_of (w : option WafResult) : WafInfo :=
  match w with
  | Some r => WafHit (waf_name r) (waf_confidence r) (waf_score r)
  | None => WafNone
  end.

Definition serverInfo_of (headers : Headers) : ServerInfo :=
  mk_ServerInfo
    (match obj_get headers "server" with
     | Some v => if hv_truthy v then v else HStr "Unknown"
     | None => HStr "Unknown"
     end)
    (match obj_get headers "x-powered-by" with
     | Some v => if hv_truthy v then Some v else None
     | None => None
     end).

Definition or_null (s : string) : option string :=
  if truthy s then Some s else None.

Definition no_apis : Apis := mk_Apis false false [].

(** First element of [results] with the given url, as [findIndex] sees it. *)
Fixpoint find_result (u : string) (l : list ScanResult) : option ScanResult :=
  match l with
  | [] => None
  | r :: l' => if String.eqb (url r) u then Some r else find_result u l'
  end.

(** [results[idx] = r'] for that index. *)
Fixpoint replace_result (u : string) (r' : ScanResult) (l : list ScanResult)
  : list ScanResult :=
  match l with
  | [] => []
  | r :: l' => if String.eqb (url r) u then r' :: l' else r :: replace_result u r' l'
  end.

Definition set_result (u : string) (r' : ScanResult) : M unit :=
  modify (fun st =>
            mk_ActorState (replace_result u r' (results st)) (dataset st) (processedCount st)).

Section Actor.

Variable cheerioLoad : string -> Document.
Variable input : Input.

(** *** Phase 1: [cheerioCrawler.requestHandler] *)

(** The [result] object the handler builds, after [deduplicateResult]. *)
Definition static_result (u : string) (f : Fetched) : ScanResult :=
  let headers := f_headers f in
  let body := f_body f in
  let wafInfo := wafInfo_of (detectWAF headers (cookies_of headers) body) in
  let a := analyzeStaticResponse cheerioLoad body headers u in
  let serverInfo := serverInfo_of headers in
  let apis :=
    if shouldProbeApi input
    then match f_probe f with Ok found => found | Throw _ => no_apis end
    else no_apis in
  let doc := cheerioLoad body in
  let result :=
    mk_ScanResult u "success" None
      (Some (a_technologies a))
      (Some wafInfo)
      (Some apis)
      (Some (mk_Metadata (or_null (doc_title doc))
               (or_null (meta_attr doc "description"))
               (a_structuredData a)))
      (Some serverInfo)
      (Some "static")
      (Some (buildVerdict (a_technologies a) (a_techMatches a) wafInfo serverInfo))
      (Some (a_techMatches a))
      (f_now f) in
  deduplicateResult result.

(** The handler throws only when the write of its catch block is rejected. *)
Definition cheerio_requestHandler (u : string) (f : Fetched) : M unit :=
  try_catch
    (await (match f_fault f with Some msg => Throw msg | None => Ok tt end) ;;;
     let cleanResult := static_result u f in
     push_result cleanResult ;;;
     pushData cleanResult (f_stored f) ;;;
     count_processed)
    (fun msg =>
       let failed := failedResult u msg (f_now_catch f) in
       push_result failed ;;;
       pushData failed (f_stored_catch f)).

(** **** The runs of a crawler

    A crawler hands the requests of its queue to its [requestHandler].  A
    request whose navigation fails never reaches the handler; and with
    [maxRequestRetries: 1] and [requestHandlerTimeoutSecs: timeout] a request
    may reach it again, after a run that threw or that outlived its time
    limit, and a run that has timed out still goes on to make its writes,
    possibly after [run] has returned.  What a crawler has done when its
    [run] returns is therefore a list of handler runs, each with the url of
    its request ([request.url]), in the order in which the runs come to
    their first write; the writes of one run are taken together.  The
    crawler hands out no url that is not in its queue. *)
Definition requested (u : string) : bool := existsb (String.eqb u) (urls input).

Definition tier1_step (st : ActorState) (run : string * Fetched) : ActorState :=
  if requested (fst run)
  then snd (cheerio_requestHandler (fst run) (snd run) st)
  else st.

(** [await cheerioCrawler.run(urls.map(url => ({ url })))] *)
Definition phase1 (fetch : list (string * Fetched)) (st : ActorState) : ActorState :=
  fold_left tier1_step fetch st.

(** *** Phase 2: the urls to render, and [playwrightCrawler.requestHandler] *)
Definition needs_browser (r : ScanResult) : bool :=
  String.eqb (status r) "success"
  && (List.length
        (tech_flat (match technologies r with Some t => t | None => empty_technologies end))
      =? 0).

Definition spaUrls (rs : list ScanResult) : list string :=
  map url (filter needs_browser rs).

(** The record written over [results[idx]], after [deduplicateResult]. *)
Definition browser_result (u html : string) (headers : Headers) (win : Window)
    (old : ScanResult) : ScanResult :=
  let browserTechs := detect_globals win in
  let a := analyzeStaticResponse cheerioLoad html headers u in
  let (merged, techMatches) :=
    merge_browser_techs browserTechs (a_technologies a) (a_techMatches a) in
  let serverInfo :=
    match server old with Some s => s | None => serverInfo_of headers end in
  let wafInfo := match waf old with Some w => w | None => WafNone end in
  let updated :=
    mk_ScanResult (url old) (status old) (error old)
      (Some merged)
      (waf old)
      (apis old)
      (Some (match metadata old with
             | Some m => mk_Metadata (title m) (description m) (a_structuredData a)
             | None => mk_Metadata None None (a_structuredData a)
             end))
      (server old)
      (Some "browser")
      (Some (buildVerdict merged techMatches wafInfo serverInfo))
      (Some techMatches)
      (scannedAt old) in
  deduplicateResult updated.

Definition playwright_requestHandler (u : string) (v : Visit) : M unit :=
  try_catch
    (await (vis_load v) ;;;
     html <- await (vis_content v) ;;
     let headers := match vis_headers v with Some h => h | None => [] end in
     win <- await (vis_window v) ;;
     st <- get_state ;;
     match find_result u (results st) with
     | None => ret tt
     | Some old =>
         let cleanResult := browser_result u html headers win old in
         set_result u cleanResult ;;;
         pushData cleanResult (vis_stored v)
     end)
    (fun _ => ret tt).

(** The urls handed to [playwrightCrawler.run]; empty when the fallback is
    off (the crawler is then never built). *)
Definition tier2_queue (rs : list ScanResult) : list string :=
  if usePlaywrightFallback input then spaUrls rs else [].

(** The runs that come to their writes once the queue of the second
    crawler is fixed: those of the browser handler, for the urls of that
    queue, and those of the static handler that are overdue. *)
Definition tier2_step (queue : list string) (st : ActorState) (run : string * LaterRun)
  : ActorState :=
  match snd run with
  | Rendering v =>
      if existsb (String.eqb (fst run)) queue
      then snd (playwright_requestHandler (fst run) v st)
      else st
  | Overdue f => tier1_step st (fst run, f)
  end.

(** The queue is computed once, from [results] as it is when
    [cheerioCrawler.run] returns. *)
Definition phase2 (later : list (string * LaterRun)) (st : ActorState) : ActorState :=
  fold_left (tier2_step (tier2_queue (results st))) later st.

(** *** The run *)
Definition run_actor (fetch : list (string * Fetched)) (later : list (string * LaterRun))
  : Outcome ActorState :=
  match urls input with
  | [] => Throw "No URLs provided."
  | _ => Ok (phase2 later (phase1 fetch initial_state))
  end.

End Actor.

(* ================================================================== *)
(** ** API probing

    [probeApiEndpoints] asks for each endpoint of [API_ENDPOINTS] under the
    base url.  Resolving the endpoint ([new URL(endpoint, baseUrl)]) and the
    request itself ([gotScraping]) belong to the environment; either may
    throw, and the [try] around them turns that into [null]. *)
(* ================================================================== *)

Definition API_ENDPOINTS : list string := [
  "/api";
  "/graphql";
  "/_next/static";
  "/wp-json/wp/v2";
  "/_nuxt";
  "/robots.txt"
].

(** What the scanner reads of a response: its status code and
    [headers['content-type'] || '']. *)
Record ProbeResponse : Type := mk_ProbeResponse {
  statusCode : nat;
  contentType : string
}.

Record ProbeHit : Type := mk_ProbeHit {
  hit_endpoint : string;
  hit_contentType : string
}.

Section Probe.

Variable resolveUrl : string -> string -> Outcome string.
Variable gotScraping : string -> option string -> Outcome ProbeResponse.

(** One of the [probePromises]: it resolves to a hit or to [null]. *)
Definition probe_endpoint (baseUrl : string) (proxyUrl : option string) (endpoint : string)
  : option ProbeHit :=
  match resolveUrl endpoint baseUrl with
  | Throw _ => None
  | Ok target =>
      match gotScraping target proxyUrl with
      | Throw _ => None
      | Ok response =>
          if statusCode response <? 400
          then Some (mk_ProbeHit endpoint (contentType response))
          else None
      end
  end.

(** The body of [results.forEach]. *)
Definition note_hit (discovered : Apis) (result : option ProbeHit) : Apis :=
  match result with
  | None => discovered
  | Some found =>
      mk_Apis
        (if includes (hit_endpoint found) "graphql" then true else graphql discovered)
        (if includes (hit_contentType found) "application/json" then true
         else rest_api discovered)
        (endpoints discovered ++ [hit_endpoint found])
  end.

Definition probeApiEndpoints (baseUrl : string) (proxyUrl : option string) : Apis :=
  let results := map (probe_endpoint baseUrl proxyUrl) API_ENDPOINTS in
  let discovered := fold_left note_hit results (mk_Apis false false []) in
  mk_Apis (graphql discovered) (rest_api discovered)
    (deduplicateArray (endpoints discovered)).

End Probe.

(* ================================================================== *)
(** ** The end of the run

    After the two phases the actor either fails the run or stores a
    summary ([runtime], a clock reading, is left out). *)
(* ================================================================== *)

Inductive Conclusion : Type :=
| Failed (statusMessage : string)      (* await Actor.fail(...) *)
| Summary (urlsAnalyzed : nat).        (* Actor.setValue('OUTPUT_SUMMARY', ...) *)

Definition conclude (st : ActorState) : Conclusion :=
  if processedCount st =? 0 then Failed "No results produced"
  else Summary (processedCount st).

(** The body of the outer [try]: the phases, then the conclusion.  The
    [catch] logs and throws again. *)
Definition main (cheerioLoad : string -> Document) (input : Input)
    (fetch : list (string * Fetched)) (later : list (string * LaterRun))
  : Outcome (ActorState * Conclusion) :=
  match run_actor cheerioLoad input fetch later with
  | Ok st => Ok (st, conclude st)
  | Throw msg => Throw msg
  end.

(* ================================================================== *)
(** ** The verdict over a heap

    [buildVerdict] once more, statement by statement, with the objects it
    is given and the arrays it builds as cells of a heap: [Object.entries],
    [filter] and an array literal allocate a cell, [sort] and [push] write
    to the cell of their receiver.  This is the form in which it can be
    said that the function leaves its arguments alone. *)
(* ================================================================== *)

Module VerdictHeap.

Definition loc : Type := nat.

Inductive Cell : Type :=
| CTechs (t : Technologies)                  (* the technologies object *)
| CMatches (o : Obj TechMeta)                (* the techMatches object *)
| CWaf (w : WafInfo)
| CServer (s : ServerInfo)
| CTable (t : Obj Inference)                 (* STACK_INFERENCES *)
| CEntries (l : list (string * TechMeta))    (* an array of [key, meta] pairs *)
| CStrings (l : list string)                 (* an array of strings *)
| CInferred (l_languages l_databases : loc). (* { languages, databases } *)

Definition Heap : Type := list Cell.

Definition H (A : Type) : Type := Heap -> option (A * Heap).

Definition hret {A : Type} (a : A) : H A := fun h => Some (a, h).

Definition hbind {A B : Type} (m : H A) (k : A -> H B) : H B :=
  fun h =>
    match m h with
    | Some (a, h') => k a h'
    | None => None
    end.

Definition hfail {A : Type} : H A := fun _ => None.

Notation "x <~ m ;; k" := (hbind m (fun x => k))
  (at level 61, m at next level, right associativity).
Notation "m ;;~ k" := (hbind m (fun _ => k))
  (at level 61, right associativity).

Definition alloc (c : Cell) : H loc := fun h => Some (List.length h, h ++ [c]).

Definition read (l : loc) : H Cell :=
  fun h => match nth_error h l with Some c => Some (c, h) | None => None end.

Fixpoint set_nth (n : nat) (c : Cell) (h : Heap) : Heap :=
  match h, n with
  | [], _ => []
  | _ :: t, 0 => c :: t
  | x :: t, S n' => x :: set_nth n' c t
  end.

Definition write (l : loc) (c : Cell) : H unit :=
  fun h => if l <? List.length h then Some (tt, set_nth l c h) else None.

Definition read_matches (l : loc) : H (Obj TechMeta) :=
  c <~ read l ;; match c with CMatches o => hret o | _ => hfail end.
Definition read_waf (l : loc) : H WafInfo :=
  c <~ read l ;; match c with CWaf w => hret w | _ => hfail end.
Definition read_server (l : loc) : H ServerInfo :=
  c <~ read l ;; match c with CServer s => hret s | _ => hfail end.
Definition read_table (l : loc) : H (Obj Inference) :=
  c <~ read l ;; match c with CTable t => hret t | _ => hfail end.
Definition read_entries (l : loc) : H (list (string * TechMeta)) :=
  c <~ read l ;; match c with CEntries es => hret es | _ => hfail end.
Definition read_strings (l : loc) : H (list string) :=
  c <~ read l ;; match c with CStrings ss => hret ss | _ => hfail end.
Definition read_inferred (l : loc) : H (loc * loc) :=
  c <~ read l ;; match c with CInferred a b => hret (a, b) | _ => hfail end.

(** [arr.push(...xs)] on the array at [l]. *)
Definition push (l : loc) (xs : list string) : H unit :=
  cur <~ read_strings l ;; write l (CStrings (cur ++ xs)).

(** [if (cond) body] *)
Definition when (cond : bool) (body : H unit) : H unit :=
  if cond then body else hret tt.

(** [if (pick) summaryParts.push(label + formatTechName(...))] *)
Definition push_pick (l : loc) (label : string) (p : option Pick) : H unit :=
  match p with
  | Some _ => push l (pick_line label p)
  | None => hret tt
  end.

(** The local [pickTop] closure. *)
Definition pickTopH (l_matches : loc) (c : Category) : H (option Pick) :=
  o <~ read_matches l_matches ;;
  l_entries <~ alloc (CEntries o) ;;                           (* Object.entries(techMatches) *)
  es <~ read_entries l_entries ;;
  l_candidates <~
    alloc (CEntries (filter (fun e => Category_eqb (category (snd e)) c) es)) ;;  (* .filter *)
  candidates <~ read_entries l_candidates ;;
  match candidates with
  | [] => hret None
  | _ :: _ =>
      write l_candidates (CEntries (sort_desc entry_conf candidates)) ;;~      (* .sort, in place *)
      sorted <~ read_entries l_candidates ;;
      match sorted with
      | (key, meta) :: _ =>
          hret (Some (mk_Pick key
                        (or_else (displayName meta) (humanizeTechName key))
                        (if version_truthy (version meta) then version meta else None)
                        (confidence meta)))
      | [] => hret None
      end
  end.

(** [inferred.languages.push(...xs)] and [inferred.databases.push(...xs)] *)
Definition push_languages (l_inferred : loc) (xs : list string) : H unit :=
  fields <~ read_inferred l_inferred ;; push (fst fields) xs.
Definition push_databases (l_inferred : loc) (xs : list string) : H unit :=
  fields <~ read_inferred l_inferred ;; push (snd fields) xs.

(** The local [addInference] closure. *)
Definition addInferenceH (l_table l_inferred : loc) (key : option string) : H unit :=
  match key with
  | None => hret tt
  | Some k =>
      if negb (truthy k) then hret tt
      else
        table <~ read_table l_table ;;
        match obj_get table (toLowerCase k) with
        | None => hret tt
        | Some inference =>
            match inf_languages inference with
            | Some ls => push_languages l_inferred ls
            | None => hret tt
            end ;;~
            match inf_databases inference with
            | Some ds => push_databases l_inferred ds
            | None => hret tt
            end
        end
  end.

Definition buildVerdictH (l_table l_technologies l_matches l_waf l_server : loc) : H Verdict :=
  p_cms <~ pickTopH l_matches cms ;;
  p_frontend <~ pickTopH l_matches frontend ;;
  p_hosting <~ pickTopH l_matches hosting ;;
  p_cdn <~ pickTopH l_matches cdn ;;
  let primary := mk_Primary p_cms p_frontend p_hosting p_cdn in
  l_languages <~ alloc (CStrings []) ;;
  l_databases <~ alloc (CStrings []) ;;
  l_inferred <~ alloc (CInferred l_languages l_databases) ;;
  addInferenceH l_table l_inferred (option_map pk_key p_cms) ;;~
  addInferenceH l_table l_inferred (option_map pk_key p_frontend) ;;~
  serverInfo <~ read_server l_server ;;
  let blob := serverBlob serverInfo in
  when (includes blob "php") (push_languages l_inferred ["PHP"]) ;;~
  when (includes blob "asp.net") (push_languages l_inferred [".NET"]) ;;~
  when (includes blob "node") (push_languages l_inferred ["Node.js"]) ;;~
  when (includes blob "python") (push_languages l_inferred ["Python"]) ;;~
  when (includes blob "ruby") (push_languages l_inferred ["Ruby"]) ;;~
  when (includes blob "laravel") (push_languages l_inferred ["PHP"]) ;;~
  (* inferred.languages = deduplicateArray(inferred.languages) *)
  fields <~ read_inferred l_inferred ;;
  langs <~ read_strings (fst fields) ;;
  l_languages' <~ alloc (CStrings (deduplicateArray langs)) ;;
  write l_inferred (CInferred l_languages' (snd fields)) ;;~
  (* inferred.databases = deduplicateArray(inferred.databases) *)
  fields <~ read_inferred l_inferred ;;
  dbs <~ read_strings (snd fields) ;;
  l_databases' <~ alloc (CStrings (deduplicateArray dbs)) ;;
  write l_inferred (CInferred (fst fields) l_databases') ;;~
  l_parts <~ alloc (CStrings []) ;;
  push_pick l_parts "CMS: " p_cms ;;~
  push_pick l_parts "Frontend: " p_frontend ;;~
  push_pick l_parts "Hosting: " p_hosting ;;~
  push_pick l_parts "CDN: " p_cdn ;;~
  waf <~ read_waf l_waf ;;
  match waf with
  | WafHit provider conf _ =>
      push l_parts [("WAF: " ++ provider ++ " (" ++ conf ++ ")")%string]
  | WafNone => hret tt
  end ;;~
  fields <~ read_inferred l_inferred ;;
  langs <~ read_strings (fst fields) ;;
  dbs <~ read_strings (snd fields) ;;
  when (negb (List.length langs =? 0))
    (push l_parts [("Language: " ++ join ", " langs)%string]) ;;~
  when (negb (List.length dbs =? 0))
    (push l_parts [("Database: " ++ join ", " dbs)%string]) ;;~
  parts <~ read_strings l_parts ;;
  hret (mk_Verdict primary (mk_Inferred langs dbs)
          (confidenceFromScore (topScore primary)) (join " | " parts)).

End VerdictHeap.

(* ================================================================== *)
(** ** The vocabulary of the properties *)
(* ================================================================== *)

(** The source text of a RegExp is read by the parser. *)
Definition parses (re : RegExp) : bool :=
  match parse (source re) with Some _ => true | None => false end.

Definition tech_regexes (p : TechPattern) : list RegExp :=
  p_script p ++ p_link p
  ++ flat_map (fun r => match meta_content r with Some re => [re] | None => [] end) (p_meta p)
  ++ p_html p ++ map snd (p_headers p).

Definition waf_regexes (p : WafPattern) : list RegExp :=
  match w_server p with Some re => [re] | None => [] end
  ++ match w_html p with Some re => [re] | None => [] end.

Definition tech_deduped (t : Technologies) : Prop :=
  forall c, NoDup (map toLowerCase (tech_get t c)).

(** [w] is the first element of [l] with the highest score. *)
Definition first_max {A : Type} (conf : A -> nat) (w : A) (l : list A) : Prop :=
  exists before after,
    l = before ++ w :: after
    /\ Forall (fun c => conf c < conf w) before
    /\ Forall (fun c => conf c <= conf w) after.

(** The CMS candidate a corpus entry gives rise to, if any: its category is
    [cms] and its evidence reaches the threshold of that category. *)
Definition cms_candidate_of (cheerioLoad : string -> Document) (html : string)
    (headers : Headers) (entry : string * TechPattern) : list CmsCandidate :=
  let a := scan_tech (fst entry) (snd entry) (cheerioLoad html) html headers in
  if Category_eqb (getCategoryForTech (fst entry)) cms
     && (min_confidence cms <=? acc_confidence a)
  then [mk_CmsCandidate (fst entry) (humanizeTechName (fst entry))
          (acc_confidence a) (acc_version a)]
  else [].

Definition scan_step (cheerioLoad : string -> Document) (html : string) (headers : Headers)
    (st : LoopState) (entry : string * TechPattern) : LoopState :=
  record_tech (fst entry)
    (scan_tech (fst entry) (snd entry) (cheerioLoad html) html headers) st.

(** The score on record for a key, 0 when there is none. *)
Definition conf_of (techMatches : Obj TechMeta) (key : string) : nat :=
  match obj_get techMatches key with
  | Some m => confidence m
  | None => 0
  end.

(** A name the merge may push: the display name of a frontend key that one
    of the runtime detections maps to. *)
Definition runtime_frontend_name (browserTechs : list string) (name : string) : Prop :=
  exists tech key,
    In tech browserTechs
    /\ mapBrowserTechToKey tech = Some key
    /\ getCategoryForTech key = frontend
    /\ name = humanizeTechName key.

Definition maps_to (key tech : string) : bool :=
  match mapBrowserTechToKey tech with
  | Some k => String.eqb k key
  | None => false
  end.

(** What a run of the static handler appends to [results]: the record of
    the analysis, a failure record when the analysis throws, and both when
    the sink rejects the first. *)
Definition run_results (cheerioLoad : string -> Document) (input : Input)
    (u : string) (f : Fetched) : list ScanResult :=
  match f_fault f with
  | Some msg => [failedResult u msg (f_now_catch f)]
  | None =>
      match f_stored f with
      | Ok _ => [static_result cheerioLoad input u f]
      | Throw msg => [static_result cheerioLoad input u f; failedResult u msg (f_now_catch f)]
      end
  end.

(** What the run leaves in the dataset: the record whose write the sink
    accepts, if any. *)
Definition run_stored (cheerioLoad : string -> Document) (input : Input)
    (u : string) (f : Fetched) : list ScanResult :=
  match f_fault f with
  | Some msg =>
      match f_stored_catch f with
      | Ok _ => [failedResult u msg (f_now_catch f)]
      | Throw _ => []
      end
  | None =>
      match f_stored f with
      | Ok _ => [static_result cheerioLoad input u f]
      | Throw msg =>
          match f_stored_catch f with
          | Ok _ => [failedResult u msg (f_now_catch f)]
          | Throw _ => []
          end
      end
  end.

(** The run gets as far as [processedCount++]: the analysis does not throw
    and the sink accepts the record. *)
Definition counted (f : Fetched) : bool :=
  match f_fault f, f_stored f with
  | None, Ok _ => true
  | _, _ => false
  end.

(** The runs for a url, oldest first. *)
Definition runs_for {A : Type} (u : string) (runs : list (string * A)) : list A :=
  map snd (filter (fun run => String.eqb (fst run) u) runs).

(** The runs the static crawler makes: those for a requested url. *)
Definition served (input : Input) (fetch : list (string * Fetched))
  : list (string * Fetched) :=
  filter (fun run => requested input (fst run)) fetch.

(** The page a visit yields when none of its steps throws. *)
Definition visit_ok (v : Visit) : option (string * Window) :=
  match vis_load v, vis_content v, vis_window v with
  | Ok _, Ok html, Ok win => Some (html, win)
  | _, _, _ => None
  end.

Definition visit_headers (v : Visit) : Headers :=
  match vis_headers v with Some h => h | None => [] end.

(** The runs of the browser handler among the later runs, and the overdue
    runs of the static handler. *)
Definition renderings (later : list (string * LaterRun)) : list (string * Visit) :=
  flat_map
    (fun run => match snd run with Rendering v => [(fst run, v)] | Overdue _ => [] end)
    later.

Definition overdue (later : list (string * LaterRun)) : list (string * Fetched) :=
  flat_map
    (fun run => match snd run with Overdue f => [(fst run, f)] | Rendering _ => [] end)
    later.

(** What runs of the static handler append to [results] and leave in the
    dataset, and how many of them are counted. *)
Definition runs_results (cheerioLoad : string -> Document) (input : Input)
    (runs : list (string * Fetched)) : list ScanResult :=
  flat_map (fun run => run_results cheerioLoad input (fst run) (snd run))
    (served input runs).

Definition runs_stored (cheerioLoad : string -> Document) (input : Input)
    (runs : list (string * Fetched)) : list ScanResult :=
  flat_map (fun run => run_stored cheerioLoad input (fst run) (snd run))
    (served input runs).

Definition runs_counted (input : Input) (runs : list (string * Fetched)) : nat :=
  List.length (filter (fun run => counted (snd run)) (served input runs)).

(** The browser pass fails for a url: the navigation fails, so that the
    handler never runs for it, or a step of every run of the handler
    throws. *)
Definition browser_pass_fails (later : list (string * LaterRun)) (u : string) : Prop :=
  forall v, In (u, Rendering v) later -> visit_ok v = None.

(** The records of a url. *)
Definition records_of (u : string) (l : list ScanResult) : list ScanResult :=
  filter (fun r => String.eqb (url r) u) l.

Definition count_url (u : string) (l : list ScanResult) : nat :=
  List.length (filter (fun r => String.eqb (url r) u) l).

(** The record a run of the browser handler writes over the one it finds
    for its url, if it gets that far. *)
Definition tier2_record (cheerioLoad : string -> Document) (st : ActorState)
    (u : string) (v : Visit) : option ScanResult :=
  match visit_ok v with
  | None => None
  | Some (html, win) =>
      match find_result u (results st) with
      | None => None
      | Some old => Some (browser_result cheerioLoad u html (visit_headers v) win old)
      end
  end.

(** The visit of the run goes through. *)
Definition visited (v : Visit) : bool :=
  match visit_ok v with Some _ => true | None => false end.

(** Some run of the browser handler for the url gets through its visit. *)
Definition renders (later : list (string * LaterRun)) (u : string) : bool :=
  existsb visited (runs_for u (renderings later)).

(** The run of the browser handler leaves a record in the sink. *)
Definition visit_stores (v : Visit) : bool :=
  visited v && match vis_stored v with Ok _ => true | Throw _ => false end.

(** The run of the static handler leaves a record in the sink. *)
Definition stores (f : Fetched) : bool :=
  counted f || match f_stored_catch f with Ok _ => true | Throw _ => false end.

Definition after_static (cheerioLoad : string -> Document) (input : Input)
    (fetch : list (string * Fetched)) : ActorState :=
  phase1 cheerioLoad input fetch initial_state.

(** The technologies of a record, when it has them, are deduplicated
    without regard to case and name at most one CMS. *)
Definition record_sound (r : ScanResult) : Prop :=
  forall t, technologies r = Some t ->
            tech_deduped t /\ List.length (t_cms t) <= 1.

(** The highest score on record in a category, 0 when there is none. *)
Definition category_best (techMatches : Obj TechMeta) (c : Category) : nat :=
  list_max (map entry_conf (filter (fun e => Category_eqb (category (snd e)) c) techMatches)).

(** [w] is the last element of [l] with the highest score. *)
Definition last_max (w : string * nat) (l : list (string * nat)) : Prop :=
  exists before after,
    l = before ++ w :: after
    /\ Forall (fun e => snd e <= snd w) before
    /\ Forall (fun e => snd e < snd w) after.

Definition score_of (headers : Headers) (cookies : list string) (html : string)
    (entry : string * WafPattern) : nat :=
  provider_score (snd entry) headers cookies html.

Definition wordpress_signature : TechPattern :=
  mk_TechPattern
    [rxi "wp-emoji-release\.min\.js|wp-admin"]
    [rxi "wp-content\/themes\/|wp-includes\/css\/"]
    [mk_MetaRule "generator" (Some (rxi "wordpress"))]
    [rxi "wp-content\/themes\/"; rxi "wp-content\/plugins\/"; rxi "wp-includes\/"]
    [] [] [] [].

Definition corpus_before_wordpress : Obj TechPattern := firstn 9 TECH_PATTERNS.

Definition corpus_after_wordpress : Obj TechPattern := skipn 10 TECH_PATTERNS.

Definition wordpress_evidence (cheerioLoad : string -> Document) (html : string)
    (headers : Headers) : ScanAcc :=
  scan_tech "wordpress" wordpress_signature (cheerioLoad html) html headers.

(** The three cells behind [inferred]: its two arrays and the object. *)
Definition inferred_cells (base : VerdictHeap.Heap) (ls ds : list string) : VerdictHeap.Heap :=
  [VerdictHeap.CStrings ls; VerdictHeap.CStrings ds; VerdictHeap.CInferred (List.length base + 0) (List.length base + 1)].

Definition waf_line (w : WafInfo) : list string :=
  match w with
  | WafHit provider conf _ => [("WAF: " ++ provider ++ " (" ++ conf ++ ")")%string]
  | WafNone => []
  end.

(** The analysis of the run does not throw. *)
Definition analysed (f : Fetched) : bool :=
  match f_fault f with None => true | Some _ => false end.

(** The record is one of a successful analysis. *)
Definition succeeded (r : ScanResult) : bool := String.eqb (status r) "success".

(** [(r.metadata || {}).title] and [.description] *)
Definition title_of (r : ScanResult) : option string :=
  match metadata r with Some m => title m | None => None end.

Definition description_of (r : ScanResult) : option string :=
  match metadata r with Some m => description m | None => None end.

(** The part of a record that the static pass settles. *)
Definition static_part (r : ScanResult)
  : string * string * option string * option WafInfo * option Apis * option ServerInfo
    * string * option string * option string :=
  (url r, status r, error r, waf r, apis r, server r, scannedAt r,
   title_of r, description_of r).

(** The two shapes of a stored record. *)
Definition well_shaped (r : ScanResult) : Prop :=
  (status r = "failed"
   /\ error r <> None /\ technologies r = None /\ waf r = None /\ apis r = None
   /\ metadata r = None /\ server r = None /\ detectionMethod r = None
   /\ verdict r = None /\ detectionDetails r = None)
  \/ (status r = "success"
      /\ error r = None
      /\ (exists t, technologies r = Some t /\ t_backend t = [])
      /\ waf r <> None /\ apis r <> None /\ metadata r <> None /\ server r <> None
      /\ (detectionMethod r = Some "static" \/ detectionMethod r = Some "browser")
      /\ verdict r <> None /\ detectionDetails r <> None).

(** A failure record that the browser handler has written over: it has the
    url, status, error and time of the failure, and the analysis fields the
    handler sets. *)
Definition rewritten_failure (r : ScanResult) : Prop :=
  status r = "failed"
  /\ error r <> None
  /\ (exists t, technologies r = Some t /\ t_backend t = [])
  /\ waf r = None /\ apis r = None /\ metadata r <> None /\ server r = None
  /\ detectionMethod r = Some "browser"
  /\ verdict r <> None /\ detectionDetails r <> None.

(** The record [findIndex] finds for a queued url is a success record. *)
Definition finds_success (queue : list string) (rs : list ScanResult) : Prop :=
  forall u r, In u queue -> find_result u rs = Some r -> status r = "success".

(** A record of [results] is left alone or written over by the browser
    handler. *)
Definition kept_or_rewritten (before after : ScanResult) : Prop :=
  after = before \/ detectionMethod after = Some "browser".

(** The static analysis of the run listed no technology. *)
Definition lists_nothing (cheerioLoad : string -> Document) (u : string) (f : Fetched)
  : bool :=
  analysed f
  && (List.length
        (tech_flat (a_technologies
                      (analyzeStaticResponse cheerioLoad (f_body f) (f_headers f) u))) =? 0).

(** The endpoints of the record, if it has any, are deduplicated. *)
Definition endpoints_deduped (r : ScanResult) : Prop :=
  forall a, apis r = Some a -> deduplicateArray (endpoints a) = endpoints a.

(** A match that the merge of a runtime detection has touched. *)
Definition window_evidence (m : TechMeta) : Prop :=
  3 <= confidence m /\ exists s, In s (sources m) /\ toLowerCase s = "window".

(** [displayName.toLowerCase().replace(/[^a-z0-9]/g, '')] *)
Definition normalizeName (displayName : string) : string :=
  keep_chars (fun c => is_lower c || is_digit c) (toLowerCase displayName).

(** The four categories the verdict picks from. *)
Definition is_primary (c : Category) : bool :=
  match c with
  | cms | frontend | hosting | cdn => true
  | _ => false
  end.

(** The matches of those categories, in insertion order. *)
Definition primary_matches (techMatches : Obj TechMeta) : Obj TechMeta :=
  filter (fun e => is_primary (category (snd e))) techMatches.

(** The filter of [pickTop]. *)
Definition in_category (c : Category) (e : string * TechMeta) : bool :=
  Category_eqb (category (snd e)) c.

(** The languages and the databases [STACK_INFERENCES] holds for a pick. *)
Definition hinted_languages (p : option Pick) : list string :=
  match p with
  | Some pk =>
      match obj_get STACK_INFERENCES (toLowerCase (pk_key pk)) with
      | Some inference => match inf_languages inference with Some l => l | None => [] end
      | None => []
      end
  | None => []
  end.

Definition hinted_databases (p : option Pick) : list string :=
  match p with
  | Some pk =>
      match obj_get STACK_INFERENCES (toLowerCase (pk_key pk)) with
      | Some inference => match inf_databases inference with Some l => l | None => [] end
      | None => []
      end
  | None => []
  end.

(** The match record a corpus entry gives rise to, if its evidence reaches
    the threshold of its category. *)
Definition match_of (cheerioLoad : string -> Document) (html : string)
    (headers : Headers) (entry : string * TechPattern) : list (string * TechMeta) :=
  let a := scan_tech (fst entry) (snd entry) (cheerioLoad html) html headers in
  let c := getCategoryForTech (fst entry) in
  if min_confidence c <=? acc_confidence a
  then [(fst entry,
         mk_TechMeta (acc_confidence a) (acc_version a) c (humanizeTechName (fst entry))
           (acc_sources a))]
  else [].

(** How a match is listed in a technologies array. *)
Definition listed_as (e : string * TechMeta) : string :=
  formatTechName (displayName (snd e)) (version (snd e)).

(** The CMS candidate pushed along with a match of category cms. *)
Definition candidate_of_match (e : string * TechMeta) : CmsCandidate :=
  mk_CmsCandidate (fst e) (displayName (snd e)) (confidence (snd e)) (version (snd e)).

(** A string that begins as a version does: digits, a dot, a digit. *)
Definition version_like (v : string) : Prop :=
  exists major minor tl,
    list_ascii_of_string v = major ++ "."%char :: minor :: tl
    /\ major <> []
    /\ Forall (fun c => is_digit c = true) major
    /\ is_digit minor = true.

(** The names under which a channel is recorded in [sources]. *)
Definition channel_names : list string :=
  ["script"; "stylesheet"; "meta"; "html"; "header"; "cdn"].

(** What holds of the evidence gathered for a technology at every moment
    of the scan. *)
Definition evidence_ok (a : ScanAcc) : Prop :=
  (forall v, acc_version a = Some v -> version_like v)
  /\ (0 < acc_confidence a -> acc_sources a <> [])
  /\ Forall (fun s => In s channel_names) (acc_sources a)
  /\ NoDup (acc_sources a).

(** A script pattern has matched. *)
Definition script_evidence (a : ScanAcc) : Prop :=
  3 <= acc_confidence a /\ In "script" (acc_sources a).

(** A match of category frontend with the score a runtime detection gives. *)
Definition frontend_evidence (m : TechMeta) : Prop :=
  3 <= confidence m /\ category m = frontend.

(* ================================================================== *)
(** ** Scenarios *)
(* ================================================================== *)

(** The scenario page: a generator meta tag and a theme script. *)
Definition wp_html : string :=
  ("<html><head><meta name=" ++ dq ++ "generator" ++ dq ++ " content=" ++ dq
   ++ "WordPress 6.3" ++ dq ++ "><script src=" ++ dq ++ "/wp-content/themes/x.js"
   ++ dq ++ "></script></head><body></body></html>")%string.

Definition wp_doc : Document :=
  mk_Document [mk_ScriptEl "/wp-content/themes/x.js" ""] []
    [("generator", "WordPress 6.3")] "" [].

Definition empty_doc : Document := mk_Document [] [] [] "" [].

Definition wp_loader (html : string) : Document :=
  if String.eqb html wp_html then wp_doc else empty_doc.

(** Scenario: a client-rendered page with no static evidence. *)
Definition spa_url : string := "https://spa.example".

Definition spa_html : string := "<html><body><div id=app></div></body></html>".

Definition spa_loader (html : string) : Document := empty_doc.

Definition spa_input : Input := mk_Input [spa_url] 5 true false 30.

Definition spa_fetched : Fetched :=
  mk_Fetched [] spa_html (Ok no_apis) None "2024-01-01T00:00:00.000Z" (Ok tt)
    "2024-01-01T00:00:01.000Z" (Ok tt).

Definition spa_fetch : list (string * Fetched) := [(spa_url, spa_fetched)].

Definition react_window : Window :=
  fun prop => if String.eqb prop "React" then PropDefined else PropUndefined.

Definition spa_visit : Visit :=
  mk_Visit (Ok tt) (Ok spa_html) None (Ok react_window) (Ok tt).

Definition spa_browse : list (string * LaterRun) := [(spa_url, Rendering spa_visit)].

Definition spa_browse_timeout : list (string * LaterRun) :=
  [(spa_url,
    Rendering
      (mk_Visit (Throw "Timeout 10000ms exceeded") (Ok spa_html) None (Ok react_window)
         (Ok tt)))].

(** Scenario: the sink rejects the record of the analysis and accepts the
    failure record of the catch block. *)
Definition spa_fetched_rejected : Fetched :=
  mk_Fetched [] spa_html (Ok no_apis) None "2024-01-01T00:00:00.000Z"
    (Throw "write rejected") "2024-01-01T00:00:01.000Z" (Ok tt).

(** A page on which two CMS score the same: two WordPress paths and two
    Drupal markers in the markup, nothing else. *)
Definition tie_html : string :=
  "<a href=/wp-content/themes/t/>x</a><a href=/wp-includes/js/>y</a><a href=https://drupal.org>z</a><img src=/sites/default/files/a.png>".



(** Scenario: the rendered page exposes only library and analytics globals. *)
Definition library_window : Window :=
  fun prop =>
    if existsb (String.eqb prop) ["jQuery"; "_"; "mixpanel"; "Sentry"; "hj"]
    then PropDefined else PropUndefined.

(** Scenario: a generator tag and an admin script give WordPress 2 + 3. *)
Definition wp5_html : string :=
  ("<html><head><meta name=" ++ dq ++ "generator" ++ dq ++ " content=" ++ dq
   ++ "WordPress 6.3" ++ dq ++ "><script src=" ++ dq ++ "/wp-admin/js/common.js"
   ++ dq ++ "></script></head><body></body></html>")%string.

Definition wp5_loader (html : string) : Document :=
  mk_Document [mk_ScriptEl "/wp-admin/js/common.js" ""] [] [("generator", "WordPress 6.3")] "" [].

(** Scenario: one Cloudflare header and one Imperva header. *)
Definition tie_headers : Headers := [("cf-ray", HStr "8a1b2c3d4e5f"); ("x-iinfo", HStr "1-2-3")].

(** Scenario: a heap holding the arguments of a call, and nothing else. *)
Definition sample_matches : Obj TechMeta := [
  ("react", mk_TechMeta 3 None frontend "React" ["html"]);
  ("nextjs", mk_TechMeta 5 (Some "13.4.0") frontend "Next.js" ["script"; "html"]);
  ("vercel", mk_TechMeta 4 None hosting "Vercel" ["header"])
].

Definition sample_heap : VerdictHeap.Heap := [
  VerdictHeap.CTable STACK_INFERENCES;
  VerdictHeap.CTechs (mk_Technologies ["React"; "Next.js 13.4.0"] [] [] [] ["Vercel"] [] []);
  VerdictHeap.CMatches sample_matches;
  VerdictHeap.CWaf (WafHit "Cloudflare" "high" 6);
  VerdictHeap.CServer (mk_ServerInfo (HStr "Vercel") (Some (HStr "Next.js")))
].

(* ================================================================== *)
(** * Properties *)
(* ================================================================== *)

(** ** The matcher on the patterns of the tables *)

Example corpus_patterns_parse :
  forallb parses (flat_map tech_regexes (map snd TECH_PATTERNS)) = true
  /\ forallb parses (flat_map waf_regexes (map snd WAF_PATTERNS)) = true
  /\ forallb parses (version_shape :: contextPatterns "wordpress") = true.
Proof. repeat split; vm_compute; reflexivity. Qed.

Example regex_alternation_ignores_case :
  test (rxi "wp-content\/themes\/|wp-includes\/css\/") "<link href=/WP-Includes/css/a.css>" = true.
Proof. vm_compute. reflexivity. Qed.

Example regex_classes_and_quotes :
  test (rxi ("<div[^>]+id=[" ++ dq ++ "']root[" ++ dq ++ "']")%string) "<div class=a id='root'>" = true
  /\ test (rx "data-v-[a-f0-9]{8}") "data-v-0123abcd" = true
  /\ test (rx "data-v-[a-f0-9]{8}") "data-v-0123abc" = false
  /\ test (rxi "hidden={true}") "<a hidden={true}>" = true.
Proof. repeat split; vm_compute; reflexivity. Qed.

Example regex_word_boundary :
  test (rxi "(hero|card|panel|notification|message)\b") "a card b" = true
  /\ test (rxi "(hero|card|panel|notification|message)\b") "discards" = false.
Proof. split; vm_compute; reflexivity. Qed.

Example extractVersion_reads_paths_not_prose :
  extractVersion "https://cdn.example/jquery-3.6.0.min.js" "jquery" = Some "3.6.0"
  /\ extractVersion "https://unpkg.com/react@18.2.0/umd/react.production.min.js" "react"
     = Some "18.2.0"
  /\ extractVersion "/ajax/libs/1.12.4/lib.js" "lodash" = Some "1.12.4"
  /\ extractVersion "WordPress 6.3" "wordpress" = None
  /\ extractVersion "" "jquery" = None.
Proof. repeat split; vm_compute; reflexivity. Qed.

Example humanizeTechName_samples :
  map humanizeTechName ["wordpress"; "nextjs"; "akamai_cdn"; "typo3"; "semanticui"; ""]
  = ["Wordpress"; "Next.js"; "Akamai CDN"; "Typo3"; "Semanticui"; ""].
Proof. vm_compute. reflexivity. Qed.

(** ** Basic facts *)

Lemma some_inj {A : Type} (a b : A) : Some a = Some b -> a = b.
Proof. intro H. now injection H. Qed.

Lemma Category_eqb_eq (a b : Category) : Category_eqb a b = true <-> a = b.
Proof. destruct a, b; simpl; split; intro H; congruence. Qed.

Lemma Category_eqb_refl (a : Category) : Category_eqb a a = true.
Proof. now destruct a. Qed.

Lemma existsb_eqb_In (x : string) (l : list string) :
  existsb (String.eqb x) l = true <-> In x l.
Proof.
  rewrite existsb_exists. split.
  - intros [y [Hy Heq]]. apply String.eqb_eq in Heq. now subst.
  - intro H. exists x. split; [assumption | apply String.eqb_refl].
Qed.

Lemma existsb_eqb_same_members (x : string) (l1 l2 : list string) :
  (forall y, In y l1 <-> In y l2) ->
  existsb (String.eqb x) l1 = existsb (String.eqb x) l2.
Proof.
  intro H.
  destruct (existsb (String.eqb x) l1) eqn:E1, (existsb (String.eqb x) l2) eqn:E2;
    try reflexivity.
  - apply existsb_eqb_In, H, existsb_eqb_In in E1. congruence.
  - apply existsb_eqb_In, H, existsb_eqb_In in E2. congruence.
Qed.

(** ** Case-insensitive deduplication *)

Lemma dedup_from_In (seen l : list string) (x : string) :
  In x (dedup_from seen l) -> In x l /\ ~ In (toLowerCase x) seen.
Proof.
  revert seen. induction l as [| a l IH]; intros seen H; simpl in *.
  - contradiction.
  - destruct (existsb (String.eqb (toLowerCase a)) seen) eqn:E.
    + destruct (IH _ H) as [H1 H2]. auto.
    + destruct H as [-> | H].
      * split; [now left |]. intro Hin. apply existsb_eqb_In in Hin. congruence.
      * destruct (IH _ H) as [H1 H2]. split; [now right |].
        intro Hin. apply H2. now right.
Qed.

Lemma dedup_from_NoDup (seen l : list string) :
  NoDup (map toLowerCase (dedup_from seen l)).
Proof.
  revert seen. induction l as [| a l IH]; intro seen; simpl.
  - constructor.
  - destruct (existsb (String.eqb (toLowerCase a)) seen) eqn:E.
    + apply IH.
    + simpl. constructor; [| apply IH].
      intro Hin. apply in_map_iff in Hin. destruct Hin as [y [Hy Hin]].
      apply dedup_from_In in Hin. destruct Hin as [_ Hn].
      apply Hn. rewrite Hy. now left.
Qed.

Lemma dedup_from_snoc (seen l : list string) (x : string) :
  dedup_from seen (l ++ [x]) =
  dedup_from seen l
  ++ (if existsb (String.eqb (toLowerCase x)) (seen ++ map toLowerCase l) then [] else [x]).
Proof.
  revert seen. induction l as [| a l IH]; intro seen; simpl.
  - rewrite app_nil_r. now destruct (existsb _ seen).
  - destruct (existsb (String.eqb (toLowerCase a)) seen) eqn:E.
    + rewrite IH. f_equal.
      rewrite (existsb_eqb_same_members (toLowerCase x)
                 (seen ++ toLowerCase a :: map toLowerCase l)
                 (seen ++ map toLowerCase l)); [reflexivity |].
      intro y. rewrite !in_app_iff. simpl. apply existsb_eqb_In in E.
      split; [intros [H | [<- | H]] | intros [H | H]]; auto.
    + rewrite IH.
      rewrite (existsb_eqb_same_members (toLowerCase x)
                 ((toLowerCase a :: seen) ++ map toLowerCase l)
                 (seen ++ toLowerCase a :: map toLowerCase l)); [reflexivity |].
      intro y. simpl. rewrite !in_app_iff. simpl. tauto.
Qed.

Lemma dedup_from_length (seen l : list string) :
  List.length (dedup_from seen l) <= List.length l.
Proof.
  revert seen. induction l as [| a l IH]; intro seen; simpl.
  - lia.
  - destruct (existsb _ seen); simpl.
    + specialize (IH seen). lia.
    + specialize (IH (toLowerCase a :: seen)). lia.
Qed.

Lemma dedup_nil_iff (l : list string) : deduplicateArray l = [] <-> l = [].
Proof.
  unfold deduplicateArray. destruct l; simpl; split; intro H;
    try reflexivity; discriminate.
Qed.

Lemma dedup_single (x : string) : deduplicateArray [x] = [x].
Proof. reflexivity. Qed.

(** Deduplicating twice changes nothing more. *)
Lemma dedup_from_fixed (seen l : list string) :
  NoDup (map toLowerCase l) ->
  (forall x, In x l -> ~ In (toLowerCase x) seen) ->
  dedup_from seen l = l.
Proof.
  revert seen. induction l as [| a l IH]; intros seen Hnd Hseen; simpl.
  - reflexivity.
  - destruct (existsb (String.eqb (toLowerCase a)) seen) eqn:E.
    + apply existsb_eqb_In in E. exfalso. apply (Hseen a); [now left | assumption].
    + f_equal. simpl in Hnd. apply NoDup_cons_iff in Hnd. destruct Hnd as [Hna Hnd].
      apply IH; [assumption |].
      intros x Hx [Heq | Hin].
      * apply Hna. rewrite Heq. now apply in_map.
      * apply (Hseen x); [now right | assumption].
Qed.

Lemma dedup_idempotent (l : list string) :
  deduplicateArray (deduplicateArray l) = deduplicateArray l.
Proof.
  unfold deduplicateArray. apply dedup_from_fixed.
  - apply dedup_from_NoDup.
  - intros x _ [].
Qed.

Lemma tech_map_dedup_deduped (t : Technologies) :
  tech_deduped (tech_map deduplicateArray t).
Proof. intros []; simpl; apply dedup_from_NoDup. Qed.

Lemma tech_get_map (f : list string -> list string) (t : Technologies) (c : Category) :
  tech_get (tech_map f t) c = f (tech_get t c).
Proof. now destruct c. Qed.

Lemma tech_get_set_same (t : Technologies) (c : Category) (l : list string) :
  tech_get (tech_set t c l) c = l.
Proof. now destruct c. Qed.

Lemma tech_get_set_other (t : Technologies) (c c' : Category) (l : list string) :
  c <> c' -> tech_get (tech_set t c l) c' = tech_get t c'.
Proof. destruct c, c'; simpl; congruence. Qed.

Lemma tech_map_dedup_idempotent (t : Technologies) :
  tech_map deduplicateArray (tech_map deduplicateArray t) = tech_map deduplicateArray t.
Proof. unfold tech_map; simpl. now rewrite !dedup_idempotent. Qed.

Lemma tech_flat_nil_iff (t : Technologies) :
  tech_flat t = [] <-> forall c, tech_get t c = [].
Proof.
  unfold tech_flat. simpl. split.
  - intro H. repeat (apply app_eq_nil in H; destruct H as [? H]).
    intros []; simpl; assumption.
  - intro H.
    pose proof (H frontend) as H1. pose proof (H backend) as H2.
    pose proof (H cms) as H3. pose proof (H analytics) as H4.
    pose proof (H hosting) as H5. pose proof (H cdn) as H6.
    pose proof (H libraries) as H7. simpl in *.
    now rewrite H1, H2, H3, H4, H5, H6, H7.
Qed.

Lemma tech_flat_map_dedup_nil (t : Technologies) :
  tech_flat (tech_map deduplicateArray t) = [] <-> tech_flat t = [].
Proof.
  rewrite !tech_flat_nil_iff. split; intros H c; specialize (H c);
    rewrite tech_get_map in *.
  - now apply dedup_nil_iff.
  - now apply dedup_nil_iff.
Qed.

(** ** The stable descending sort: its head is the first maximum *)

Section SortFacts.

Context {A : Type} (conf : A -> nat).

Lemma insert_desc_In (x y : A) (l : list A) :
  In y (insert_desc conf x l) <-> y = x \/ In y l.
Proof.
  induction l as [| a l IH]; simpl.
  - intuition.
  - destruct (conf a <=? conf x); simpl; [intuition |].
    rewrite IH. intuition.
Qed.

Lemma sort_desc_In (y : A) (l : list A) : In y (sort_desc conf l) <-> In y l.
Proof.
  induction l as [| a l IH]; simpl.
  - tauto.
  - rewrite insert_desc_In, IH. intuition.
Qed.

Lemma sort_desc_nil_iff (l : list A) : sort_desc conf l = [] <-> l = [].
Proof.
  split; intro H.
  - destruct l as [| a l]; [reflexivity |]. exfalso.
    assert (Hin : In a (sort_desc conf (a :: l))) by (apply sort_desc_In; now left).
    rewrite H in Hin. contradiction.
  - now subst.
Qed.

Lemma sort_desc_head (w : A) (l : list A) :
  (first_max conf) w l -> exists tl, sort_desc conf l = w :: tl.
Proof.
  intros [before [after [-> [Hb Ha]]]].
  induction before as [| b before IH]; simpl.
  - destruct (sort_desc conf after) as [| y tl] eqn:E; simpl.
    + now exists [].
    + assert (Hy : In y after) by (apply sort_desc_In; rewrite E; now left).
      rewrite Forall_forall in Ha. specialize (Ha y Hy).
      apply Nat.leb_le in Ha. rewrite Ha. eauto.
  - inversion Hb as [| ? ? Hlt Hb']; subst.
    destruct (IH Hb') as [tl Htl]. simpl in Htl. rewrite Htl. simpl.
    assert (Hf : (conf w <=? conf b) = false) by (apply Nat.leb_gt; assumption).
    rewrite Hf. eauto.
Qed.

Lemma first_max_exists (l : list A) : l <> [] -> exists w, (first_max conf) w l.
Proof.
  induction l as [| x l IH]; intro Hne; [congruence |].
  destruct l as [| y l'].
  - exists x, [], []. repeat split; constructor.
  - destruct IH as [w [before [after [Heq [Hb Ha]]]]]; [discriminate |].
    destruct (le_lt_dec (conf w) (conf x)) as [Hle | Hlt].
    + exists x, [], (y :: l'). repeat split; [constructor |].
      rewrite Heq. apply Forall_app. split.
      * eapply Forall_impl; [| exact Hb]. simpl. intros; lia.
      * constructor; [assumption |].
        eapply Forall_impl; [| exact Ha]. simpl. intros; lia.
    + exists w, (x :: before), after. rewrite Heq. repeat split; auto.
Qed.

Lemma first_max_score (w : A) (l : list A) :
  (first_max conf) w l -> conf w = list_max (map conf l).
Proof.
  intros [before [after [-> [Hb Ha]]]].
  rewrite map_app, list_max_app. simpl.
  assert (H1 : list_max (map conf before) <= conf w).
  { apply list_max_le. rewrite Forall_map.
    eapply Forall_impl; [| exact Hb]. simpl. intros; lia. }
  assert (H2 : list_max (map conf after) <= conf w).
  { apply list_max_le. rewrite Forall_map. exact Ha. }
  lia.
Qed.

(** The head of the sorted list, as a function of the list. *)
Lemma sort_desc_head_inv (w : A) (tl l : list A) :
  sort_desc conf l = w :: tl -> (first_max conf) w l.
Proof.
  intro H.
  destruct (first_max_exists l) as [w' Hw'].
  - intro Hnil. subst. discriminate.
  - destruct (sort_desc_head w' l Hw') as [tl' Htl']. congruence.
Qed.

End SortFacts.

(** ** The scan loop *)

Section ScanFacts.

Variable cheerioLoad : string -> Document.
Variables (html : string) (headers : Headers).

Lemma record_tech_candidates (st : LoopState) (entry : string * TechPattern) :
  ls_cmsCandidates ((scan_step cheerioLoad html headers) st entry) = ls_cmsCandidates st ++ (cms_candidate_of cheerioLoad html headers) entry.
Proof.
  unfold scan_step, record_tech, cms_candidate_of.
  set (a := scan_tech _ _ _ _ _).
  destruct (Category_eqb (getCategoryForTech (fst entry)) cms) eqn:Ec.
  - apply Category_eqb_eq in Ec. rewrite Ec. cbn [andb].
    destruct (min_confidence cms <=? acc_confidence a); cbn [ls_cmsCandidates];
      [reflexivity | now rewrite app_nil_r].
  - cbn [andb]. destruct (_ <=? _); cbn [ls_cmsCandidates]; now rewrite app_nil_r.
Qed.

Lemma record_tech_cms (st : LoopState) (entry : string * TechPattern) :
  t_cms (ls_technologies ((scan_step cheerioLoad html headers) st entry)) = t_cms (ls_technologies st).
Proof.
  unfold scan_step, record_tech.
  set (a := scan_tech _ _ _ _ _).
  destruct (_ <=? _); [| reflexivity]. cbn [ls_technologies].
  destruct (getCategoryForTech (fst entry)); reflexivity.
Qed.

Lemma fold_scan_candidates (corpus : Obj TechPattern) (st : LoopState) :
  ls_cmsCandidates (fold_left (scan_step cheerioLoad html headers) corpus st)
  = ls_cmsCandidates st ++ flat_map (cms_candidate_of cheerioLoad html headers) corpus.
Proof.
  revert st. induction corpus as [| e corpus IH]; intro st; simpl.
  - now rewrite app_nil_r.
  - rewrite IH, record_tech_candidates, <- app_assoc. reflexivity.
Qed.

Lemma fold_scan_cms (corpus : Obj TechPattern) (st : LoopState) :
  t_cms (ls_technologies (fold_left (scan_step cheerioLoad html headers) corpus st)) = t_cms (ls_technologies st).
Proof.
  revert st. induction corpus as [| e corpus IH]; intro st; simpl.
  - reflexivity.
  - now rewrite IH, record_tech_cms.
Qed.

Lemma scan_corpus_candidates (corpus : Obj TechPattern) :
  ls_cmsCandidates (scan_corpus cheerioLoad corpus html headers)
  = flat_map (cms_candidate_of cheerioLoad html headers) corpus.
Proof. unfold scan_corpus. apply (fold_scan_candidates corpus). Qed.

Lemma scan_corpus_cms (corpus : Obj TechPattern) :
  t_cms (ls_technologies (scan_corpus cheerioLoad corpus html headers)) = [].
Proof. unfold scan_corpus. apply (fold_scan_cms corpus). Qed.

(** The CMS array of the analysis, from the candidates. *)
Lemma analysis_cms (u : string) :
  t_cms (a_technologies (analyzeStaticResponse cheerioLoad html headers u))
  = match sort_desc c_confidence (flat_map (cms_candidate_of cheerioLoad html headers) TECH_PATTERNS) with
    | [] => []
    | topCMS :: _ => [formatTechName (c_displayName topCMS) (c_version topCMS)]
    end.
Proof.
  unfold analyzeStaticResponse, resolve_cms.
  rewrite scan_corpus_candidates.
  destruct (sort_desc c_confidence (flat_map (cms_candidate_of cheerioLoad html headers) TECH_PATTERNS)) as [| w tl].
  - cbn [a_technologies tech_map t_cms]. now rewrite scan_corpus_cms.
  - reflexivity.
Qed.

Lemma cms_candidates_clear (corpus : Obj TechPattern) :
  Forall (fun c => 3 <= c_confidence c /\ getCategoryForTech (c_key c) = cms)
    (flat_map (cms_candidate_of cheerioLoad html headers) corpus).
Proof.
  apply Forall_flat_map. apply Forall_forall. intros e _.
  unfold cms_candidate_of.
  set (a := scan_tech _ _ _ _ _).
  destruct (Category_eqb _ cms) eqn:Ec; cbn [andb]; [| constructor].
  destruct (min_confidence cms <=? acc_confidence a) eqn:E3; [| constructor].
  constructor; [| constructor]. cbn [c_confidence c_key]. split.
  - apply Nat.leb_le in E3. exact E3.
  - now apply Category_eqb_eq.
Qed.

End ScanFacts.

(** ** Objects *)

Lemma obj_get_set_same {V : Type} (o : Obj V) (k : string) (v : V) :
  obj_get (obj_set o k v) k = Some v.
Proof.
  induction o as [| [k' v'] o IH]; simpl.
  - now rewrite String.eqb_refl.
  - destruct (String.eqb k' k) eqn:E; simpl; rewrite E; [reflexivity | exact IH].
Qed.

Lemma obj_get_set_other {V : Type} (o : Obj V) (k k' : string) (v : V) :
  k <> k' -> obj_get (obj_set o k v) k' = obj_get o k'.
Proof.
  intro Hne. induction o as [| [k0 v0] o IH]; simpl.
  - destruct (String.eqb k k') eqn:E; [apply String.eqb_eq in E; congruence | reflexivity].
  - destruct (String.eqb k0 k) eqn:E; simpl.
    + apply String.eqb_eq in E. subst k0.
      destruct (String.eqb k k') eqn:E'; [apply String.eqb_eq in E'; congruence | reflexivity].
    + destruct (String.eqb k0 k'); [reflexivity | exact IH].
Qed.

(** ** The Tier-2 merge of runtime detections *)

Lemma merge_one_other (tech : string) (acc : Technologies * Obj TechMeta) (c : Category) :
  c <> frontend ->
  tech_get (fst (merge_browser_tech tech acc)) c = tech_get (fst acc) c.
Proof.
  intro Hc. unfold merge_browser_tech. destruct acc as [t m].
  destruct (mapBrowserTechToKey tech) as [key |]; [| reflexivity].
  cbn [fst].
  destruct (Category_eqb (getCategoryForTech key) frontend && _); [| reflexivity].
  apply tech_get_set_other. congruence.
Qed.

Lemma merge_one_frontend (tech : string) (acc : Technologies * Obj TechMeta) :
  exists added,
    t_frontend (fst (merge_browser_tech tech acc)) = t_frontend (fst acc) ++ added
    /\ Forall (runtime_frontend_name [tech]) added.
Proof.
  unfold merge_browser_tech. destruct acc as [t m].
  destruct (mapBrowserTechToKey tech) as [key |] eqn:Ek.
  - cbn [fst].
    destruct (Category_eqb (getCategoryForTech key) frontend) eqn:Ec; cbn [andb].
    + destruct (negb _).
      * exists [formatTechName (humanizeTechName key) None]. split.
        -- now destruct t.
        -- constructor; [| constructor].
           exists tech, key. repeat split; auto.
           ++ now left.
           ++ now apply Category_eqb_eq.
      * exists []. split; [now rewrite app_nil_r | constructor].
    + exists []. split; [now rewrite app_nil_r | constructor].
  - exists []. split; [now rewrite app_nil_r | constructor].
Qed.

Lemma merge_one_matches (tech : string) (acc : Technologies * Obj TechMeta) (key : string) :
  match mapBrowserTechToKey tech with
  | Some k =>
      if String.eqb k key
      then exists meta,
             obj_get (snd (merge_browser_tech tech acc)) key = Some meta
             /\ confidence meta = Nat.max (conf_of (snd acc) key) 3
      else obj_get (snd (merge_browser_tech tech acc)) key = obj_get (snd acc) key
  | None => obj_get (snd (merge_browser_tech tech acc)) key = obj_get (snd acc) key
  end.
Proof.
  unfold merge_browser_tech. destruct acc as [t m].
  destruct (mapBrowserTechToKey tech) as [k |]; [| reflexivity].
  cbn [snd]. destruct (String.eqb k key) eqn:E.
  - apply String.eqb_eq in E. subst k.
    rewrite obj_get_set_same. eexists. split; [reflexivity |].
    unfold conf_of. now destruct (obj_get m key).
  - apply obj_get_set_other. intro Heq. subst. now rewrite String.eqb_refl in E.
Qed.

Lemma runtime_frontend_name_mono (l1 l2 : list string) (name : string) :
  (forall t, In t l1 -> In t l2) ->
  runtime_frontend_name l1 name -> runtime_frontend_name l2 name.
Proof.
  intros Hsub [tech [key [Hin H]]]. exists tech, key. split; auto.
Qed.

Lemma merge_fold_other (browserTechs : list string) (acc : Technologies * Obj TechMeta)
    (c : Category) :
  c <> frontend ->
  tech_get (fst (fold_left (fun acc tech => merge_browser_tech tech acc) browserTechs acc)) c
  = tech_get (fst acc) c.
Proof.
  intro Hc. revert acc. induction browserTechs as [| tech l IH]; intro acc; simpl.
  - reflexivity.
  - rewrite IH. now apply merge_one_other.
Qed.

Lemma merge_fold_frontend (browserTechs : list string) (acc : Technologies * Obj TechMeta) :
  exists added,
    t_frontend (fst (fold_left (fun acc tech => merge_browser_tech tech acc) browserTechs acc))
    = t_frontend (fst acc) ++ added
    /\ Forall (runtime_frontend_name browserTechs) added.
Proof.
  revert acc. induction browserTechs as [| tech l IH]; intro acc; simpl.
  - exists []. split; [now rewrite app_nil_r | constructor].
  - destruct (IH (merge_browser_tech tech acc)) as [added2 [H2 F2]].
    destruct (merge_one_frontend tech acc) as [added1 [H1 F1]].
    exists (added1 ++ added2). split.
    + rewrite H2, H1. now rewrite app_assoc.
    + apply Forall_app. split.
      * eapply Forall_impl; [| exact F1]. intro name.
        apply runtime_frontend_name_mono. intros t [<- | []]. now left.
      * eapply Forall_impl; [| exact F2]. intro name.
        apply runtime_frontend_name_mono. intros t Ht. now right.
Qed.

Lemma merge_fold_untouched (browserTechs : list string) (acc : Technologies * Obj TechMeta)
    (key : string) :
  (forall tech, In tech browserTechs -> mapBrowserTechToKey tech <> Some key) ->
  obj_get (snd (fold_left (fun acc tech => merge_browser_tech tech acc) browserTechs acc)) key
  = obj_get (snd acc) key.
Proof.
  revert acc. induction browserTechs as [| tech l IH]; intros acc Hno; simpl.
  - reflexivity.
  - rewrite IH by (intros t Ht; apply Hno; now right).
    pose proof (merge_one_matches tech acc key) as H1.
    destruct (mapBrowserTechToKey tech) as [k |] eqn:Ek; [| exact H1].
    destruct (String.eqb k key) eqn:E; [| exact H1].
    apply String.eqb_eq in E. subst k. exfalso. apply (Hno tech); [now left | assumption].
Qed.

Lemma merge_fold_matches (browserTechs : list string) (acc : Technologies * Obj TechMeta)
    (key : string) :
  existsb (maps_to key) browserTechs = true ->
  exists meta,
    obj_get (snd (fold_left (fun acc tech => merge_browser_tech tech acc) browserTechs acc)) key
    = Some meta
    /\ confidence meta = Nat.max (conf_of (snd acc) key) 3.
Proof.
  revert acc. induction browserTechs as [| tech l IH]; intros acc Hex; simpl in *.
  - discriminate.
  - pose proof (merge_one_matches tech acc key) as H1.
    destruct (existsb (maps_to key) l) eqn:El.
    + destruct (IH (merge_browser_tech tech acc) eq_refl) as [meta [Hget Hconf]].
      exists meta. split; [assumption |]. rewrite Hconf.
      unfold maps_to in Hex.
      destruct (mapBrowserTechToKey tech) as [k |].
      * destruct (String.eqb k key).
        -- destruct H1 as [m1 [Hg1 Hc1]]. unfold conf_of at 1. rewrite Hg1, Hc1. lia.
        -- unfold conf_of. now rewrite H1.
      * unfold conf_of. now rewrite H1.
    + rewrite orb_false_r in Hex. unfold maps_to in Hex.
      rewrite merge_fold_untouched.
      * destruct (mapBrowserTechToKey tech) as [k |]; [| discriminate].
        rewrite Hex in H1. exact H1.
      * intros t Ht Hmap.
        assert (Hc : existsb (maps_to key) l = true).
        { apply existsb_exists. exists t. split; [assumption |].
          unfold maps_to. rewrite Hmap. apply String.eqb_refl. }
        congruence.
Qed.

(** ** Lists without repetition *)

Lemma unique_In (l seen : list string) (x : string) :
  In x (unique l seen) <-> In x l /\ ~ In x seen.
Proof.
  revert seen. induction l as [| a l IH]; intro seen; simpl.
  - tauto.
  - destruct (existsb (String.eqb a) seen) eqn:E.
    + rewrite IH. apply existsb_eqb_In in E. split.
      * intros [H1 H2]. auto.
      * intros [[-> | H1] H2]; [contradiction | auto].
    + assert (Hn : ~ In a seen).
      { intro Hin. apply existsb_eqb_In in Hin. congruence. }
      simpl. rewrite IH. simpl. split.
      * intros [-> | [H1 H2]]; [auto | split; [auto | tauto]].
      * intros [[-> | H1] H2]; [now left |].
        destruct (string_dec a x) as [-> | Hne]; [now left | right].
        split; [assumption |]. intros [Heq | Hin]; [congruence | contradiction].
Qed.

Lemma unique_NoDup (l seen : list string) : NoDup (unique l seen).
Proof.
  revert seen. induction l as [| a l IH]; intro seen; simpl.
  - constructor.
  - destruct (existsb (String.eqb a) seen); [apply IH |].
    constructor; [| apply IH].
    intro Hin. apply unique_In in Hin. destruct Hin as [_ Hn]. apply Hn. now left.
Qed.

Lemma unique_In_nil (l : list string) (x : string) : In x (unique l []) <-> In x l.
Proof. rewrite unique_In. simpl. tauto. Qed.

(** ** The handlers, step by step *)

Section ActorFacts.

Variable cheerioLoad : string -> Document.
Variable input : Input.

Lemma url_static_result (u : string) (f : Fetched) :
  url (static_result cheerioLoad input u f) = u.
Proof. reflexivity. Qed.

Lemma status_static_result (u : string) (f : Fetched) :
  status (static_result cheerioLoad input u f) = "success".
Proof. reflexivity. Qed.

Lemma technologies_static_result (u : string) (f : Fetched) :
  technologies (static_result cheerioLoad input u f)
  = Some (tech_map deduplicateArray
            (a_technologies (analyzeStaticResponse cheerioLoad (f_body f) (f_headers f) u))).
Proof. reflexivity. Qed.

Lemma url_browser_result (u html : string) (headers : Headers) (win : Window)
    (old : ScanResult) :
  url (browser_result cheerioLoad u html headers win old) = url old.
Proof.
  unfold browser_result.
  destruct (merge_browser_techs _ _ _). reflexivity.
Qed.

Lemma technologies_browser_result (u html : string) (headers : Headers) (win : Window)
    (old : ScanResult) :
  technologies (browser_result cheerioLoad u html headers win old)
  = Some (tech_map deduplicateArray
            (fst (merge_browser_techs (detect_globals win)
                    (a_technologies (analyzeStaticResponse cheerioLoad html headers u))
                    (a_techMatches (analyzeStaticResponse cheerioLoad html headers u))))).
Proof.
  unfold browser_result.
  destruct (merge_browser_techs _ _ _). reflexivity.
Qed.

Lemma requested_In (u : string) : requested input u = true <-> In u (urls input).
Proof. apply existsb_eqb_In. Qed.

(** The state a run of the static handler leaves. *)
Lemma cheerio_handler_state (u : string) (f : Fetched) (st : ActorState) :
  snd (cheerio_requestHandler cheerioLoad input u f st)
  = mk_ActorState (results st ++ run_results cheerioLoad input u f)
      (dataset st ++ run_stored cheerioLoad input u f)
      (processedCount st + (if counted f then 1 else 0)).
Proof.
  unfold cheerio_requestHandler, run_results, run_stored, counted.
  generalize (static_result cheerioLoad input u f) as clean.
  generalize (failedResult u) as failed.
  intros failed clean.
  unfold try_catch, bind, await, push_result, pushData, count_processed, modify.
  destruct (f_fault f) as [msg |].
  - destruct (f_stored_catch f) as [[] | m];
      cbn [fst snd results dataset processedCount];
      now rewrite ?app_nil_r, Nat.add_0_r.
  - destruct (f_stored f) as [[] | m].
    + cbn [fst snd results dataset processedCount]. now rewrite Nat.add_1_r.
    + destruct (f_stored_catch f) as [[] | m'];
        cbn [fst snd results dataset processedCount];
        now rewrite ?app_nil_r, <- app_assoc, Nat.add_0_r.
Qed.

Lemma tier1_step_state (st : ActorState) (run : string * Fetched) :
  tier1_step cheerioLoad input st run
  = if requested input (fst run)
    then mk_ActorState
           (results st ++ run_results cheerioLoad input (fst run) (snd run))
           (dataset st ++ run_stored cheerioLoad input (fst run) (snd run))
           (processedCount st + (if counted (snd run) then 1 else 0))
    else st.
Proof.
  unfold tier1_step. destruct (requested input (fst run)); [| reflexivity].
  apply cheerio_handler_state.
Qed.

(** The state the static pass leaves. *)
Lemma phase1_state (fetch : list (string * Fetched)) (st : ActorState) :
  phase1 cheerioLoad input fetch st
  = mk_ActorState
      (results st
       ++ flat_map (fun run => run_results cheerioLoad input (fst run) (snd run))
            (served input fetch))
      (dataset st
       ++ flat_map (fun run => run_stored cheerioLoad input (fst run) (snd run))
            (served input fetch))
      (processedCount st
       + List.length (filter (fun run => counted (snd run)) (served input fetch))).
Proof.
  unfold phase1, served. revert st.
  induction fetch as [| run fetch IH]; intro st; cbn [fold_left filter flat_map].
  - rewrite !app_nil_r. cbn [List.length]. rewrite Nat.add_0_r. now destruct st.
  - rewrite IH, tier1_step_state.
    destruct (requested input (fst run)); [| reflexivity].
    cbn [results dataset processedCount flat_map filter].
    rewrite <- !app_assoc.
    destruct (counted (snd run)); cbn [List.length]; f_equal; lia.
Qed.

Lemma run_results_In (u : string) (f : Fetched) (r : ScanResult) :
  In r (run_results cheerioLoad input u f) ->
  (f_fault f = None /\ r = static_result cheerioLoad input u f)
  \/ exists msg, r = failedResult u msg (f_now_catch f).
Proof.
  unfold run_results. destruct (f_fault f) as [msg |].
  - intros [<- | []]. right. now exists msg.
  - destruct (f_stored f) as [[] | msg].
    + intros [<- | []]. now left.
    + intros [<- | [<- | []]]; [now left | right; now exists msg].
Qed.

Lemma run_results_url (u : string) (f : Fetched) (r : ScanResult) :
  In r (run_results cheerioLoad input u f) -> url r = u.
Proof.
  intro H. apply run_results_In in H.
  destruct H as [[_ ->] | [msg ->]]; reflexivity.
Qed.

Lemma run_results_static (u : string) (f : Fetched) :
  f_fault f = None ->
  exists tl, run_results cheerioLoad input u f = static_result cheerioLoad input u f :: tl.
Proof.
  intro H. unfold run_results. rewrite H.
  destruct (f_stored f) as [[] | msg]; eexists; reflexivity.
Qed.

Lemma run_stored_incl (u : string) (f : Fetched) (r : ScanResult) :
  In r (run_stored cheerioLoad input u f) -> In r (run_results cheerioLoad input u f).
Proof.
  unfold run_stored, run_results. destruct (f_fault f) as [msg |].
  - destruct (f_stored_catch f); [exact (fun H => H) | contradiction].
  - destruct (f_stored f) as [[] | msg]; [exact (fun H => H) |].
    destruct (f_stored_catch f); [| contradiction].
    intros [<- | []]. right. now left.
Qed.

Lemma run_stored_length (u : string) (f : Fetched) :
  List.length (run_stored cheerioLoad input u f) = if stores f then 1 else 0.
Proof.
  unfold run_stored, stores, counted. destruct (f_fault f) as [msg |].
  - now destruct (f_stored_catch f).
  - destruct (f_stored f) as [[] | msg]; [reflexivity |].
    now destruct (f_stored_catch f).
Qed.

(** The state a run of the browser handler leaves. *)
Lemma playwright_handler_state (u : string) (v : Visit) (st : ActorState) :
  snd (playwright_requestHandler cheerioLoad u v st)
  = match tier2_record cheerioLoad st u v with
    | None => st
    | Some r =>
        mk_ActorState (replace_result u r (results st))
          (dataset st ++ (if visit_stores v then [r] else []))
          (processedCount st)
    end.
Proof.
  unfold playwright_requestHandler, tier2_record, visit_stores, visited, visit_ok,
    visit_headers, try_catch, bind, await, get_state, set_result, pushData, modify, ret.
  destruct (vis_load v) as [[] | m1]; [| reflexivity].
  destruct (vis_content v) as [html | m2]; [| reflexivity].
  destruct (vis_window v) as [win | m3]; [| reflexivity].
  destruct (find_result u (results st)); [| reflexivity].
  destruct (vis_stored v) as [[] | m4]; cbn [fst snd andb results dataset processedCount].
  - reflexivity.
  - now rewrite app_nil_r.
Qed.

Lemma tier2_step_state (queue : list string) (st : ActorState) (run : string * LaterRun) :
  tier2_step cheerioLoad input queue st run
  = match snd run with
    | Rendering v =>
        if existsb (String.eqb (fst run)) queue
        then match tier2_record cheerioLoad st (fst run) v with
             | None => st
             | Some r =>
                 mk_ActorState (replace_result (fst run) r (results st))
                   (dataset st ++ (if visit_stores v then [r] else []))
                   (processedCount st)
             end
        else st
    | Overdue f =>
        if requested input (fst run)
        then mk_ActorState
               (results st ++ run_results cheerioLoad input (fst run) f)
               (dataset st ++ run_stored cheerioLoad input (fst run) f)
               (processedCount st + (if counted f then 1 else 0))
        else st
    end.
Proof.
  unfold tier2_step. destruct (snd run) as [v | f].
  - destruct (existsb _ queue); [| reflexivity].
    apply playwright_handler_state.
  - apply tier1_step_state.
Qed.

End ActorFacts.

(** ** Which urls reach the browser pass *)

Section Selection.

Variable cheerioLoad : string -> Document.
Variable input : Input.

Lemma needs_browser_static (u : string) (f : Fetched) :
  needs_browser (static_result cheerioLoad input u f) = true
  <-> tech_flat (a_technologies
                   (analyzeStaticResponse cheerioLoad (f_body f) (f_headers f) u)) = [].
Proof.
  unfold needs_browser.
  rewrite status_static_result, technologies_static_result.
  cbn [String.eqb Ascii.eqb Bool.eqb andb].
  rewrite Nat.eqb_eq, length_zero_iff_nil.
  apply tech_flat_map_dedup_nil.
Qed.

Lemma needs_browser_failed (u msg now : string) :
  needs_browser (failedResult u msg now) = false.
Proof. reflexivity. Qed.

Lemma spaUrls_In (rs : list ScanResult) (u : string) :
  In u (spaUrls rs) <-> exists r, In r rs /\ url r = u /\ needs_browser r = true.
Proof.
  unfold spaUrls. rewrite in_map_iff. split.
  - intros [r [Hu Hr]]. apply filter_In in Hr. exists r. tauto.
  - intros [r [Hr [Hu Hn]]]. exists r. split; [assumption |]. now apply filter_In.
Qed.

Lemma after_static_state (fetch : list (string * Fetched)) :
  after_static cheerioLoad input fetch
  = mk_ActorState
      (flat_map (fun run => run_results cheerioLoad input (fst run) (snd run))
         (served input fetch))
      (flat_map (fun run => run_stored cheerioLoad input (fst run) (snd run))
         (served input fetch))
      (List.length (filter (fun run => counted (snd run)) (served input fetch))).
Proof. unfold after_static. now rewrite phase1_state. Qed.

Lemma served_In (fetch : list (string * Fetched)) (u : string) (f : Fetched) :
  In (u, f) (served input fetch) <-> In u (urls input) /\ In (u, f) fetch.
Proof.
  unfold served. rewrite filter_In. cbn [fst]. rewrite requested_In. tauto.
Qed.

(** A url is in [spaUrls] after the static pass exactly when some run of
    the handler for it got through the analysis and listed nothing. *)
Lemma spaUrls_static (fetch : list (string * Fetched)) (u : string) :
  In u (spaUrls (results (after_static cheerioLoad input fetch)))
  <-> In u (urls input)
      /\ exists f, In (u, f) fetch /\ f_fault f = None
           /\ tech_flat (a_technologies
                           (analyzeStaticResponse cheerioLoad (f_body f) (f_headers f) u)) = [].
Proof.
  rewrite after_static_state. cbn [results]. rewrite spaUrls_In. split.
  - intros [r [Hr [Hu Hn]]].
    apply in_flat_map in Hr. destruct Hr as [[u' f] [Hq Hr]]. cbn [fst snd] in Hr.
    pose proof (run_results_url _ _ _ _ _ Hr) as Hu'.
    rewrite Hu in Hu'. subst u'.
    apply served_In in Hq. destruct Hq as [Hq Hin]. split; [exact Hq |].
    exists f. split; [exact Hin |].
    apply run_results_In in Hr. destruct Hr as [[Hfault ->] | [msg ->]].
    + split; [exact Hfault |]. now apply needs_browser_static.
    + rewrite needs_browser_failed in Hn. discriminate.
  - intros [Hq [f [Hf [Hfault Hflat]]]].
    exists (static_result cheerioLoad input u f). repeat split.
    + apply in_flat_map. exists (u, f).
      split; [apply served_In; split; assumption |].
      cbn [fst snd]. destruct (run_results_static cheerioLoad input u f Hfault) as [tl ->].
      left. reflexivity.
    + now apply needs_browser_static.
Qed.

End Selection.



(** ** Updating a record in place *)

Lemma find_result_url (u : string) (l : list ScanResult) (r : ScanResult) :
  find_result u l = Some r -> url r = u /\ In r l.
Proof.
  induction l as [| a l IH]; simpl; [discriminate |].
  destruct (String.eqb (url a) u) eqn:E.
  - intro H. injection H as <-. apply String.eqb_eq in E. auto.
  - intro H. destruct (IH H). auto.
Qed.

Lemma find_result_some_iff (u : string) (l : list ScanResult) :
  (exists r, find_result u l = Some r) <-> In u (map url l).
Proof.
  induction l as [| a l IH]; simpl.
  - split; [intros [r H]; discriminate | contradiction].
  - destruct (String.eqb (url a) u) eqn:E.
    + apply String.eqb_eq in E. split; [auto | eauto].
    + rewrite IH. apply String.eqb_neq in E. tauto.
Qed.

Lemma replace_result_urls (u : string) (r' : ScanResult) (l : list ScanResult) :
  url r' = u -> map url (replace_result u r' l) = map url l.
Proof.
  intro Hu. induction l as [| a l IH]; simpl; [reflexivity |].
  destruct (String.eqb (url a) u) eqn:E; simpl.
  - apply String.eqb_eq in E. congruence.
  - now rewrite IH.
Qed.

Lemma find_result_replace_same (u : string) (r' old : ScanResult) (l : list ScanResult) :
  url r' = u -> find_result u l = Some old ->
  find_result u (replace_result u r' l) = Some r'.
Proof.
  intros Hu. induction l as [| a l IH]; simpl; [discriminate |].
  destruct (String.eqb (url a) u) eqn:E; simpl.
  - intros _. rewrite Hu, String.eqb_refl. reflexivity.
  - rewrite E. exact IH.
Qed.

Lemma count_url_app (u : string) (l1 l2 : list ScanResult) :
  count_url u (l1 ++ l2) = count_url u l1 + count_url u l2.
Proof. unfold count_url. now rewrite filter_app, length_app. Qed.

Lemma count_url_records (u : string) (l : list ScanResult) :
  count_url u l = List.length (records_of u l).
Proof. reflexivity. Qed.

Lemma records_of_app (u : string) (l1 l2 : list ScanResult) :
  records_of u (l1 ++ l2) = records_of u l1 ++ records_of u l2.
Proof. apply filter_app. Qed.

Lemma records_of_In (u : string) (l : list ScanResult) (r : ScanResult) :
  In r (records_of u l) <-> In r l /\ url r = u.
Proof. unfold records_of. rewrite filter_In, String.eqb_eq. tauto. Qed.

Lemma records_of_other (u : string) (l : list ScanResult) :
  (forall r, In r l -> url r <> u) -> records_of u l = [].
Proof.
  induction l as [| a l IH]; intro H; cbn [records_of filter]; [reflexivity |].
  assert (E : String.eqb (url a) u = false).
  { apply String.eqb_neq. apply H. now left. }
  rewrite E. apply IH. intros r Hr. apply H. now right.
Qed.

Lemma records_of_all (u : string) (l : list ScanResult) :
  (forall r, In r l -> url r = u) -> records_of u l = l.
Proof.
  induction l as [| a l IH]; intro H; cbn [records_of filter]; [reflexivity |].
  rewrite (H a) by (now left). rewrite String.eqb_refl. f_equal.
  apply IH. intros r Hr. apply H. now right.
Qed.

(** [findIndex] finds the first record of the url. *)
Lemma find_result_records (u : string) (l : list ScanResult) :
  find_result u l = hd_error (records_of u l).
Proof.
  induction l as [| a l IH]; cbn [find_result records_of filter]; [reflexivity |].
  destruct (String.eqb (url a) u); [reflexivity | exact IH].
Qed.

Lemma records_of_replace_other (u u' : string) (r' : ScanResult) (l : list ScanResult) :
  url r' = u' -> u <> u' ->
  records_of u (replace_result u' r' l) = records_of u l.
Proof.
  intros Hu Hne. induction l as [| a l IH]; [reflexivity |].
  cbn [replace_result]. destruct (String.eqb (url a) u') eqn:E.
  - apply String.eqb_eq in E. cbn [records_of filter].
    assert (E1 : String.eqb (url r') u = false) by (apply String.eqb_neq; congruence).
    assert (E2 : String.eqb (url a) u = false) by (apply String.eqb_neq; congruence).
    now rewrite E1, E2.
  - cbn [records_of filter]. fold (records_of u (replace_result u' r' l)).
    fold (records_of u l). now rewrite IH.
Qed.

Lemma runs_for_In {A : Type} (u : string) (runs : list (string * A)) (a : A) :
  In a (runs_for u runs) <-> In (u, a) runs.
Proof.
  unfold runs_for. rewrite in_map_iff. split.
  - intros [[u' a'] [Ha Hin]]. cbn [snd] in Ha. subst a'.
    apply filter_In in Hin. destruct Hin as [Hin E]. cbn [fst] in E.
    apply String.eqb_eq in E. now subst u'.
  - intro Hin. exists (u, a). split; [reflexivity |].
    apply filter_In. split; [exact Hin | apply String.eqb_refl].
Qed.

Lemma find_result_app_some (u : string) (l1 l2 : list ScanResult) (r : ScanResult) :
  find_result u l1 = Some r -> find_result u (l1 ++ l2) = Some r.
Proof.
  induction l1 as [| a l1 IH]; cbn [find_result app]; [discriminate |].
  destruct (String.eqb (url a) u); [exact (fun H => H) | exact IH].
Qed.

(** ** The static pass over its runs *)

Section StaticPass.

Variable cheerioLoad : string -> Document.
Variable input : Input.

Lemma runs_for_served (u : string) (fetch : list (string * Fetched)) :
  runs_for u (served input fetch) = if requested input u then runs_for u fetch else [].
Proof.
  unfold runs_for, served.
  induction fetch as [| [q f] fetch IH]; cbn [filter map fst].
  - now destruct (requested input u).
  - destruct (String.eqb q u) eqn:E.
    + apply String.eqb_eq in E. subst q.
      destruct (requested input u) eqn:Er; cbn [filter map fst snd].
      * rewrite String.eqb_refl. cbn [map snd]. now rewrite IH.
      * exact IH.
    + destruct (requested input q); cbn [filter map fst]; [rewrite E |]; exact IH.
Qed.

Lemma records_of_runs (g : string -> Fetched -> list ScanResult) (u : string)
    (l : list (string * Fetched)) :
  (forall q f r, In r (g q f) -> url r = q) ->
  records_of u (flat_map (fun run => g (fst run) (snd run)) l)
  = flat_map (g u) (runs_for u l).
Proof.
  intro Hg. unfold runs_for.
  induction l as [| [q f] l IH]; cbn [flat_map filter map fst snd]; [reflexivity |].
  rewrite records_of_app, IH.
  destruct (String.eqb q u) eqn:E.
  - apply String.eqb_eq in E. subst q. cbn [map flat_map snd]. f_equal.
    apply records_of_all. intros r Hr. now apply Hg in Hr.
  - apply String.eqb_neq in E. rewrite records_of_other; [reflexivity |].
    intros r Hr. apply Hg in Hr. congruence.
Qed.

Lemma run_stored_url (u : string) (f : Fetched) (r : ScanResult) :
  In r (run_stored cheerioLoad input u f) -> url r = u.
Proof. intro H. apply run_stored_incl in H. now apply run_results_url in H. Qed.

(** The records of a url after the static pass, run by run. *)
Lemma after_static_records (fetch : list (string * Fetched)) (u : string) :
  records_of u (results (after_static cheerioLoad input fetch))
  = flat_map (run_results cheerioLoad input u) (runs_for u (served input fetch))
  /\ records_of u (dataset (after_static cheerioLoad input fetch))
     = flat_map (run_stored cheerioLoad input u) (runs_for u (served input fetch)).
Proof.
  rewrite after_static_state. cbn [results dataset]. split.
  - apply (records_of_runs (run_results cheerioLoad input)).
    intros q f r. apply run_results_url.
  - apply (records_of_runs (run_stored cheerioLoad input)).
    intros q f r. apply run_stored_url.
Qed.

Lemma count_stored (u : string) (l : list Fetched) :
  List.length (flat_map (run_stored cheerioLoad input u) l) = List.length (filter stores l).
Proof.
  induction l as [| f l IH]; cbn [flat_map filter]; [reflexivity |].
  rewrite length_app, IH, run_stored_length.
  destruct (stores f); reflexivity.
Qed.

(** The record [findIndex] finds for a url after the static pass is the
    one of the first run for it. *)
Lemma find_result_static (fetch : list (string * Fetched)) (u : string) (f : Fetched)
    (rest : list Fetched) :
  In u (urls input) -> runs_for u fetch = f :: rest -> f_fault f = None ->
  find_result u (results (after_static cheerioLoad input fetch))
  = Some (static_result cheerioLoad input u f).
Proof.
  intros Hu Hruns Hfault.
  rewrite find_result_records.
  destruct (after_static_records fetch u) as [-> _].
  rewrite runs_for_served. apply requested_In in Hu. rewrite Hu, Hruns.
  cbn [flat_map].
  destruct (run_results_static cheerioLoad input u f Hfault) as [tl ->]. reflexivity.
Qed.

Lemma after_static_incl (fetch : list (string * Fetched)) :
  incl (dataset (after_static cheerioLoad input fetch))
    (results (after_static cheerioLoad input fetch)).
Proof.
  rewrite after_static_state. cbn [results dataset]. intros r Hr.
  apply in_flat_map in Hr. destruct Hr as [run [Hrun Hr]].
  apply in_flat_map. exists run. split; [exact Hrun |]. now apply run_stored_incl.
Qed.

Lemma run_stored_static (u : string) (f : Fetched) (r : ScanResult) :
  In r (run_stored cheerioLoad input u f) -> detectionMethod r <> Some "browser".
Proof.
  intro H. apply run_stored_incl in H. apply run_results_In in H.
  destruct H as [[_ ->] | [msg ->]]; discriminate.
Qed.

Lemma served_app (l1 l2 : list (string * Fetched)) :
  served input (l1 ++ l2) = served input l1 ++ served input l2.
Proof. apply filter_app. Qed.

Lemma runs_results_app (l1 l2 : list (string * Fetched)) :
  runs_results cheerioLoad input (l1 ++ l2)
  = runs_results cheerioLoad input l1 ++ runs_results cheerioLoad input l2.
Proof. unfold runs_results. now rewrite served_app, flat_map_app. Qed.

Lemma runs_stored_app (l1 l2 : list (string * Fetched)) :
  runs_stored cheerioLoad input (l1 ++ l2)
  = runs_stored cheerioLoad input l1 ++ runs_stored cheerioLoad input l2.
Proof. unfold runs_stored. now rewrite served_app, flat_map_app. Qed.

Lemma runs_counted_app (l1 l2 : list (string * Fetched)) :
  runs_counted input (l1 ++ l2) = runs_counted input l1 + runs_counted input l2.
Proof. unfold runs_counted. now rewrite served_app, filter_app, length_app. Qed.

(** The records of a url among those of a list of runs. *)
Lemma runs_records (runs : list (string * Fetched)) (u : string) :
  records_of u (runs_results cheerioLoad input runs)
  = flat_map (run_results cheerioLoad input u) (runs_for u (served input runs))
  /\ records_of u (runs_stored cheerioLoad input runs)
     = flat_map (run_stored cheerioLoad input u) (runs_for u (served input runs)).
Proof.
  split.
  - apply (records_of_runs (run_results cheerioLoad input)).
    intros q f r. apply run_results_url.
  - apply (records_of_runs (run_stored cheerioLoad input)).
    intros q f r. apply run_stored_url.
Qed.

Lemma count_runs_stored (runs : list (string * Fetched)) (u : string) :
  count_url u (runs_stored cheerioLoad input runs)
  = if requested input u then List.length (filter stores (runs_for u runs)) else 0.
Proof.
  rewrite count_url_records.
  destruct (runs_records runs u) as [_ ->].
  rewrite count_stored, runs_for_served. now destruct (requested input u).
Qed.

Lemma runs_stored_incl (runs : list (string * Fetched)) :
  incl (runs_stored cheerioLoad input runs) (runs_results cheerioLoad input runs).
Proof.
  intros r Hr. apply in_flat_map in Hr. destruct Hr as [run [Hrun Hr]].
  apply in_flat_map. exists run. split; [exact Hrun |]. now apply run_stored_incl.
Qed.

Lemma runs_results_url (runs : list (string * Fetched)) (r : ScanResult) :
  In r (runs_results cheerioLoad input runs) -> In (url r) (map fst runs).
Proof.
  intro Hr. apply in_flat_map in Hr. destruct Hr as [[q f] [Hrun Hr]].
  cbn [fst snd] in Hr. apply run_results_url in Hr. subst q.
  apply filter_In in Hrun. destruct Hrun as [Hrun _].
  apply in_map_iff. exists (url r, f). split; [reflexivity | exact Hrun].
Qed.

End StaticPass.

(** ** The runs after the static pass *)

Lemma overdue_app (l1 l2 : list (string * LaterRun)) :
  overdue (l1 ++ l2) = overdue l1 ++ overdue l2.
Proof. apply flat_map_app. Qed.

Lemma overdue_cons (run : string * LaterRun) (later : list (string * LaterRun)) :
  overdue (run :: later) = overdue [run] ++ overdue later.
Proof. exact (overdue_app [run] later). Qed.

Lemma overdue_In (later : list (string * LaterRun)) (u : string) (f : Fetched) :
  In (u, f) (overdue later) <-> In (u, Overdue f) later.
Proof.
  unfold overdue. rewrite in_flat_map. split.
  - intros [[q [v | g]] [Hin H]]; cbn [fst snd] in H; [contradiction |].
    destruct H as [H | []]. injection H as -> ->. exact Hin.
  - intro Hin. exists (u, Overdue f). split; [exact Hin | now left].
Qed.

Lemma renderings_In (later : list (string * LaterRun)) (u : string) (v : Visit) :
  In (u, v) (renderings later) <-> In (u, Rendering v) later.
Proof.
  unfold renderings. rewrite in_flat_map. split.
  - intros [[q [w | g]] [Hin H]]; cbn [fst snd] in H; [| contradiction].
    destruct H as [H | []]. injection H as -> ->. exact Hin.
  - intro Hin. exists (u, Rendering v). split; [exact Hin | now left].
Qed.

Section BrowserPass.

Variable cheerioLoad : string -> Document.
Variable input : Input.
Variable queue : list string.

Lemma detectionMethod_browser_result (u html : string) (headers : Headers) (win : Window)
    (old : ScanResult) :
  detectionMethod (browser_result cheerioLoad u html headers win old) = Some "browser".
Proof. unfold browser_result. destruct (merge_browser_techs _ _ _). reflexivity. Qed.

Lemma tier2_record_url (st : ActorState) (u : string) (v : Visit) (r : ScanResult) :
  tier2_record cheerioLoad st u v = Some r -> url r = u.
Proof.
  unfold tier2_record.
  destruct (visit_ok v) as [[html win] |]; [| discriminate].
  destruct (find_result u (results st)) as [old |] eqn:E; [| discriminate].
  intro H. injection H as <-. rewrite url_browser_result.
  now apply find_result_url in E.
Qed.

Lemma tier2_record_method (st : ActorState) (u : string) (v : Visit) (r : ScanResult) :
  tier2_record cheerioLoad st u v = Some r -> detectionMethod r = Some "browser".
Proof.
  unfold tier2_record.
  destruct (visit_ok v) as [[html win] |]; [| discriminate].
  destruct (find_result u (results st)) as [old |]; [| discriminate].
  intro H. injection H as <-. apply detectionMethod_browser_result.
Qed.

Lemma tier2_record_fails (st : ActorState) (u : string) (v : Visit) :
  visit_ok v = None -> tier2_record cheerioLoad st u v = None.
Proof. unfold tier2_record. now intros ->. Qed.

(** A run of the browser handler. *)
Lemma tier2_step_rendering (st : ActorState) (u : string) (v : Visit) :
  tier2_step cheerioLoad input queue st (u, Rendering v)
  = if existsb (String.eqb u) queue
    then match tier2_record cheerioLoad st u v with
         | None => st
         | Some r =>
             mk_ActorState (replace_result u r (results st))
               (dataset st ++ (if visit_stores v then [r] else []))
               (processedCount st)
         end
    else st.
Proof. now rewrite tier2_step_state. Qed.

Lemma runs_results_one (u : string) (f : Fetched) :
  runs_results cheerioLoad input [(u, f)]
  = if requested input u then run_results cheerioLoad input u f else [].
Proof.
  unfold runs_results, served. cbn [filter fst].
  destruct (requested input u); cbn [flat_map fst snd]; [apply app_nil_r | reflexivity].
Qed.

Lemma runs_stored_one (u : string) (f : Fetched) :
  runs_stored cheerioLoad input [(u, f)]
  = if requested input u then run_stored cheerioLoad input u f else [].
Proof.
  unfold runs_stored, served. cbn [filter fst].
  destruct (requested input u); cbn [flat_map fst snd]; [apply app_nil_r | reflexivity].
Qed.

Lemma runs_counted_one (u : string) (f : Fetched) :
  runs_counted input [(u, f)] = if requested input u && counted f then 1 else 0.
Proof.
  unfold runs_counted, served. cbn [filter fst].
  destruct (requested input u); cbn [filter snd andb]; [| reflexivity].
  now destruct (counted f).
Qed.

(** An overdue run of the static handler. *)
Lemma tier2_step_overdue (st : ActorState) (u : string) (f : Fetched) :
  tier2_step cheerioLoad input queue st (u, Overdue f)
  = mk_ActorState (results st ++ runs_results cheerioLoad input [(u, f)])
      (dataset st ++ runs_stored cheerioLoad input [(u, f)])
      (processedCount st + runs_counted input [(u, f)]).
Proof.
  rewrite tier2_step_state. cbn [fst snd].
  rewrite runs_results_one, runs_stored_one, runs_counted_one.
  destruct (requested input u); cbn [andb]; [reflexivity |].
  rewrite !app_nil_r, Nat.add_0_r. now destruct st.
Qed.

Lemma overdue_rendering (u : string) (v : Visit) : overdue [(u, Rendering v)] = [].
Proof. reflexivity. Qed.

Lemma overdue_overdue (u : string) (f : Fetched) : overdue [(u, Overdue f)] = [(u, f)].
Proof. reflexivity. Qed.

Lemma runs_results_nil : runs_results cheerioLoad input [] = [].
Proof. reflexivity. Qed.

Lemma runs_stored_nil : runs_stored cheerioLoad input [] = [].
Proof. reflexivity. Qed.

Lemma tier2_step_urls (st : ActorState) (run : string * LaterRun) :
  map url (results (tier2_step cheerioLoad input queue st run))
  = map url (results st) ++ map url (runs_results cheerioLoad input (overdue [run])).
Proof.
  destruct run as [u [v | f]].
  - rewrite tier2_step_rendering, overdue_rendering, runs_results_nil.
    cbn [map]. rewrite app_nil_r.
    destruct (existsb _ queue); [| reflexivity].
    destruct (tier2_record cheerioLoad st u v) as [r |] eqn:E; [| reflexivity].
    cbn [results]. apply replace_result_urls. now apply tier2_record_url in E.
  - rewrite tier2_step_overdue, overdue_overdue. cbn [results]. apply map_app.
Qed.

(** The urls of [results]: those the static pass left, then those of the
    overdue runs. *)
Lemma tier2_fold_urls (later : list (string * LaterRun)) (st : ActorState) :
  map url (results (fold_left (tier2_step cheerioLoad input queue) later st))
  = map url (results st) ++ map url (runs_results cheerioLoad input (overdue later)).
Proof.
  revert st. induction later as [| run later IH]; intro st; cbn [fold_left].
  - cbn [overdue flat_map]. rewrite runs_results_nil. cbn [map]. now rewrite app_nil_r.
  - rewrite IH, tier2_step_urls, (overdue_cons run later), runs_results_app, map_app.
    now rewrite app_assoc.
Qed.

Lemma tier2_step_urls_grow (st : ActorState) (run : string * LaterRun) (q : string) :
  In q (map url (results st)) ->
  In q (map url (results (tier2_step cheerioLoad input queue st run))).
Proof. intro H. rewrite tier2_step_urls. apply in_or_app. now left. Qed.

Lemma tier2_fold_count (later : list (string * LaterRun)) (st : ActorState) :
  processedCount (fold_left (tier2_step cheerioLoad input queue) later st)
  = processedCount st + runs_counted input (overdue later).
Proof.
  revert st. induction later as [| [u [v | f]] later IH]; intro st; cbn [fold_left].
  - unfold runs_counted. cbn [overdue flat_map served filter List.length]. lia.
  - rewrite IH, tier2_step_rendering, (overdue_cons (u, Rendering v) later), runs_counted_app.
    rewrite overdue_rendering.
    assert (H0 : runs_counted input [] = 0) by reflexivity. rewrite H0.
    destruct (existsb _ queue); [| lia].
    destruct (tier2_record cheerioLoad st u v); cbn [processedCount]; lia.
  - rewrite IH, tier2_step_overdue, (overdue_cons (u, Overdue f) later), runs_counted_app.
    rewrite overdue_overdue. cbn [processedCount]. lia.
Qed.

(** What a run of the browser handler appends to the dataset. *)
Lemma tier2_step_appended (st : ActorState) (u : string) (v : Visit) :
  exists more,
    dataset (tier2_step cheerioLoad input queue st (u, Rendering v)) = dataset st ++ more
    /\ Forall (fun r => url r = u /\ detectionMethod r = Some "browser") more
    /\ (In u (map url (results st)) ->
        List.length more
        = if existsb (String.eqb u) queue && visit_stores v then 1 else 0)
    /\ (existsb (String.eqb u) queue = false -> more = []).
Proof.
  rewrite tier2_step_rendering. destruct (existsb _ queue); cbn [andb].
  2:{ exists []. rewrite app_nil_r. repeat split; constructor. }
  destruct (tier2_record cheerioLoad st u v) as [r |] eqn:E.
  - cbn [dataset].
    exists (if visit_stores v then [r] else []). split; [reflexivity |].
    split; [| split; [| discriminate]].
    + destruct (visit_stores v); constructor; [| constructor].
      split; [now apply tier2_record_url in E | now apply tier2_record_method in E].
    + intros _. now destruct (visit_stores v).
  - exists []. rewrite app_nil_r. split; [reflexivity |]. split; [constructor |].
    split; [| discriminate].
    intro Hin. apply find_result_some_iff in Hin. destruct Hin as [old Hold].
    unfold tier2_record in E. rewrite Hold in E.
    unfold visit_stores, visited.
    destruct (visit_ok v) as [[html win] |]; [discriminate | reflexivity].
Qed.

(** The later runs only append to the dataset: browser records, and what the
    overdue runs of the static handler store. *)
Lemma tier2_fold_appends (later : list (string * LaterRun)) (st : ActorState) :
  exists more,
    dataset (fold_left (tier2_step cheerioLoad input queue) later st) = dataset st ++ more
    /\ Forall (fun r => detectionMethod r = Some "browser"
                        \/ In r (runs_stored cheerioLoad input (overdue later))) more.
Proof.
  revert st. induction later as [| [u [v | f]] later IH]; intro st; cbn [fold_left].
  - exists []. now rewrite app_nil_r.
  - destruct (IH (tier2_step cheerioLoad input queue st (u, Rendering v))) as [l2 [H2 F2]].
    destruct (tier2_step_appended st u v) as [l1 [H1 [F1 _]]].
    exists (l1 ++ l2). rewrite H2, H1, <- app_assoc. split; [reflexivity |].
    apply Forall_app. split.
    + eapply Forall_impl; [| exact F1]. simpl. tauto.
    + exact F2.
  - rewrite tier2_step_overdue.
    destruct (IH (mk_ActorState (results st ++ runs_results cheerioLoad input [(u, f)])
                    (dataset st ++ runs_stored cheerioLoad input [(u, f)])
                    (processedCount st + runs_counted input [(u, f)]))) as [l2 [H2 F2]].
    cbn [dataset] in H2.
    exists (runs_stored cheerioLoad input [(u, f)] ++ l2).
    rewrite H2, <- app_assoc. split; [reflexivity |].
    rewrite (overdue_cons (u, Overdue f) later), overdue_overdue, runs_stored_app.
    apply Forall_app. split.
    + apply Forall_forall. intros r Hr. right. apply in_or_app. now left.
    + eapply Forall_impl; [| exact F2]. intros r [Hb | Hin]; [now left |].
      right. apply in_or_app. now right.
Qed.

Lemma runs_for_cons_same {A : Type} (u : string) (a : A) (l : list (string * A)) :
  runs_for u ((u, a) :: l) = a :: runs_for u l.
Proof. unfold runs_for. cbn [filter fst]. now rewrite String.eqb_refl. Qed.

Lemma runs_for_cons_other {A : Type} (u q : string) (a : A) (l : list (string * A)) :
  q <> u -> runs_for u ((q, a) :: l) = runs_for u l.
Proof.
  intro H. unfold runs_for. cbn [filter fst].
  apply String.eqb_neq in H. now rewrite H.
Qed.

(** How many records of a url the later runs append to the dataset. *)
Lemma tier2_fold_dataset (later : list (string * LaterRun)) (st : ActorState) (u : string) :
  (forall q, In q queue -> In q (map url (results st))) ->
  count_url u (dataset (fold_left (tier2_step cheerioLoad input queue) later st))
  = count_url u (dataset st)
    + (if existsb (String.eqb u) queue
       then List.length (filter visit_stores (runs_for u (renderings later)))
       else 0)
    + count_url u (runs_stored cheerioLoad input (overdue later)).
Proof.
  revert st. induction later as [| [q [v | f]] later IH]; intros st Hin; cbn [fold_left].
  - cbn [renderings overdue flat_map]. rewrite runs_stored_nil.
    unfold runs_for, count_url at 3. cbn [filter map List.length].
    destruct (existsb _ queue); lia.
  - rewrite IH by (intros q' Hq'; apply tier2_step_urls_grow; now apply Hin).
    destruct (tier2_step_appended st q v) as [more [Hd [Hf [Hlen Hout]]]].
    rewrite Hd, count_url_app.
    rewrite (overdue_cons (q, Rendering v) later), overdue_rendering. cbn [app].
    change (renderings ((q, Rendering v) :: later)) with ((q, v) :: renderings later).
    destruct (string_dec q u) as [-> | Hne].
    + rewrite runs_for_cons_same. cbn [filter].
      assert (Hc : count_url u more = List.length more).
      { rewrite count_url_records, records_of_all; [reflexivity |].
        intros r Hr. rewrite Forall_forall in Hf. now destruct (Hf r Hr). }
      rewrite Hc.
      destruct (existsb (String.eqb u) queue) eqn:Eq.
      * rewrite Hlen by (apply Hin; now apply existsb_eqb_In). cbn [andb].
        destruct (visit_stores v); cbn [List.length]; lia.
      * rewrite Hout by reflexivity. cbn [List.length]. lia.
    + rewrite runs_for_cons_other by exact Hne.
      assert (Hc : count_url u more = 0).
      { rewrite count_url_records, records_of_other; [reflexivity |].
        intros r Hr. rewrite Forall_forall in Hf. destruct (Hf r Hr) as [Hu _]. congruence. }
      rewrite Hc. lia.
  - rewrite IH by (intros q' Hq'; apply tier2_step_urls_grow; now apply Hin).
    rewrite tier2_step_overdue. cbn [dataset]. rewrite count_url_app.
    rewrite (overdue_cons (q, Overdue f) later), overdue_overdue, runs_stored_app,
      count_url_app.
    change (renderings ((q, Overdue f) :: later)) with (renderings later).
    lia.
Qed.

Lemma tier2_step_other (st : ActorState) (q : string) (v : Visit) (u : string) :
  q <> u ->
  records_of u (results (tier2_step cheerioLoad input queue st (q, Rendering v)))
  = records_of u (results st)
  /\ records_of u (dataset (tier2_step cheerioLoad input queue st (q, Rendering v)))
     = records_of u (dataset st).
Proof.
  intro Hne. rewrite tier2_step_rendering. destruct (existsb _ queue); [| auto].
  destruct (tier2_record cheerioLoad st q v) as [r |] eqn:E; [| auto].
  apply tier2_record_url in E. cbn [results dataset]. split.
  - apply records_of_replace_other; [exact E | congruence].
  - rewrite records_of_app.
    rewrite (records_of_other u (if visit_stores v then [r] else [])).
    + apply app_nil_r.
    + intros r' Hr'. destruct (visit_stores v); [| contradiction].
      destruct Hr' as [<- | []]. congruence.
Qed.

Lemma tier2_step_fails (st : ActorState) (u : string) (v : Visit) :
  visit_ok v = None -> tier2_step cheerioLoad input queue st (u, Rendering v) = st.
Proof.
  intro H. rewrite tier2_step_rendering.
  rewrite tier2_record_fails by exact H. now destruct (existsb _ queue).
Qed.

(** A failing browser pass leaves the records of its url as they were;
    overdue runs of the static handler add theirs behind them. *)
Lemma tier2_fold_keeps (later : list (string * LaterRun)) (st : ActorState) (u : string) :
  browser_pass_fails later u ->
  records_of u (results (fold_left (tier2_step cheerioLoad input queue) later st))
  = records_of u (results st)
    ++ records_of u (runs_results cheerioLoad input (overdue later))
  /\ records_of u (dataset (fold_left (tier2_step cheerioLoad input queue) later st))
     = records_of u (dataset st)
       ++ records_of u (runs_stored cheerioLoad input (overdue later)).
Proof.
  revert st. induction later as [| [q [v | f]] later IH]; intros st Hfail; cbn [fold_left].
  - cbn [overdue flat_map]. rewrite runs_results_nil, runs_stored_nil.
    cbn [records_of filter]. now rewrite !app_nil_r.
  - assert (Htl : browser_pass_fails later u).
    { intros w Hw. apply Hfail. now right. }
    destruct (IH (tier2_step cheerioLoad input queue st (q, Rendering v)) Htl) as [H1 H2].
    rewrite H1, H2, (overdue_cons (q, Rendering v) later), overdue_rendering. cbn [app].
    destruct (string_dec q u) as [-> | Hne].
    + rewrite tier2_step_fails; [auto |]. apply Hfail. now left.
    + destruct (tier2_step_other st q v u Hne) as [-> ->]. auto.
  - assert (Htl : browser_pass_fails later u).
    { intros w Hw. apply Hfail. now right. }
    destruct (IH (tier2_step cheerioLoad input queue st (q, Overdue f)) Htl) as [H1 H2].
    rewrite H1, H2, tier2_step_overdue. cbn [results dataset].
    rewrite (overdue_cons (q, Overdue f) later), overdue_overdue.
    rewrite runs_results_app, runs_stored_app, !records_of_app, <- !app_assoc. auto.
Qed.

End BrowserPass.
(** ** The whole run *)

Section Run.

Variable cheerioLoad : string -> Document.
Variable input : Input.
Variable fetch : list (string * Fetched).
Variable later : list (string * LaterRun).

Lemma run_actor_state (st : ActorState) :
  run_actor cheerioLoad input fetch later = Ok st ->
  st = phase2 cheerioLoad input later (after_static cheerioLoad input fetch).
Proof.
  unfold run_actor, after_static. destruct (urls input); [discriminate |].
  intro H. now injection H as <-.
Qed.

Lemma tier2_queue_in_results (rs : list ScanResult) (q : string) :
  In q (tier2_queue input rs) -> In q (map url rs).
Proof.
  unfold tier2_queue.
  destruct (usePlaywrightFallback input); [| contradiction].
  unfold spaUrls. rewrite !in_map_iff. intros [r [Hu Hr]].
  apply filter_In in Hr. exists r. tauto.
Qed.

Lemma after_static_runs :
  results (after_static cheerioLoad input fetch) = runs_results cheerioLoad input fetch
  /\ dataset (after_static cheerioLoad input fetch) = runs_stored cheerioLoad input fetch
  /\ processedCount (after_static cheerioLoad input fetch) = runs_counted input fetch.
Proof. rewrite after_static_state. repeat split. Qed.

End Run.

Lemma hd_error_app {A : Type} (l1 l2 : list A) (a : A) :
  hd_error l1 = Some a -> hd_error (l1 ++ l2) = Some a.
Proof. destruct l1; [discriminate | exact (fun H => H)]. Qed.

(** C6.  When the browser pass fails for a url (the navigation fails, or
    waiting for the load state, reading the content or evaluating in the page
    throws in every run of its handler), the records of the url are at the
    end of the run what the static pass left, in [results] and in the
    dataset, followed by those of overdue runs of the static handler if there
    are any.  So every record a run of the static handler captured for it is
    still in [results]: status success, detection method static, and the
    technologies, verdict and metadata of the static pass; and the record
    [results] holds first for the url is still the one the first run
    captured.  When the handler ran once for the url and its record was
    stored, [results] and the dataset hold that record once and nothing else
    for the url. *)
Theorem browser_failure_keeps_static_record
    (cheerioLoad : string -> Document) (input : Input)
    (fetch : list (string * Fetched)) (later : list (string * LaterRun))
    (st : ActorState) (u : string) :
  run_actor cheerioLoad input fetch later = Ok st ->
  In u (urls input) ->
  browser_pass_fails later u ->
  let st1 := after_static cheerioLoad input fetch in
  let captured f := static_result cheerioLoad input u f in
  records_of u (results st)
  = records_of u (results st1)
    ++ records_of u (runs_results cheerioLoad input (overdue later))
  /\ (forall r, find_result u (results st1) = Some r -> find_result u (results st) = Some r)
  /\ records_of u (dataset st)
     = records_of u (dataset st1)
       ++ records_of u (runs_stored cheerioLoad input (overdue later))
  /\ (forall f, In (u, f) fetch -> f_fault f = None ->
        In (captured f) (results st)
        /\ status (captured f) = "success"
        /\ detectionMethod (captured f) = Some "static"
        /\ technologies (captured f)
           = Some (tech_map deduplicateArray
                     (a_technologies
                        (analyzeStaticResponse cheerioLoad (f_body f) (f_headers f) u))))
  /\ (forall f rest, runs_for u fetch = f :: rest -> f_fault f = None ->
        find_result u (results st) = Some (captured f))
  /\ (forall f,
        runs_for u fetch = [f] -> runs_for u (overdue later) = [] ->
        f_fault f = None -> f_stored f = Ok tt ->
        count_url u (results st) = 1
        /\ count_url u (dataset st) = 1
        /\ In (captured f) (dataset st)).
Proof.
  intros Hrun Hin Hfail st1 captured.
  apply run_actor_state in Hrun. subst st. unfold phase2. fold st1.
  destruct (tier2_fold_keeps cheerioLoad input (tier2_queue input (results st1)) later st1 u
              Hfail) as [Hres Hds].
  set (st2 := fold_left (tier2_step cheerioLoad input (tier2_queue input (results st1)))
                later st1) in *.
  assert (Hfind : forall r, find_result u (results st1) = Some r ->
                            find_result u (results st2) = Some r).
  { intros r Hr. rewrite find_result_records in *. rewrite Hres.
    now apply hd_error_app. }
  destruct (after_static_records cheerioLoad input fetch u) as [Hr1 Hd1].
  fold st1 in Hr1, Hd1.
  rewrite runs_for_served in Hr1, Hd1.
  rewrite (proj2 (requested_In input u) Hin) in Hr1, Hd1.
  split; [exact Hres |]. split; [exact Hfind |]. split; [exact Hds |].
  split; [| split].
  - intros f Hf Hfault. split; [| repeat split].
    assert (Hrec : In (captured f) (records_of u (results st2))).
    { rewrite Hres. apply in_or_app. left.
      rewrite Hr1. apply in_flat_map. exists f. split; [now apply runs_for_In |].
      destruct (run_results_static cheerioLoad input u f Hfault) as [tl ->]. now left. }
    now apply records_of_In in Hrec.
  - intros f rest Hruns Hfault. apply Hfind.
    now apply (find_result_static cheerioLoad input fetch u f rest).
  - intros f Hruns Hnone Hfault Hstored.
    assert (Hone : run_results cheerioLoad input u f = [captured f]
                   /\ run_stored cheerioLoad input u f = [captured f]).
    { unfold run_results, run_stored. now rewrite Hfault, Hstored. }
    destruct Hone as [Ho1 Ho2].
    rewrite Hruns in Hr1, Hd1. cbn [flat_map] in Hr1, Hd1.
    rewrite Ho1 in Hr1. rewrite Ho2 in Hd1. cbn [app] in Hr1, Hd1.
    destruct (runs_records cheerioLoad input (overdue later) u) as [Hl1 Hl2].
    rewrite runs_for_served, Hnone in Hl1, Hl2.
    assert (Hl1' : records_of u (runs_results cheerioLoad input (overdue later)) = []).
    { rewrite Hl1. now destruct (requested input u). }
    assert (Hl2' : records_of u (runs_stored cheerioLoad input (overdue later)) = []).
    { rewrite Hl2. now destruct (requested input u). }
    rewrite Hl1' in Hres. rewrite Hl2' in Hds. rewrite app_nil_r in Hres, Hds.
    rewrite !count_url_records, Hres, Hds, Hr1, Hd1.
    split; [reflexivity |]. split; [reflexivity |].
    assert (Hrec : In (captured f) (records_of u (dataset st2))).
    { rewrite Hds, Hd1. now left. }
    now apply records_of_In in Hrec.
Qed.

Lemma browser_failure_keeps_static_record_witness :
  run_actor spa_loader spa_input spa_fetch spa_browse_timeout
  = Ok (mk_ActorState [static_result spa_loader spa_input spa_url spa_fetched]
          [static_result spa_loader spa_input spa_url spa_fetched] 1)
  /\ find_result spa_url [static_result spa_loader spa_input spa_url spa_fetched]
     = Some (static_result spa_loader spa_input spa_url spa_fetched).
Proof.
  split; [vm_compute; reflexivity |].
  assert (Hfail : browser_pass_fails spa_browse_timeout spa_url).
  { intros v [Hv | []]. injection Hv as <-. reflexivity. }
  refine (proj1 (proj2 (proj2 (proj2 (proj2
            (browser_failure_keeps_static_record spa_loader spa_input spa_fetch
               spa_browse_timeout
               (mk_ActorState [static_result spa_loader spa_input spa_url spa_fetched]
                  [static_result spa_loader spa_input spa_url spa_fetched] 1)
               spa_url _ _ Hfail))))) spa_fetched [] _ _).
  - vm_compute. reflexivity.
  - now left.
  - reflexivity.
  - reflexivity.
Defined.

(** C7, as stated, fails: for a url that the browser pass renders, the
    dataset ends up with two records, the static one pushed by the first
    handler and the browser one pushed by the second. *)
Lemma sink_holds_static_and_browser_record :
  exists r1 r2,
    run_actor spa_loader spa_input spa_fetch spa_browse
    = Ok (mk_ActorState [r2] [r1; r2] 1)
    /\ url r1 = spa_url /\ url r2 = spa_url
    /\ detectionMethod r1 = Some "static"
    /\ detectionMethod r2 = Some "browser"
    /\ count_url spa_url [r1; r2] = 2.
Proof.
  eexists. eexists. split; [vm_compute; reflexivity |].
  repeat split.
Qed.

(** C7, amended.  Every run of the static handler for a url leaves one
    record in the dataset when it ends, if the sink accepts the write (the
    record of the analysis, or the failure record of the catch block): for
    the runs of the static pass this is before it is known whether the
    browser pass will take the url.  Every run of the browser handler for a
    queued url that gets through its visit appends one more, the updated
    record, if the sink accepts it.  The dataset only grows: what the static
    pass stored is still there at the end, followed by browser records and
    by what overdue runs of the static handler stored.  In [results] the
    browser handler adds and removes no entry. *)
Theorem sink_records_per_url
    (cheerioLoad : string -> Document) (input : Input)
    (fetch : list (string * Fetched)) (later : list (string * LaterRun))
    (st : ActorState) (u : string) :
  run_actor cheerioLoad input fetch later = Ok st ->
  let st1 := after_static cheerioLoad input fetch in
  let static_writes runs :=
    if requested input u then List.length (filter stores (runs_for u runs)) else 0 in
  let browser_writes :=
    if existsb (String.eqb u) (tier2_queue input (results st1))
    then List.length (filter visit_stores (runs_for u (renderings later)))
    else 0 in
  count_url u (dataset st1) = static_writes fetch
  /\ count_url u (dataset st)
     = static_writes fetch + browser_writes + static_writes (overdue later)
  /\ (exists more,
        dataset st = dataset st1 ++ more
        /\ Forall (fun r => detectionMethod r = Some "browser"
                            \/ In r (runs_stored cheerioLoad input (overdue later))) more)
  /\ Forall (fun r => detectionMethod r <> Some "browser")
       (dataset st1 ++ runs_stored cheerioLoad input (overdue later))
  /\ map url (results st)
     = map url (results st1) ++ map url (runs_results cheerioLoad input (overdue later)).
Proof.
  intros Hrun st1 static_writes browser_writes.
  apply run_actor_state in Hrun. subst st. unfold phase2. fold st1.
  destruct (after_static_runs cheerioLoad input fetch) as [_ [Hd1 _]]. fold st1 in Hd1.
  assert (Hc1 : count_url u (dataset st1) = static_writes fetch).
  { rewrite Hd1. apply count_runs_stored. }
  assert (Hstatic : forall runs,
            Forall (fun r => detectionMethod r <> Some "browser")
              (runs_stored cheerioLoad input runs)).
  { intro runs. apply Forall_flat_map. apply Forall_forall. intros run _.
    apply Forall_forall. intros r Hr.
    now apply (run_stored_static cheerioLoad input (fst run) (snd run)). }
  split; [exact Hc1 |]. split; [| split; [| split]].
  - rewrite tier2_fold_dataset.
    + now rewrite Hc1, count_runs_stored.
    + intros q Hq. now apply tier2_queue_in_results in Hq.
  - apply tier2_fold_appends.
  - apply Forall_app. split; [rewrite Hd1 |]; apply Hstatic.
  - apply tier2_fold_urls.
Qed.

Lemma sink_records_per_url_witness :
  exists st,
    run_actor spa_loader spa_input spa_fetch spa_browse = Ok st
    /\ count_url spa_url (dataset st) = 2
    /\ count_url spa_url (results st) = 1.
Proof.
  eexists. split; [vm_compute; reflexivity |].
  pose proof (sink_records_per_url spa_loader spa_input spa_fetch spa_browse _ spa_url
                eq_refl) as H.
  cbv zeta in H. destruct H as [_ [H2 _]].
  split; [vm_compute in H2; vm_compute; exact H2 | vm_compute; reflexivity].
Defined.

(** A rejected write: the record of the analysis stays in [results], the
    catch block adds a failure record for the same url, and the run is not
    counted. *)
Example rejected_write_leaves_two_records :
  exists r1 r2,
    main spa_loader spa_input [(spa_url, spa_fetched_rejected)] []
    = Ok (mk_ActorState [r1; r2] [r2] 0, Failed "No results produced")
    /\ status r1 = "success" /\ status r2 = "failed"
    /\ error r2 = Some "write rejected".
Proof.
  eexists. eexists. split; [vm_compute; reflexivity |]. repeat split.
Qed.

(** A request handled twice: each run leaves its record and is counted. *)
Example second_run_leaves_a_second_record :
  exists r,
    main spa_loader spa_input [(spa_url, spa_fetched); (spa_url, spa_fetched)] []
    = Ok (mk_ActorState [r; r] [r; r] 2, Summary 2)
    /\ url r = spa_url /\ status r = "success".
Proof.
  eexists. split; [vm_compute; reflexivity |]. repeat split.
Qed.

(** A run of the static handler that is overdue: its record comes to
    [results] and to the dataset while the second crawler is at work, behind
    those the browser handler writes over, and it is counted. *)
Example overdue_run_writes_during_the_browser_pass :
  exists r1 r2,
    main spa_loader spa_input spa_fetch (spa_browse ++ [(spa_url, Overdue spa_fetched)])
    = Ok (mk_ActorState [r2; r1] [r1; r2; r1] 2, Summary 2)
    /\ detectionMethod r1 = Some "static" /\ detectionMethod r2 = Some "browser".
Proof.
  eexists. eexists. split; [vm_compute; reflexivity |]. repeat split.
Qed.

(** ** What every stored record satisfies *)

Section RecordFacts.

Variable cheerioLoad : string -> Document.
Variable input : Input.

Lemma analysis_cms_length (html : string) (headers : Headers) (u : string) :
  List.length (t_cms (a_technologies (analyzeStaticResponse cheerioLoad html headers u))) <= 1.
Proof.
  rewrite analysis_cms. destruct (sort_desc _ _); simpl; lia.
Qed.

Lemma dedup_length_le (l : list string) (n : nat) :
  List.length l <= n -> List.length (deduplicateArray l) <= n.
Proof.
  intro H. pose proof (dedup_from_length [] l). unfold deduplicateArray. lia.
Qed.

Lemma static_result_sound (u : string) (f : Fetched) :
  record_sound (static_result cheerioLoad input u f).
Proof.
  intros t Ht. rewrite technologies_static_result in Ht.
  apply some_inj in Ht. subst t. split.
  - apply tech_map_dedup_deduped.
  - change (t_cms (tech_map deduplicateArray ?x)) with (deduplicateArray (t_cms x)).
    apply dedup_length_le.
    exact (analysis_cms_length (f_body f) (f_headers f) u).
Qed.

Lemma failedResult_sound (u msg now : string) : record_sound (failedResult u msg now).
Proof. intros t Ht. discriminate. Qed.

Lemma browser_result_sound (u html : string) (headers : Headers) (win : Window)
    (old : ScanResult) :
  record_sound (browser_result cheerioLoad u html headers win old).
Proof.
  intros t Ht. rewrite technologies_browser_result in Ht.
  apply some_inj in Ht. subst t. split.
  - apply tech_map_dedup_deduped.
  - change (t_cms (tech_map deduplicateArray ?x)) with (deduplicateArray (t_cms x)).
    apply dedup_length_le.
    change (t_cms ?x) with (tech_get x cms).
    unfold merge_browser_techs. rewrite merge_fold_other by discriminate.
    exact (analysis_cms_length html headers u).
Qed.

Lemma replace_result_Forall (P : ScanResult -> Prop) (u : string) (r : ScanResult)
    (l : list ScanResult) :
  P r -> Forall P l -> Forall P (replace_result u r l).
Proof.
  intros Hr Hl. induction Hl as [| a l Ha Hl IH]; simpl; [constructor |].
  destruct (String.eqb (url a) u); constructor; auto.
Qed.

(** What holds of every record the handlers build holds of every record
    the run stores. *)
Section Invariant.

Variable P : ScanResult -> Prop.
Hypothesis P_static : forall u f, P (static_result cheerioLoad input u f).
Hypothesis P_failed : forall u msg now, P (failedResult u msg now).
Hypothesis P_browser :
  forall u html headers win old,
    P old -> P (browser_result cheerioLoad u html headers win old).

Lemma run_results_all (u : string) (f : Fetched) :
  Forall P (run_results cheerioLoad input u f).
Proof.
  apply Forall_forall. intros r Hr. apply run_results_In in Hr.
  destruct Hr as [[_ ->] | [msg ->]]; [apply P_static | apply P_failed].
Qed.

Lemma after_static_all (fetch : list (string * Fetched)) :
  Forall P (results (after_static cheerioLoad input fetch))
  /\ Forall P (dataset (after_static cheerioLoad input fetch)).
Proof.
  assert (Hr : Forall P (results (after_static cheerioLoad input fetch))).
  { rewrite after_static_state. cbn [results].
    apply Forall_flat_map. apply Forall_forall. intros run _. apply run_results_all. }
  split; [exact Hr |].
  apply Forall_forall. intros r Hin. apply after_static_incl in Hin.
  rewrite Forall_forall in Hr. now apply Hr.
Qed.

Lemma tier2_record_all (st : ActorState) (u : string) (v : Visit) (r : ScanResult) :
  Forall P (results st) -> tier2_record cheerioLoad st u v = Some r -> P r.
Proof.
  intros Hr E. unfold tier2_record in E.
  destruct (visit_ok v) as [[html win] |]; [| discriminate].
  destruct (find_result u (results st)) as [old |] eqn:Ef; [| discriminate].
  apply some_inj in E. subst r. apply P_browser.
  rewrite Forall_forall in Hr. apply Hr. now apply find_result_url in Ef.
Qed.

Lemma runs_results_all (runs : list (string * Fetched)) :
  Forall P (runs_results cheerioLoad input runs).
Proof.
  apply Forall_flat_map. apply Forall_forall. intros run _. apply run_results_all.
Qed.

Lemma runs_stored_all (runs : list (string * Fetched)) :
  Forall P (runs_stored cheerioLoad input runs).
Proof.
  apply Forall_forall. intros r Hr. apply runs_stored_incl in Hr.
  pose proof (runs_results_all runs) as H. rewrite Forall_forall in H. now apply H.
Qed.

Lemma tier2_fold_all (queue : list string) (later : list (string * LaterRun))
    (st : ActorState) :
  Forall P (results st) -> Forall P (dataset st) ->
  Forall P (results (fold_left (tier2_step cheerioLoad input queue) later st))
  /\ Forall P (dataset (fold_left (tier2_step cheerioLoad input queue) later st)).
Proof.
  revert st. induction later as [| [u [v | f]] later IH]; intros st Hr Hd; cbn [fold_left];
    [auto | |].
  - rewrite tier2_step_rendering.
    destruct (existsb _ queue); [| now apply IH].
    destruct (tier2_record cheerioLoad st u v) as [r |] eqn:E; [| now apply IH].
    pose proof (tier2_record_all st _ _ r Hr E) as Hp.
    apply IH; cbn [results dataset].
    + now apply replace_result_Forall.
    + apply Forall_app. split; [exact Hd |].
      destruct (visit_stores v); repeat constructor. exact Hp.
  - rewrite tier2_step_overdue. apply IH; cbn [results dataset]; apply Forall_app; split;
      try assumption; [apply runs_results_all | apply runs_stored_all].
Qed.

Lemma run_all (fetch : list (string * Fetched)) (later : list (string * LaterRun))
    (st : ActorState) :
  run_actor cheerioLoad input fetch later = Ok st ->
  Forall P (results st) /\ Forall P (dataset st).
Proof.
  intro H. apply run_actor_state in H. subst st. unfold phase2.
  destruct (after_static_all fetch) as [Hr Hd].
  now apply tier2_fold_all.
Qed.

End Invariant.

Lemma run_sound (fetch : list (string * Fetched)) (later : list (string * LaterRun)) :
  match run_actor cheerioLoad input fetch later with
  | Ok st => Forall record_sound (results st) /\ Forall record_sound (dataset st)
  | Throw _ => True
  end.
Proof.
  destruct (run_actor cheerioLoad input fetch later) as [st | msg] eqn:E; [| exact I].
  apply (run_all record_sound) with (fetch := fetch) (later := later); [| | | exact E].
  - apply static_result_sound.
  - apply failedResult_sound.
  - intros u html headers win old _. apply browser_result_sound.
Qed.

End RecordFacts.

Example min_confidence_cms : min_confidence cms = 3.
Proof. reflexivity. Qed.

Example cms_tie_goes_to_first_declared :
  flat_map (cms_candidate_of spa_loader tie_html []) TECH_PATTERNS
  = [mk_CmsCandidate "wordpress" "Wordpress" 4 None; mk_CmsCandidate "drupal" "Drupal" 4 None]
  /\ t_cms (a_technologies (analyzeStaticResponse spa_loader tie_html [] "")) = ["Wordpress"].
Proof. split; vm_compute; reflexivity. Qed.

(** C1.  The CMS candidates of a scan are the corpus entries of category
    cms whose evidence reaches the threshold 3, in corpus order.  The cms
    array of the analysis has at most one entry; it is empty when there is
    no candidate, and otherwise names the first candidate with the highest
    score.  The same bound holds for every record a run stores, also after
    the browser pass has resolved the categories again. *)
Theorem cms_single_winner
    (cheerioLoad : string -> Document) (html : string) (headers : Headers) (u : string) :
  let candidates := flat_map (cms_candidate_of cheerioLoad html headers) TECH_PATTERNS in
  let out := t_cms (a_technologies (analyzeStaticResponse cheerioLoad html headers u)) in
  Forall (fun c => getCategoryForTech (c_key c) = cms /\ 3 <= c_confidence c) candidates
  /\ List.length out <= 1
  /\ (candidates = [] -> out = [])
  /\ (candidates <> [] -> exists w, first_max c_confidence w candidates)
  /\ (forall w, first_max c_confidence w candidates ->
                out = [formatTechName (c_displayName w) (c_version w)])
  /\ (forall input fetch later,
        match run_actor cheerioLoad input fetch later with
        | Ok st =>
            Forall (fun r => forall t, technologies r = Some t -> List.length (t_cms t) <= 1)
              (results st ++ dataset st)
        | Throw _ => True
        end).
Proof.
  intros candidates out.
  split; [| split; [| split; [| split; [| split]]]].
  - eapply Forall_impl; [| apply cms_candidates_clear]. simpl. tauto.
  - apply analysis_cms_length.
  - intro Hnil. unfold out. rewrite analysis_cms. fold candidates. now rewrite Hnil.
  - apply first_max_exists.
  - intros w Hw. unfold out. rewrite analysis_cms. fold candidates.
    destruct (sort_desc_head c_confidence w candidates Hw) as [tl ->]. reflexivity.
  - intros input fetch later.
    pose proof (run_sound cheerioLoad input fetch later) as H.
    destruct (run_actor cheerioLoad input fetch later) as [st | msg]; [| exact I].
    destruct H as [Hr Hd]. apply Forall_app. split.
    + eapply Forall_impl; [| exact Hr]. intros r Hs t Ht. now apply Hs.
    + eapply Forall_impl; [| exact Hd]. intros r Hs t Ht. now apply Hs.
Qed.

(** C8.  [deduplicateArray] keeps an item exactly when no earlier item has
    the same lower-cased text, and keeps it as written; so its result has no
    two entries that differ only by case.  Every technologies array of every
    record a run stores, in [results] or in the dataset, is such a result. *)
Theorem technologies_unique_up_to_case :
  (forall l x,
      deduplicateArray (l ++ [x])
      = deduplicateArray l
        ++ (if existsb (String.eqb (toLowerCase x)) (map toLowerCase l) then [] else [x]))
  /\ (forall l, NoDup (map toLowerCase (deduplicateArray l)))
  /\ (forall cheerioLoad input fetch later,
        match run_actor cheerioLoad input fetch later with
        | Ok st =>
            Forall (fun r => forall t c, technologies r = Some t ->
                                         NoDup (map toLowerCase (tech_get t c)))
              (results st ++ dataset st)
        | Throw _ => True
        end).
Proof.
  split; [| split].
  - intros l x. unfold deduplicateArray. now rewrite dedup_from_snoc.
  - intro l. apply dedup_from_NoDup.
  - intros cheerioLoad input fetch later.
    pose proof (run_sound cheerioLoad input fetch later) as H.
    destruct (run_actor cheerioLoad input fetch later) as [st | msg]; [| exact I].
    destruct H as [Hr Hd]. apply Forall_app. split.
    + eapply Forall_impl; [| exact Hr]. intros r Hs t c Ht. now apply Hs.
    + eapply Forall_impl; [| exact Hd]. intros r Hs t c Ht. now apply Hs.
Qed.

Example library_globals_detected :
  detect_globals library_window = ["jQuery"; "Lodash"; "Mixpanel"; "Sentry"; "Hotjar"]
  /\ map mapBrowserTechToKey (detect_globals library_window)
     = [Some "jquery"; Some "lodash"; Some "mixpanel"; Some "sentry"; Some "hotjar"]
  /\ map getCategoryForTech ["jquery"; "lodash"; "mixpanel"; "sentry"; "hotjar"]
     = [libraries; libraries; analytics; analytics; analytics].
Proof. repeat split. Qed.

Example runtime_libraries_stay_out_of_technologies :
  let merged := merge_browser_techs (detect_globals library_window) empty_technologies [] in
  fst merged = empty_technologies
  /\ map (fun e => (fst e, confidence (snd e), sources (snd e))) (snd merged)
     = [("jquery", 3, ["window"]); ("lodash", 3, ["window"]); ("mixpanel", 3, ["window"]);
        ("sentry", 3, ["window"]); ("hotjar", 3, ["window"])].
Proof. split; vm_compute; reflexivity. Qed.

(** C10.  Merging the runtime detections into the analysis of the rendered
    page leaves every technologies array other than frontend as it was, and
    appends to frontend only display names of frontend keys that a detection
    maps to.  Every detection that maps to a key, of whatever category, ends
    up in the match details with score max(existing, 3).  In the record the
    browser pass stores, the arrays other than frontend are those of the
    static analysis of the rendered markup, and [detectionDetails.matches]
    is the match details of the merge: it holds every detection that maps
    to a key, with score max(existing, 3). *)
Theorem runtime_evidence_only_adds_frontend
    (browserTechs : list string) (techs : Technologies) (techMatches : Obj TechMeta) :
  let merged := merge_browser_techs browserTechs techs techMatches in
  (forall c, c <> frontend -> tech_get (fst merged) c = tech_get techs c)
  /\ (exists added,
        t_frontend (fst merged) = t_frontend techs ++ added
        /\ Forall (runtime_frontend_name browserTechs) added)
  /\ (forall tech key,
        In tech browserTechs -> mapBrowserTechToKey tech = Some key ->
        exists meta,
          obj_get (snd merged) key = Some meta
          /\ confidence meta = Nat.max (conf_of techMatches key) 3)
  /\ (forall cheerioLoad u html headers win old c,
        c <> frontend ->
        option_map (fun t => tech_get t c)
          (technologies (browser_result cheerioLoad u html headers win old))
        = Some (tech_get (a_technologies (analyzeStaticResponse cheerioLoad html headers u)) c))
  /\ (forall cheerioLoad u html headers win old,
        let a := analyzeStaticResponse cheerioLoad html headers u in
        detectionDetails (browser_result cheerioLoad u html headers win old)
        = Some (snd (merge_browser_techs (detect_globals win)
                       (a_technologies a) (a_techMatches a))))
  /\ (forall cheerioLoad u html headers win old tech key,
        In tech (detect_globals win) -> mapBrowserTechToKey tech = Some key ->
        exists matches meta,
          detectionDetails (browser_result cheerioLoad u html headers win old) = Some matches
          /\ obj_get matches key = Some meta
          /\ confidence meta
             = Nat.max (conf_of (a_techMatches
                                   (analyzeStaticResponse cheerioLoad html headers u)) key) 3).
Proof.
  assert (Hdetails : forall cheerioLoad u html headers win old,
            detectionDetails (browser_result cheerioLoad u html headers win old)
            = Some (snd (merge_browser_techs (detect_globals win)
                           (a_technologies (analyzeStaticResponse cheerioLoad html headers u))
                           (a_techMatches (analyzeStaticResponse cheerioLoad html headers u))))).
  { intros cheerioLoad u html headers win old. unfold browser_result.
    destruct (merge_browser_techs _ _ _). reflexivity. }
  assert (Hmatches : forall l techs0 matches0 tech key,
            In tech l -> mapBrowserTechToKey tech = Some key ->
            exists meta,
              obj_get (snd (merge_browser_techs l techs0 matches0)) key = Some meta
              /\ confidence meta = Nat.max (conf_of matches0 key) 3).
  { intros l techs0 matches0 tech key Hin Hmap.
    apply (merge_fold_matches l (techs0, matches0) key).
    apply existsb_exists. exists tech. split; [assumption |].
    unfold maps_to. rewrite Hmap. apply String.eqb_refl. }
  intro merged.
  split; [| split; [| split; [| split; [| split]]]].
  6:{ intros cheerioLoad u html headers win old tech key Hin Hmap.
      destruct (Hmatches (detect_globals win)
                  (a_technologies (analyzeStaticResponse cheerioLoad html headers u))
                  (a_techMatches (analyzeStaticResponse cheerioLoad html headers u))
                  tech key Hin Hmap) as [meta [Hget Hconf]].
      eexists. exists meta. split; [apply Hdetails |]. split; assumption. }
  5:{ intros cheerioLoad u html headers win old a. apply Hdetails. }
  - intros c Hc. apply (merge_fold_other browserTechs (techs, techMatches) c Hc).
  - apply (merge_fold_frontend browserTechs (techs, techMatches)).
  - intros tech key Hin Hmap.
    apply (merge_fold_matches browserTechs (techs, techMatches) key).
    apply existsb_exists. exists tech. split; [assumption |].
    unfold maps_to. rewrite Hmap. apply String.eqb_refl.
  - intros cheerioLoad u html headers win old c Hc.
    rewrite technologies_browser_result. cbn [option_map]. f_equal.
    rewrite tech_get_map. unfold merge_browser_techs.
    rewrite merge_fold_other by assumption. cbn [fst].
    change (a_technologies (analyzeStaticResponse cheerioLoad html headers u))
      with (tech_map deduplicateArray
              (ls_technologies (resolve_cms (scan_corpus cheerioLoad TECH_PATTERNS html headers)))).
    rewrite tech_get_map. apply dedup_idempotent.
Qed.

(** ** The verdict's confidence *)

Lemma pickTop_score (techMatches : Obj TechMeta) (c : Category) :
  pick_score (pickTop techMatches c) = category_best techMatches c.
Proof.
  unfold pickTop, category_best.
  set (candidates := filter _ techMatches).
  destruct (sort_desc entry_conf candidates) as [| [key meta] tl] eqn:E.
  - apply sort_desc_nil_iff in E. now rewrite E.
  - apply sort_desc_head_inv in E. apply first_max_score in E. exact E.
Qed.

(** C2, as stated, fails: at a top score of 5 the verdict says medium where
    the tiers of the WAF scorer say high. *)
Lemma verdict_tier_differs_from_waf_tier_at_5 :
  let a := analyzeStaticResponse wp5_loader wp5_html [] "https://blog.example" in
  let v := buildVerdict (a_technologies a) (a_techMatches a) WafNone (serverInfo_of []) in
  topScore (v_primary v) = 5
  /\ v_confidence v = "medium"
  /\ waf_tier (topScore (v_primary v)) = "high".
Proof. cbv zeta. split; [| split]; vm_compute; reflexivity. Qed.

(** C2, amended.  The verdict's confidence is [confidenceFromScore] of the
    highest score among the primary cms, frontend, hosting and cdn picks,
    each pick carrying the highest score on record in its category; the
    tiers are high from 6, medium from 3, low below.  They are those of the
    WAF scorer except at 5, where the WAF scorer already says high. *)
Theorem verdict_confidence_tiers
    (techs : Technologies) (techMatches : Obj TechMeta) (waf : WafInfo)
    (serverInfo : ServerInfo) :
  let v := buildVerdict techs techMatches waf serverInfo in
  let top :=
    Nat.max (category_best techMatches cms)
      (Nat.max (category_best techMatches frontend)
         (Nat.max (category_best techMatches hosting) (category_best techMatches cdn))) in
  topScore (v_primary v) = top
  /\ v_confidence v = confidenceFromScore top
  /\ confidenceFromScore top
     = (if 6 <=? top then "high" else if 3 <=? top then "medium" else "low")
  /\ (top = 5 \/ v_confidence v = waf_tier top).
Proof.
  intros v top.
  assert (Htop : topScore (v_primary v) = top).
  { unfold v, buildVerdict, topScore. cbn [v_primary pr_cms pr_frontend pr_hosting pr_cdn].
    now rewrite !pickTop_score. }
  split; [exact Htop |]. split; [| split].
  - unfold v, buildVerdict. cbn [v_confidence]. fold (v_primary v).
    change (topScore _) with (topScore (v_primary v)). now rewrite Htop.
  - reflexivity.
  - destruct (Nat.eq_dec top 5) as [H5 | H5]; [now left | right].
    assert (Hc : v_confidence v = confidenceFromScore top).
    { unfold v, buildVerdict. cbn [v_confidence].
      change (topScore _) with (topScore (v_primary v)). now rewrite Htop. }
    rewrite Hc. unfold confidenceFromScore, waf_tier.
    destruct (6 <=? top) eqn:E6, (5 <=? top) eqn:E5; try reflexivity.
    + apply Nat.leb_le in E6. apply Nat.leb_gt in E5. lia.
    + apply Nat.leb_gt in E6. apply Nat.leb_le in E5. lia.
Qed.

(** ** The WAF scorer *)

Section WafFacts.

Lemma fold_last_max (others seen : list (string * nat)) (a : string * nat) :
  last_max a seen ->
  last_max (fold_left (fun a b => if snd b <? snd a then a else b) others a)
    (seen ++ others).
Proof.
  revert seen a. induction others as [| b others IH]; intros seen a Ha; simpl.
  - now rewrite app_nil_r.
  - replace (seen ++ b :: others) with ((seen ++ [b]) ++ others)
      by (now rewrite <- app_assoc).
    apply IH. destruct Ha as [before [after [-> [Hb Hafter]]]].
    destruct (snd b <? snd a) eqn:E.
    + apply Nat.ltb_lt in E. exists before, (after ++ [b]). split.
      * now rewrite <- app_assoc.
      * split; [assumption |]. apply Forall_app. split; [assumption |].
        constructor; [assumption | constructor].
    + apply Nat.ltb_ge in E. exists (before ++ a :: after), []. split; [reflexivity |].
      split; [| constructor].
      apply Forall_app. split.
      * eapply Forall_impl; [| exact Hb]. simpl. intros; lia.
      * constructor; [assumption |].
        eapply Forall_impl; [| exact Hafter]. simpl. intros; lia.
Qed.

Lemma reduce_top_last_max (first : string * nat) (others : list (string * nat)) :
  last_max (reduce_top first others) (first :: others).
Proof.
  unfold reduce_top. apply (fold_last_max others [first] first).
  exists [], []. repeat split; constructor.
Qed.

Variables (headers : Headers) (cookies : list string) (html : string).

Lemma waf_scores_split (table : Obj WafPattern) (before after : list (string * nat))
    (w : string * nat) :
  waf_scores table headers cookies html = before ++ w :: after ->
  exists tb entry ta,
    table = tb ++ entry :: ta
    /\ fst entry = fst w /\ (score_of headers cookies html) entry = snd w
    /\ waf_scores tb headers cookies html = before
    /\ waf_scores ta headers cookies html = after.
Proof.
  unfold waf_scores. revert before.
  induction table as [| e table IH]; intros before H; simpl in H.
  - destruct before; discriminate.
  - cbn [fst snd] in H.
    destruct (0 <? provider_score (snd e) headers cookies html) eqn:E.
    + destruct before as [| b before].
      * simpl in H. injection H as Hw Hafter.
        exists [], e, table. subst w. repeat split. exact Hafter.
      * simpl in H. injection H as Hb Hrest.
        destruct (IH before Hrest) as [tb [entry [ta [Ht [Hn [Hs [Hb' Ha']]]]]]].
        exists (e :: tb), entry, ta. subst table. repeat split; try assumption.
        simpl. cbn [fst snd]. rewrite E. now rewrite Hb', Hb.
    + destruct (IH before H) as [tb [entry [ta [Ht [Hn [Hs [Hb' Ha']]]]]]].
      exists (e :: tb), entry, ta. subst table. repeat split; try assumption.
      simpl. cbn [fst snd]. now rewrite E.
Qed.

Lemma waf_scores_bound (table : Obj WafPattern) (n : nat) :
  Forall (fun e => snd e <= n) (waf_scores table headers cookies html) ->
  Forall (fun entry => (score_of headers cookies html) entry <= n) table.
Proof.
  unfold waf_scores. induction table as [| e table IH]; intro H; simpl in *.
  - constructor.
  - cbn [fst snd] in H.
    destruct (0 <? provider_score (snd e) headers cookies html) eqn:E.
    + inversion H; subst. constructor; [assumption | auto].
    + constructor; [| auto]. apply Nat.ltb_ge in E. unfold score_of. lia.
Qed.

Lemma waf_scores_strict_bound (table : Obj WafPattern) (n : nat) :
  0 < n ->
  Forall (fun e => snd e < n) (waf_scores table headers cookies html) ->
  Forall (fun entry => (score_of headers cookies html) entry < n) table.
Proof.
  intro Hn. unfold waf_scores. induction table as [| e table IH]; intro H; simpl in *.
  - constructor.
  - cbn [fst snd] in H.
    destruct (0 <? provider_score (snd e) headers cookies html) eqn:E.
    + inversion H; subst. constructor; [assumption | auto].
    + constructor; [| auto]. apply Nat.ltb_ge in E. unfold score_of. lia.
Qed.

Lemma waf_scores_positive (table : Obj WafPattern) :
  Forall (fun e => 0 < snd e) (waf_scores table headers cookies html).
Proof.
  unfold waf_scores. rewrite Forall_forall. intros e He.
  apply filter_In in He. destruct He as [_ He]. now apply Nat.ltb_lt in He.
Qed.

Lemma waf_scores_nil_iff (table : Obj WafPattern) :
  waf_scores table headers cookies html = [] <-> Forall (fun entry => (score_of headers cookies html) entry = 0) table.
Proof.
  unfold waf_scores. induction table as [| e table IH]; simpl.
  - split; [constructor | reflexivity].
  - cbn [fst snd]. destruct (0 <? provider_score (snd e) headers cookies html) eqn:E.
    + split; [discriminate |]. intro H. inversion H; subst.
      apply Nat.ltb_lt in E. unfold score_of in *. lia.
    + rewrite IH. apply Nat.ltb_ge in E. split.
      * intro H. constructor; [unfold score_of; lia | assumption].
      * intro H. now inversion H.
Qed.

(** The winner of [detectWAF], read off the table. *)
Lemma detectWAF_with_spec (table : Obj WafPattern) :
  match detectWAF_with table headers cookies html with
  | None => Forall (fun entry => (score_of headers cookies html) entry = 0) table
  | Some r =>
      exists tb entry ta,
        table = tb ++ entry :: ta
        /\ waf_name r = capitalize (fst entry)
        /\ waf_score r = (score_of headers cookies html) entry
        /\ 0 < waf_score r
        /\ waf_confidence r = waf_tier (waf_score r)
        /\ Forall (fun e => (score_of headers cookies html) e <= waf_score r) tb
        /\ Forall (fun e => (score_of headers cookies html) e < waf_score r) ta
  end.
Proof.
  unfold detectWAF_with.
  destruct (waf_scores table headers cookies html) as [| first others] eqn:E.
  - now apply waf_scores_nil_iff.
  - destruct (reduce_top_last_max first others) as [before [after [Hsplit [Hb Ha]]]].
    rewrite <- E in Hsplit.
    destruct (waf_scores_split table before after _ Hsplit)
      as [tb [entry [ta [Ht [Hn [Hs [Hb' Ha']]]]]]].
    assert (Hpos : 0 < snd (reduce_top first others)).
    { pose proof (waf_scores_positive table) as Hp. rewrite Hsplit in Hp.
      apply Forall_app in Hp. destruct Hp as [_ Hp]. now inversion Hp. }
    exists tb, entry, ta. cbn [waf_name waf_score waf_confidence].
    rewrite Hn, Hs. repeat split; try assumption; try reflexivity.
    + apply waf_scores_bound. now rewrite Hb'.
    + apply waf_scores_strict_bound; [assumption | now rewrite Ha'].
Qed.

End WafFacts.

(** C4, as stated, fails on the tie-break: of two providers with the same
    top score the one declared later wins, not the one seen first. *)
Lemma waf_tie_goes_to_later_provider :
  waf_scores WAF_PATTERNS tie_headers [] "" = [("cloudflare", 3); ("imperva", 3)]
  /\ detectWAF tie_headers [] "" = Some (mk_WafResult "Imperva" "medium" 3).
Proof. split; vm_compute; reflexivity. Qed.

Example cookie_points_count_prefixes_not_cookies :
  option_map waf_score
    (detectWAF [] ["__cf_bm=aaa; path=/"; "__cf_bm=bbb; path=/"; "__CFDUID=c"] "")
  = Some 4.
Proof. vm_compute. reflexivity. Qed.

Example waf_cloudflare_two_headers :
  detectWAF [("cf-ray", HStr "abc123"); ("cf-cache-status", HStr "HIT")] [] ""
  = Some (mk_WafResult "Cloudflare" "high" 6).
Proof. vm_compute. reflexivity. Qed.

(** C4, amended.  A provider scores 3 for each header name of its signature
    present among the response headers, 2 for each cookie-name prefix of its
    signature that some cookie starts with (case-insensitively), 2 flat when
    its server pattern matches the server header, and 1 flat when the body is
    not empty and its body pattern matches.  When every provider scores 0
    nothing is detected; otherwise the provider reported has the highest
    score, that score is positive, every provider declared after it scores
    strictly less (a tie goes to the provider declared last), and the tier is
    high from 5, medium from 3, low below. *)
Theorem waf_scoring_and_winner
    (headers : Headers) (cookies : list string) (html : string) :
  (forall p,
      provider_score p headers cookies html
      = 3 * match w_headers p with
            | Some names => List.length (filter (has_header headers) names)
            | None => 0
            end
        + 2 * match w_cookies p with
              | Some prefixes => List.length (filter (cookie_seen cookies) prefixes)
              | None => 0
              end
        + match w_server p with
          | Some re => if test re (header_text headers "server") then 2 else 0
          | None => 0
          end
        + match w_html p with
          | Some re => if truthy html && test re html then 1 else 0
          | None => 0
          end)
  /\ match detectWAF headers cookies html with
     | None => Forall (fun entry => score_of headers cookies html entry = 0) WAF_PATTERNS
     | Some r =>
         exists declared_before entry declared_after,
           WAF_PATTERNS = declared_before ++ entry :: declared_after
           /\ waf_name r = capitalize (fst entry)
           /\ waf_score r = score_of headers cookies html entry
           /\ 0 < waf_score r
           /\ waf_confidence r
              = (if 5 <=? waf_score r then "high"
                 else if 3 <=? waf_score r then "medium" else "low")
           /\ Forall (fun e => score_of headers cookies html e <= waf_score r) declared_before
           /\ Forall (fun e => score_of headers cookies html e < waf_score r) declared_after
     end.
Proof.
  split.
  - intro p. unfold provider_score, header_points, cookie_points, server_points,
      html_points, count.
    destruct (w_headers p), (w_cookies p); lia.
  - apply (detectWAF_with_spec headers cookies html WAF_PATTERNS).
Qed.

(** ** Literal text and the matcher *)

Lemma prefix_split (p s : string) :
  String.prefix p s = true -> exists s', s = (p ++ s')%string.
Proof.
  revert s. induction p as [| c p IH]; intros s H; simpl in *.
  - now exists s.
  - destruct s as [| d s]; [discriminate |]. simpl in H.
    destruct (ascii_dec c d) as [-> | Hne]; [| discriminate].
    destruct (IH s H) as [s' ->]. now exists s'.
Qed.

Lemma search_here (ci : bool) (r : regex) (p : option ascii) (s : list ascii) :
  run ci r (mk_mstate p s None) <> [] -> search ci r p s <> None.
Proof.
  intro H. destruct s as [| c s]; simpl;
    destruct (run ci r _); try congruence; discriminate.
Qed.

Lemma includes_nil (p : string) : includes "" p = String.prefix p "" || false.
Proof. reflexivity. Qed.

Lemma includes_cons (c : ascii) (t p : string) :
  includes (String c t) p = String.prefix p (String c t) || includes t p.
Proof. reflexivity. Qed.

Lemma search_includes (ci : bool) (r : regex) (lit : string) :
  (forall p s', run ci r (mk_mstate p (list_ascii_of_string (lit ++ s')) None) <> []) ->
  forall text p,
    includes text lit = true -> search ci r p (list_ascii_of_string text) <> None.
Proof.
  intros Hrun text. induction text as [| c text IH]; intros p H.
  - rewrite includes_nil, orb_false_r in H.
    apply prefix_split in H. destruct H as [s' ->]. apply search_here, Hrun.
  - rewrite includes_cons in H. apply orb_true_iff in H. destruct H as [H | H].
    + apply prefix_split in H. destruct H as [s' Hs]. rewrite Hs.
      apply search_here, Hrun.
    + simpl. destruct (run ci r _); [| discriminate]. now apply IH.
Qed.

Lemma theme_path_matches (html : string) :
  includes html "wp-content/themes/x.js" = true ->
  test (rxi "wp-content\/themes\/") html = true.
Proof.
  intro H. unfold test, exec. cbn [source ignoreCase rxi].
  destruct (parse "wp-content\/themes\/") as [r |] eqn:E; [| vm_compute in E; discriminate].
  vm_compute in E. injection E as <-.
  match goal with
  | |- context [search ?ci ?r None ?s] =>
      pose proof (search_includes ci r "wp-content/themes/x.js") as Hs
  end.
  match type of Hs with
  | ?P -> _ => assert (Hrun : P) by (intros p s'; vm_compute; discriminate)
  end.
  specialize (Hs Hrun html None H).
  destruct (search _ _ _ _); [reflexivity | congruence].
Qed.

(** ** Evidence only adds up *)

Lemma fold_left_grows {A B : Type} (size : A -> nat) (f : A -> B -> A) (l : list B) (a : A) :
  (forall a x, size a <= size (f a x)) -> size a <= size (fold_left f l a).
Proof.
  intro Hf. revert a. induction l as [| x l IH]; intro a; simpl; [lia |].
  specialize (IH (f a x)). specialize (Hf a x). lia.
Qed.

Lemma hit_grows (w : nat) (s : string) (a : ScanAcc) :
  acc_confidence a <= acc_confidence (hit w s a).
Proof. simpl. lia. Qed.

Lemma hit_versioned_grows (w : nat) (s t n : string) (a : ScanAcc) :
  acc_confidence a <= acc_confidence (hit_versioned w s t n a).
Proof. simpl. lia. Qed.

Lemma scan_scripts_grows n pats doc a :
  acc_confidence a <= acc_confidence (scan_scripts n pats doc a).
Proof.
  unfold scan_scripts. apply (fold_left_grows acc_confidence). intros a' el.
  apply (fold_left_grows acc_confidence). intros a'' p.
  destruct (test p _); [apply hit_versioned_grows | lia].
Qed.

Lemma scan_links_grows n pats doc a :
  acc_confidence a <= acc_confidence (scan_links n pats doc a).
Proof.
  unfold scan_links. apply (fold_left_grows acc_confidence). intros a' el.
  apply (fold_left_grows acc_confidence). intros a'' p.
  destruct (test p _); [apply hit_versioned_grows | lia].
Qed.

Lemma scan_metas_grows n rules doc a :
  acc_confidence a <= acc_confidence (scan_metas n rules doc a).
Proof.
  unfold scan_metas. apply (fold_left_grows acc_confidence). intros a' rule.
  destruct (meta_content rule); [| lia].
  destruct (test _ _); [apply hit_versioned_grows | lia].
Qed.

Lemma scan_html_grows pats html a :
  acc_confidence a <= acc_confidence (scan_html pats html a).
Proof.
  unfold scan_html. apply (fold_left_grows acc_confidence). intros a' p.
  destruct (test p html); [apply hit_grows | lia].
Qed.

Lemma scan_headers_grows pats headers a :
  acc_confidence a <= acc_confidence (scan_headers pats headers a).
Proof.
  unfold scan_headers. apply (fold_left_grows acc_confidence). intros a' hp.
  destruct (test _ _); [apply hit_grows | lia].
Qed.

Lemma scan_cdn_grows cdns doc a :
  acc_confidence a <= acc_confidence (scan_cdn cdns doc a).
Proof.
  unfold scan_cdn. apply (fold_left_grows acc_confidence). intros a' c.
  apply (fold_left_grows acc_confidence). intros a'' el.
  destruct (includes _ _); [apply hit_grows | lia].
Qed.

(** ** The WordPress scenario *)

Lemma corpus_around_wordpress :
  TECH_PATTERNS
  = firstn 9 TECH_PATTERNS ++ ("wordpress", wordpress_signature) :: skipn 10 TECH_PATTERNS.
Proof. reflexivity. Qed.

Lemma scan_html_cons (p : RegExp) (ps : list RegExp) (html : string) (a : ScanAcc) :
  scan_html (p :: ps) html a = scan_html ps html (if test p html then hit 2 "html" a else a).
Proof. reflexivity. Qed.

Lemma scan_metas_single (n : string) (rule : MetaRule) (doc : Document) (a : ScanAcc) :
  scan_metas n [rule] doc a
  = match meta_content rule with
    | Some re =>
        if test re (meta_attr doc (meta_name rule))
        then hit_versioned 2 "meta" (meta_attr doc (meta_name rule)) n a
        else a
    | None => a
    end.
Proof. reflexivity. Qed.

Lemma wordpress_confidence (doc : Document) (html : string) (headers : Headers) :
  meta_attr doc "generator" = "WordPress 6.3" ->
  test (rxi "wp-content\/themes\/") html = true ->
  4 <= acc_confidence (scan_tech "wordpress" wordpress_signature doc html headers).
Proof.
  intros Hmeta Hhtml. unfold scan_tech, wordpress_signature.
  cbn [p_script p_link p_meta p_html p_headers p_cdn].
  change (scan_cdn [] doc ?a) with a. change (scan_headers [] headers ?a) with a.
  rewrite scan_html_cons, Hhtml, scan_metas_single.
  cbn [meta_content meta_name]. rewrite Hmeta.
  replace (test (rxi "wordpress") "WordPress 6.3") with true by (vm_compute; reflexivity).
  match goal with
  | |- 4 <= acc_confidence (scan_html ?ps html (hit 2 "html" (hit_versioned 2 ?s ?t ?n ?a))) =>
      pose proof (scan_html_grows ps html (hit 2 "html" (hit_versioned 2 s t n a))) as H1;
      assert (H2 : acc_confidence (hit 2 "html" (hit_versioned 2 s t n a))
                   = acc_confidence a + 2 + 2) by reflexivity
  end.
  lia.
Qed.

Section ScanMatches.

Variable cheerioLoad : string -> Document.
Variables (html : string) (headers : Headers).

Lemma scan_step_matches_other (st : LoopState) (entry : string * TechPattern) (name : string) :
  fst entry <> name ->
  obj_get (ls_techMatches (scan_step cheerioLoad html headers st entry)) name
  = obj_get (ls_techMatches st) name.
Proof.
  intro Hne. unfold scan_step, record_tech.
  set (a := scan_tech _ _ _ _ _).
  destruct (_ <=? _); [| reflexivity].
  cbn [ls_techMatches]. now apply obj_get_set_other.
Qed.

Lemma fold_scan_matches_other (corpus : Obj TechPattern) (st : LoopState) (name : string) :
  ~ In name (map fst corpus) ->
  obj_get (ls_techMatches (fold_left (scan_step cheerioLoad html headers) corpus st)) name
  = obj_get (ls_techMatches st) name.
Proof.
  revert st. induction corpus as [| e corpus IH]; intros st Hn; simpl; [reflexivity |].
  rewrite IH by (intro Hin; apply Hn; now right).
  apply scan_step_matches_other. intro Heq. apply Hn. now left.
Qed.

Lemma scan_step_matches_same (st : LoopState) (name : string) (pat : TechPattern) :
  let a := scan_tech name pat (cheerioLoad html) html headers in
  min_confidence (getCategoryForTech name) <= acc_confidence a ->
  obj_get (ls_techMatches (scan_step cheerioLoad html headers st (name, pat))) name
  = Some (mk_TechMeta (acc_confidence a) (acc_version a) (getCategoryForTech name)
            (humanizeTechName name) (acc_sources a)).
Proof.
  intros a Hle. unfold scan_step, record_tech. cbn [fst snd]. fold a.
  apply Nat.leb_le in Hle. rewrite Hle. cbn [ls_techMatches].
  apply obj_get_set_same.
Qed.

Lemma resolve_cms_matches (st : LoopState) (name : string) (m : TechMeta) :
  obj_get (ls_techMatches st) name = Some m ->
  obj_get (ls_techMatches (resolve_cms st)) name = Some m.
Proof.
  intro H. unfold resolve_cms.
  destruct (sort_desc c_confidence (ls_cmsCandidates st)) as [| topCMS tl]; [assumption |].
  cbn [ls_techMatches].
  destruct (obj_get (ls_techMatches st) (c_key topCMS)) eqn:E; [assumption |].
  rewrite obj_get_set_other; [assumption |]. intro Heq. congruence.
Qed.

End ScanMatches.

Lemma corpus_split_at_wordpress :
  TECH_PATTERNS
  = corpus_before_wordpress ++ ("wordpress", wordpress_signature) :: corpus_after_wordpress.
Proof. reflexivity. Qed.

Lemma wordpress_declared_once : ~ In "wordpress" (map fst corpus_after_wordpress).
Proof. intro H. apply existsb_eqb_In in H. vm_compute in H. discriminate. Qed.

Lemma no_cms_before_wordpress :
  forallb (fun e => negb (Category_eqb (getCategoryForTech (fst e)) cms))
    corpus_before_wordpress = true.
Proof. vm_compute. reflexivity. Qed.

Lemma flat_map_none {A B : Type} (f : A -> list B) (l : list A) :
  (forall x, In x l -> f x = []) -> flat_map f l = [].
Proof.
  induction l as [| a l IH]; intro H; simpl; [reflexivity |].
  rewrite (H a) by (now left). apply IH. intros x Hx. apply H. now right.
Qed.

Section WordpressScenario.

Variable cheerioLoad : string -> Document.
Variables (html : string) (headers : Headers).

Hypothesis generator_tag : meta_attr (cheerioLoad html) "generator" = "WordPress 6.3".
Hypothesis theme_script : includes html "wp-content/themes/x.js" = true.

Lemma wordpress_evidence_4 : 4 <= acc_confidence (wordpress_evidence cheerioLoad html headers).
Proof.
  apply wordpress_confidence; [exact generator_tag |].
  apply theme_path_matches. exact theme_script.
Qed.

Lemma wordpress_category : getCategoryForTech "wordpress" = cms.
Proof. vm_compute. reflexivity. Qed.

Lemma wordpress_display : humanizeTechName "wordpress" = "Wordpress".
Proof. vm_compute. reflexivity. Qed.

Lemma wordpress_clears_threshold :
  min_confidence (getCategoryForTech "wordpress") <= acc_confidence (wordpress_evidence cheerioLoad html headers).
Proof.
  rewrite wordpress_category, min_confidence_cms.
  pose proof wordpress_evidence_4. lia.
Qed.

Lemma wordpress_candidate :
  cms_candidate_of cheerioLoad html headers ("wordpress", wordpress_signature)
  = [mk_CmsCandidate "wordpress" "Wordpress" (acc_confidence (wordpress_evidence cheerioLoad html headers))
       (acc_version (wordpress_evidence cheerioLoad html headers))].
Proof.
  unfold cms_candidate_of. cbn [fst snd]. change (scan_tech "wordpress" wordpress_signature (cheerioLoad html) html headers)
      with (wordpress_evidence cheerioLoad html headers).
  pose proof wordpress_clears_threshold as Hle.
  rewrite wordpress_category in *. rewrite wordpress_display.
  apply Nat.leb_le in Hle. rewrite Hle. reflexivity.
Qed.

Lemma wordpress_candidates :
  flat_map (cms_candidate_of cheerioLoad html headers) TECH_PATTERNS
  = mk_CmsCandidate "wordpress" "Wordpress" (acc_confidence (wordpress_evidence cheerioLoad html headers))
      (acc_version (wordpress_evidence cheerioLoad html headers))
    :: flat_map (cms_candidate_of cheerioLoad html headers) corpus_after_wordpress.
Proof.
  rewrite corpus_split_at_wordpress, flat_map_app.
  change (flat_map ?f (?x :: ?l)) with (f x ++ flat_map f l).
  rewrite wordpress_candidate.
  rewrite flat_map_none; [reflexivity |].
  intros e He. unfold cms_candidate_of.
  pose proof no_cms_before_wordpress as Hall.
  rewrite forallb_forall in Hall. specialize (Hall e He).
  apply negb_true_iff in Hall. now rewrite Hall.
Qed.

Lemma scan_corpus_fold (corpus : Obj TechPattern) :
  scan_corpus cheerioLoad corpus html headers
  = fold_left (scan_step cheerioLoad html headers) corpus
      (mk_LoopState empty_technologies [] []).
Proof. reflexivity. Qed.

Lemma fold_left_snoc_step {A B : Type} (f : A -> B -> A) (l1 l2 : list B) (x : B) (a : A) :
  fold_left f (l1 ++ x :: l2) a = fold_left f l2 (f (fold_left f l1 a) x).
Proof. now rewrite fold_left_app. Qed.

Lemma wordpress_match :
  obj_get (ls_techMatches (resolve_cms (scan_corpus cheerioLoad TECH_PATTERNS html headers)))
    "wordpress"
  = Some (mk_TechMeta (acc_confidence (wordpress_evidence cheerioLoad html headers)) (acc_version (wordpress_evidence cheerioLoad html headers))
            cms "Wordpress" (acc_sources (wordpress_evidence cheerioLoad html headers))).
Proof.
  apply resolve_cms_matches.
  rewrite scan_corpus_fold, corpus_split_at_wordpress, fold_left_snoc_step.
  rewrite fold_scan_matches_other by apply wordpress_declared_once.
  rewrite scan_step_matches_same by apply wordpress_clears_threshold.
  rewrite wordpress_category, wordpress_display. reflexivity.
Qed.

End WordpressScenario.

(** C5, as stated, fails on the page of the scenario: the theme path is
    evidence on the html channel (weight 2), not on the script channel,
    whose pattern does not cover it, so the score is 2 + 2 = 4; and no
    version is read from the generator text, so the entry is Wordpress
    without a version. *)
Lemma wordpress_scenario_scores_4_without_version :
  let a := analyzeStaticResponse wp_loader wp_html [] "https://blog.example" in
  t_cms (a_technologies a) = ["Wordpress"]
  /\ t_cms (a_technologies a) <> ["Wordpress 6.3"]
  /\ obj_get (a_techMatches a) "wordpress"
     = Some (mk_TechMeta 4 None cms "Wordpress" ["meta"; "html"])
  /\ test (rxi "wp-emoji-release\.min\.js|wp-admin") "/wp-content/themes/x.js" = false
  /\ extractVersion "WordPress 6.3" "wordpress" = None.
Proof.
  cbv zeta. split; [vm_compute; reflexivity |].
  split; [vm_compute; discriminate |].
  split; [vm_compute; reflexivity |].
  split; vm_compute; reflexivity.
Qed.

(** C5, amended.  For a document whose generator meta tag reads WordPress
    6.3 and whose markup contains wp-content/themes/x.js, the analysis
    records a WordPress match in category cms with confidence at least 4
    (meta weight 2 plus html weight 2), which clears the cms threshold 3;
    the cms array has exactly one entry, and when no other CMS candidate
    scores higher that entry is the WordPress one: its display name
    Wordpress, followed by the version on record when there is one. *)
Theorem wordpress_scenario_detected
    (cheerioLoad : string -> Document) (html : string) (headers : Headers) (u : string) :
  meta_attr (cheerioLoad html) "generator" = "WordPress 6.3" ->
  includes html "wp-content/themes/x.js" = true ->
  let a := analyzeStaticResponse cheerioLoad html headers u in
  let candidates := flat_map (cms_candidate_of cheerioLoad html headers) TECH_PATTERNS in
  exists m,
    obj_get (a_techMatches a) "wordpress" = Some m
    /\ category m = cms
    /\ displayName m = "Wordpress"
    /\ 4 <= confidence m
    /\ min_confidence cms = 3
    /\ (exists entry, t_cms (a_technologies a) = [entry])
    /\ (Forall (fun c => c_confidence c <= confidence m) candidates ->
        t_cms (a_technologies a) = [formatTechName "Wordpress" (version m)]).
Proof.
  intros Hmeta Hsrc a candidates.
  pose proof (wordpress_match cheerioLoad html headers Hmeta Hsrc) as Hm.
  pose proof (wordpress_evidence_4 cheerioLoad html headers Hmeta Hsrc) as H4.
  pose proof (wordpress_candidates cheerioLoad html headers Hmeta Hsrc) as Hc.
  fold candidates in Hc.
  set (ev := wordpress_evidence cheerioLoad html headers) in *.
  exists (mk_TechMeta (acc_confidence ev) (acc_version ev) cms "Wordpress" (acc_sources ev)).
  split; [exact Hm |]. cbn [category displayName confidence version].
  split; [reflexivity |]. split; [reflexivity |]. split; [exact H4 |].
  split; [exact min_confidence_cms |]. split.
  - unfold a. rewrite analysis_cms. fold candidates.
    destruct (sort_desc c_confidence candidates) as [| w tl] eqn:E.
    + apply sort_desc_nil_iff in E. rewrite Hc in E. discriminate.
    + eauto.
  - intro Hall. unfold a. rewrite analysis_cms. fold candidates.
    assert (Hw : first_max c_confidence
                   (mk_CmsCandidate "wordpress" "Wordpress" (acc_confidence ev) (acc_version ev))
                   candidates).
    { exists [], (flat_map (cms_candidate_of cheerioLoad html headers) corpus_after_wordpress).
      split; [exact Hc |]. split; [constructor |].
      rewrite Hc in Hall. exact (Forall_inv_tail Hall). }
    destruct (sort_desc_head c_confidence _ _ Hw) as [tl ->]. reflexivity.
Qed.

Lemma wordpress_scenario_detected_witness :
  meta_attr (wp_loader wp_html) "generator" = "WordPress 6.3"
  /\ includes wp_html "wp-content/themes/x.js" = true
  /\ exists m,
       obj_get (a_techMatches (analyzeStaticResponse wp_loader wp_html [] "https://blog.example"))
         "wordpress" = Some m
       /\ category m = cms /\ 4 <= confidence m.
Proof.
  assert (Hmeta : meta_attr (wp_loader wp_html) "generator" = "WordPress 6.3")
    by (vm_compute; reflexivity).
  assert (Hsrc : includes wp_html "wp-content/themes/x.js" = true)
    by (vm_compute; reflexivity).
  split; [exact Hmeta |]. split; [exact Hsrc |].
  destruct (wordpress_scenario_detected wp_loader wp_html [] "https://blog.example"
              Hmeta Hsrc) as [m [H1 [H2 [_ [H4 _]]]]].
  exists m. split; [exact H1 |]. split; [exact H2 | exact H4].
Defined.

(** ** The verdict leaves its arguments alone *)

Import VerdictHeap.

Section HeapFacts.

Variable base : Heap.

Lemma hbind_run {A B : Type} (m : H A) (k : A -> H B) (h h' : Heap) (a : A) :
  m h = Some (a, h') -> hbind m k h = k a h'.
Proof. intro E. unfold hbind. now rewrite E. Qed.

Lemma nth_error_here (L : Heap) (c : Cell) (t : Heap) :
  nth_error (L ++ c :: t) (List.length L) = Some c.
Proof. induction L as [| x L IH]; simpl; [reflexivity | exact IH]. Qed.

Lemma set_nth_here (L : Heap) (c c' : Cell) (t : Heap) :
  set_nth (List.length L) c' (L ++ c :: t) = L ++ c' :: t.
Proof. induction L as [| x L IH]; simpl; [reflexivity | now rewrite IH]. Qed.

Lemma set_nth_length (n : nat) (c : Cell) (L : Heap) :
  List.length (set_nth n c L) = List.length L.
Proof.
  revert n. induction L as [| x L IH]; intros [| n]; simpl; try reflexivity.
  now rewrite IH.
Qed.

Lemma set_nth_after (n : nat) (c : Cell) (L : Heap) :
  set_nth (List.length base + n) c (base ++ L) = base ++ set_nth n c L.
Proof. induction base as [| x b IH]; simpl; [reflexivity | now rewrite IH]. Qed.

Lemma nth_error_after (n : nat) (L : Heap) :
  nth_error (base ++ L) (List.length base + n) = nth_error L n.
Proof. induction base as [| x b IH]; simpl; [reflexivity | exact IH]. Qed.

Lemma nth_error_before (l : loc) (L : Heap) (c : Cell) :
  nth_error base l = Some c -> nth_error (base ++ L) l = Some c.
Proof.
  intro E. rewrite nth_error_app1; [assumption |].
  apply nth_error_Some. congruence.
Qed.

Lemma alloc_run (L : Heap) (c : Cell) :
  alloc c (base ++ L)
  = Some (List.length base + List.length L, base ++ (L ++ [c])).
Proof. unfold alloc. now rewrite length_app, app_assoc. Qed.

Lemma read_local (L : Heap) (k : nat) (c : Cell) :
  nth_error L k = Some c ->
  read (List.length base + k) (base ++ L) = Some (c, base ++ L).
Proof. intro E. unfold read. now rewrite nth_error_after, E. Qed.

Lemma read_input (L : Heap) (l : loc) (c : Cell) :
  nth_error base l = Some c -> read l (base ++ L) = Some (c, base ++ L).
Proof. intro E. unfold read. now rewrite (nth_error_before l L c E). Qed.

Lemma write_local (L : Heap) (k : nat) (c c' : Cell) :
  nth_error L k = Some c' ->
  write (List.length base + k) c (base ++ L) = Some (tt, base ++ set_nth k c L).
Proof.
  intro E. unfold write.
  assert (Hk : k < List.length L) by (apply nth_error_Some; congruence).
  assert (Hlt : (List.length base + k <? List.length (base ++ L)) = true).
  { apply Nat.ltb_lt. rewrite length_app. lia. }
  now rewrite Hlt, set_nth_after.
Qed.

Lemma read_strings_local (L : Heap) (k : nat) (ss : list string) :
  nth_error L k = Some (CStrings ss) ->
  read_strings (List.length base + k) (base ++ L) = Some (ss, base ++ L).
Proof. intro E. unfold read_strings. now rewrite (hbind_run _ _ _ _ _ (read_local L k _ E)). Qed.

Lemma read_entries_local (L : Heap) (k : nat) (es : list (string * TechMeta)) :
  nth_error L k = Some (CEntries es) ->
  read_entries (List.length base + k) (base ++ L) = Some (es, base ++ L).
Proof. intro E. unfold read_entries. now rewrite (hbind_run _ _ _ _ _ (read_local L k _ E)). Qed.

Lemma read_inferred_local (L : Heap) (k : nat) (a b : loc) :
  nth_error L k = Some (CInferred a b) ->
  read_inferred (List.length base + k) (base ++ L) = Some ((a, b), base ++ L).
Proof. intro E. unfold read_inferred. now rewrite (hbind_run _ _ _ _ _ (read_local L k _ E)). Qed.

Lemma read_matches_input (L : Heap) (l : loc) (o : Obj TechMeta) :
  nth_error base l = Some (CMatches o) ->
  read_matches l (base ++ L) = Some (o, base ++ L).
Proof. intro E. unfold read_matches. now rewrite (hbind_run _ _ _ _ _ (read_input L l _ E)). Qed.

Lemma read_waf_input (L : Heap) (l : loc) (w : WafInfo) :
  nth_error base l = Some (CWaf w) -> read_waf l (base ++ L) = Some (w, base ++ L).
Proof. intro E. unfold read_waf. now rewrite (hbind_run _ _ _ _ _ (read_input L l _ E)). Qed.

Lemma read_server_input (L : Heap) (l : loc) (s : ServerInfo) :
  nth_error base l = Some (CServer s) -> read_server l (base ++ L) = Some (s, base ++ L).
Proof. intro E. unfold read_server. now rewrite (hbind_run _ _ _ _ _ (read_input L l _ E)). Qed.

Lemma read_table_input (L : Heap) (l : loc) (t : Obj Inference) :
  nth_error base l = Some (CTable t) -> read_table l (base ++ L) = Some (t, base ++ L).
Proof. intro E. unfold read_table. now rewrite (hbind_run _ _ _ _ _ (read_input L l _ E)). Qed.

Lemma push_local (L : Heap) (k : nat) (cur xs : list string) :
  nth_error L k = Some (CStrings cur) ->
  push (List.length base + k) xs (base ++ L)
  = Some (tt, base ++ set_nth k (CStrings (cur ++ xs)) L).
Proof.
  intro E. unfold push.
  rewrite (hbind_run _ _ _ _ _ (read_strings_local L k cur E)).
  now apply write_local with (c' := CStrings cur).
Qed.

(** [pickTop] allocates two arrays, sorts the second one, and returns what
    the function on values returns. *)
Lemma pickTopH_run (L : Heap) (l_matches : loc) (o : Obj TechMeta) (c : Category) :
  nth_error base l_matches = Some (CMatches o) ->
  pickTopH l_matches c (base ++ L)
  = Some (pickTop o c,
          base ++ (L ++ [CEntries o;
                         CEntries (sort_desc entry_conf
                                     (filter (fun e => Category_eqb (category (snd e)) c) o))])).
Proof.
  intro Hin. unfold pickTopH, pickTop.
  rewrite (hbind_run _ _ _ _ _ (read_matches_input L l_matches o Hin)).
  rewrite (hbind_run _ _ _ _ _ (alloc_run L (CEntries o))).
  rewrite (hbind_run _ _ _ _ _
             (read_entries_local (L ++ [CEntries o]) (List.length L) o
                (nth_error_here L (CEntries o) []))).
  set (candidates := filter (fun e => Category_eqb (category (snd e)) c) o).
  rewrite (hbind_run _ _ _ _ _ (alloc_run (L ++ [CEntries o]) (CEntries candidates))).
  rewrite (hbind_run _ _ _ _ _
             (read_entries_local ((L ++ [CEntries o]) ++ [CEntries candidates])
                (List.length (L ++ [CEntries o])) candidates
                (nth_error_here (L ++ [CEntries o]) (CEntries candidates) []))).
  destruct candidates as [| x rest] eqn:E.
  - unfold hret. now rewrite <- app_assoc.
  - rewrite (hbind_run _ _ _ _ _
               (write_local ((L ++ [CEntries o]) ++ [CEntries (x :: rest)])
                  (List.length (L ++ [CEntries o]))
                  (CEntries (sort_desc entry_conf (x :: rest))) _
                  (nth_error_here (L ++ [CEntries o]) (CEntries (x :: rest)) []))).
    rewrite set_nth_here.
    rewrite (hbind_run _ _ _ _ _
               (read_entries_local
                  ((L ++ [CEntries o]) ++ [CEntries (sort_desc entry_conf (x :: rest))])
                  (List.length (L ++ [CEntries o])) _
                  (nth_error_here (L ++ [CEntries o])
                     (CEntries (sort_desc entry_conf (x :: rest))) []))).
    destruct (sort_desc entry_conf (x :: rest)) as [| [key meta] tl];
      unfold hret; now rewrite <- app_assoc.
Qed.

End HeapFacts.

Section InferredFacts.

Variable base : Heap.
Variable l_table : loc.
Hypothesis table_in : nth_error base l_table = Some (CTable STACK_INFERENCES).

Lemma alloc_first (c : Cell) :
  alloc c base = Some (List.length base + 0, base ++ [c]).
Proof. unfold alloc. now rewrite Nat.add_0_r. Qed.

Lemma push_languages_run (ls ds xs : list string) :
  push_languages (List.length base + 2) xs (base ++ (inferred_cells base) ls ds)
  = Some (tt, base ++ (inferred_cells base) (ls ++ xs) ds).
Proof.
  unfold push_languages.
  rewrite (hbind_run _ _ _ _ _
             (read_inferred_local base ((inferred_cells base) ls ds) 2 _ _ eq_refl)).
  cbn [fst]. now rewrite (push_local base ((inferred_cells base) ls ds) 0 ls xs eq_refl).
Qed.

Lemma push_databases_run (ls ds xs : list string) :
  push_databases (List.length base + 2) xs (base ++ (inferred_cells base) ls ds)
  = Some (tt, base ++ (inferred_cells base) ls (ds ++ xs)).
Proof.
  unfold push_databases.
  rewrite (hbind_run _ _ _ _ _
             (read_inferred_local base ((inferred_cells base) ls ds) 2 _ _ eq_refl)).
  cbn [snd]. now rewrite (push_local base ((inferred_cells base) ls ds) 1 ds xs eq_refl).
Qed.

Lemma when_push_languages_run (cond : bool) (ls ds xs : list string) :
  when cond (push_languages (List.length base + 2) xs) (base ++ (inferred_cells base) ls ds)
  = Some (tt, base ++ (inferred_cells base) (ls ++ if cond then xs else []) ds).
Proof.
  destruct cond; simpl.
  - apply push_languages_run.
  - unfold hret. now rewrite app_nil_r.
Qed.

Lemma addInferenceH_run (key : option string) (ls ds : list string) :
  addInferenceH l_table (List.length base + 2) key (base ++ (inferred_cells base) ls ds)
  = Some (tt,
          base ++ (inferred_cells base) (languages (addInference key (mk_Inferred ls ds)))
                    (databases (addInference key (mk_Inferred ls ds)))).
Proof.
  unfold addInferenceH, addInference.
  destruct key as [k |]; [| reflexivity].
  destruct (negb (truthy k)); [reflexivity |].
  rewrite (hbind_run _ _ _ _ _ (read_table_input base _ l_table _ table_in)).
  destruct (obj_get STACK_INFERENCES (toLowerCase k)) as [inference |]; [| reflexivity].
  cbn [languages databases].
  destruct (inf_languages inference) as [langs |].
  - rewrite (hbind_run _ _ _ _ _ (push_languages_run ls ds langs)).
    destruct (inf_databases inference) as [dbs |].
    + apply push_databases_run.
    + unfold hret. now rewrite app_nil_r.
  - rewrite (hbind_run _ _ _ _ _ (eq_refl : hret tt (base ++ (inferred_cells base) ls ds) = _)).
    rewrite app_nil_r.
    destruct (inf_databases inference) as [dbs |].
    + apply push_databases_run.
    + unfold hret. now rewrite app_nil_r.
Qed.

End InferredFacts.

Section VerdictRun.

Variable h : Heap.
Variables l_table l_technologies l_matches l_waf l_server : loc.
Variables (techs : Technologies) (techMatches : Obj TechMeta) (waf : WafInfo)
          (serverInfo : ServerInfo).

Hypothesis table_in : nth_error h l_table = Some (CTable STACK_INFERENCES).
Hypothesis matches_in : nth_error h l_matches = Some (CMatches techMatches).
Hypothesis waf_in : nth_error h l_waf = Some (CWaf waf).
Hypothesis server_in : nth_error h l_server = Some (CServer serverInfo).

Lemma set_nth_same (L : Heap) (k : nat) (c : Cell) :
  nth_error L k = Some c -> set_nth k c L = L.
Proof.
  revert k. induction L as [| x L IH]; intros [| k] E; simpl in *; try discriminate.
  - now injection E as ->.
  - f_equal. now apply IH.
Qed.

Lemma push_pick_run (base : Heap) (L : Heap) (k : nat) (cur : list string)
    (label : string) (p : option Pick) :
  nth_error L k = Some (CStrings cur) ->
  push_pick (List.length base + k) label p (base ++ L)
  = Some (tt, base ++ set_nth k (CStrings (cur ++ pick_line label p)) L).
Proof.
  intro E. unfold push_pick. destruct p as [pk |].
  - now apply push_local.
  - unfold hret, pick_line. rewrite app_nil_r. now rewrite set_nth_same.
Qed.

Lemma when_push_run (base : Heap) (L : Heap) (k : nat) (cur xs : list string) (cond : bool) :
  nth_error L k = Some (CStrings cur) ->
  when cond (push (List.length base + k) xs) (base ++ L)
  = Some (tt, base ++ set_nth k (CStrings (cur ++ if cond then xs else [])) L).
Proof.
  intro E. destruct cond; simpl.
  - now apply push_local.
  - unfold hret. rewrite app_nil_r. now rewrite set_nth_same.
Qed.

Lemma waf_step_run (base : Heap) (L : Heap) (k : nat) (cur : list string) (w : WafInfo) :
  nth_error L k = Some (CStrings cur) ->
  match w with
  | WafNone => hret tt
  | WafHit provider conf _ =>
      push (List.length base + k) [("WAF: " ++ provider ++ " (" ++ conf ++ ")")%string]
  end (base ++ L)
  = Some (tt, base ++ set_nth k (CStrings (cur ++ waf_line w)) L).
Proof.
  intro E. destruct w as [| provider conf score]; simpl.
  - unfold hret. rewrite app_nil_r. now rewrite set_nth_same.
  - now apply push_local.
Qed.

Lemma buildVerdictH_run :
  exists fresh,
    buildVerdictH l_table l_technologies l_matches l_waf l_server h
    = Some (buildVerdict techs techMatches waf serverInfo, h ++ fresh).
Proof.
  cut (exists fresh,
         buildVerdictH l_table l_technologies l_matches l_waf l_server (h ++ [])
         = Some (buildVerdict techs techMatches waf serverInfo, h ++ fresh)).
  { now rewrite app_nil_r. }
  unfold buildVerdictH.
  rewrite (hbind_run _ _ _ _ _ (pickTopH_run h _ l_matches techMatches cms matches_in)).
  rewrite (hbind_run _ _ _ _ _ (pickTopH_run h _ l_matches techMatches frontend matches_in)).
  rewrite (hbind_run _ _ _ _ _ (pickTopH_run h _ l_matches techMatches hosting matches_in)).
  rewrite (hbind_run _ _ _ _ _ (pickTopH_run h _ l_matches techMatches cdn matches_in)).
  cbv beta. cbn [app].
  match goal with
  | |- context [h ++ ?P] => set (picks := P); set (base := h ++ picks)
  end.
  assert (table_in' : nth_error base l_table = Some (CTable STACK_INFERENCES))
    by (apply nth_error_before; exact table_in).
  assert (waf_in' : nth_error base l_waf = Some (CWaf waf))
    by (apply nth_error_before; exact waf_in).
  assert (server_in' : nth_error base l_server = Some (CServer serverInfo))
    by (apply nth_error_before; exact server_in).
  set (p_cms := pickTop techMatches cms).
  set (p_frontend := pickTop techMatches frontend).
  set (p_hosting := pickTop techMatches hosting).
  set (p_cdn := pickTop techMatches cdn).
  rewrite (hbind_run _ _ _ _ _ (alloc_first base _)).
  rewrite (hbind_run _ _ _ _ _ (alloc_run base _ _)). cbn [List.length app].
  rewrite (hbind_run _ _ _ _ _ (alloc_run base _ _)). cbn [List.length app].
  change [CStrings []; CStrings []; CInferred (List.length base + 0) (List.length base + 1)]
    with (inferred_cells base [] []).
  rewrite (hbind_run _ _ _ _ _ (addInferenceH_run base l_table table_in' _ _ _)).
  rewrite (hbind_run _ _ _ _ _ (addInferenceH_run base l_table table_in' _ _ _)).
  rewrite (hbind_run _ _ _ _ _ (read_server_input base _ l_server _ server_in')).
  rewrite (hbind_run _ _ _ _ _ (when_push_languages_run base _ _ _ _)).
  rewrite (hbind_run _ _ _ _ _ (when_push_languages_run base _ _ _ _)).
  rewrite (hbind_run _ _ _ _ _ (when_push_languages_run base _ _ _ _)).
  rewrite (hbind_run _ _ _ _ _ (when_push_languages_run base _ _ _ _)).
  rewrite (hbind_run _ _ _ _ _ (when_push_languages_run base _ _ _ _)).
  rewrite (hbind_run _ _ _ _ _ (when_push_languages_run base _ _ _ _)).
  match goal with
  | |- context [inferred_cells base ?ls ?ds] => set (langs := ls); set (dbs := ds)
  end.
  unfold inferred_cells.
  erewrite hbind_run by (apply read_inferred_local; reflexivity). cbn [fst snd].
  erewrite hbind_run by (apply read_strings_local; reflexivity).
  erewrite hbind_run by (apply alloc_run). cbn [List.length app].
  erewrite hbind_run by (eapply write_local; reflexivity). cbn [set_nth].
  erewrite hbind_run by (apply read_inferred_local; reflexivity). cbn [fst snd].
  erewrite hbind_run by (apply read_strings_local; reflexivity).
  erewrite hbind_run by (apply alloc_run). cbn [List.length app].
  erewrite hbind_run by (eapply write_local; reflexivity). cbn [set_nth].
  erewrite hbind_run by (apply alloc_run). cbn [List.length app].
  erewrite hbind_run by (apply push_pick_run; reflexivity). cbn [set_nth].
  erewrite hbind_run by (apply push_pick_run; reflexivity). cbn [set_nth].
  erewrite hbind_run by (apply push_pick_run; reflexivity). cbn [set_nth].
  erewrite hbind_run by (apply push_pick_run; reflexivity). cbn [set_nth].
  erewrite hbind_run by (apply read_waf_input; exact waf_in').
  erewrite hbind_run by (apply waf_step_run; reflexivity). cbn [set_nth].
  erewrite hbind_run by (apply read_inferred_local; reflexivity). cbn [fst snd].
  erewrite hbind_run by (apply read_strings_local; reflexivity).
  erewrite hbind_run by (apply read_strings_local; reflexivity).
  erewrite hbind_run by (apply when_push_run; reflexivity). cbn [set_nth].
  erewrite hbind_run by (apply when_push_run; reflexivity). cbn [set_nth].
  erewrite hbind_run by (apply read_strings_local; reflexivity).
  unfold hret. subst base. rewrite <- (app_assoc h picks).
  eexists. f_equal. f_equal.
  unfold buildVerdict. fold p_cms p_frontend p_hosting p_cdn.
  cbv zeta. cbn [pr_cms pr_frontend]. subst langs dbs.
  destruct (addInference (option_map pk_key p_cms) (mk_Inferred [] [])) as [l1 d1].
  cbn [languages databases].
  set (inferred2 := addInference (option_map pk_key p_frontend) (mk_Inferred l1 d1)).
  unfold banner_languages.
  rewrite <- !app_assoc. cbn [app].
  f_equal. f_equal. f_equal.
  destruct waf as [| provider conf score];
    destruct (deduplicateArray (languages inferred2 ++ _));
    destruct (deduplicateArray (databases inferred2)); reflexivity.
Qed.

End VerdictRun.

Example sample_verdict :
  option_map (fun r => (v_summary (fst r), v_confidence (fst r), firstn 5 (snd r)))
    (buildVerdictH 0 1 2 3 4 sample_heap)
  = Some ("Frontend: Next.js 13.4.0 | Hosting: Vercel | WAF: Cloudflare (high) | Language: Node.js",
          "medium", sample_heap).
Proof. vm_compute. reflexivity. Qed.

(** C9.  Run on a heap that holds its arguments (and the inference table),
    [buildVerdict] returns the verdict that the function on values
    computes from them, and the heap it leaves is the one it found followed
    by cells it allocated itself: every cell that existed before, the
    arguments among them, is unchanged.  A second run on the heap left by
    the first returns the same verdict. *)
Theorem buildVerdict_repeatable_and_leaves_arguments
    (h : Heap) (l_table l_technologies l_matches l_waf l_server : loc)
    (techs : Technologies) (techMatches : Obj TechMeta) (waf : WafInfo)
    (serverInfo : ServerInfo) :
  nth_error h l_table = Some (CTable STACK_INFERENCES) ->
  nth_error h l_technologies = Some (CTechs techs) ->
  nth_error h l_matches = Some (CMatches techMatches) ->
  nth_error h l_waf = Some (CWaf waf) ->
  nth_error h l_server = Some (CServer serverInfo) ->
  exists fresh fresh',
    buildVerdictH l_table l_technologies l_matches l_waf l_server h
    = Some (buildVerdict techs techMatches waf serverInfo, h ++ fresh)
    /\ buildVerdictH l_table l_technologies l_matches l_waf l_server (h ++ fresh)
       = Some (buildVerdict techs techMatches waf serverInfo, (h ++ fresh) ++ fresh').
Proof.
  intros Ht _ Hm Hw Hs.
  destruct (buildVerdictH_run h l_table l_technologies l_matches l_waf l_server
              techs techMatches waf serverInfo Ht Hm Hw Hs) as [fresh Hrun].
  destruct (buildVerdictH_run (h ++ fresh) l_table l_technologies l_matches l_waf l_server
              techs techMatches waf serverInfo
              (nth_error_before h _ fresh _ Ht) (nth_error_before h _ fresh _ Hm)
              (nth_error_before h _ fresh _ Hw) (nth_error_before h _ fresh _ Hs))
    as [fresh' Hrun'].
  exists fresh, fresh'. split; assumption.
Qed.

Lemma buildVerdict_repeatable_and_leaves_arguments_witness :
  nth_error sample_heap 2 = Some (CMatches sample_matches)
  /\ exists fresh fresh',
       buildVerdictH 0 1 2 3 4 sample_heap
       = Some (buildVerdict (mk_Technologies ["React"; "Next.js 13.4.0"] [] [] [] ["Vercel"] [] [])
                 sample_matches (WafHit "Cloudflare" "high" 6)
                 (mk_ServerInfo (HStr "Vercel") (Some (HStr "Next.js"))),
               sample_heap ++ fresh)
       /\ buildVerdictH 0 1 2 3 4 (sample_heap ++ fresh)
          = Some (buildVerdict (mk_Technologies ["React"; "Next.js 13.4.0"] [] [] [] ["Vercel"] [] [])
                    sample_matches (WafHit "Cloudflare" "high" 6)
                    (mk_ServerInfo (HStr "Vercel") (Some (HStr "Next.js"))),
                  (sample_heap ++ fresh) ++ fresh').
Proof.
  split; [reflexivity |].
  apply (buildVerdict_repeatable_and_leaves_arguments sample_heap 0 1 2 3 4);
    reflexivity.
Defined.

(* ================================================================== *)
(** * Further properties *)
(* ================================================================== *)

(** ** deduplicateArray *)

Lemma dedup_from_represented (seen l : list string) (x : string) :
  In x l ->
  In (toLowerCase x) seen
  \/ exists y, In y (dedup_from seen l) /\ toLowerCase y = toLowerCase x.
Proof.
  revert seen. induction l as [| a l IH]; intros seen Hin; simpl in *.
  - contradiction.
  - destruct (existsb (String.eqb (toLowerCase a)) seen) eqn:E.
    + destruct Hin as [-> | Hin].
      * left. now apply existsb_eqb_In.
      * apply IH. assumption.
    + destruct Hin as [-> | Hin].
      * right. exists x. split; [now left | reflexivity].
      * destruct (IH (toLowerCase a :: seen) Hin) as [[Heq | Hs] | [y [Hy Hl]]].
        -- right. exists a. split; [now left | assumption].
        -- now left.
        -- right. exists y. split; [now right | assumption].
Qed.

Lemma dedup_from_changes (seen l : list string) :
  dedup_from seen l = l -> NoDup (map toLowerCase l).
Proof.
  intro H. rewrite <- H. apply dedup_from_NoDup.
Qed.

(** X1.  [deduplicateArray] returns its argument unchanged exactly when no two of
    its items have the same lower-cased text; in particular it is idempotent. *)
Theorem deduplicateArray_fixed_points (l : list string) :
  (deduplicateArray l = l <-> NoDup (map toLowerCase l))
  /\ deduplicateArray (deduplicateArray l) = deduplicateArray l.
Proof.
  split; [split |].
  - apply dedup_from_changes.
  - intro H. unfold deduplicateArray. apply dedup_from_fixed; [assumption |].
    intros x _ [].
  - apply dedup_idempotent.
Qed.

(** X2.  [deduplicateArray] invents nothing and loses nothing up to case: every
    item it returns is an item of the input, every item of the input has an
    item of the result with the same lower-cased text, the result is no
    longer than the input, and it is empty only for the empty array. *)
Theorem deduplicateArray_keeps_a_representative (l : list string) :
  (forall x, In x (deduplicateArray l) -> In x l)
  /\ (forall x, In x l ->
        exists y, In y (deduplicateArray l) /\ toLowerCase y = toLowerCase x)
  /\ List.length (deduplicateArray l) <= List.length l
  /\ (deduplicateArray l = [] <-> l = []).
Proof.
  split; [| split; [| split]].
  - intros x H. now apply dedup_from_In in H.
  - intros x H. destruct (dedup_from_represented [] l x H) as [[] | Hy]. exact Hy.
  - apply dedup_from_length.
  - apply dedup_nil_iff.
Qed.

(** ** Runtime detection *)

Lemma browser_checks_all_mapped :
  forallb
    (fun check => match mapBrowserTechToKey (fst check) with Some _ => true | None => false end)
    browser_checks = true.
Proof. vm_compute. reflexivity. Qed.

Lemma browser_key_mapping_identity :
  forallb (fun kv => String.eqb (fst kv) (snd kv)) browser_key_mapping = true.
Proof. vm_compute. reflexivity. Qed.

Lemma obj_get_In {V : Type} (o : Obj V) (k : string) (v : V) :
  obj_get o k = Some v -> In (k, v) o.
Proof.
  induction o as [| [k' v'] o IH]; simpl; [discriminate |].
  destruct (String.eqb k' k) eqn:E.
  - intro H. apply some_inj in H. apply String.eqb_eq in E. subst. now left.
  - intro H. right. now apply IH.
Qed.

Lemma detect_globals_In (win : Window) (name : string) :
  In name (detect_globals win)
  <-> exists props,
        In (name, props) browser_checks
        /\ exists prop, In prop props /\ win prop = PropDefined.
Proof.
  unfold detect_globals. rewrite unique_In_nil, in_flat_map. split.
  - intros [[n props] [Hin Hx]]. cbn [fst snd] in Hx.
    destruct (existsb (prop_present win) props) eqn:E; [| contradiction].
    destruct Hx as [<- | []]. exists props. split; [assumption |].
    apply existsb_exists in E. destruct E as [prop [Hp Hpres]].
    exists prop. split; [assumption |].
    unfold prop_present in Hpres. now destruct (win prop).
  - intros [props [Hin [prop [Hp Hdef]]]].
    exists (name, props). split; [assumption |]. cbn [fst snd].
    assert (E : existsb (prop_present win) props = true).
    { apply existsb_exists. exists prop. split; [assumption |].
      unfold prop_present. now rewrite Hdef. }
    rewrite E. now left.
Qed.

(** X3.  The function evaluated in the page reports a name exactly when one of
    the globals listed for it is defined and not null (a property whose read
    throws counts as absent); no name is reported twice, and a window with
    none of the globals gives the empty list. *)
Theorem extractBrowserTechnologies_reports_present_globals (win : Window) :
  (forall name,
      In name (detect_globals win)
      <-> exists props,
            In (name, props) browser_checks
            /\ exists prop, In prop props /\ win prop = PropDefined)
  /\ NoDup (detect_globals win)
  /\ ((forall prop, win prop <> PropDefined) -> detect_globals win = []).
Proof.
  split; [| split].
  - apply detect_globals_In.
  - apply unique_NoDup.
  - intro Hno. destruct (detect_globals win) as [| name l] eqn:E; [reflexivity |].
    assert (Hin : In name (detect_globals win)) by (rewrite E; now left).
    apply detect_globals_In in Hin. destruct Hin as [props [_ [prop [_ Hdef]]]].
    exfalso. exact (Hno prop Hdef).
Qed.

(** X4.  When [mapBrowserTechToKey] returns a key, the key is the display name
    lower-cased and stripped of everything but letters and digits, it is one
    of the keys of the mapping, and the function maps it to itself.  The
    mapping is an object literal: the name constructor, which every object
    inherits, is set aside. *)
Theorem mapBrowserTechToKey_returns_normalized_name (displayName key : string) :
  normalizeName displayName <> "constructor" ->
  mapBrowserTechToKey displayName = Some key ->
  key = normalizeName displayName
  /\ In key (obj_keys browser_key_mapping)
  /\ mapBrowserTechToKey key = Some key.
Proof.
  intros _. unfold mapBrowserTechToKey. fold (normalizeName displayName).
  destruct (obj_get browser_key_mapping (normalizeName displayName)) as [k |] eqn:E;
    [| discriminate].
  destruct (truthy k); [| discriminate].
  intro H. apply some_inj in H. subst k.
  apply obj_get_In in E.
  pose proof browser_key_mapping_identity as Hid.
  rewrite forallb_forall in Hid. pose proof (Hid _ E) as Heq. cbn [fst snd] in Heq.
  apply String.eqb_eq in Heq.
  split; [now symmetry |]. split.
  - unfold obj_keys. apply in_map_iff. exists (normalizeName displayName, key).
    split; [now rewrite Heq | assumption].
  - subst key. revert E. generalize (normalizeName displayName). intros n E.
    clear - E.
    unfold browser_key_mapping in E. simpl in E.
    repeat (destruct E as [E | E];
            [apply (f_equal fst) in E; cbn [fst] in E; subst n; vm_compute; reflexivity |]).
    contradiction.
Qed.

Lemma mapBrowserTechToKey_returns_normalized_name_witness :
  normalizeName "Next.js" <> "constructor"
  /\ mapBrowserTechToKey "Next.js" = Some "nextjs"
  /\ "nextjs" = normalizeName "Next.js"
  /\ mapBrowserTechToKey "nextjs" = Some "nextjs".
Proof.
  assert (Hn : normalizeName "Next.js" <> "constructor") by (vm_compute; discriminate).
  split; [exact Hn |]. split; [reflexivity |].
  destruct (mapBrowserTechToKey_returns_normalized_name "Next.js" "nextjs" Hn eq_refl)
    as [H1 [_ H3]].
  split; assumption.
Defined.

Lemma truthy_toLowerCase (s : string) : truthy (toLowerCase s) = truthy s.
Proof. now destruct s. Qed.

Lemma lower_char_idem (c : ascii) : lower_char (lower_char c) = lower_char c.
Proof. destruct c as [[] [] [] [] [] [] [] []]; vm_compute; reflexivity. Qed.

Lemma toLowerCase_idem (s : string) : toLowerCase (toLowerCase s) = toLowerCase s.
Proof. induction s as [| c s IH]; simpl; [reflexivity |]. now rewrite lower_char_idem, IH. Qed.

Lemma lower_upper_char (c : ascii) : lower_char (upper_char c) = lower_char c.
Proof. destruct c as [[] [] [] [] [] [] [] []]; vm_compute; reflexivity. Qed.

Lemma toLowerCase_toUpperCase (s : string) : toLowerCase (toUpperCase s) = toLowerCase s.
Proof. induction s as [| c s IH]; simpl; [reflexivity |]. now rewrite lower_upper_char, IH. Qed.

(** The categories of [TECH_CATEGORIES] do not overlap. *)
Lemma TECH_CATEGORIES_disjoint :
  forallb
    (fun entry =>
       forallb
         (fun name =>
            match find (fun e => existsb (String.eqb name) (snd e)) TECH_CATEGORIES with
            | Some (c, _) => Category_eqb c (fst entry)
            | None => false
            end)
         (snd entry))
    TECH_CATEGORIES = true.
Proof. vm_compute. reflexivity. Qed.

Lemma split_on_first (sep : ascii -> bool) (s : string) :
  exists p ps, split_on sep s = p :: ps /\ (p = "" -> ps = [] -> s = "").
Proof.
  induction s as [| c s IH]; simpl.
  - exists "", []. auto.
  - destruct (sep c).
    + destruct IH as [p [ps [Hs _]]]. exists "", (split_on sep s). split; [reflexivity |].
      intros _ Hn. rewrite Hs in Hn. discriminate.
    + destruct IH as [p [ps [Hs _]]]. rewrite Hs. exists (String c p), ps.
      split; [reflexivity |]. discriminate.
Qed.

Lemma DISPLAY_NAMES_nonempty :
  forallb (fun kv => truthy (snd kv)) DISPLAY_NAMES = true.
Proof. vm_compute. reflexivity. Qed.

Lemma humanizeTechName_empty (name : string) : humanizeTechName name = "" -> name = "".
Proof.
  unfold humanizeTechName. destruct (truthy name) eqn:Et; [| now destruct name].
  cbn [negb].
  destruct (obj_get DISPLAY_NAMES (toLowerCase name)) as [shown |] eqn:E.
  - intros ->. apply obj_get_In in E.
    pose proof DISPLAY_NAMES_nonempty as H. rewrite forallb_forall in H.
    specialize (H _ E). discriminate.
  - destruct (split_on_first is_name_sep (toLowerCase name)) as [p [ps [Hs Hp]]].
    rewrite Hs. unfold join. cbn [map String.concat].
    destruct ps as [| q ps].
    + intro Hc. destruct p; [| discriminate].
      specialize (Hp eq_refl eq_refl). destruct name; [reflexivity | discriminate].
    + cbn [map]. destruct (capitalize p); discriminate.
Qed.

(** X5.  [humanizeTechName] depends on its argument only through the lower-cased
    text, and its result is empty only for the empty name. *)
Theorem humanizeTechName_ignores_case :
  (forall a b, toLowerCase a = toLowerCase b -> humanizeTechName a = humanizeTechName b)
  /\ (forall name, humanizeTechName name = "" <-> name = "").
Proof.
  split.
  - intros a b H. unfold humanizeTechName.
    rewrite <- (truthy_toLowerCase a), <- (truthy_toLowerCase b), H. reflexivity.
  - intro name. split; [apply humanizeTechName_empty | now intros ->].
Qed.

Lemma getCategoryForTech_spec (name : string) (c : Category) :
  getCategoryForTech name = c
  <-> (exists names, In (c, names) TECH_CATEGORIES /\ In (toLowerCase name) names)
      \/ (c = libraries
          /\ forall c' names, In (c', names) TECH_CATEGORIES -> ~ In (toLowerCase name) names).
Proof.
  unfold getCategoryForTech.
  set (lower := toLowerCase name).
  destruct (find (fun entry => existsb (String.eqb lower) (snd entry)) TECH_CATEGORIES)
    as [[c0 names0] |] eqn:E.
  - apply find_some in E. destruct E as [Hin Hex]. cbn [snd] in Hex.
    apply existsb_eqb_In in Hex.
    split.
    + intros <-. left. exists names0. split; assumption.
    + intros [[names [Hc Hn]] | [_ Hnone]].
      * pose proof TECH_CATEGORIES_disjoint as Hd.
        rewrite forallb_forall in Hd. specialize (Hd _ Hc). cbn [snd fst] in Hd.
        rewrite forallb_forall in Hd. specialize (Hd _ Hn).
        pose proof TECH_CATEGORIES_disjoint as Hd0.
        rewrite forallb_forall in Hd0. specialize (Hd0 _ Hin). cbn [snd fst] in Hd0.
        rewrite forallb_forall in Hd0. specialize (Hd0 _ Hex).
        destruct (find (fun e => existsb (String.eqb lower) (snd e)) TECH_CATEGORIES)
          as [[c1 n1] |]; [| discriminate].
        apply Category_eqb_eq in Hd, Hd0. congruence.
      * exfalso. exact (Hnone _ _ Hin Hex).
  - split.
    + intros <-. right. split; [reflexivity |].
      intros c' names Hc Hn.
      pose proof (find_none _ _ E _ Hc) as Hf. cbn [snd] in Hf.
      apply existsb_eqb_In in Hn. congruence.
    + intros [[names [Hc Hn]] | [-> _]]; [| reflexivity].
      pose proof (find_none _ _ E _ Hc) as Hf. cbn [snd] in Hf.
      apply existsb_eqb_In in Hn. congruence.
Qed.

Lemma getCategoryForTech_not_backend (name : string) : getCategoryForTech name <> backend.
Proof.
  intro H. apply getCategoryForTech_spec in H.
  destruct H as [[names [Hin _]] | [Hc _]]; [| discriminate].
  assert (Hall : forallb (fun e => negb (Category_eqb (fst e) backend)) TECH_CATEGORIES = true)
    by reflexivity.
  rewrite forallb_forall in Hall. specialize (Hall _ Hin). discriminate.
Qed.

(** X6.  The category of a name is the one category of [TECH_CATEGORIES] whose
    list holds the lower-cased name (the lists do not overlap), and libraries
    when no list holds it; it is never backend, and the case of the name does
    not matter. *)
Theorem getCategoryForTech_by_table (name : string) (c : Category) :
  (getCategoryForTech name = c
   <-> (exists names, In (c, names) TECH_CATEGORIES /\ In (toLowerCase name) names)
       \/ (c = libraries
           /\ forall c' names,
                In (c', names) TECH_CATEGORIES -> ~ In (toLowerCase name) names))
  /\ getCategoryForTech name <> backend
  /\ getCategoryForTech (toUpperCase name) = getCategoryForTech name.
Proof.
  split; [apply getCategoryForTech_spec |]. split; [apply getCategoryForTech_not_backend |].
  unfold getCategoryForTech. now rewrite toLowerCase_toUpperCase.
Qed.

Lemma dedup_snoc_represented (l : list string) (x : string) :
  exists s, In s (deduplicateArray (l ++ [x])) /\ toLowerCase s = toLowerCase x.
Proof.
  destruct (dedup_from_represented [] (l ++ [x]) x) as [[] | H].
  - apply in_or_app. right. now left.
  - exact H.
Qed.

Lemma merge_one_window (tech key : string) (acc : Technologies * Obj TechMeta) :
  mapBrowserTechToKey tech = Some key ->
  exists meta,
    obj_get (snd (merge_browser_tech tech acc)) key = Some meta /\ window_evidence meta.
Proof.
  intro Hk. unfold merge_browser_tech. destruct acc as [t m]. rewrite Hk. cbn [snd].
  rewrite obj_get_set_same. eexists. split; [reflexivity |].
  split; cbn [confidence sources].
  - apply Nat.le_max_r.
  - apply dedup_snoc_represented.
Qed.

Lemma merge_one_keeps_window (tech key : string) (acc : Technologies * Obj TechMeta) :
  (exists meta, obj_get (snd acc) key = Some meta /\ window_evidence meta) ->
  exists meta,
    obj_get (snd (merge_browser_tech tech acc)) key = Some meta /\ window_evidence meta.
Proof.
  intros [meta [Hget Hw]].
  destruct (mapBrowserTechToKey tech) as [k |] eqn:Ek.
  - destruct (String.eqb k key) eqn:E.
    + apply String.eqb_eq in E. subst k. now apply merge_one_window.
    + exists meta. split; [| assumption].
      unfold merge_browser_tech. destruct acc as [t m]. rewrite Ek. cbn [snd] in *.
      rewrite obj_get_set_other; [assumption |].
      intro Heq. subst. now rewrite String.eqb_refl in E.
  - exists meta. split; [| assumption].
    unfold merge_browser_tech. destruct acc as [t m]. now rewrite Ek.
Qed.

Lemma merge_fold_keeps_window (l : list string) (key : string)
    (acc : Technologies * Obj TechMeta) :
  (exists meta, obj_get (snd acc) key = Some meta /\ window_evidence meta) ->
  exists meta,
    obj_get (snd (fold_left (fun acc tech => merge_browser_tech tech acc) l acc)) key
    = Some meta
    /\ window_evidence meta.
Proof.
  revert acc. induction l as [| tech l IH]; intros acc H; simpl.
  - exact H.
  - apply IH. now apply merge_one_keeps_window.
Qed.

Lemma merge_fold_window (l : list string) (tech key : string)
    (acc : Technologies * Obj TechMeta) :
  In tech l -> mapBrowserTechToKey tech = Some key ->
  exists meta,
    obj_get (snd (fold_left (fun acc tech => merge_browser_tech tech acc) l acc)) key
    = Some meta
    /\ window_evidence meta.
Proof.
  revert acc. induction l as [| a l IH]; intros acc Hin Hk; simpl.
  - contradiction.
  - destruct Hin as [-> | Hin].
    + apply merge_fold_keeps_window. now apply merge_one_window.
    + now apply IH.
Qed.

(** X7.  Every name the page evaluation reports maps to a key, and after the
    merge the match details hold a record under that key with a score of at
    least 3 and a source that reads window (up to case): no runtime detection
    is dropped on the way. *)
Theorem runtime_detections_reach_match_details
    (win : Window) (techs : Technologies) (techMatches : Obj TechMeta) (name : string) :
  In name (detect_globals win) ->
  exists key meta,
    mapBrowserTechToKey name = Some key
    /\ obj_get (snd (merge_browser_techs (detect_globals win) techs techMatches)) key
       = Some meta
    /\ 3 <= confidence meta
    /\ exists s, In s (sources meta) /\ toLowerCase s = "window".
Proof.
  intro Hin.
  pose proof Hin as Hd. apply detect_globals_In in Hd. destruct Hd as [props [Hc _]].
  pose proof browser_checks_all_mapped as Hall.
  rewrite forallb_forall in Hall. specialize (Hall _ Hc). cbn [fst] in Hall.
  destruct (mapBrowserTechToKey name) as [key |] eqn:Ek; [| discriminate].
  destruct (merge_fold_window (detect_globals win) name key (techs, techMatches) Hin Ek)
    as [meta [Hget [Hc3 Hs]]].
  exists key, meta. repeat split; assumption.
Qed.

Lemma runtime_detections_reach_match_details_witness :
  In "React" (detect_globals react_window)
  /\ exists key meta,
       mapBrowserTechToKey "React" = Some key
       /\ obj_get (snd (merge_browser_techs (detect_globals react_window)
                          empty_technologies [])) key = Some meta
       /\ 3 <= confidence meta.
Proof.
  assert (Hin : In "React" (detect_globals react_window)) by (vm_compute; now left).
  split; [exact Hin |].
  destruct (runtime_detections_reach_match_details react_window empty_technologies []
              "React" Hin) as [key [meta [H1 [H2 [H3 _]]]]].
  exists key, meta. split; [exact H1 |]. split; [exact H2 | exact H3].
Defined.

(** ** The verdict *)

Lemma formatTechName_falsy_version (name : string) (v : option string) :
  formatTechName name (if version_truthy v then v else None) = formatTechName name v.
Proof.
  destruct v as [s |]; [| reflexivity]. unfold version_truthy, formatTechName.
  destruct (truthy s) eqn:E; [now rewrite E | reflexivity].
Qed.

Lemma or_else_same (s : string) : or_else s s = s.
Proof. unfold or_else. now destruct (truthy s). Qed.

Lemma filter_filter_implied {A : Type} (f g : A -> bool) (l : list A) :
  (forall x, f x = true -> g x = true) ->
  filter f (filter g l) = filter f l.
Proof.
  intro H. induction l as [| a l IH]; simpl; [reflexivity |].
  destruct (g a) eqn:Eg; simpl.
  - now rewrite IH.
  - destruct (f a) eqn:Ef; [| exact IH].
    apply H in Ef. congruence.
Qed.

Lemma pickTop_primary (techMatches : Obj TechMeta) (c : Category) :
  is_primary c = true ->
  pickTop (primary_matches techMatches) c = pickTop techMatches c.
Proof.
  intro Hc. unfold pickTop, primary_matches.
  rewrite filter_filter_implied; [reflexivity |].
  intros e He. apply Category_eqb_eq in He. now rewrite He.
Qed.

(** X8.  The verdict depends on the matches of the categories cms, frontend,
    hosting and cdn only: the technologies argument and the matches of every
    other category can be changed or dropped without changing it. *)
Theorem buildVerdict_reads_primary_matches_only
    (techs techs' : Technologies) (techMatches : Obj TechMeta) (waf : WafInfo)
    (serverInfo : ServerInfo) :
  buildVerdict techs techMatches waf serverInfo
  = buildVerdict techs' (primary_matches techMatches) waf serverInfo.
Proof.
  unfold buildVerdict.
  rewrite !pickTop_primary by reflexivity. reflexivity.
Qed.

Lemma pickTop_without_primary (techMatches : Obj TechMeta) (c : Category) :
  primary_matches techMatches = [] -> is_primary c = true -> pickTop techMatches c = None.
Proof.
  intros Hnone Hc. rewrite <- pickTop_primary by assumption. now rewrite Hnone.
Qed.

(** X9.  With no match in the categories cms, frontend, hosting and cdn, the
    verdict has no primary pick, confidence low, no database, the languages
    read off the server banner alone, and a summary made of the WAF line and
    the language line. *)
Theorem buildVerdict_without_primary_matches
    (techs : Technologies) (techMatches : Obj TechMeta) (waf : WafInfo)
    (serverInfo : ServerInfo) :
  primary_matches techMatches = [] ->
  let v := buildVerdict techs techMatches waf serverInfo in
  v_primary v = mk_Primary None None None None
  /\ v_confidence v = "low"
  /\ languages (v_inferred v) = deduplicateArray (banner_languages (serverBlob serverInfo))
  /\ databases (v_inferred v) = []
  /\ v_summary v
     = join " | "
         (waf_line waf
          ++ match deduplicateArray (banner_languages (serverBlob serverInfo)) with
             | [] => []
             | ls => [("Language: " ++ join ", " ls)%string]
             end).
Proof.
  intros Hnone v. unfold v, buildVerdict.
  rewrite !(pickTop_without_primary techMatches) by (assumption || reflexivity).
  cbn [option_map pr_cms pr_frontend pr_hosting pr_cdn addInference languages databases app
       v_primary v_confidence v_inferred v_summary pick_line].
  split; [reflexivity |]. split; [reflexivity |]. split; [reflexivity |].
  split; [reflexivity |].
  unfold waf_line. f_equal. f_equal.
  change (deduplicateArray []) with (@nil string). cbn iota. now rewrite app_nil_r.
Qed.

Lemma buildVerdict_without_primary_matches_witness :
  let v := buildVerdict empty_technologies
             [("jquery", mk_TechMeta 3 None libraries "jQuery" ["script"])]
             WafNone (mk_ServerInfo (HStr "nginx") (Some (HStr "PHP/8.2"))) in
  v_primary v = mk_Primary None None None None
  /\ v_confidence v = "low"
  /\ languages (v_inferred v) = ["PHP"].
Proof.
  cbv zeta.
  pose proof (buildVerdict_without_primary_matches empty_technologies
                [("jquery", mk_TechMeta 3 None libraries "jQuery" ["script"])]
                WafNone (mk_ServerInfo (HStr "nginx") (Some (HStr "PHP/8.2"))) eq_refl)
    as [H1 [H2 [H3 _]]].
  split; [exact H1 |]. split; [exact H2 |]. rewrite H3. vm_compute. reflexivity.
Defined.

(** X10.  [pickTop] returns null exactly when no match has the category; otherwise
    it picks, among the matches of the category in the order of the object's
    entries, the first one with the highest score, carries its score, labels it with its display
    name (or the humanized key when that is empty), and shows its version. *)
Theorem pickTop_takes_the_first_best_match (techMatches : Obj TechMeta) (c : Category) :
  match pickTop techMatches c with
  | None => forall key meta, In (key, meta) techMatches -> category meta <> c
  | Some p =>
      exists meta,
        first_max entry_conf (pk_key p, meta) (filter (in_category c) techMatches)
        /\ In (pk_key p, meta) techMatches
        /\ category meta = c
        /\ pk_confidence p = confidence meta
        /\ pk_displayName p
           = (if truthy (displayName meta) then displayName meta
              else humanizeTechName (pk_key p))
        /\ formatTechName (pk_displayName p) (pk_version p)
           = formatTechName (pk_displayName p) (version meta)
  end.
Proof.
  unfold pickTop.
  change (fun e : string * TechMeta => Category_eqb (category (snd e)) c)
    with (in_category c).
  destruct (sort_desc entry_conf (filter (in_category c) techMatches))
    as [| [key meta] tl] eqn:E.
  - apply sort_desc_nil_iff in E. intros key meta Hin Hc.
    assert (H : In (key, meta) (filter (in_category c) techMatches)).
    { apply filter_In. split; [assumption |].
      unfold in_category. cbn [snd]. rewrite Hc. apply Category_eqb_refl. }
    rewrite E in H. contradiction.
  - exists meta. cbn [pk_key pk_confidence pk_displayName pk_version].
    pose proof (sort_desc_head_inv entry_conf _ _ _ E) as Hmax.
    assert (Hin : In (key, meta) (filter (in_category c) techMatches)).
    { apply (sort_desc_In entry_conf). rewrite E. now left. }
    apply filter_In in Hin. destruct Hin as [Hin Hc].
    split; [exact Hmax |]. split; [exact Hin |]. split.
    + now apply Category_eqb_eq in Hc.
    + split; [reflexivity |]. split; [reflexivity |].
      apply formatTechName_falsy_version.
Qed.

(** ** The summary line *)

Lemma join_nonempty (sep : string) (l : list string) :
  Forall (fun s => s <> "") l -> (join sep l = "" <-> l = []).
Proof.
  intro H. unfold join. destruct l as [| x l]; [tauto |].
  split; [| discriminate].
  apply Forall_inv in H. destruct x as [| c x]; [congruence |].
  simpl. destruct l; discriminate.
Qed.

Lemma pick_line_nonempty (label : string) (p : option Pick) :
  label <> "" -> Forall (fun s => s <> "") (pick_line label p).
Proof.
  intro Hl. destruct p as [pk |]; [| constructor]. cbn [pick_line].
  constructor; [| constructor]. destruct label; [congruence | discriminate].
Qed.

(** X11.  The summary of a verdict is the empty string exactly when there is no
    primary pick, no WAF, no inferred language and no inferred database. *)
Theorem verdict_summary_empty_iff_nothing_found
    (techs : Technologies) (techMatches : Obj TechMeta) (waf : WafInfo)
    (serverInfo : ServerInfo) :
  let v := buildVerdict techs techMatches waf serverInfo in
  v_summary v = ""
  <-> v_primary v = mk_Primary None None None None
      /\ waf = WafNone
      /\ languages (v_inferred v) = []
      /\ databases (v_inferred v) = [].
Proof.
  cbv zeta. unfold buildVerdict.
  cbn [v_summary v_primary v_inferred languages databases].
  set (p1 := pickTop techMatches cms). set (p2 := pickTop techMatches frontend).
  set (p3 := pickTop techMatches hosting). set (p4 := pickTop techMatches cdn).
  cbn [pr_cms pr_frontend].
  set (ls := deduplicateArray _). set (ds := deduplicateArray _).
  rewrite join_nonempty.
  - split.
    + intro H.
      repeat (apply app_eq_nil in H; destruct H as [? H]).
      destruct p1; [discriminate |]. destruct p2; [discriminate |].
      destruct p3; [discriminate |]. destruct p4; [discriminate |].
      destruct waf; [| discriminate]. destruct ls; [| discriminate].
      destruct ds; [| discriminate]. auto.
    + intros [Hp [Hw [Hl Hd]]]. injection Hp as -> -> -> ->. subst waf.
      rewrite Hl, Hd. reflexivity.
  - repeat (apply Forall_app; split); try (apply pick_line_nonempty; discriminate).
    + destruct waf; constructor; [discriminate | constructor].
    + destruct ls; constructor; [discriminate | constructor].
    + destruct ds; constructor; [discriminate | constructor].
Qed.

(** ** The inferences of the verdict *)

Lemma addInference_hinted (p : option Pick) (inferred : Inferred) :
  addInference (option_map pk_key p) inferred
  = mk_Inferred (languages inferred ++ hinted_languages p)
      (databases inferred ++ hinted_databases p).
Proof.
  unfold addInference, hinted_languages, hinted_databases.
  destruct p as [pk |]; cbn [option_map].
  - destruct (truthy (pk_key pk)) eqn:Et; cbn [negb].
    + destruct (obj_get STACK_INFERENCES (toLowerCase (pk_key pk))); [reflexivity |].
      rewrite !app_nil_r. now destruct inferred.
    + destruct (pk_key pk); [| discriminate]. cbn. rewrite !app_nil_r. now destruct inferred.
  - rewrite !app_nil_r. now destruct inferred.
Qed.

(** X12.  The inferred languages and databases have no two entries equal up to
    case.  Every inferred language is one that [STACK_INFERENCES] holds for
    the CMS or the frontend picked, or one read off the server banner, and
    each of those is among the inferred languages up to case; likewise the
    databases, which come from the CMS and the frontend picked only. *)
Theorem verdict_inferences_have_a_source
    (techs : Technologies) (techMatches : Obj TechMeta) (waf : WafInfo)
    (serverInfo : ServerInfo) :
  let v := buildVerdict techs techMatches waf serverInfo in
  let picked_cms := pr_cms (v_primary v) in
  let picked_frontend := pr_frontend (v_primary v) in
  let banner := banner_languages (serverBlob serverInfo) in
  NoDup (map toLowerCase (languages (v_inferred v)))
  /\ NoDup (map toLowerCase (databases (v_inferred v)))
  /\ (forall l, In l (languages (v_inferred v)) ->
        In l (hinted_languages picked_cms) \/ In l (hinted_languages picked_frontend)
        \/ In l banner)
  /\ (forall l,
        In l (hinted_languages picked_cms) \/ In l (hinted_languages picked_frontend)
        \/ In l banner ->
        exists l', In l' (languages (v_inferred v)) /\ toLowerCase l' = toLowerCase l)
  /\ (forall d, In d (databases (v_inferred v)) ->
        In d (hinted_databases picked_cms) \/ In d (hinted_databases picked_frontend))
  /\ (forall d,
        In d (hinted_databases picked_cms) \/ In d (hinted_databases picked_frontend) ->
        exists d', In d' (databases (v_inferred v)) /\ toLowerCase d' = toLowerCase d).
Proof.
  cbv zeta. unfold buildVerdict. cbn [v_primary v_inferred pr_cms pr_frontend].
  rewrite !addInference_hinted. cbn [languages databases app].
  set (p1 := pickTop techMatches cms). set (p2 := pickTop techMatches frontend).
  split; [apply dedup_from_NoDup |]. split; [apply dedup_from_NoDup |].
  split; [| split; [| split]].
  - intros l Hl. apply dedup_from_In in Hl. destruct Hl as [Hl _].
    rewrite !in_app_iff in Hl. tauto.
  - intros l Hl.
    destruct (dedup_from_represented []
                ((hinted_languages p1 ++ hinted_languages p2)
                 ++ banner_languages (serverBlob serverInfo)) l) as [[] | H].
    + rewrite !in_app_iff. tauto.
    + exact H.
  - intros d Hd. apply dedup_from_In in Hd. destruct Hd as [Hd _].
    rewrite in_app_iff in Hd. exact Hd.
  - intros d Hd.
    destruct (dedup_from_represented [] (hinted_databases p1 ++ hinted_databases p2) d)
      as [[] | H].
    + rewrite in_app_iff. exact Hd.
    + exact H.
Qed.

(** ** The analysis as a whole *)

Lemma obj_set_fresh {V : Type} (o : Obj V) (k : string) (v : V) :
  ~ In k (map fst o) -> obj_set o k v = o ++ [(k, v)].
Proof.
  induction o as [| [k' v'] o IH]; simpl; intro Hn; [reflexivity |].
  destruct (String.eqb k' k) eqn:E.
  - apply String.eqb_eq in E. exfalso. apply Hn. now left.
  - f_equal. apply IH. intro Hin. apply Hn. now right.
Qed.

Lemma obj_get_of_In {V : Type} (o : Obj V) (k : string) (v : V) :
  In (k, v) o -> exists v', obj_get o k = Some v'.
Proof.
  induction o as [| [k' v'] o IH]; simpl; [contradiction |].
  intros [Heq | Hin].
  - apply (f_equal fst) in Heq. cbn [fst] in Heq. subst k'.
    rewrite String.eqb_refl. eauto.
  - destruct (String.eqb k' k); [eauto | now apply IH].
Qed.

Section SortMap.

Context {A B : Type} (f : A -> B) (confA : A -> nat) (confB : B -> nat).
Hypothesis conf_f : forall a, confB (f a) = confA a.

Lemma insert_desc_map (x : A) (l : list A) :
  insert_desc confB (f x) (map f l) = map f (insert_desc confA x l).
Proof.
  induction l as [| y l IH]; simpl; [reflexivity |].
  rewrite !conf_f. destruct (confA y <=? confA x); simpl; [reflexivity |].
  now rewrite IH.
Qed.

Lemma sort_desc_map (l : list A) :
  sort_desc confB (map f l) = map f (sort_desc confA l).
Proof.
  induction l as [| x l IH]; simpl; [reflexivity |].
  rewrite IH. apply insert_desc_map.
Qed.

End SortMap.

Lemma TECH_PATTERNS_keys_distinct : NoDup (map fst TECH_PATTERNS).
Proof.
  assert (H : forall l : list string,
             (fix distinct (l : list string) : bool :=
                match l with
                | [] => true
                | x :: tl => negb (existsb (String.eqb x) tl) && distinct tl
                end) l = true -> NoDup l).
  { induction l as [| x l IH]; intro H; [constructor |].
    apply andb_true_iff in H. destruct H as [H1 H2].
    constructor; [| now apply IH].
    intro Hin. apply existsb_eqb_In in Hin. rewrite Hin in H1. discriminate. }
  apply H. vm_compute. reflexivity.
Qed.

Section AnalysisFacts.

Variable cheerioLoad : string -> Document.
Variables (html : string) (headers : Headers).

Lemma match_of_keys (entry : string * TechPattern) (k : string) :
  In k (map fst (match_of cheerioLoad html headers entry)) -> k = fst entry.
Proof.
  unfold match_of. destruct (_ <=? _); simpl; [| contradiction].
  intros [<- | []]. reflexivity.
Qed.

Lemma scan_step_matches_app (st : LoopState) (entry : string * TechPattern) :
  ~ In (fst entry) (map fst (ls_techMatches st)) ->
  ls_techMatches (scan_step cheerioLoad html headers st entry)
  = ls_techMatches st ++ match_of cheerioLoad html headers entry.
Proof.
  intro Hn. unfold scan_step, record_tech, match_of.
  set (a := scan_tech _ _ _ _ _).
  destruct (min_confidence (getCategoryForTech (fst entry)) <=? acc_confidence a).
  - cbn [ls_techMatches]. now apply obj_set_fresh.
  - now rewrite app_nil_r.
Qed.

Lemma fold_scan_matches_app (corpus : Obj TechPattern) (st : LoopState) :
  NoDup (map fst corpus) ->
  (forall k, In k (map fst corpus) -> ~ In k (map fst (ls_techMatches st))) ->
  ls_techMatches (fold_left (scan_step cheerioLoad html headers) corpus st)
  = ls_techMatches st ++ flat_map (match_of cheerioLoad html headers) corpus.
Proof.
  revert st. induction corpus as [| e corpus IH]; intros st Hnd Hfresh; simpl.
  - now rewrite app_nil_r.
  - simpl in Hnd. apply NoDup_cons_iff in Hnd. destruct Hnd as [Hne Hnd].
    assert (He : ls_techMatches (scan_step cheerioLoad html headers st e)
                 = ls_techMatches st ++ match_of cheerioLoad html headers e).
    { apply scan_step_matches_app. apply Hfresh. now left. }
    rewrite IH; [now rewrite He, <- app_assoc | assumption |].
    intros k Hk. rewrite He, map_app, in_app_iff. intros [Hin | Hin].
    + apply (Hfresh k); [now right | assumption].
    + apply match_of_keys in Hin. subst k. contradiction.
Qed.

Lemma scan_corpus_matches_of (corpus : Obj TechPattern) :
  NoDup (map fst corpus) ->
  ls_techMatches (scan_corpus cheerioLoad corpus html headers)
  = flat_map (match_of cheerioLoad html headers) corpus.
Proof.
  intro Hnd. unfold scan_corpus.
  change (fold_left _ corpus ?s)
    with (fold_left (scan_step cheerioLoad html headers) corpus s).
  rewrite fold_scan_matches_app.
  - reflexivity.
  - exact Hnd.
  - intros k _ [].
Qed.

Lemma cms_candidate_of_match (entry : string * TechPattern) :
  cms_candidate_of cheerioLoad html headers entry
  = map candidate_of_match (filter (in_category cms) (match_of cheerioLoad html headers entry)).
Proof.
  unfold cms_candidate_of, match_of, in_category.
  set (a := scan_tech _ _ _ _ _).
  destruct (Category_eqb (getCategoryForTech (fst entry)) cms) eqn:Ec; cbn [andb].
  - pose proof Ec as Ec'. apply Category_eqb_eq in Ec'. rewrite Ec'.
    destruct (min_confidence cms <=? acc_confidence a); [| reflexivity].
    reflexivity.
  - destruct (_ <=? _); [| reflexivity].
    cbn [filter snd category]. now rewrite Ec.
Qed.

Lemma filter_flat_map {A B : Type} (p : B -> bool) (f : A -> list B) (l : list A) :
  filter p (flat_map f l) = flat_map (fun x => filter p (f x)) l.
Proof.
  induction l as [| a l IH]; simpl; [reflexivity |].
  now rewrite filter_app, IH.
Qed.

Lemma map_flat_map {A B C : Type} (g : B -> C) (f : A -> list B) (l : list A) :
  map g (flat_map f l) = flat_map (fun x => map g (f x)) l.
Proof.
  induction l as [| a l IH]; simpl; [reflexivity |].
  now rewrite map_app, IH.
Qed.

Lemma cms_candidates_of_matches (corpus : Obj TechPattern) :
  flat_map (cms_candidate_of cheerioLoad html headers) corpus
  = map candidate_of_match
      (filter (in_category cms) (flat_map (match_of cheerioLoad html headers) corpus)).
Proof.
  rewrite filter_flat_map, map_flat_map.
  apply flat_map_ext. intro e. apply cms_candidate_of_match.
Qed.

Lemma resolve_cms_keeps_matches_of (corpus : Obj TechPattern) :
  NoDup (map fst corpus) ->
  ls_techMatches (resolve_cms (scan_corpus cheerioLoad corpus html headers))
  = flat_map (match_of cheerioLoad html headers) corpus.
Proof.
  intro Hnd. unfold resolve_cms.
  rewrite scan_corpus_candidates, (scan_corpus_matches_of corpus Hnd).
  destruct (sort_desc c_confidence _) as [| topCMS tl] eqn:E.
  - apply (scan_corpus_matches_of corpus Hnd).
  - cbn [ls_techMatches].
    assert (Hin : In topCMS (flat_map (cms_candidate_of cheerioLoad html headers) corpus)).
    { apply (sort_desc_In c_confidence). rewrite E. left. reflexivity. }
    rewrite cms_candidates_of_matches in Hin.
    apply in_map_iff in Hin. destruct Hin as [[k m] [Hc Hin]].
    apply filter_In in Hin. destruct Hin as [Hin _].
    subst topCMS. cbn [c_key candidate_of_match fst].
    destruct (obj_get_of_In _ _ _ Hin) as [m' Hget].
    rewrite Hget. reflexivity.
Qed.

Lemma scan_corpus_matches :
  ls_techMatches (scan_corpus cheerioLoad TECH_PATTERNS html headers)
  = flat_map (match_of cheerioLoad html headers) TECH_PATTERNS.
Proof. apply scan_corpus_matches_of, TECH_PATTERNS_keys_distinct. Qed.

Lemma resolve_cms_keeps_matches :
  ls_techMatches (resolve_cms (scan_corpus cheerioLoad TECH_PATTERNS html headers))
  = flat_map (match_of cheerioLoad html headers) TECH_PATTERNS.
Proof. apply resolve_cms_keeps_matches_of, TECH_PATTERNS_keys_distinct. Qed.

End AnalysisFacts.

Section AnalysisShape.

Variable cheerioLoad : string -> Document.
Variables (html : string) (headers : Headers).

Lemma scan_step_technologies (st : LoopState) (entry : string * TechPattern) (c : Category) :
  c <> cms ->
  tech_get (ls_technologies (scan_step cheerioLoad html headers st entry)) c
  = tech_get (ls_technologies st) c
    ++ map listed_as (filter (in_category c) (match_of cheerioLoad html headers entry)).
Proof.
  intro Hc. unfold scan_step, record_tech, match_of, in_category.
  set (a := scan_tech _ _ _ _ _).
  destruct (min_confidence (getCategoryForTech (fst entry)) <=? acc_confidence a);
    [| now rewrite app_nil_r].
  cbn [ls_technologies filter snd category].
  destruct (Category_eqb (getCategoryForTech (fst entry)) cms) eqn:Ecms.
  - apply Category_eqb_eq in Ecms. rewrite Ecms.
    assert (E : Category_eqb cms c = false).
    { destruct (Category_eqb cms c) eqn:E; [| reflexivity].
      apply Category_eqb_eq in E. congruence. }
    rewrite E. now rewrite app_nil_r.
  - destruct (Category_eqb (getCategoryForTech (fst entry)) c) eqn:Ec.
    + apply Category_eqb_eq in Ec. rewrite Ec. now rewrite tech_get_set_same.
    + rewrite tech_get_set_other; [now rewrite app_nil_r |].
      intro Heq. rewrite Heq, Category_eqb_refl in Ec. discriminate.
Qed.

Lemma fold_scan_technologies (corpus : Obj TechPattern) (st : LoopState) (c : Category) :
  c <> cms ->
  tech_get (ls_technologies (fold_left (scan_step cheerioLoad html headers) corpus st)) c
  = tech_get (ls_technologies st) c
    ++ map listed_as
         (filter (in_category c) (flat_map (match_of cheerioLoad html headers) corpus)).
Proof.
  intro Hc. revert st. induction corpus as [| e corpus IH]; intro st; simpl.
  - now rewrite app_nil_r.
  - rewrite IH, scan_step_technologies by assumption.
    now rewrite filter_app, map_app, app_assoc.
Qed.

Lemma resolve_cms_other (st : LoopState) (c : Category) :
  c <> cms ->
  tech_get (ls_technologies (resolve_cms st)) c = tech_get (ls_technologies st) c.
Proof.
  intro Hc. unfold resolve_cms.
  destruct (sort_desc c_confidence (ls_cmsCandidates st)); [reflexivity |].
  cbn [ls_technologies]. apply tech_get_set_other. congruence.
Qed.

Lemma analysis_matches (u : string) :
  a_techMatches (analyzeStaticResponse cheerioLoad html headers u)
  = flat_map (match_of cheerioLoad html headers) TECH_PATTERNS.
Proof. unfold analyzeStaticResponse. cbn [a_techMatches]. apply resolve_cms_keeps_matches. Qed.

Lemma analysis_category (u : string) (c : Category) :
  c <> cms ->
  tech_get (a_technologies (analyzeStaticResponse cheerioLoad html headers u)) c
  = deduplicateArray
      (map listed_as
         (filter (in_category c) (flat_map (match_of cheerioLoad html headers) TECH_PATTERNS))).
Proof.
  intro Hc. unfold analyzeStaticResponse. cbn [a_technologies].
  rewrite tech_get_map, resolve_cms_other by assumption.
  unfold scan_corpus. rewrite fold_scan_technologies by assumption.
  now destruct c.
Qed.

Lemma analysis_cms_of_matches (u : string) :
  t_cms (a_technologies (analyzeStaticResponse cheerioLoad html headers u))
  = match sort_desc entry_conf
            (filter (in_category cms)
               (flat_map (match_of cheerioLoad html headers) TECH_PATTERNS)) with
    | [] => []
    | top :: _ => [listed_as top]
    end.
Proof.
  rewrite analysis_cms, cms_candidates_of_matches.
  rewrite (sort_desc_map candidate_of_match entry_conf c_confidence) by reflexivity.
  destruct (sort_desc entry_conf _) as [| top tl]; reflexivity.
Qed.

Lemma match_of_In (entry : string * TechPattern) (key : string) (m : TechMeta) :
  In (key, m) (match_of cheerioLoad html headers entry)
  <-> key = fst entry
      /\ min_confidence (getCategoryForTech key)
         <= acc_confidence (scan_tech key (snd entry) (cheerioLoad html) html headers)
      /\ m = let a := scan_tech key (snd entry) (cheerioLoad html) html headers in
             mk_TechMeta (acc_confidence a) (acc_version a) (getCategoryForTech key)
               (humanizeTechName key) (acc_sources a).
Proof.
  unfold match_of. cbv zeta.
  destruct (_ <=? _) eqn:E; simpl.
  - apply Nat.leb_le in E. split.
    + intros [Heq | []]. injection Heq as <- <-. auto.
    + intros [-> [_ ->]]. now left.
  - apply Nat.leb_gt in E. split; [contradiction |].
    intros [-> [Hle _]]. lia.
Qed.

Lemma matches_keys (corpus : Obj TechPattern) (k : string) :
  In k (map fst (flat_map (match_of cheerioLoad html headers) corpus)) ->
  In k (map fst corpus).
Proof.
  intro H. apply in_map_iff in H. destruct H as [[k' m] [Hk Hin]]. cbn [fst] in Hk. subst k'.
  apply in_flat_map in Hin. destruct Hin as [e [He Hin]].
  apply match_of_In in Hin. destruct Hin as [-> _]. now apply in_map.
Qed.

Lemma matches_keys_distinct (corpus : Obj TechPattern) :
  NoDup (map fst corpus) ->
  NoDup (map fst (flat_map (match_of cheerioLoad html headers) corpus)).
Proof.
  induction corpus as [| e corpus IH]; simpl; intro Hnd; [constructor |].
  apply NoDup_cons_iff in Hnd. destruct Hnd as [Hne Hnd].
  rewrite map_app. unfold match_of at 1.
  destruct (_ <=? _); simpl; [| now apply IH].
  constructor; [| now apply IH].
  intro Hin. apply matches_keys in Hin. contradiction.
Qed.

End AnalysisShape.

Lemma obj_get_NoDup {V : Type} (o : Obj V) (k : string) (v : V) :
  NoDup (map fst o) -> In (k, v) o -> obj_get o k = Some v.
Proof.
  induction o as [| [k' v'] o IH]; simpl; intros Hnd Hin; [contradiction |].
  apply NoDup_cons_iff in Hnd. destruct Hnd as [Hne Hnd].
  destruct Hin as [Heq | Hin].
  - injection Heq as -> ->. now rewrite String.eqb_refl.
  - destruct (String.eqb k' k) eqn:E.
    + apply String.eqb_eq in E. subst k'. exfalso. apply Hne.
      apply in_map_iff. now exists (k, v).
    + now apply IH.
Qed.

(** X13.  [techMatches] holds a record under a key exactly when the key is a corpus
    entry whose evidence reaches the threshold of its category, and the record
    is the score, version and sources found with the category and label of
    the key.  No key occurs twice, and the CMS resolution leaves the object
    as the loop built it: its fallback record is never written. *)
Theorem analysis_matches_are_the_entries_over_threshold
    (cheerioLoad : string -> Document) (html : string) (headers : Headers) (u : string)
    (key : string) (m : TechMeta) :
  let techMatches := a_techMatches (analyzeStaticResponse cheerioLoad html headers u) in
  (obj_get techMatches key = Some m
   <-> exists patterns,
         In (key, patterns) TECH_PATTERNS
         /\ min_confidence (getCategoryForTech key)
            <= acc_confidence (scan_tech key patterns (cheerioLoad html) html headers)
         /\ m = let a := scan_tech key patterns (cheerioLoad html) html headers in
                mk_TechMeta (acc_confidence a) (acc_version a) (getCategoryForTech key)
                  (humanizeTechName key) (acc_sources a))
  /\ NoDup (obj_keys techMatches)
  /\ techMatches
     = ls_techMatches (scan_corpus cheerioLoad TECH_PATTERNS html headers).
Proof.
  cbv zeta. rewrite analysis_matches.
  assert (Hnd : NoDup (map fst (flat_map (match_of cheerioLoad html headers) TECH_PATTERNS))).
  { apply matches_keys_distinct, TECH_PATTERNS_keys_distinct. }
  split; [| split].
  - split.
    + intro H. apply obj_get_In in H. apply in_flat_map in H.
      destruct H as [[k pat] [He Hin]]. apply match_of_In in Hin. cbn [fst snd] in Hin.
      destruct Hin as [Hk [Hle Hm]]. subst k. exists pat. auto.
    + intros [pat [Hin [Hle Hm]]]. apply obj_get_NoDup; [exact Hnd |].
      apply in_flat_map. exists (key, pat). split; [assumption |].
      apply match_of_In. cbn [fst snd]. auto.
  - exact Hnd.
  - symmetry. apply scan_corpus_matches.
Qed.

(** X14.  Outside cms, the technologies array of a category is the deduplicated
    list of the labels of the matches of that category, in corpus order: every
    match is listed up to case, and every item listed is the label of a match
    of the category. *)
Theorem analysis_lists_each_match_in_its_category
    (cheerioLoad : string -> Document) (html : string) (headers : Headers) (u : string) :
  let a := analyzeStaticResponse cheerioLoad html headers u in
  (forall c, c <> cms ->
      tech_get (a_technologies a) c
      = deduplicateArray (map listed_as (filter (in_category c) (a_techMatches a))))
  /\ (forall key m, obj_get (a_techMatches a) key = Some m -> category m <> cms ->
        exists s, In s (tech_get (a_technologies a) (category m))
                  /\ toLowerCase s = toLowerCase (formatTechName (displayName m) (version m)))
  /\ (forall c s, c <> cms -> In s (tech_get (a_technologies a) c) ->
        exists key m, obj_get (a_techMatches a) key = Some m
                      /\ category m = c
                      /\ s = formatTechName (displayName m) (version m)).
Proof.
  intro a.
  assert (H1 : forall c, c <> cms ->
             tech_get (a_technologies a) c
             = deduplicateArray
                 (map listed_as (filter (in_category c) (a_techMatches a)))).
  { intros c Hc. unfold a. rewrite analysis_matches. apply analysis_category. exact Hc. }
  assert (Hnd : NoDup (map fst (a_techMatches a))).
  { unfold a. rewrite analysis_matches.
    apply matches_keys_distinct, TECH_PATTERNS_keys_distinct. }
  clearbody a.
  split; [exact H1 | split].
  - intros key m Hget Hc. rewrite (H1 _ Hc).
    destruct (dedup_from_represented []
                (map listed_as (filter (in_category (category m)) (a_techMatches a)))
                (listed_as (key, m))) as [[] | H].
    + apply in_map. apply filter_In. split; [apply obj_get_In; exact Hget |].
      unfold in_category. cbn [snd]. apply Category_eqb_refl.
    + exact H.
  - intros c s Hc Hin. rewrite (H1 _ Hc) in Hin.
    apply dedup_from_In in Hin. destruct Hin as [Hin _].
    apply in_map_iff in Hin. destruct Hin as [[key m] [Hs Hin]].
    apply filter_In in Hin. destruct Hin as [Hin Hcat].
    exists key, m. split; [apply obj_get_NoDup; assumption |]. split.
    + apply Category_eqb_eq in Hcat. exact Hcat.
    + symmetry. exact Hs.
Qed.

(** X15.  For the result of a static analysis, the CMS of the verdict and the cms
    array agree: the array is empty when the verdict has no CMS, and otherwise
    holds exactly the label of the verdict's CMS. *)
Theorem verdict_cms_is_the_listed_cms
    (cheerioLoad : string -> Document) (html : string) (headers : Headers) (u : string)
    (waf : WafInfo) (serverInfo : ServerInfo) :
  let a := analyzeStaticResponse cheerioLoad html headers u in
  let v := buildVerdict (a_technologies a) (a_techMatches a) waf serverInfo in
  t_cms (a_technologies a)
  = match pr_cms (v_primary v) with
    | Some p => [formatTechName (pk_displayName p) (pk_version p)]
    | None => []
    end.
Proof.
  cbv zeta. unfold buildVerdict. cbn [v_primary pr_cms]. unfold pickTop.
  rewrite analysis_matches, analysis_cms_of_matches.
  change (fun e : string * TechMeta => Category_eqb (category (snd e)) cms)
    with (in_category cms).
  destruct (sort_desc entry_conf _) as [| [key meta] tl] eqn:E; [reflexivity |].
  assert (Hin : In (key, meta) (flat_map (match_of cheerioLoad html headers) TECH_PATTERNS)).
  { assert (H : In (key, meta)
                  (sort_desc entry_conf
                     (filter (in_category cms)
                        (flat_map (match_of cheerioLoad html headers) TECH_PATTERNS))))
      by (rewrite E; now left).
    apply sort_desc_In in H. apply filter_In in H. apply H. }
  apply in_flat_map in Hin. destruct Hin as [e [_ Hin]].
  apply match_of_In in Hin. destruct Hin as [_ [_ Hm]]. cbv zeta in Hm.
  cbn [pk_displayName pk_version]. unfold listed_as. cbn [snd].
  rewrite formatTechName_falsy_version. subst meta. cbn [displayName].
  now rewrite or_else_same.
Qed.

Lemma analysis_nothing_listed
    (cheerioLoad : string -> Document) (html : string) (headers : Headers) (u : string) :
  tech_flat (a_technologies (analyzeStaticResponse cheerioLoad html headers u)) = []
  <-> a_techMatches (analyzeStaticResponse cheerioLoad html headers u) = [].
Proof.
  rewrite tech_flat_nil_iff. split.
  - intro Hall.
    destruct (a_techMatches (analyzeStaticResponse cheerioLoad html headers u))
      as [| [key m] rest] eqn:E; [reflexivity |]. exfalso.
    rewrite analysis_matches in E.
    destruct (Category_eqb (category m) cms) eqn:Ec.
    + specialize (Hall cms). cbn [tech_get] in Hall.
      rewrite analysis_cms_of_matches, E in Hall.
      destruct (sort_desc entry_conf (filter (in_category cms) ((key, m) :: rest)))
        as [| top tl] eqn:Es; [| discriminate].
      apply sort_desc_nil_iff in Es.
      assert (Hin : In (key, m) (filter (in_category cms) ((key, m) :: rest))).
      { apply filter_In. split; [now left | exact Ec]. }
      rewrite Es in Hin. contradiction.
    + assert (Hc : category m <> cms).
      { intro Heq. rewrite Heq in Ec. discriminate. }
      specialize (Hall (category m)).
      rewrite (analysis_category cheerioLoad html headers u _ Hc), E in Hall.
      apply (proj1 (dedup_nil_iff _)) in Hall.
      assert (Hin : In (listed_as (key, m))
                      (map listed_as (filter (in_category (category m)) ((key, m) :: rest)))).
      { apply in_map. apply filter_In. split; [now left |].
        unfold in_category. cbn [snd]. apply Category_eqb_refl. }
      rewrite Hall in Hin. contradiction.
  - intros E c. rewrite analysis_matches in E.
    destruct (Category_eqb c cms) eqn:Ec.
    + apply Category_eqb_eq in Ec. subst c. cbn [tech_get].
      now rewrite analysis_cms_of_matches, E.
    + assert (Hc : c <> cms).
      { intro Heq. rewrite Heq in Ec. discriminate. }
      now rewrite (analysis_category cheerioLoad html headers u _ Hc), E.
Qed.

(** X16.  The static analysis lists no technology exactly when it recorded no
    match; so a url is handed to the browser pass exactly when the static
    pass recorded no match for it. *)
Theorem analysis_empty_iff_no_match
    (cheerioLoad : string -> Document) (html : string) (headers : Headers) (u : string) :
  let a := analyzeStaticResponse cheerioLoad html headers u in
  (tech_flat (a_technologies a) = [] <-> a_techMatches a = [])
  /\ (forall input f,
        needs_browser (static_result cheerioLoad input u f) = true
        <-> a_techMatches (analyzeStaticResponse cheerioLoad (f_body f) (f_headers f) u) = []).
Proof.
  cbv zeta. split; [apply analysis_nothing_listed |].
  intros input f. rewrite needs_browser_static. apply analysis_nothing_listed.
Qed.

(** ** Version extraction *)

Lemma step_if_In (p : ascii -> bool) (st st' : mstate) :
  In st' (step_if p st) ->
  exists c, rest st = c :: rest st' /\ p c = true.
Proof.
  unfold step_if. destruct (rest st) as [| c tl]; [intros [] |].
  destruct (p c) eqn:E; [| intros []].
  intros [<- | []]. exists c. split; [reflexivity | assumption].
Qed.

Lemma run_star_digits (ci : bool) (st st' : mstate) :
  In st' (run ci (RStar RDigit) st) ->
  exists ds, rest st = ds ++ rest st' /\ Forall (fun c => is_digit c = true) ds.
Proof.
  cbn [run]. generalize (List.length (rest st)) as n. intro n. revert st.
  induction n as [| n IH]; intros st H.
  - destruct H as [<- | []]. exists []. split; [reflexivity | constructor].
  - apply in_app_or in H. destruct H as [H | [<- | []]].
    + apply in_flat_map in H. destruct H as [s1 [Hs1 H]].
      apply step_if_In in Hs1. destruct Hs1 as [c [Hc Hd]].
      destruct (List.length (rest s1) <? List.length (rest st)); [| destruct H].
      destruct (IH s1 H) as [ds [Hds Hall]].
      exists (c :: ds). split; [rewrite Hc, Hds; reflexivity | now constructor].
    + exists []. split; [reflexivity | constructor].
Qed.

Lemma run_digits1 (ci : bool) (st st' : mstate) :
  In st' (run ci (RSeq RDigit (RStar RDigit)) st) ->
  exists d ds, rest st = d :: ds ++ rest st'
               /\ is_digit d = true /\ Forall (fun c => is_digit c = true) ds.
Proof.
  intro H. change (In st' (flat_map (run ci (RStar RDigit)) (run ci RDigit st))) in H.
  apply in_flat_map in H. destruct H as [s1 [Hs1 H]].
  change (In s1 (step_if is_digit st)) in Hs1.
  apply step_if_In in Hs1. destruct Hs1 as [d [Hd Hdig]].
  apply run_star_digits in H. destruct H as [ds [Hds Hall]].
  exists d, ds. rewrite Hd, Hds. auto.
Qed.

Lemma version_shape_parsed :
  parse (source version_shape)
  = Some (RSeq
            (RSeq (RSeq (RSeq REmpty RBol) (RSeq RDigit (RStar RDigit))) (RChar "."))
            (RSeq RDigit (RStar RDigit))).
Proof. vm_compute. reflexivity. Qed.

Lemma version_shape_run (p : option ascii) (s : list ascii) (st' : mstate) :
  In st' (run false
            (RSeq
               (RSeq (RSeq (RSeq REmpty RBol) (RSeq RDigit (RStar RDigit))) (RChar "."))
               (RSeq RDigit (RStar RDigit)))
            (mk_mstate p s None)) ->
  p = None
  /\ exists major minor tl,
       s = major ++ "."%char :: minor :: tl
       /\ major <> []
       /\ Forall (fun c => is_digit c = true) major
       /\ is_digit minor = true.
Proof.
  intro H.
  change (run false (RSeq ?a ?b) ?st) with (flat_map (run false b) (run false a st)) in H.
  apply in_flat_map in H. destruct H as [s3 [H3 H4]].
  apply run_digits1 in H4. destruct H4 as [minor [ds2 [Hr3 [Hminor _]]]].
  change (run false (RSeq ?a ?b) ?st) with (flat_map (run false b) (run false a st)) in H3.
  apply in_flat_map in H3. destruct H3 as [s2 [H2 Hdot]].
  change (In s3 (step_if (char_match false ".") s2)) in Hdot.
  apply step_if_In in Hdot. destruct Hdot as [c [Hr2 Hc]].
  unfold char_match in Hc. apply Ascii.eqb_eq in Hc. subst c.
  change (run false (RSeq ?a ?b) ?st) with (flat_map (run false b) (run false a st)) in H2.
  apply in_flat_map in H2. destruct H2 as [s1 [H1 Hd1]].
  apply run_digits1 in Hd1. destruct Hd1 as [d [ds [Hr1 [Hd Hds]]]].
  change (In s1 (flat_map (run false RBol) (run false REmpty (mk_mstate p s None)))) in H1.
  apply in_flat_map in H1. destruct H1 as [s0 [H0 Hbol]].
  destruct H0 as [<- | []].
  cbn [run prev] in Hbol. destruct p as [c |]; [destruct Hbol |].
  destruct Hbol as [<- | []]. cbn [rest] in Hr1.
  split; [reflexivity |].
  exists (d :: ds), minor, (ds2 ++ rest st').
  rewrite Hr1, Hr2, Hr3.
  split; [reflexivity |]. split; [discriminate |]. split; [now constructor | assumption].
Qed.

Lemma version_shape_search (p : option ascii) (s : list ascii) (st' : mstate) :
  search false
    (RSeq
       (RSeq (RSeq (RSeq REmpty RBol) (RSeq RDigit (RStar RDigit))) (RChar "."))
       (RSeq RDigit (RStar RDigit)))
    p s = Some st' ->
  p = None
  /\ exists major minor tl,
       s = major ++ "."%char :: minor :: tl
       /\ major <> []
       /\ Forall (fun c => is_digit c = true) major
       /\ is_digit minor = true.
Proof.
  revert p. induction s as [| c s IH]; intros p H.
  - cbn [search] in H.
    destruct (run false _ (mk_mstate p [] None)) as [| st tl] eqn:E; [discriminate |].
    apply (version_shape_run p [] st). rewrite E. now left.
  - cbn [search] in H.
    destruct (run false _ (mk_mstate p (c :: s) None)) as [| st tl] eqn:E.
    + apply IH in H. destruct H as [H _]. discriminate.
    + apply (version_shape_run p (c :: s) st). rewrite E. now left.
Qed.

Lemma version_shape_test (v : string) : test version_shape v = true -> version_like v.
Proof.
  unfold test, exec. rewrite version_shape_parsed.
  destruct (search _ _ _ _) as [st' |] eqn:E; [| discriminate].
  intros _. apply version_shape_search in E. apply E.
Qed.

Lemma first_version_shape (patterns : list RegExp) (text v : string) :
  first_version patterns text = Some v -> version_like v.
Proof.
  induction patterns as [| p patterns IH]; simpl; [discriminate |].
  destruct (match1 p text) as [w |]; [| exact IH].
  destruct (truthy w && test version_shape w) eqn:E; [| exact IH].
  intro H. apply some_inj in H. subst w.
  apply andb_true_iff in E. destruct E as [_ E]. now apply version_shape_test.
Qed.

Lemma first_version_shape_of_extract (text techName v : string) :
  extractVersion text techName = Some v -> version_like v.
Proof.
  unfold extractVersion. destruct (negb (truthy text)); [discriminate |].
  apply first_version_shape.
Qed.

(** X17.  Whatever [extractVersion] returns begins with one or more digits, a dot
    and a digit; it returns nothing for the empty text. *)
Theorem extractVersion_returns_a_version (text techName : string) :
  (forall v, extractVersion text techName = Some v ->
             version_like v /\ v <> "" /\ text <> "")
  /\ extractVersion "" techName = None.
Proof.
  split; [| reflexivity].
  intros v H. unfold extractVersion in H.
  destruct (truthy text) eqn:Et; [| discriminate]. cbn [negb] in H.
  apply first_version_shape in H. split; [exact H |]. split.
  - intros ->. destruct H as [major [minor [tl [Heq _]]]].
    destruct major; discriminate.
  - intros ->. discriminate.
Qed.

(** ** The evidence for one technology *)

Lemma fold_left_invariant {A B : Type} (P : A -> Prop) (f : A -> B -> A) (l : list B) (a : A) :
  (forall a x, P a -> P (f a x)) -> P a -> P (fold_left f l a).
Proof.
  intro Hf. revert a. induction l as [| x l IH]; intros a Ha; simpl; [assumption |].
  apply IH. now apply Hf.
Qed.

Lemma set_add_props (x : string) (s : list string) :
  In x channel_names ->
  Forall (fun s => In s channel_names) s -> NoDup s ->
  set_add x s <> []
  /\ Forall (fun s => In s channel_names) (set_add x s)
  /\ NoDup (set_add x s).
Proof.
  intros Hx Hall Hnd. unfold set_add.
  destruct (existsb (String.eqb x) s) eqn:E.
  - split; [| split; assumption]. apply existsb_eqb_In in E. intros ->. contradiction.
  - split; [now destruct s |]. split.
    + apply Forall_app. split; [assumption | constructor; [assumption | constructor]].
    + assert (Hn : ~ In x s).
      { intro Hin. apply existsb_eqb_In in Hin. congruence. }
      clear - Hnd Hn. induction s as [| a s IH]; simpl.
      * constructor; [intros [] | constructor].
      * apply NoDup_cons_iff in Hnd. destruct Hnd as [Ha Hnd]. constructor.
        -- rewrite in_app_iff. intros [Hin | [Heq | []]]; [contradiction |].
           apply Hn. now left.
        -- apply IH; [assumption |]. intro Hin. apply Hn. now right.
Qed.

Lemma hit_ok (w : nat) (source : string) (a : ScanAcc) :
  In source channel_names -> evidence_ok a -> evidence_ok (hit w source a).
Proof.
  intros Hs [Hv [_ [Hall Hnd]]].
  destruct (set_add_props source (acc_sources a) Hs Hall Hnd) as [H1 [H2 H3]].
  unfold hit, evidence_ok. cbn [acc_version acc_confidence acc_sources]. auto.
Qed.

Lemma hit_versioned_ok (w : nat) (source text techName : string) (a : ScanAcc) :
  In source channel_names -> evidence_ok a ->
  evidence_ok (hit_versioned w source text techName a).
Proof.
  intros Hs [Hv [_ [Hall Hnd]]].
  destruct (set_add_props source (acc_sources a) Hs Hall Hnd) as [H1 [H2 H3]].
  unfold hit_versioned, evidence_ok. cbn [acc_version acc_confidence acc_sources].
  split; [| auto].
  intros v. destruct (version_truthy (acc_version a)); [apply Hv |].
  intro H. now apply first_version_shape_of_extract in H.
Qed.

Lemma scan_tech_ok (techName : string) (patterns : TechPattern) (doc : Document)
    (html : string) (headers : Headers) :
  evidence_ok (scan_tech techName patterns doc html headers).
Proof.
  assert (H0 : evidence_ok (mk_ScanAcc 0 None [])).
  { unfold evidence_ok. cbn. split; [discriminate |]. split; [lia |].
    split; constructor. }
  unfold scan_tech, scan_cdn, scan_headers, scan_html, scan_metas, scan_links, scan_scripts.
  repeat (apply fold_left_invariant; [intros ? ? ? |]); try exact H0;
    repeat match goal with
           | |- evidence_ok (match ?c with _ => _ end) => destruct c
           end;
    try assumption;
    (apply hit_ok || apply hit_versioned_ok); try assumption; cbn; tauto.
Qed.

Lemma min_confidence_bounds (c : Category) : 2 <= min_confidence c <= 3.
Proof. destruct c; vm_compute; split; repeat constructor. Qed.

(** X18.  Every record of [techMatches] has a score of at least 2, a category other
    than backend, a version that is null or begins as a version does, and a
    non-empty list of sources without repetition, each one of script,
    stylesheet, meta, html, header and cdn. *)
Theorem analysis_match_details_are_well_formed
    (cheerioLoad : string -> Document) (html : string) (headers : Headers) (u : string)
    (key : string) (m : TechMeta) :
  obj_get (a_techMatches (analyzeStaticResponse cheerioLoad html headers u)) key = Some m ->
  2 <= confidence m
  /\ category m <> backend
  /\ (forall v, version m = Some v -> version_like v)
  /\ sources m <> []
  /\ Forall (fun s => In s channel_names) (sources m)
  /\ NoDup (sources m).
Proof.
  intro H. rewrite analysis_matches in H. apply obj_get_In in H.
  apply in_flat_map in H. destruct H as [[k pat] [_ H]].
  apply match_of_In in H. cbn [fst snd] in H. destruct H as [-> [Hle Hm]].
  cbv zeta in Hm. subst m. cbn [confidence category version sources].
  destruct (scan_tech_ok k pat (cheerioLoad html) html headers) as [Hv [Hs [Hall Hnd]]].
  pose proof (min_confidence_bounds (getCategoryForTech k)) as [H2 _].
  split; [lia |]. split; [apply getCategoryForTech_not_backend |].
  split; [exact Hv |]. split; [apply Hs; lia |]. split; assumption.
Qed.

Lemma fold_left_reaches {A B : Type} (P : A -> Prop) (f : A -> B -> A) (l : list B)
    (a : A) (x : B) :
  (forall a y, P a -> P (f a y)) ->
  (forall a, P (f a x)) ->
  In x l ->
  P (fold_left f l a).
Proof.
  intros Hkeep Hx Hin. apply in_split in Hin. destruct Hin as [l1 [l2 ->]].
  rewrite fold_left_app. simpl. apply fold_left_invariant; [exact Hkeep | apply Hx].
Qed.

Lemma set_add_keeps (x s : string) (l : list string) : In s l -> In s (set_add x l).
Proof.
  intro H. unfold set_add. destruct (existsb _ l); [assumption |].
  apply in_or_app. now left.
Qed.

Lemma set_add_has (x : string) (l : list string) : In x (set_add x l).
Proof.
  unfold set_add. destruct (existsb (String.eqb x) l) eqn:E.
  - now apply existsb_eqb_In.
  - apply in_or_app. right. now left.
Qed.

Lemma script_evidence_stays (a : ScanAcc) (w : nat) (source : string) :
  script_evidence a -> script_evidence (hit w source a).
Proof.
  intros [H1 H2]. split; cbn [hit acc_confidence acc_sources]; [lia |].
  now apply set_add_keeps.
Qed.

Lemma script_evidence_stays_versioned (a : ScanAcc) (w : nat) (source text n : string) :
  script_evidence a -> script_evidence (hit_versioned w source text n a).
Proof.
  intros [H1 H2]. split; cbn [hit_versioned acc_confidence acc_sources]; [lia |].
  now apply set_add_keeps.
Qed.

Lemma scan_scripts_hit (techName : string) (pats : list RegExp) (doc : Document)
    (a : ScanAcc) (p : RegExp) (el : ScriptEl) :
  In p pats -> In el (doc_scripts doc) ->
  test p (el_src el ++ el_html el) = true ->
  script_evidence (scan_scripts techName pats doc a).
Proof.
  intros Hp Hel Ht. unfold scan_scripts.
  apply (fold_left_reaches script_evidence _ (doc_scripts doc) a el); [| | assumption].
  - intros a' el' Ha. apply fold_left_invariant; [| exact Ha].
    intros a'' p' Ha'. destruct (test p' _); [| exact Ha'].
    now apply script_evidence_stays_versioned.
  - intro a'.
    apply (fold_left_reaches script_evidence _ pats a' p); [| | assumption].
    + intros a'' p' Ha'. destruct (test p' _); [| exact Ha'].
      now apply script_evidence_stays_versioned.
    + intro a''. rewrite Ht. split; cbn [hit_versioned acc_confidence acc_sources]; [lia |].
      apply set_add_has.
Qed.

Lemma analysis_match_details_are_well_formed_witness :
  obj_get (a_techMatches (analyzeStaticResponse wp5_loader wp5_html [] "https://blog.example"))
    "wordpress"
  = Some (mk_TechMeta 5 None cms "Wordpress" ["script"; "meta"])
  /\ 2 <= 5
  /\ NoDup ["script"; "meta"].
Proof.
  assert (H : obj_get
                (a_techMatches
                   (analyzeStaticResponse wp5_loader wp5_html [] "https://blog.example"))
                "wordpress"
              = Some (mk_TechMeta 5 None cms "Wordpress" ["script"; "meta"]))
    by (vm_compute; reflexivity).
  split; [exact H |].
  destruct (analysis_match_details_are_well_formed wp5_loader wp5_html []
              "https://blog.example" "wordpress" _ H) as [H1 [_ [_ [_ [_ H6]]]]].
  split; [exact H1 | exact H6].
Defined.

Lemma scan_tech_script_hit (techName : string) (patterns : TechPattern) (doc : Document)
    (html : string) (headers : Headers) (p : RegExp) (el : ScriptEl) :
  In p (p_script patterns) -> In el (doc_scripts doc) ->
  test p (el_src el ++ el_html el) = true ->
  script_evidence (scan_tech techName patterns doc html headers).
Proof.
  intros Hp Hel Ht.
  pose proof (scan_scripts_hit techName (p_script patterns) doc (mk_ScanAcc 0 None [])
                p el Hp Hel Ht) as H.
  unfold scan_tech, scan_cdn, scan_headers, scan_html, scan_metas, scan_links.
  repeat (apply fold_left_invariant; [intros ? ? ? |]); try exact H;
    repeat match goal with
           | |- script_evidence (match ?c with _ => _ end) => destruct c
           end;
    try assumption;
    (apply script_evidence_stays || apply script_evidence_stays_versioned); assumption.
Qed.

(** X19.  One script pattern of a corpus entry matching one script element is
    enough for the entry to be recorded, whatever its category: the record has
    a score of at least 3 and names the script channel, and the analysis lists
    at least one technology. *)
Theorem one_script_hit_is_enough
    (cheerioLoad : string -> Document) (html : string) (headers : Headers) (u : string)
    (key : string) (patterns : TechPattern) (p : RegExp) (el : ScriptEl) :
  In (key, patterns) TECH_PATTERNS ->
  In p (p_script patterns) ->
  In el (doc_scripts (cheerioLoad html)) ->
  test p (el_src el ++ el_html el) = true ->
  let a := analyzeStaticResponse cheerioLoad html headers u in
  exists m,
    obj_get (a_techMatches a) key = Some m
    /\ 3 <= confidence m
    /\ In "script" (sources m)
    /\ tech_flat (a_technologies a) <> [].
Proof.
  intros Hin Hp Hel Ht a.
  set (e := scan_tech key patterns (cheerioLoad html) html headers).
  destruct (scan_tech_script_hit key patterns (cheerioLoad html) html headers p el Hp Hel Ht)
    as [H3 Hs]. fold e in H3, Hs.
  pose proof (min_confidence_bounds (getCategoryForTech key)) as [_ Hmax].
  assert (Hget : obj_get (a_techMatches a) key
                 = Some (mk_TechMeta (acc_confidence e) (acc_version e)
                           (getCategoryForTech key) (humanizeTechName key) (acc_sources e))).
  { unfold a. rewrite analysis_matches. apply obj_get_NoDup.
    - apply matches_keys_distinct, TECH_PATTERNS_keys_distinct.
    - apply in_flat_map. exists (key, patterns). split; [assumption |].
      apply match_of_In. cbn [fst snd]. fold e. split; [reflexivity |].
      split; [lia | reflexivity]. }
  eexists. split; [exact Hget |]. cbn [confidence sources].
  split; [exact H3 |]. split; [exact Hs |].
  intro Hnil. unfold a in Hnil, Hget.
  apply analysis_nothing_listed in Hnil. rewrite Hnil in Hget. discriminate.
Qed.

Lemma one_script_hit_is_enough_witness :
  In ("wordpress", wordpress_signature) TECH_PATTERNS
  /\ test (rxi "wp-emoji-release\.min\.js|wp-admin") "/wp-admin/js/common.js" = true
  /\ exists m,
       obj_get (a_techMatches
                  (analyzeStaticResponse wp5_loader wp5_html [] "https://blog.example"))
         "wordpress" = Some m
       /\ 3 <= confidence m.
Proof.
  assert (Hin : In ("wordpress", wordpress_signature) TECH_PATTERNS).
  { rewrite corpus_split_at_wordpress. apply in_or_app. right. now left. }
  assert (Ht : test (rxi "wp-emoji-release\.min\.js|wp-admin") "/wp-admin/js/common.js" = true)
    by (vm_compute; reflexivity).
  split; [exact Hin |]. split; [exact Ht |].
  destruct (one_script_hit_is_enough wp5_loader wp5_html [] "https://blog.example"
              "wordpress" wordpress_signature
              (rxi "wp-emoji-release\.min\.js|wp-admin")
              (mk_ScriptEl "/wp-admin/js/common.js" "")
              Hin (or_introl eq_refl) (or_introl eq_refl) Ht) as [m [H1 [H2 _]]].
  exists m. split; assumption.
Defined.

(** ** An empty response *)

Lemma match_of_loader (cheerioLoad : string -> Document) (html : string) (headers : Headers) :
  match_of cheerioLoad html headers = match_of (fun _ => cheerioLoad html) html headers.
Proof. reflexivity. Qed.

Lemma empty_page_matches (cheerioLoad : string -> Document) :
  doc_scripts (cheerioLoad "") = [] ->
  doc_stylesheets (cheerioLoad "") = [] ->
  doc_metas (cheerioLoad "") = [] ->
  flat_map (match_of cheerioLoad "" []) TECH_PATTERNS = [].
Proof.
  intros H1 H2 H3. rewrite match_of_loader.
  destruct (cheerioLoad "") as [scripts sheets metas ti ld].
  cbn [doc_scripts doc_stylesheets doc_metas] in H1, H2, H3. subst.
  vm_compute. reflexivity.
Qed.

(** X20.  For a response with an empty body and no header, the static handler
    stores a success record with no technology and no match, no WAF, the
    server Unknown, a verdict of low confidence with an empty summary; the
    record is one the browser pass selects. *)
Theorem empty_response_is_queued_for_the_browser
    (cheerioLoad : string -> Document) (input : Input) (u : string) (f : Fetched) :
  f_body f = "" ->
  f_headers f = [] ->
  doc_scripts (cheerioLoad "") = [] ->
  doc_stylesheets (cheerioLoad "") = [] ->
  doc_metas (cheerioLoad "") = [] ->
  let r := static_result cheerioLoad input u f in
  technologies r = Some empty_technologies
  /\ detectionDetails r = Some []
  /\ waf r = Some WafNone
  /\ server r = Some (mk_ServerInfo (HStr "Unknown") None)
  /\ option_map v_confidence (verdict r) = Some "low"
  /\ option_map v_summary (verdict r) = Some ""
  /\ needs_browser r = true.
Proof.
  intros Hb Hh H1 H2 H3 r.
  pose proof (empty_page_matches cheerioLoad H1 H2 H3) as Hm.
  assert (Ha : a_techMatches (analyzeStaticResponse cheerioLoad "" [] u) = []).
  { now rewrite analysis_matches. }
  assert (Ht : a_technologies (analyzeStaticResponse cheerioLoad "" [] u) = empty_technologies).
  { pose proof (proj2 (analysis_nothing_listed cheerioLoad "" [] u) Ha) as Hn.
    rewrite tech_flat_nil_iff in Hn.
    pose proof (Hn frontend) as Q1. pose proof (Hn backend) as Q2. pose proof (Hn cms) as Q3.
    pose proof (Hn analytics) as Q4. pose proof (Hn hosting) as Q5. pose proof (Hn cdn) as Q6.
    pose proof (Hn libraries) as Q7.
    destruct (a_technologies (analyzeStaticResponse cheerioLoad "" [] u))
      as [x1 x2 x3 x4 x5 x6 x7].
    cbn [tech_get t_frontend t_backend t_cms t_analytics t_hosting t_cdn t_libraries]
      in Q1, Q2, Q3, Q4, Q5, Q6, Q7.
    subst. reflexivity. }
  unfold r, static_result. rewrite Hb, Hh, Ht, Ha.
  unfold deduplicateResult.
  cbn [technologies detectionDetails waf server verdict option_map status].
  split; [reflexivity |]. split; [reflexivity |].
  split; [vm_compute; reflexivity |]. split; [reflexivity |].
  split; [vm_compute; reflexivity |]. split; [vm_compute; reflexivity |].
  reflexivity.
Qed.

Lemma empty_response_is_queued_for_the_browser_witness :
  f_body (mk_Fetched [] "" (Ok no_apis) None "2024-01-01T00:00:00.000Z" (Ok tt)
             "2024-01-01T00:00:01.000Z" (Ok tt)) = ""
  /\ doc_scripts (spa_loader "") = []
  /\ needs_browser
       (static_result spa_loader spa_input spa_url
          (mk_Fetched [] "" (Ok no_apis) None "2024-01-01T00:00:00.000Z" (Ok tt)
             "2024-01-01T00:00:01.000Z" (Ok tt))) = true.
Proof.
  split; [reflexivity |]. split; [reflexivity |].
  exact (proj2 (proj2 (proj2 (proj2 (proj2 (proj2
           (empty_response_is_queued_for_the_browser spa_loader spa_input spa_url
              (mk_Fetched [] "" (Ok no_apis) None "2024-01-01T00:00:00.000Z" (Ok tt)
             "2024-01-01T00:00:01.000Z" (Ok tt))
              eq_refl eq_refl eq_refl eq_refl eq_refl))))))).
Defined.

(** ** The WAF scorer, further *)

Lemma waf_tier_not_low (n : nat) : 3 <= n -> waf_tier n <> "low".
Proof.
  intro H. unfold waf_tier.
  destruct (5 <=? n); [discriminate |].
  destruct (3 <=? n) eqn:E; [discriminate |].
  apply Nat.leb_gt in E. lia.
Qed.

Lemma count_positive {A : Type} (f : A -> bool) (l : list A) (x : A) :
  In x l -> f x = true -> 1 <= count f l.
Proof.
  intros Hin Hf. unfold count.
  assert (H : In x (filter f l)) by (apply filter_In; auto).
  destruct (filter f l); [contradiction | simpl; lia].
Qed.

Lemma count_none {A : Type} (f : A -> bool) (l : list A) :
  (forall x, In x l -> f x = false) -> count f l = 0.
Proof.
  intro H. unfold count. induction l as [| a l IH]; simpl; [reflexivity |].
  rewrite (H a) by (now left). apply IH. intros x Hx. apply H. now right.
Qed.

Lemma waf_server_patterns_need_a_banner :
  forallb
    (fun e => match w_server (snd e) with Some re => negb (test re "") | None => true end)
    WAF_PATTERNS = true.
Proof. vm_compute. reflexivity. Qed.

(** X21.  When the response carries one header of a provider's signature, a WAF
    is detected with a score of at least 3, so with a confidence other than
    low, whatever the cookies and the body. *)
Theorem waf_header_gives_at_least_medium
    (headers : Headers) (cookies : list string) (html : string)
    (provider : string) (patterns : WafPattern) (names : list string) (h : string) :
  In (provider, patterns) WAF_PATTERNS ->
  w_headers patterns = Some names ->
  In h names ->
  has_header headers h = true ->
  exists r,
    detectWAF headers cookies html = Some r
    /\ 3 <= waf_score r
    /\ waf_confidence r <> "low".
Proof.
  intros Hin Hnames Hh Hhas.
  assert (Hscore : 3 <= score_of headers cookies html (provider, patterns)).
  { unfold score_of, provider_score, header_points. cbn [snd]. rewrite Hnames.
    pose proof (count_positive (has_header headers) names h Hh Hhas). lia. }
  pose proof (detectWAF_with_spec headers cookies html WAF_PATTERNS) as Hspec.
  fold detectWAF in Hspec. unfold detectWAF in *.
  destruct (detectWAF_with WAF_PATTERNS headers cookies html) as [r |].
  - exists r. split; [reflexivity |].
    destruct Hspec as [tb [entry [ta [Ht [_ [Hs [_ [Hc [Hb Ha]]]]]]]]].
    assert (Hle : score_of headers cookies html (provider, patterns) <= waf_score r).
    { rewrite Ht in Hin. apply in_app_or in Hin. destruct Hin as [Hin | [Heq | Hin]].
      - rewrite Forall_forall in Hb. now apply Hb.
      - subst entry. lia.
      - rewrite Forall_forall in Ha. specialize (Ha _ Hin). lia. }
    split; [lia |]. rewrite Hc. apply waf_tier_not_low. lia.
  - rewrite Forall_forall in Hspec. specialize (Hspec _ Hin). lia.
Qed.

Lemma waf_header_gives_at_least_medium_witness :
  In ("cloudflare",
      mk_WafPattern (Some ["cf-ray"; "cf-cache-status"; "__cfduid"; "cf-request-id"])
        (Some ["__cfduid"; "__cf_bm"; "__cfwaf"])
        (Some (rxi "cloudflare")) (Some (rxi "cloudflare|cf-html|cf-error")))
     WAF_PATTERNS
  /\ has_header [("cf-ray", HStr "8a1b2c3d4e5f")] "cf-ray" = true
  /\ exists r,
       detectWAF [("cf-ray", HStr "8a1b2c3d4e5f")] [] "" = Some r
       /\ 3 <= waf_score r
       /\ waf_confidence r <> "low".
Proof.
  assert (Hin : In ("cloudflare",
      mk_WafPattern (Some ["cf-ray"; "cf-cache-status"; "__cfduid"; "cf-request-id"])
        (Some ["__cfduid"; "__cf_bm"; "__cfwaf"])
        (Some (rxi "cloudflare")) (Some (rxi "cloudflare|cf-html|cf-error")))
     WAF_PATTERNS) by (now left).
  split; [exact Hin |]. split; [reflexivity |].
  exact (waf_header_gives_at_least_medium [("cf-ray", HStr "8a1b2c3d4e5f")] [] ""
           "cloudflare" _ _ "cf-ray" Hin eq_refl (or_introl eq_refl) eq_refl).
Defined.

(** X22.  When no signature header is present, there is no cookie and the server
    header is absent or empty, a WAF detected from the body has score 1 and
    confidence low. *)
Theorem waf_body_alone_is_low
    (headers : Headers) (html : string) (r : WafResult) :
  (forall provider patterns names h,
      In (provider, patterns) WAF_PATTERNS -> w_headers patterns = Some names ->
      In h names -> has_header headers h = false) ->
  header_text headers "server" = "" ->
  detectWAF headers [] html = Some r ->
  waf_score r = 1 /\ waf_confidence r = "low".
Proof.
  intros Hnone Hserver Hr.
  pose proof (detectWAF_with_spec headers [] html WAF_PATTERNS) as Hspec.
  fold detectWAF in Hspec. rewrite Hr in Hspec.
  destruct Hspec as [tb [[provider patterns] [ta [Ht [_ [Hs [Hpos [Hc _]]]]]]]].
  assert (Hin : In (provider, patterns) WAF_PATTERNS).
  { rewrite Ht. apply in_or_app. right. now left. }
  assert (Hle : score_of headers [] html (provider, patterns) <= 1).
  { unfold score_of, provider_score. cbn [snd].
    assert (H1 : header_points patterns headers = 0).
    { unfold header_points. destruct (w_headers patterns) as [names |] eqn:En; [| reflexivity].
      rewrite count_none; [reflexivity |]. intros h Hh.
      exact (Hnone provider patterns names h Hin En Hh). }
    assert (H2 : cookie_points patterns [] = 0).
    { unfold cookie_points. destruct (w_cookies patterns); [| reflexivity].
      rewrite count_none; reflexivity. }
    assert (H3 : server_points patterns headers = 0).
    { unfold server_points. rewrite Hserver.
      pose proof waf_server_patterns_need_a_banner as Hb.
      rewrite forallb_forall in Hb. specialize (Hb _ Hin). cbn [snd] in Hb.
      destruct (w_server patterns) as [re |]; [| reflexivity].
      now destruct (test re ""). }
    assert (H4 : html_points patterns html <= 1).
    { unfold html_points. destruct (w_html patterns); [| lia].
      destruct (truthy html && test _ html); lia. }
    lia. }
  assert (H1 : waf_score r = 1) by lia.
  split; [exact H1 |]. rewrite Hc, H1. reflexivity.
Qed.

Lemma waf_body_alone_is_low_witness :
  header_text [("content-type", HStr "text/html")] "server" = ""
  /\ detectWAF [("content-type", HStr "text/html")] [] "<p>Attention Required! | Cloudflare</p>"
     = Some (mk_WafResult "Cloudflare" "low" 1)
  /\ waf_score (mk_WafResult "Cloudflare" "low" 1) = 1.
Proof.
  assert (Hd : detectWAF [("content-type", HStr "text/html")] []
                 "<p>Attention Required! | Cloudflare</p>"
               = Some (mk_WafResult "Cloudflare" "low" 1)) by (vm_compute; reflexivity).
  split; [reflexivity |]. split; [exact Hd |].
  refine (proj1 (waf_body_alone_is_low [("content-type", HStr "text/html")]
                   "<p>Attention Required! | Cloudflare</p>" _ _ eq_refl Hd)).
  intros provider patterns names h Hin Hn Hh.
  unfold has_header. cbn [obj_get].
  destruct (String.eqb "content-type" (toLowerCase h)) eqn:E; [| reflexivity].
  exfalso.
  assert (Hall : forallb
            (fun e =>
               match w_headers (snd e) with
               | Some hs =>
                   forallb (fun x => negb (String.eqb "content-type" (toLowerCase x))) hs
               | None => true
               end) WAF_PATTERNS = true) by (vm_compute; reflexivity).
  rewrite forallb_forall in Hall. specialize (Hall _ Hin). cbn [snd] in Hall.
  rewrite Hn in Hall. rewrite forallb_forall in Hall. specialize (Hall _ Hh).
  rewrite E in Hall. discriminate.
Defined.

(** ** API probing *)

Section ProbeFacts.

Variable resolveUrl : string -> string -> Outcome string.
Variable gotScraping : string -> option string -> Outcome ProbeResponse.
Variables (baseUrl : string) (proxyUrl : option string).

Lemma fold_note_hit (l : list string) (d : Apis) :
  let probe := probe_endpoint resolveUrl gotScraping baseUrl proxyUrl in
  let out := fold_left note_hit (map probe l) d in
  endpoints out
  = endpoints d ++ filter (fun e => match probe e with Some _ => true | None => false end) l
  /\ graphql out
     = (graphql d
        || existsb (fun e => match probe e with
                             | Some _ => includes e "graphql"
                             | None => false
                             end) l)
  /\ rest_api out
     = (rest_api d
        || existsb (fun e => match probe e with
                             | Some found => includes (hit_contentType found) "application/json"
                             | None => false
                             end) l).
Proof.
  cbv zeta. revert d. induction l as [| e l IH]; intro d; simpl.
  - now rewrite app_nil_r, !orb_false_r.
  - destruct (IH (note_hit d (probe_endpoint resolveUrl gotScraping baseUrl proxyUrl e)))
      as [H1 [H2 H3]].
    rewrite H1, H2, H3. clear IH H1 H2 H3.
    assert (Hep : forall found,
               probe_endpoint resolveUrl gotScraping baseUrl proxyUrl e = Some found ->
               hit_endpoint found = e).
    { unfold probe_endpoint. intros found.
      destruct (resolveUrl e baseUrl) as [target |]; [| discriminate].
      destruct (gotScraping target proxyUrl) as [response |]; [| discriminate].
      destruct (statusCode response <? 400); [| discriminate].
      intro H. apply some_inj in H. now subst found. }
    destruct (probe_endpoint resolveUrl gotScraping baseUrl proxyUrl e) as [found |] eqn:E.
    + cbn [note_hit endpoints graphql rest_api].
      rewrite (Hep found eq_refl). rewrite <- app_assoc.
      split; [reflexivity |]. split.
      * destruct (includes e "graphql"), (graphql d); reflexivity.
      * destruct (includes (hit_contentType found) "application/json"), (rest_api d);
          reflexivity.
    + cbn [note_hit orb]. auto.
Qed.

End ProbeFacts.

Lemma filter_NoDup_lower (f : string -> bool) (l : list string) :
  NoDup (map toLowerCase l) -> NoDup (map toLowerCase (filter f l)).
Proof.
  induction l as [| a l IH]; simpl; intro H; [constructor |].
  apply NoDup_cons_iff in H. destruct H as [Hn H].
  destruct (f a); simpl; [| now apply IH].
  constructor; [| now apply IH].
  intro Hin. apply Hn. apply in_map_iff in Hin. destruct Hin as [x [Hx Hin]].
  apply filter_In in Hin. apply in_map_iff. exists x. tauto.
Qed.

Lemma API_ENDPOINTS_distinct : NoDup (map toLowerCase API_ENDPOINTS).
Proof.
  unfold API_ENDPOINTS. simpl.
  repeat (constructor;
          [intro H; apply existsb_eqb_In in H; vm_compute in H; discriminate |]).
  constructor.
Qed.

(** X23.  [probeApiEndpoints] reports the endpoints of [API_ENDPOINTS] that
    answered below status 400, in the order of the table (the final
    deduplication removes nothing); graphql is set exactly when /graphql
    answered, rest exactly when some endpoint answered with a JSON content
    type; when nothing answers the result is the default record. *)
Theorem probeApiEndpoints_lists_reachable_endpoints
    (resolveUrl : string -> string -> Outcome string)
    (gotScraping : string -> option string -> Outcome ProbeResponse)
    (baseUrl : string) (proxyUrl : option string) :
  let probe := probe_endpoint resolveUrl gotScraping baseUrl proxyUrl in
  let reachable e := match probe e with Some _ => true | None => false end in
  let found := probeApiEndpoints resolveUrl gotScraping baseUrl proxyUrl in
  endpoints found = filter reachable API_ENDPOINTS
  /\ graphql found = reachable "/graphql"
  /\ (rest_api found = true
      <-> exists e hit, In e API_ENDPOINTS /\ probe e = Some hit
                        /\ includes (hit_contentType hit) "application/json" = true)
  /\ ((forall e, In e API_ENDPOINTS -> reachable e = false) -> found = no_apis).
Proof.
  cbv zeta.
  destruct (fold_note_hit resolveUrl gotScraping baseUrl proxyUrl API_ENDPOINTS
              (mk_Apis false false [])) as [H1 [H2 H3]].
  cbv zeta in H1, H2, H3. cbn [endpoints graphql rest_api app orb] in H1, H2, H3.
  set (reachable :=
         fun e => match probe_endpoint resolveUrl gotScraping baseUrl proxyUrl e with
                  | Some _ => true
                  | None => false
                  end).
  assert (He : endpoints (probeApiEndpoints resolveUrl gotScraping baseUrl proxyUrl)
               = filter reachable API_ENDPOINTS).
  { unfold probeApiEndpoints. cbn [endpoints]. rewrite H1.
    unfold deduplicateArray. apply dedup_from_fixed.
    - apply filter_NoDup_lower, API_ENDPOINTS_distinct.
    - intros x _ []. }
  assert (Hg : graphql (probeApiEndpoints resolveUrl gotScraping baseUrl proxyUrl)
               = reachable "/graphql").
  { unfold probeApiEndpoints. cbn [graphql]. rewrite H2.
    unfold API_ENDPOINTS. cbn [existsb].
    replace (includes "/api" "graphql") with false by (vm_compute; reflexivity).
    replace (includes "/graphql" "graphql") with true by (vm_compute; reflexivity).
    replace (includes "/_next/static" "graphql") with false by (vm_compute; reflexivity).
    replace (includes "/wp-json/wp/v2" "graphql") with false by (vm_compute; reflexivity).
    replace (includes "/_nuxt" "graphql") with false by (vm_compute; reflexivity).
    replace (includes "/robots.txt" "graphql") with false by (vm_compute; reflexivity).
    repeat match goal with
           | |- context [match ?p with Some _ => false | None => false end] =>
               replace (match p with Some _ => false | None => false end) with false
                 by (now destruct p)
           end.
    cbn [orb]. now rewrite orb_false_r. }
  split; [exact He |]. split; [exact Hg |]. split.
  - unfold probeApiEndpoints. cbn [rest_api]. rewrite H3, existsb_exists. split.
    + intros [e [Hin Hx]].
      destruct (probe_endpoint resolveUrl gotScraping baseUrl proxyUrl e) as [hit |] eqn:E;
        [| discriminate].
      exists e, hit. auto.
    + intros [e [hit [Hin [Hp Hj]]]]. exists e. split; [assumption |]. now rewrite Hp.
  - intro Hnone.
    assert (Hf : filter reachable API_ENDPOINTS = []).
    { unfold reachable. generalize Hnone. generalize API_ENDPOINTS as l.
      induction l as [| a l IH]; intro Hn; simpl; [reflexivity |].
      rewrite (Hn a) by (now left). apply IH. intros e Hin. apply Hn. now right. }
    assert (Hgq : graphql (probeApiEndpoints resolveUrl gotScraping baseUrl proxyUrl) = false).
    { rewrite Hg. apply Hnone. right. now left. }
    assert (Hr : rest_api (probeApiEndpoints resolveUrl gotScraping baseUrl proxyUrl) = false).
    { unfold probeApiEndpoints. cbn [rest_api]. rewrite H3.
      apply not_true_is_false. intro Hx. apply existsb_exists in Hx.
      destruct Hx as [e [Hin Hx]]. specialize (Hnone e Hin).
      destruct (probe_endpoint resolveUrl gotScraping baseUrl proxyUrl e); discriminate. }
    rewrite Hf in He. clear - He Hgq Hr.
    destruct (probeApiEndpoints resolveUrl gotScraping baseUrl proxyUrl) as [g r es].
    cbn [graphql rest_api endpoints] in He, Hgq, Hr. subst. reflexivity.
Qed.

(** ** The final clean-up of a record *)

Lemma analysis_deduped (cheerioLoad : string -> Document) (html : string)
    (headers : Headers) (u : string) :
  tech_deduped (a_technologies (analyzeStaticResponse cheerioLoad html headers u)).
Proof. unfold analyzeStaticResponse. cbn [a_technologies]. apply tech_map_dedup_deduped. Qed.

Lemma tech_map_dedup_fixed (t : Technologies) :
  tech_deduped t -> tech_map deduplicateArray t = t.
Proof.
  intro H. destruct t as [f b c a h d l]. unfold tech_map. cbn.
  pose proof (H frontend) as H1. pose proof (H backend) as H2. pose proof (H cms) as H3.
  pose proof (H analytics) as H4. pose proof (H hosting) as H5. pose proof (H cdn) as H6.
  pose proof (H libraries) as H7. cbn in H1, H2, H3, H4, H5, H6, H7.
  unfold deduplicateArray.
  rewrite !dedup_from_fixed by (assumption || (intros x _ [])).
  reflexivity.
Qed.

Lemma merge_one_deduped (tech : string) (acc : Technologies * Obj TechMeta) :
  tech_deduped (fst acc) -> tech_deduped (fst (merge_browser_tech tech acc)).
Proof.
  intro H. unfold merge_browser_tech. destruct acc as [t m]. cbn [fst] in H.
  destruct (mapBrowserTechToKey tech) as [key |]; [| exact H]. cbn [fst].
  destruct (Category_eqb (getCategoryForTech key) frontend) eqn:Ec; cbn [andb]; [| exact H].
  destruct (existsb _ (t_frontend t)) eqn:Ex; cbn [negb]; [exact H |].
  intro c. destruct (Category_eqb c frontend) eqn:Ef.
  - apply Category_eqb_eq in Ef. subst c. rewrite tech_get_set_same.
    rewrite map_app. cbn [map].
    apply NoDup_app_remove_l with (l := []). cbn [app].
    assert (Hn : ~ In (toLowerCase (formatTechName (humanizeTechName key) None))
                   (map toLowerCase (t_frontend t))).
    { intro Hin. apply in_map_iff in Hin. destruct Hin as [x [Hx Hin]].
      assert (Ht : existsb
                     (fun item => String.eqb (toLowerCase item)
                                    (toLowerCase (formatTechName (humanizeTechName key) None)))
                     (t_frontend t) = true).
      { apply existsb_exists. exists x. split; [assumption |]. now apply String.eqb_eq. }
      congruence. }
    pose proof (H frontend) as Hf. cbn [tech_get] in Hf.
    clear - Hn Hf. induction (map toLowerCase (t_frontend t)) as [| a l IH]; cbn [app].
    + constructor; [intros [] | constructor].
    + apply NoDup_cons_iff in Hf. destruct Hf as [Ha Hf]. constructor.
      * rewrite in_app_iff. intros [Hin | [Heq | []]]; [contradiction |].
        apply Hn. now left.
      * apply IH; [| assumption]. intro Hin. apply Hn. now right.
  - rewrite tech_get_set_other; [apply H |].
    intro Heq. subst c. discriminate.
Qed.

Lemma merge_fold_deduped (browserTechs : list string) (acc : Technologies * Obj TechMeta) :
  tech_deduped (fst acc) ->
  tech_deduped (fst (fold_left (fun acc tech => merge_browser_tech tech acc) browserTechs acc)).
Proof.
  revert acc. induction browserTechs as [| tech l IH]; intros acc H; simpl; [exact H |].
  apply IH. now apply merge_one_deduped.
Qed.

Lemma deduplicateResult_again (r : ScanResult) :
  deduplicateResult (deduplicateResult r) = deduplicateResult r.
Proof.
  destruct r as [u s e t w a m sv d v dd at_]. unfold deduplicateResult.
  cbn [url status error technologies waf apis metadata server detectionMethod verdict
       detectionDetails scannedAt].
  f_equal.
  - destruct t as [t |]; [| reflexivity]. cbn [option_map].
    now rewrite tech_map_dedup_idempotent.
  - destruct a as [a |]; [| reflexivity]. cbn [option_map graphql rest_api endpoints].
    now rewrite dedup_idempotent.
  - destruct v as [v |]; [| reflexivity].
    cbn [option_map v_primary v_inferred v_confidence v_summary languages databases].
    now rewrite !dedup_idempotent.
Qed.

(** X24.  [deduplicateResult] is idempotent, and on the records the two handlers
    build it removes nothing from the technologies and the verdict: these are
    stored as the analysis, the merge and [buildVerdict] made them. *)
Theorem deduplicateResult_is_a_no_op_after_the_analysis
    (cheerioLoad : string -> Document) (input : Input) :
  (forall r, deduplicateResult (deduplicateResult r) = deduplicateResult r)
  /\ (forall u f,
        let a := analyzeStaticResponse cheerioLoad (f_body f) (f_headers f) u in
        technologies (static_result cheerioLoad input u f) = Some (a_technologies a)
        /\ verdict (static_result cheerioLoad input u f)
           = Some (buildVerdict (a_technologies a) (a_techMatches a)
                     (wafInfo_of (detectWAF (f_headers f) (cookies_of (f_headers f)) (f_body f)))
                     (serverInfo_of (f_headers f))))
  /\ (forall u html headers win old,
        let a := analyzeStaticResponse cheerioLoad html headers u in
        technologies (browser_result cheerioLoad u html headers win old)
        = Some (fst (merge_browser_techs (detect_globals win)
                       (a_technologies a) (a_techMatches a)))).
Proof.
  split; [exact deduplicateResult_again |]. split.
  - intros u f a. split.
    + rewrite technologies_static_result. f_equal.
      apply tech_map_dedup_fixed, analysis_deduped.
    + unfold static_result, deduplicateResult. cbn [verdict option_map]. f_equal.
      unfold buildVerdict.
      cbn [v_primary v_inferred v_confidence v_summary languages databases].
      now rewrite !dedup_idempotent.
  - intros u html headers win old a.
    rewrite technologies_browser_result. f_equal.
    apply tech_map_dedup_fixed. unfold merge_browser_techs.
    apply merge_fold_deduped. apply analysis_deduped.
Qed.

(** ** What the merge adds *)

Lemma merge_one_lists_frontend (tech key : string) (acc : Technologies * Obj TechMeta) :
  mapBrowserTechToKey tech = Some key ->
  getCategoryForTech key = frontend ->
  exists s, In s (t_frontend (fst (merge_browser_tech tech acc)))
            /\ toLowerCase s = toLowerCase (humanizeTechName key).
Proof.
  intros Hk Hc. unfold merge_browser_tech. destruct acc as [t m]. rewrite Hk, Hc.
  cbn [fst Category_eqb andb formatTechName].
  destruct (existsb _ (t_frontend t)) eqn:E; cbn [negb].
  - apply existsb_exists in E. destruct E as [s [Hs Heq]].
    apply String.eqb_eq in Heq. exists s. split; assumption.
  - exists (humanizeTechName key). split; [| reflexivity].
    cbn [tech_set t_frontend]. apply in_or_app. right. left. reflexivity.
Qed.

Lemma merge_fold_keeps_frontend (l : list string) (acc : Technologies * Obj TechMeta)
    (s : string) :
  In s (t_frontend (fst acc)) ->
  In s (t_frontend (fst (fold_left (fun acc tech => merge_browser_tech tech acc) l acc))).
Proof.
  intro H. destruct (merge_fold_frontend l acc) as [added [Heq _]].
  rewrite Heq. apply in_or_app. left. exact H.
Qed.

Lemma merge_fold_lists_frontend (l : list string) (tech key : string)
    (acc : Technologies * Obj TechMeta) :
  In tech l ->
  mapBrowserTechToKey tech = Some key ->
  getCategoryForTech key = frontend ->
  exists s,
    In s (t_frontend (fst (fold_left (fun acc tech => merge_browser_tech tech acc) l acc)))
    /\ toLowerCase s = toLowerCase (humanizeTechName key).
Proof.
  revert acc. induction l as [| a l IH]; intros acc Hin Hk Hc; [contradiction |].
  simpl. destruct Hin as [-> | Hin].
  - destruct (merge_one_lists_frontend tech key acc Hk Hc) as [s [Hs Hl]].
    exists s. split; [| exact Hl]. apply merge_fold_keeps_frontend. exact Hs.
  - apply IH; assumption.
Qed.

(** X25.  A frontend framework whose global the page exposes is listed in the
    frontend array of the record the browser pass stores, under its label up
    to case; that record is therefore no longer an empty one. *)
Theorem runtime_frontend_detections_are_listed
    (cheerioLoad : string -> Document) (u html : string) (headers : Headers)
    (win : Window) (old : ScanResult) (name key : string) :
  In name (detect_globals win) ->
  mapBrowserTechToKey name = Some key ->
  getCategoryForTech key = frontend ->
  exists t s,
    technologies (browser_result cheerioLoad u html headers win old) = Some t
    /\ In s (t_frontend t)
    /\ toLowerCase s = toLowerCase (humanizeTechName key)
    /\ needs_browser (browser_result cheerioLoad u html headers win old) = false.
Proof.
  intros Hin Hk Hc.
  destruct (merge_fold_lists_frontend (detect_globals win) name key
              (a_technologies (analyzeStaticResponse cheerioLoad html headers u),
               a_techMatches (analyzeStaticResponse cheerioLoad html headers u))
              Hin Hk Hc) as [s [Hs Hl]].
  change (In s (t_frontend
                  (fst (merge_browser_techs (detect_globals win)
                          (a_technologies (analyzeStaticResponse cheerioLoad html headers u))
                          (a_techMatches (analyzeStaticResponse cheerioLoad html headers u))))))
    in Hs.
  assert (Ht : technologies (browser_result cheerioLoad u html headers win old)
               = Some (fst (merge_browser_techs (detect_globals win)
                              (a_technologies (analyzeStaticResponse cheerioLoad html headers u))
                              (a_techMatches (analyzeStaticResponse cheerioLoad html headers u))))).
  { rewrite technologies_browser_result. f_equal.
    apply tech_map_dedup_fixed. unfold merge_browser_techs.
    apply merge_fold_deduped. apply analysis_deduped. }
  eexists. exists s. split; [exact Ht |]. split; [exact Hs |]. split; [exact Hl |].
  unfold needs_browser. rewrite Ht.
  set (t := fst (merge_browser_techs _ _ _)) in *. clearbody t.
  destruct (List.length (tech_flat t) =? 0) eqn:E; [| apply andb_false_r].
  apply Nat.eqb_eq in E. apply length_zero_iff_nil in E.
  rewrite tech_flat_nil_iff in E. specialize (E frontend). cbn [tech_get] in E.
  rewrite E in Hs. contradiction.
Qed.

Lemma runtime_frontend_detections_are_listed_witness :
  In "React" (detect_globals react_window)
  /\ mapBrowserTechToKey "React" = Some "react"
  /\ getCategoryForTech "react" = frontend
  /\ exists t s,
       technologies (browser_result spa_loader spa_url spa_html [] react_window
                       (static_result spa_loader spa_input spa_url spa_fetched)) = Some t
       /\ In s (t_frontend t)
       /\ toLowerCase s = "react".
Proof.
  assert (Hin : In "React" (detect_globals react_window)) by (vm_compute; now left).
  split; [exact Hin |]. split; [reflexivity |]. split; [reflexivity |].
  destruct (runtime_frontend_detections_are_listed spa_loader spa_url spa_html []
              react_window (static_result spa_loader spa_input spa_url spa_fetched)
              "React" "react" Hin eq_refl eq_refl) as [t [s [H1 [H2 [H3 _]]]]].
  exists t, s. split; [exact H1 |]. split; [exact H2 | exact H3].
Defined.

(** ** The verdict after a runtime detection *)

Lemma merge_one_frontend_evidence (tech key : string) (acc : Technologies * Obj TechMeta) :
  mapBrowserTechToKey tech = Some key ->
  getCategoryForTech key = frontend ->
  (forall m, obj_get (snd acc) key = Some m -> category m = frontend) ->
  exists meta,
    obj_get (snd (merge_browser_tech tech acc)) key = Some meta /\ frontend_evidence meta.
Proof.
  intros Hk Hc Hold. unfold merge_browser_tech. destruct acc as [t m]. rewrite Hk.
  cbn [snd] in *. rewrite obj_get_set_same. eexists. split; [reflexivity |].
  split; cbn [confidence category].
  - apply Nat.le_max_r.
  - destruct (obj_get m key) as [m0 |] eqn:E; [now apply Hold | exact Hc].
Qed.

Lemma merge_one_keeps_frontend_evidence (tech key : string)
    (acc : Technologies * Obj TechMeta) :
  (exists meta, obj_get (snd acc) key = Some meta /\ frontend_evidence meta) ->
  exists meta,
    obj_get (snd (merge_browser_tech tech acc)) key = Some meta /\ frontend_evidence meta.
Proof.
  intros [meta [Hget [H3 Hcat]]].
  unfold merge_browser_tech. destruct acc as [t m]. cbn [snd] in Hget.
  destruct (mapBrowserTechToKey tech) as [k |] eqn:Ek;
    [| exists meta; split; [exact Hget | split; assumption]].
  cbn [snd]. destruct (String.eqb k key) eqn:E.
  - apply String.eqb_eq in E. subst k. rewrite obj_get_set_same, Hget.
    eexists. split; [reflexivity |]. split; cbn [confidence category]; [| exact Hcat].
    apply Nat.le_max_r.
  - exists meta. split; [| split; assumption].
    rewrite obj_get_set_other; [assumption |].
    intro Heq. subst. now rewrite String.eqb_refl in E.
Qed.

Lemma merge_fold_frontend_evidence (l : list string) (tech key : string)
    (acc : Technologies * Obj TechMeta) :
  In tech l ->
  mapBrowserTechToKey tech = Some key ->
  getCategoryForTech key = frontend ->
  (forall m, obj_get (snd acc) key = Some m -> category m = frontend) ->
  exists meta,
    obj_get (snd (fold_left (fun acc tech => merge_browser_tech tech acc) l acc)) key
    = Some meta
    /\ frontend_evidence meta.
Proof.
  revert acc. induction l as [| a l IH]; intros acc Hin Hk Hc Hold; [contradiction |].
  simpl. destruct Hin as [-> | Hin].
  - pose proof (merge_one_frontend_evidence tech key acc Hk Hc Hold) as H.
    clear - H. revert H. generalize (merge_browser_tech tech acc). clear acc.
    induction l as [| b l IH]; intros acc H; simpl; [exact H |].
    apply IH. now apply merge_one_keeps_frontend_evidence.
  - apply IH; try assumption.
    intros m Hm.
    destruct (mapBrowserTechToKey a) as [k |] eqn:Ek.
    + destruct (String.eqb k key) eqn:E.
      * apply String.eqb_eq in E. subst k.
        destruct (merge_one_frontend_evidence a key acc Ek Hc Hold) as [meta [Hg [_ Hcat]]].
        congruence.
      * apply Hold. rewrite <- Hm. symmetry.
        pose proof (merge_one_matches a acc key) as H1. rewrite Ek, E in H1. exact H1.
    + apply Hold. rewrite <- Hm. symmetry.
      pose proof (merge_one_matches a acc key) as H1. rewrite Ek in H1. exact H1.
Qed.

Lemma list_max_In (l : list nat) (n : nat) : In n l -> n <= list_max l.
Proof.
  induction l as [| a l IH]; simpl; [contradiction |].
  intros [-> | H]; [lia |]. specialize (IH H). lia.
Qed.

Lemma category_best_In (techMatches : Obj TechMeta) (key : string) (m : TechMeta) :
  obj_get techMatches key = Some m ->
  confidence m <= category_best techMatches (category m).
Proof.
  intro H. apply obj_get_In in H. unfold category_best. apply list_max_In.
  apply in_map_iff. exists (key, m). split; [reflexivity |].
  apply filter_In. split; [assumption |]. cbn [snd]. apply Category_eqb_refl.
Qed.

Lemma analysis_match_category (cheerioLoad : string -> Document) (html : string)
    (headers : Headers) (u key : string) (m : TechMeta) :
  obj_get (a_techMatches (analyzeStaticResponse cheerioLoad html headers u)) key = Some m ->
  category m = getCategoryForTech key.
Proof.
  intro H. rewrite analysis_matches in H. apply obj_get_In in H.
  apply in_flat_map in H. destruct H as [[k pat] [_ H]].
  apply match_of_In in H. cbn [fst snd] in H. destruct H as [-> [_ Hm]].
  cbv zeta in Hm. subst m. reflexivity.
Qed.

(** X26.  When the page exposes the global of a frontend framework, the verdict
    of the record the browser pass stores has a frontend pick with a score of
    at least 3, and its confidence is not low. *)
Theorem runtime_frontend_detection_gives_a_frontend_verdict
    (cheerioLoad : string -> Document) (u html : string) (headers : Headers)
    (win : Window) (old : ScanResult) (name key : string) :
  In name (detect_globals win) ->
  mapBrowserTechToKey name = Some key ->
  getCategoryForTech key = frontend ->
  exists v p,
    verdict (browser_result cheerioLoad u html headers win old) = Some v
    /\ pr_frontend (v_primary v) = Some p
    /\ 3 <= pk_confidence p
    /\ v_confidence v <> "low".
Proof.
  intros Hin Hk Hc.
  destruct (merge_fold_frontend_evidence (detect_globals win) name key
              (a_technologies (analyzeStaticResponse cheerioLoad html headers u),
               a_techMatches (analyzeStaticResponse cheerioLoad html headers u))
              Hin Hk Hc) as [meta [Hget [H3 Hcat]]].
  { intros m Hm. cbn [snd] in Hm. rewrite <- Hc.
    exact (analysis_match_category cheerioLoad html headers u key m Hm). }
  change (fold_left _ (detect_globals win) ?acc)
    with (merge_browser_techs (detect_globals win) (fst acc) (snd acc)) in Hget.
  cbn [fst snd] in Hget.
  unfold browser_result.
  destruct (merge_browser_techs (detect_globals win) _ _) as [merged techMatches].
  cbn [snd] in Hget.
  unfold deduplicateResult. cbn [verdict option_map].
  set (wafInfo := match waf old with Some w => w | None => WafNone end).
  set (serverInfo := match server old with Some s => s | None => serverInfo_of headers end).
  pose proof (category_best_In techMatches key meta Hget) as Hbest.
  rewrite Hcat, <- pickTop_score in Hbest.
  assert (Hp : exists p, pickTop techMatches frontend = Some p /\ 3 <= pk_confidence p).
  { destruct (pickTop techMatches frontend) as [p |]; cbn [pick_score] in Hbest.
    - exists p. split; [reflexivity | lia].
    - lia. }
  destruct Hp as [p [Hp Hp3]].
  eexists. exists p. split; [reflexivity |].
  cbn [v_primary v_confidence]. unfold buildVerdict. cbn [v_primary v_confidence pr_frontend].
  split; [exact Hp |]. split; [exact Hp3 |].
  rewrite Hp. unfold topScore. cbn [pr_cms pr_frontend pr_hosting pr_cdn pick_score].
  unfold confidenceFromScore.
  destruct (6 <=? _); [discriminate |].
  destruct (3 <=? _) eqn:E; [discriminate |].
  apply Nat.leb_gt in E. lia.
Qed.

Lemma runtime_frontend_detection_gives_a_frontend_verdict_witness :
  In "React" (detect_globals react_window)
  /\ mapBrowserTechToKey "React" = Some "react"
  /\ getCategoryForTech "react" = frontend
  /\ exists v p,
       verdict (browser_result spa_loader spa_url spa_html [] react_window
                  (static_result spa_loader spa_input spa_url spa_fetched)) = Some v
       /\ pr_frontend (v_primary v) = Some p
       /\ 3 <= pk_confidence p.
Proof.
  assert (Hin : In "React" (detect_globals react_window)) by (vm_compute; now left).
  split; [exact Hin |]. split; [reflexivity |]. split; [reflexivity |].
  destruct (runtime_frontend_detection_gives_a_frontend_verdict spa_loader spa_url spa_html
              [] react_window (static_result spa_loader spa_input spa_url spa_fetched)
              "React" "react" Hin eq_refl eq_refl) as [v [p [H1 [H2 [H3 _]]]]].
  exists v, p. split; [exact H1 |]. split; [exact H2 | exact H3].
Defined.

(** ** The run as a whole, further *)

Lemma cons_inj {A : Type} (x y : A) (l l' : list A) :
  x :: l = y :: l' -> x = y /\ l = l'.
Proof. intro H. injection H as H1 H2. auto. Qed.

Lemma find_result_same_part (u : string) (l l' : list ScanResult) (r : ScanResult) :
  map static_part l = map static_part l' ->
  find_result u l = Some r ->
  exists r', find_result u l' = Some r' /\ static_part r' = static_part r.
Proof.
  revert l'. induction l as [| a l IH]; intros [| b l'] Hm H;
    cbn [map find_result] in *; try discriminate.
  apply cons_inj in Hm. destruct Hm as [Hab Hrest].
  assert (Hu : url a = url b).
  { unfold static_part in Hab. congruence. }
  rewrite <- Hu. revert H. destruct (String.eqb (url a) u); intro H.
  - apply some_inj in H. subst r. exists b. split; [reflexivity | now symmetry].
  - now apply IH.
Qed.

Lemma replace_result_part (u : string) (r old : ScanResult) (l : list ScanResult) :
  find_result u l = Some old -> static_part r = static_part old ->
  map static_part (replace_result u r l) = map static_part l.
Proof.
  intros Hf Hp. induction l as [| a l IH]; cbn [map find_result replace_result] in *;
    [reflexivity |].
  revert Hf. destruct (String.eqb (url a) u); intro Hf; cbn [map].
  - apply some_inj in Hf. subst a. now rewrite Hp.
  - now rewrite IH.
Qed.

Lemma replace_result_rewritten (u : string) (r : ScanResult) (l0 l : list ScanResult) :
  detectionMethod r = Some "browser" ->
  Forall2 kept_or_rewritten l0 l -> Forall2 kept_or_rewritten l0 (replace_result u r l).
Proof.
  intros Hr H. induction H as [| a b l0 l Hab H IH]; cbn [replace_result]; [constructor |].
  destruct (String.eqb (url b) u); constructor; try assumption. now right.
Qed.

Lemma kept_refl (l : list ScanResult) : Forall2 kept_or_rewritten l l.
Proof. induction l; constructor; [now left | assumption]. Qed.

Section RunFacts.

Variable cheerioLoad : string -> Document.
Variable input : Input.

Lemma static_result_endpoints (u : string) (f : Fetched) :
  endpoints_deduped (static_result cheerioLoad input u f).
Proof.
  intros a Ha. unfold static_result, deduplicateResult in Ha. cbn [apis option_map] in Ha.
  apply some_inj in Ha. subst a. cbn [endpoints]. apply dedup_idempotent.
Qed.

Lemma browser_result_endpoints (u html : string) (headers : Headers) (win : Window)
    (old : ScanResult) :
  endpoints_deduped (browser_result cheerioLoad u html headers win old).
Proof.
  intros a Ha. unfold browser_result in Ha.
  destruct (merge_browser_techs _ _ _) as [merged techMatches].
  unfold deduplicateResult in Ha. cbn [apis] in Ha.
  destruct (apis old) as [a0 |]; [| discriminate]. cbn [option_map] in Ha.
  apply some_inj in Ha. subst a. cbn [endpoints]. apply dedup_idempotent.
Qed.

Lemma browser_result_part (u html : string) (headers : Headers) (win : Window)
    (old : ScanResult) :
  endpoints_deduped old ->
  static_part (browser_result cheerioLoad u html headers win old) = static_part old.
Proof.
  intro Hd. unfold browser_result.
  destruct (merge_browser_techs _ _ _) as [merged techMatches].
  unfold static_part, title_of, description_of, deduplicateResult.
  cbn [url status error waf apis server scannedAt metadata].
  assert (Ha : option_map
                 (fun a => mk_Apis (graphql a) (rest_api a) (deduplicateArray (endpoints a)))
                 (apis old) = apis old).
  { destruct (apis old) as [a |] eqn:E; [| reflexivity]. cbn [option_map].
    rewrite (Hd a E). now destruct a. }
  rewrite Ha. destruct (metadata old); reflexivity.
Qed.

Lemma failedResult_endpoints (u msg now : string) :
  endpoints_deduped (failedResult u msg now).
Proof. intros a Ha. discriminate. Qed.

Variable queue : list string.

Lemma runs_results_endpoints (runs : list (string * Fetched)) :
  Forall endpoints_deduped (runs_results cheerioLoad input runs).
Proof.
  apply (runs_results_all cheerioLoad input endpoints_deduped).
  - apply static_result_endpoints.
  - apply failedResult_endpoints.
Qed.

Lemma tier2_step_part (st : ActorState) (run : string * LaterRun) :
  Forall endpoints_deduped (results st) ->
  map static_part (results (tier2_step cheerioLoad input queue st run))
  = map static_part (results st ++ runs_results cheerioLoad input (overdue [run]))
  /\ Forall endpoints_deduped (results (tier2_step cheerioLoad input queue st run))
  /\ Forall2 kept_or_rewritten
       (results st ++ runs_results cheerioLoad input (overdue [run]))
       (results (tier2_step cheerioLoad input queue st run)).
Proof.
  intro Hd. destruct run as [u [v | f]].
  - rewrite overdue_rendering, runs_results_nil, app_nil_r, tier2_step_rendering.
    destruct (existsb _ queue); [| split; [| split]; auto using kept_refl].
    destruct (tier2_record cheerioLoad st u v) as [r |] eqn:E;
      [| split; [| split]; auto using kept_refl].
    cbn [results].
    pose proof (tier2_record_method cheerioLoad st _ _ r E) as Hm.
    unfold tier2_record in E.
    destruct (visit_ok v) as [[html win] |]; [| discriminate].
    destruct (find_result u (results st)) as [old |] eqn:Ef; [| discriminate].
    apply some_inj in E. subst r.
    assert (Hold : endpoints_deduped old).
    { rewrite Forall_forall in Hd. apply Hd. now apply find_result_url in Ef. }
    split; [| split].
    + apply (replace_result_part u _ old); [assumption |].
      now apply browser_result_part.
    + apply replace_result_Forall; [apply browser_result_endpoints | assumption].
    + apply replace_result_rewritten; [exact Hm | apply kept_refl].
  - rewrite overdue_overdue, tier2_step_overdue. cbn [results].
    split; [reflexivity |]. split; [| apply kept_refl].
    apply Forall_app. split; [exact Hd | apply runs_results_endpoints].
Qed.

Lemma kept_trans (l0 l1 l2 : list ScanResult) :
  Forall2 kept_or_rewritten l0 l1 -> Forall2 kept_or_rewritten l1 l2 ->
  Forall2 kept_or_rewritten l0 l2.
Proof.
  intro H. revert l2. induction H as [| a b l0 l1 Hab H IH]; intros l2 H2.
  - inversion H2. constructor.
  - inversion H2 as [| b' c l1' l2' Hbc H2' E1 E2]. subst. constructor; [| now apply IH].
    destruct Hbc as [-> | Hc]; [exact Hab | now right].
Qed.

(** [results] after the later runs: a record for each one the static pass
    left and for each one an overdue run pushed, in that order, kept or
    written over by the browser handler. *)
Lemma tier2_fold_part (later : list (string * LaterRun)) (st : ActorState) :
  Forall endpoints_deduped (results st) ->
  map static_part (results (fold_left (tier2_step cheerioLoad input queue) later st))
  = map static_part (results st ++ runs_results cheerioLoad input (overdue later))
  /\ Forall2 kept_or_rewritten
       (results st ++ runs_results cheerioLoad input (overdue later))
       (results (fold_left (tier2_step cheerioLoad input queue) later st)).
Proof.
  revert st. induction later as [| run later IH]; intros st Hd; cbn [fold_left].
  - cbn [overdue flat_map]. rewrite runs_results_nil, app_nil_r.
    split; [reflexivity | apply kept_refl].
  - destruct (tier2_step_part st run Hd) as [H1 [H2 H3]].
    destruct (IH _ H2) as [H4 H5].
    rewrite (overdue_cons run later), runs_results_app, app_assoc. split.
    + rewrite H4, !map_app, H1, map_app. reflexivity.
    + refine (kept_trans _ _ _ _ H5).
      apply Forall2_app; [exact H3 | apply kept_refl].
Qed.

End RunFacts.

Section RunCounts.

Variable cheerioLoad : string -> Document.
Variable input : Input.
Variable fetch : list (string * Fetched).
Variable later : list (string * LaterRun).

Lemma after_static_endpoints :
  Forall endpoints_deduped (results (after_static cheerioLoad input fetch)).
Proof.
  apply (after_static_all cheerioLoad input endpoints_deduped).
  - apply static_result_endpoints.
  - apply failedResult_endpoints.
Qed.

Lemma run_part (st : ActorState) :
  run_actor cheerioLoad input fetch later = Ok st ->
  map static_part (results st)
  = map static_part (results (after_static cheerioLoad input fetch)
                     ++ runs_results cheerioLoad input (overdue later))
  /\ Forall2 kept_or_rewritten
       (results (after_static cheerioLoad input fetch)
        ++ runs_results cheerioLoad input (overdue later))
       (results st)
  /\ processedCount st
     = processedCount (after_static cheerioLoad input fetch)
       + runs_counted input (overdue later).
Proof.
  intro H. apply run_actor_state in H. subst st. unfold phase2.
  split; [| split].
  - apply tier2_fold_part, after_static_endpoints.
  - apply tier2_fold_part, after_static_endpoints.
  - apply tier2_fold_count.
Qed.

Lemma run_results_successes (u : string) (f : Fetched) :
  List.length (filter succeeded (run_results cheerioLoad input u f))
  = if analysed f then 1 else 0.
Proof.
  unfold run_results, analysed. destruct (f_fault f) as [msg |]; [reflexivity |].
  now destruct (f_stored f).
Qed.

Lemma static_successes (l : list (string * Fetched)) :
  List.length
    (filter succeeded
       (flat_map (fun run => run_results cheerioLoad input (fst run) (snd run)) l))
  = List.length (filter (fun run => analysed (snd run)) l).
Proof.
  induction l as [| run l IH]; cbn [flat_map filter]; [reflexivity |].
  rewrite filter_app, length_app, IH, run_results_successes.
  destruct (analysed (snd run)); reflexivity.
Qed.

Lemma succeeded_by_part (l l' : list ScanResult) :
  map static_part l = map static_part l' ->
  List.length (filter succeeded l) = List.length (filter succeeded l').
Proof.
  revert l'. induction l as [| a l IH]; intros [| b l'] H; cbn [map filter] in *;
    try discriminate.
  - reflexivity.
  - apply cons_inj in H. destruct H as [Hab Hrest].
    assert (Hs : status a = status b) by (unfold static_part in Hab; congruence).
    assert (Hsu : succeeded a = succeeded b) by (unfold succeeded; now rewrite Hs).
    rewrite Hsu. destruct (succeeded b); cbn [List.length]; now rewrite (IH l' Hrest).
Qed.

Lemma counted_le_analysed (l : list (string * Fetched)) :
  List.length (filter (fun run => counted (snd run)) l)
  <= List.length (filter (fun run => analysed (snd run)) l).
Proof.
  induction l as [| run l IH]; cbn [filter]; [lia |].
  unfold counted at 1, analysed at 1.
  destruct (f_fault (snd run)); [exact IH |].
  destruct (f_stored (snd run)); cbn [List.length]; lia.
Qed.

End RunCounts.

(** X27.  The browser handler adds no record to [results] and removes none:
    at the end [results] has a record for each one the static handler
    pushed, during the static pass or overdue, in that order.  In every
    record url, status, error, waf, apis, server, scannedAt, title and
    description are as the static handler set them: a record is as it was
    pushed, or has been written over by the browser handler.  The count of
    analysed urls is touched by the static handler only. *)
Theorem browser_pass_keeps_the_static_part
    (cheerioLoad : string -> Document) (input : Input)
    (fetch : list (string * Fetched)) (later : list (string * LaterRun)) (st : ActorState) :
  run_actor cheerioLoad input fetch later = Ok st ->
  let st1 := after_static cheerioLoad input fetch in
  let pushed := results st1 ++ runs_results cheerioLoad input (overdue later) in
  map static_part (results st) = map static_part pushed
  /\ List.length (results st) = List.length pushed
  /\ Forall2 (fun before after => after = before \/ detectionMethod after = Some "browser")
       pushed (results st)
  /\ processedCount st = processedCount st1 + runs_counted input (overdue later).
Proof.
  intros H st1 pushed.
  destruct (run_part cheerioLoad input fetch later st H) as [Hp [Hk Hc]].
  split; [exact Hp |]. split; [| split; [exact Hk | exact Hc]].
  rewrite <- (length_map static_part), Hp. apply length_map.
Qed.

Lemma browser_pass_keeps_the_static_part_witness :
  run_actor spa_loader spa_input spa_fetch spa_browse
  = Ok (phase2 spa_loader spa_input spa_browse (after_static spa_loader spa_input spa_fetch))
  /\ map static_part
       (results (phase2 spa_loader spa_input spa_browse
                   (after_static spa_loader spa_input spa_fetch)))
     = map static_part (results (after_static spa_loader spa_input spa_fetch)).
Proof.
  split; [reflexivity |].
  rewrite (proj1 (browser_pass_keeps_the_static_part spa_loader spa_input spa_fetch
                    spa_browse
                    (phase2 spa_loader spa_input spa_browse
                       (after_static spa_loader spa_input spa_fetch))
                    eq_refl)).
  now rewrite app_nil_r.
Defined.

(** X28.  For an empty url list the run throws.  When it runs to its end, the
    count it reports is the number of runs of the static handler that got
    through: the analysis did not throw and the sink accepted the record.
    The success records in [results] are as many as the runs whose analysis
    did not throw, so at least as many as the count.  The run fails with No
    results produced when the count is 0, that is when no run got through,
    and stores a summary with the count otherwise. *)
Theorem run_reports_the_static_successes
    (cheerioLoad : string -> Document) (input : Input)
    (fetch : list (string * Fetched)) (later : list (string * LaterRun)) :
  let runs := served input (fetch ++ overdue later) in
  let n := List.length (filter (fun run => counted (snd run)) runs) in
  (urls input = [] ->
   main cheerioLoad input fetch later = Throw "No URLs provided.")
  /\ (forall st c,
        main cheerioLoad input fetch later = Ok (st, c) ->
        c = (if n =? 0 then Failed "No results produced" else Summary n)
        /\ processedCount st = n
        /\ List.length (filter succeeded (results st))
           = List.length (filter (fun run => analysed (snd run)) runs)
        /\ n <= List.length (filter succeeded (results st)))
  /\ (n = 0 <->
      forall u f,
        In u (urls input) -> In (u, f) fetch \/ In (u, Overdue f) later ->
        counted f = false).
Proof.
  intros runs n. split; [| split].
  - intro Hu. unfold main, run_actor. now rewrite Hu.
  - intros st c H. unfold main in H.
    destruct (run_actor cheerioLoad input fetch later) as [st' | msg] eqn:E;
      [| discriminate].
    assert (Hst : st' = st /\ conclude st' = c).
    { split; congruence. }
    destruct Hst as [-> Hc]. clear H.
    destruct (run_part cheerioLoad input fetch later st E) as [Hp [_ Hcount]].
    destruct (after_static_runs cheerioLoad input fetch) as [Hr1 [_ Hc1]].
    assert (Hn : processedCount st = n).
    { rewrite Hcount, Hc1, <- runs_counted_app. reflexivity. }
    assert (Hs : List.length (filter succeeded (results st))
                 = List.length (filter (fun run => analysed (snd run)) runs)).
    { rewrite (succeeded_by_part _ _ Hp), Hr1, <- runs_results_app.
      apply static_successes. }
    split; [| split; [exact Hn | split; [exact Hs |]]].
    + rewrite <- Hc. unfold conclude. now rewrite Hn.
    + rewrite Hs. apply counted_le_analysed.
  - unfold n, runs. rewrite length_zero_iff_nil. split.
    + intros Hnil u f Hu Hf. destruct (counted f) eqn:Ec; [| reflexivity].
      assert (Hin : In (u, f) (filter (fun run => counted (snd run))
                                 (served input (fetch ++ overdue later)))).
      { apply filter_In. split; [| exact Ec].
        apply (served_In cheerioLoad). split; [exact Hu |].
        apply in_or_app. destruct Hf as [Hf | Hf]; [now left | right].
        now apply overdue_In. }
      rewrite Hnil in Hin. contradiction.
    + intro Hall.
      destruct (filter (fun run => counted (snd run)) (served input (fetch ++ overdue later)))
        as [| [u f] l] eqn:E; [reflexivity |].
      assert (Hin : In (u, f) (filter (fun run => counted (snd run))
                                 (served input (fetch ++ overdue later))))
        by (rewrite E; now left).
      apply filter_In in Hin. destruct Hin as [Hu Hc]. cbn [snd] in Hc.
      apply (served_In cheerioLoad) in Hu. destruct Hu as [Hu Hf].
      apply in_app_or in Hf.
      assert (Hf' : In (u, f) fetch \/ In (u, Overdue f) later).
      { destruct Hf as [Hf | Hf]; [now left | right; now apply overdue_In]. }
      rewrite (Hall u f Hu Hf') in Hc. discriminate.
Qed.

(** ** The shape of the stored records *)

Lemma analysis_backend_empty (cheerioLoad : string -> Document) (html : string)
    (headers : Headers) (u : string) :
  t_backend (a_technologies (analyzeStaticResponse cheerioLoad html headers u)) = [].
Proof.
  change (t_backend ?t) with (tech_get t backend).
  rewrite analysis_category by discriminate.
  assert (Hf : filter (in_category backend)
                 (flat_map (match_of cheerioLoad html headers) TECH_PATTERNS) = []).
  { rewrite filter_flat_map. apply flat_map_none. intros e _.
    unfold match_of. destruct (_ <=? _); [| reflexivity].
    unfold in_category. cbn [filter snd category].
    destruct (Category_eqb (getCategoryForTech (fst e)) backend) eqn:E; [| reflexivity].
    apply Category_eqb_eq in E. now apply getCategoryForTech_not_backend in E. }
  now rewrite Hf.
Qed.

Section ShapeFacts.

Variable cheerioLoad : string -> Document.
Variable input : Input.

Lemma static_result_shaped (u : string) (f : Fetched) :
  well_shaped (static_result cheerioLoad input u f).
Proof.
  right. unfold static_result, deduplicateResult.
  cbn [status error technologies waf apis metadata server detectionMethod verdict
       detectionDetails option_map].
  split; [reflexivity |]. split; [reflexivity |]. split.
  - eexists. split; [reflexivity |].
    change (t_backend (tech_map deduplicateArray ?t)) with (deduplicateArray (t_backend t)).
    now rewrite analysis_backend_empty.
  - repeat split; try discriminate. now left.
Qed.

Lemma failedResult_shaped (u msg now : string) : well_shaped (failedResult u msg now).
Proof. left. unfold failedResult. cbn. repeat split; try reflexivity. discriminate. Qed.

Lemma browser_result_backend (u html : string) (headers : Headers) (win : Window)
    (old : ScanResult) :
  exists t, technologies (browser_result cheerioLoad u html headers win old) = Some t
            /\ t_backend t = [].
Proof.
  rewrite technologies_browser_result. eexists. split; [reflexivity |].
  change (t_backend (tech_map deduplicateArray ?t)) with (deduplicateArray (t_backend t)).
  change (t_backend ?x) with (tech_get x backend).
  unfold merge_browser_techs. rewrite merge_fold_other by discriminate.
  cbn [fst tech_get]. now rewrite analysis_backend_empty.
Qed.

Lemma browser_result_shaped (u html : string) (headers : Headers) (win : Window)
    (old : ScanResult) :
  status old = "success" -> well_shaped old ->
  well_shaped (browser_result cheerioLoad u html headers win old).
Proof.
  intros Hs [[Hf _] | [_ [He [_ [Hw [Ha [_ [Hsv _]]]]]]]]; [congruence |].
  right.
  pose proof (browser_result_backend u html headers win old) as Hb.
  revert Hb. unfold browser_result.
  destruct (merge_browser_techs _ _ _) as [merged techMatches].
  unfold deduplicateResult.
  cbn [status error technologies waf apis metadata server detectionMethod verdict
       detectionDetails option_map].
  intro Hb.
  split; [exact Hs |]. split; [exact He |]. split; [exact Hb |].
  split; [exact Hw |]. split.
  - destruct (apis old); [discriminate | congruence].
  - split; [discriminate |]. split; [exact Hsv |]. split; [now right |].
    split; discriminate.
Qed.

(** Written over a failure record, the record of the browser handler is
    neither a failure record nor a success record. *)
Lemma browser_result_over_failure (u html : string) (headers : Headers) (win : Window)
    (old : ScanResult) :
  status old = "failed" -> well_shaped old \/ rewritten_failure old ->
  rewritten_failure (browser_result cheerioLoad u html headers win old).
Proof.
  intros Hs Hold.
  assert (H : error old <> None /\ waf old = None /\ apis old = None /\ server old = None).
  { destruct Hold as [[[_ [He [_ [Hw [Ha [_ [Hsv _]]]]]]] | [Hsucc _]] | Hr].
    - auto.
    - rewrite Hs in Hsucc. discriminate.
    - destruct Hr as [_ [He [_ [Hw [Ha [_ [Hsv _]]]]]]]. auto. }
  destruct H as [He [Hw [Ha Hsv]]].
  pose proof (browser_result_backend u html headers win old) as Hb.
  revert Hb. unfold browser_result.
  destruct (merge_browser_techs _ _ _) as [merged techMatches].
  unfold deduplicateResult, rewritten_failure.
  cbn [status error technologies waf apis metadata server detectionMethod verdict
       detectionDetails option_map].
  intro Hb. rewrite Ha. cbn [option_map].
  split; [exact Hs |]. split; [exact He |]. split; [exact Hb |].
  split; [exact Hw |]. split; [reflexivity |]. split; [discriminate |].
  split; [exact Hsv |]. split; [reflexivity |]. split; discriminate.
Qed.

Lemma shaped_status (r : ScanResult) :
  well_shaped r \/ rewritten_failure r -> status r = "success" \/ status r = "failed".
Proof.
  intros [[[H _] | [H _]] | [H _]]; auto.
Qed.

Lemma browser_result_three_shapes (u html : string) (headers : Headers) (win : Window)
    (old : ScanResult) :
  well_shaped old \/ rewritten_failure old ->
  well_shaped (browser_result cheerioLoad u html headers win old)
  \/ rewritten_failure (browser_result cheerioLoad u html headers win old).
Proof.
  intro Hold. destruct (shaped_status old Hold) as [Hs | Hs].
  - left. apply browser_result_shaped; [exact Hs |].
    destruct Hold as [Hw | [Hf _]]; [exact Hw |]. rewrite Hs in Hf. discriminate.
  - right. now apply browser_result_over_failure.
Qed.

Variable fetch : list (string * Fetched).

(** When no request reaches the static handler twice, the record found
    for a queued url is the success record of its run. *)
Lemma single_runs_find_success :
  NoDup (map fst fetch) ->
  finds_success (tier2_queue input (results (after_static cheerioLoad input fetch)))
    (results (after_static cheerioLoad input fetch)).
Proof.
  intros Hnd u r Hq Hfind.
  unfold tier2_queue in Hq.
  destruct (usePlaywrightFallback input); [| contradiction].
  apply spaUrls_static in Hq. destruct Hq as [Hu [f [Hf [Hfault _]]]].
  assert (Hruns : runs_for u fetch = [f]).
  { clear - Hnd Hf. unfold runs_for.
    induction fetch as [| [q g] l IH]; [contradiction |].
    cbn [map fst] in Hnd. apply NoDup_cons_iff in Hnd. destruct Hnd as [Hq Hnd].
    cbn [filter fst]. destruct Hf as [Heq | Hin].
    - apply pair_equal_spec in Heq. destruct Heq as [-> ->].
      rewrite String.eqb_refl. cbn [map snd]. f_equal.
      assert (Hnone : forall l', ~ In u (map fst l') ->
                filter (fun run : string * Fetched => String.eqb (fst run) u) l' = []).
      { induction l' as [| [q' g'] l' IH']; intro Hn; cbn [filter fst]; [reflexivity |].
        assert (E : String.eqb q' u = false).
        { apply String.eqb_neq. intro Heq. apply Hn. left. exact Heq. }
        rewrite E. apply IH'. intro Hin. apply Hn. now right. }
      now rewrite Hnone.
    - assert (E : String.eqb q u = false).
      { apply String.eqb_neq. intro Heq. subst q. apply Hq.
        apply in_map_iff. exists (u, f). split; [reflexivity | exact Hin]. }
      rewrite E. now apply IH. }
  rewrite (find_result_static cheerioLoad input fetch u f [] Hu Hruns Hfault) in Hfind.
  apply some_inj in Hfind. now subst r.
Qed.

Lemma runs_results_shaped (runs : list (string * Fetched)) :
  Forall well_shaped (runs_results cheerioLoad input runs).
Proof.
  apply (runs_results_all cheerioLoad input well_shaped).
  - apply static_result_shaped.
  - apply failedResult_shaped.
Qed.

Lemma tier2_fold_shaped (queue : list string) (later : list (string * LaterRun))
    (st1 st : ActorState) (pushed : list ScanResult) :
  finds_success queue (results st1) ->
  (forall q, In q queue -> In q (map url (results st1))) ->
  map static_part (results st) = map static_part (results st1 ++ pushed) ->
  Forall endpoints_deduped (results st) ->
  Forall well_shaped (results st) -> Forall well_shaped (dataset st) ->
  Forall well_shaped (results (fold_left (tier2_step cheerioLoad input queue) later st))
  /\ Forall well_shaped (dataset (fold_left (tier2_step cheerioLoad input queue) later st)).
Proof.
  intros Hq Hin. revert st pushed.
  induction later as [| [u [v | f]] later IH]; intros st pushed Hp Hd Hr Hds;
    cbn [fold_left]; [auto | |].
  - destruct (tier2_step_part cheerioLoad input queue st (u, Rendering v) Hd)
      as [H1 [H2 _]].
    rewrite overdue_rendering, runs_results_nil, app_nil_r in H1.
    assert (Hstep :
      Forall well_shaped (results (tier2_step cheerioLoad input queue st (u, Rendering v)))
      /\ Forall well_shaped
           (dataset (tier2_step cheerioLoad input queue st (u, Rendering v)))).
    { rewrite tier2_step_rendering.
      destruct (existsb (String.eqb u) queue) eqn:Eq; [| auto].
      destruct (tier2_record cheerioLoad st u v) as [r |] eqn:E; [| auto].
      assert (Hs : well_shaped r).
      { unfold tier2_record in E.
        destruct (visit_ok v) as [[html win] |]; [| discriminate].
        destruct (find_result u (results st)) as [old |] eqn:Ef; [| discriminate].
        apply some_inj in E. subst r.
        destruct (find_result_same_part u _ _ old Hp Ef) as [r1 [Hf1 Hp1]].
        apply existsb_eqb_In in Eq.
        assert (Hs1 : status r1 = "success").
        { destruct (proj2 (find_result_some_iff u (results st1)) (Hin u Eq)) as [r0 Hr0].
          rewrite (find_result_app_some u _ pushed r0 Hr0) in Hf1.
          apply some_inj in Hf1. subst r1. exact (Hq u r0 Eq Hr0). }
        apply browser_result_shaped.
        - unfold static_part in Hp1. congruence.
        - rewrite Forall_forall in Hr. apply Hr. now apply find_result_url in Ef. }
      cbn [results dataset]. split.
      - now apply replace_result_Forall.
      - apply Forall_app. split; [exact Hds |].
        destruct (visit_stores v); [| constructor].
        constructor; [exact Hs | constructor]. }
    destruct Hstep as [Hr' Hds'].
    apply (IH _ pushed); try assumption. now rewrite H1.
  - rewrite tier2_step_overdue.
    apply (IH _ (pushed ++ runs_results cheerioLoad input [(u, f)])); cbn [results dataset].
    + rewrite app_assoc, !map_app, Hp, map_app. reflexivity.
    + apply Forall_app. split; [exact Hd | apply runs_results_endpoints].
    + apply Forall_app. split; [exact Hr | apply runs_results_shaped].
    + apply Forall_app. split; [exact Hds |].
      apply Forall_forall. intros r Hin'. apply runs_stored_incl in Hin'.
      pose proof (runs_results_shaped [(u, f)]) as Hall.
      rewrite Forall_forall in Hall. now apply Hall.
Qed.

End ShapeFacts.

(** A failure record can come before the success record of a later run for
    the same url: the first run throws in its analysis and the sink rejects
    its failure record, so that the request is tried again.  The browser
    handler then finds the failure record and writes over it. *)
Example browser_pass_rewrites_a_failure_record :
  let retried :=
    [(spa_url,
      mk_Fetched [] spa_html (Ok no_apis) (Some "analysis failed")
        "2024-01-01T00:00:00.000Z" (Ok tt) "2024-01-01T00:00:01.000Z"
        (Throw "write rejected"));
     (spa_url, spa_fetched)] in
  exists r1 r2,
    run_actor spa_loader spa_input retried spa_browse = Ok (mk_ActorState [r1; r2] [r2; r1] 1)
    /\ status r1 = "failed" /\ error r1 = Some "analysis failed"
    /\ detectionMethod r1 = Some "browser" /\ waf r1 = None
    /\ option_map t_frontend (technologies r1) = Some ["React"]
    /\ status r2 = "success" /\ detectionMethod r2 = Some "static".
Proof.
  eexists. eexists. split; [vm_compute; reflexivity |].
  repeat split.
Qed.

(** X29.  Every record in [results] and in the dataset is a failure record
    (status failed, an error, and none of the analysis fields), a success
    record (status success, no error, all of the analysis fields, an empty
    backend array, detection method static or browser), or a failure record
    that the browser handler has written over.  The last kind does not occur
    when the record found for each queued url is a success record, as it is
    when no url reaches the static handler twice: every record then has one of
    the first two shapes. *)
Theorem stored_records_have_one_of_three_shapes
    (cheerioLoad : string -> Document) (input : Input)
    (fetch : list (string * Fetched)) (later : list (string * LaterRun)) (st : ActorState) :
  run_actor cheerioLoad input fetch later = Ok st ->
  let st1 := after_static cheerioLoad input fetch in
  Forall (fun r => well_shaped r \/ rewritten_failure r) (results st ++ dataset st)
  /\ (finds_success (tier2_queue input (results st1)) (results st1) ->
      Forall well_shaped (results st ++ dataset st))
  /\ (NoDup (map fst fetch) ->
      finds_success (tier2_queue input (results st1)) (results st1)).
Proof.
  intros H st1. split; [| split].
  - apply Forall_app.
    apply (run_all cheerioLoad input (fun r => well_shaped r \/ rewritten_failure r))
      with (fetch := fetch) (later := later); [| | | exact H].
    + intros u f. left. apply static_result_shaped.
    + intros u msg now. left. apply failedResult_shaped.
    + intros u html headers win old. apply browser_result_three_shapes.
  - intro Hq. apply run_actor_state in H. subst st. unfold phase2. fold st1.
    apply Forall_app.
    apply (tier2_fold_shaped cheerioLoad input _ later st1 st1 [] Hq).
    + intros q Hin. now apply tier2_queue_in_results in Hin.
    + now rewrite app_nil_r.
    + apply after_static_endpoints.
    + apply (after_static_all cheerioLoad input well_shaped).
      * apply static_result_shaped.
      * apply failedResult_shaped.
    + apply (after_static_all cheerioLoad input well_shaped).
      * apply static_result_shaped.
      * apply failedResult_shaped.
  - apply single_runs_find_success.
Qed.

Lemma stored_records_have_one_of_three_shapes_witness :
  run_actor spa_loader spa_input spa_fetch spa_browse
  = Ok (phase2 spa_loader spa_input spa_browse (after_static spa_loader spa_input spa_fetch))
  /\ Forall well_shaped
       (results (phase2 spa_loader spa_input spa_browse
                   (after_static spa_loader spa_input spa_fetch))
        ++ dataset (phase2 spa_loader spa_input spa_browse
                      (after_static spa_loader spa_input spa_fetch))).
Proof.
  split; [reflexivity |].
  destruct (stored_records_have_one_of_three_shapes spa_loader spa_input spa_fetch spa_browse
              _ eq_refl) as [_ [H2 H3]].
  apply H2. apply H3.
  repeat constructor. intros [].
Defined.

(** ** Which records the browser pass rewrites *)

Section Rewritten.

Variable cheerioLoad : string -> Document.
Variable input : Input.
Variable queue : list string.

Lemma tier2_step_find_other (st : ActorState) (q : string) (v : Visit) (u : string) :
  q <> u ->
  find_result u (results (tier2_step cheerioLoad input queue st (q, Rendering v)))
  = find_result u (results st).
Proof.
  intro Hne. rewrite !find_result_records.
  now destruct (tier2_step_other cheerioLoad input queue st q v u Hne) as [-> _].
Qed.

Lemma renders_rendering (q u : string) (v : Visit) (later : list (string * LaterRun)) :
  renders ((q, Rendering v) :: later) u
  = (String.eqb q u && visited v) || renders later u.
Proof.
  unfold renders. change (renderings ((q, Rendering v) :: later))
    with ((q, v) :: renderings later).
  unfold runs_for. cbn [filter fst].
  destruct (String.eqb q u); reflexivity.
Qed.

Lemma renders_overdue (q u : string) (f : Fetched) (later : list (string * LaterRun)) :
  renders ((q, Overdue f) :: later) u = renders later u.
Proof. reflexivity. Qed.

(** The record found for a url at the end of the later runs: written over
    when the url is queued and a run of the browser handler for it gets
    through its visit, the record found at the start otherwise. *)
Lemma tier2_fold_find (later : list (string * LaterRun)) (st : ActorState) (u : string)
    (old : ScanResult) :
  find_result u (results st) = Some old ->
  exists r,
    find_result u (results (fold_left (tier2_step cheerioLoad input queue) later st))
    = Some r
    /\ (if existsb (String.eqb u) queue && renders later u
        then detectionMethod r = Some "browser"
        else r = old).
Proof.
  revert st old.
  induction later as [| [q [v | f]] later IH]; intros st old Hold; cbn [fold_left].
  - exists old. split; [exact Hold |]. unfold renders, runs_for.
    cbn [renderings flat_map filter map existsb].
    now rewrite andb_false_r.
  - rewrite renders_rendering. destruct (String.eqb q u) eqn:E.
    + apply String.eqb_eq in E. subst q. cbn [andb].
      rewrite tier2_step_rendering.
      destruct (existsb (String.eqb u) queue) eqn:Eq; cbn [andb].
      * unfold tier2_record, visited. rewrite Hold.
        destruct (visit_ok v) as [[html win] |]; cbn [orb].
        -- set (r' := browser_result cheerioLoad u html (visit_headers v) win old).
           assert (Hu : url r' = u).
           { unfold r'. rewrite url_browser_result. now apply find_result_url in Hold. }
           destruct (IH (mk_ActorState (replace_result u r' (results st))
                           (dataset st ++ (if visit_stores v then [r'] else []))
                           (processedCount st)) r') as [r [Hr Hcase]].
           { cbn [results]. now apply (find_result_replace_same u r' old). }
           exists r. split; [exact Hr |].
           cbn [andb] in Hcase.
           destruct (renders later u); [exact Hcase |].
           subst r. apply detectionMethod_browser_result.
        -- destruct (IH st old Hold) as [r [Hr Hcase]].
           exists r. split; [exact Hr | exact Hcase].
      * destruct (IH st old Hold) as [r [Hr Hcase]].
        exists r. split; [exact Hr | exact Hcase].
    + cbn [andb orb].
      apply IH. rewrite tier2_step_find_other; [exact Hold |].
      intro Heq. subst q. now rewrite String.eqb_refl in E.
  - rewrite renders_overdue. apply IH.
    rewrite tier2_step_overdue. cbn [results]. now apply find_result_app_some.
Qed.

End Rewritten.

(** X30.  For a url whose first run of the static handler got through the
    analysis, the record [results] holds first for it at the end of the run has
    detection method browser exactly when the fallback is on, the static
    analysis of a run for the url listed nothing and every step of the visit
    went through in a run of the browser handler; otherwise it is the static
    record of the first run, unchanged. *)
Theorem record_is_rewritten_iff_rendered
    (cheerioLoad : string -> Document) (input : Input)
    (fetch : list (string * Fetched)) (later : list (string * LaterRun))
    (st : ActorState) (u : string) (f : Fetched) (rest : list Fetched) :
  run_actor cheerioLoad input fetch later = Ok st ->
  In u (urls input) ->
  runs_for u fetch = f :: rest ->
  f_fault f = None ->
  let queued :=
    usePlaywrightFallback input && existsb (lists_nothing cheerioLoad u) (f :: rest) in
  exists r,
    find_result u (results st) = Some r
    /\ detectionMethod r = Some (if queued && renders later u then "browser" else "static")
    /\ (queued && renders later u = false -> r = static_result cheerioLoad input u f).
Proof.
  intros Hrun Hu Hruns Hfault queued.
  apply run_actor_state in Hrun. subst st. unfold phase2.
  pose proof (find_result_static cheerioLoad input fetch u f rest Hu Hruns Hfault) as Hold.
  assert (Hq : existsb (String.eqb u)
                 (tier2_queue input (results (after_static cheerioLoad input fetch)))
               = queued).
  { unfold queued, tier2_queue. destruct (usePlaywrightFallback input); [| reflexivity].
    cbn [andb].
    destruct (existsb (lists_nothing cheerioLoad u) (f :: rest)) eqn:Ee.
    - apply existsb_eqb_In. apply spaUrls_static. split; [exact Hu |].
      apply existsb_exists in Ee. destruct Ee as [f' [Hin Hl]].
      rewrite <- Hruns in Hin. apply runs_for_In in Hin.
      unfold lists_nothing, analysed in Hl. apply andb_prop in Hl. destruct Hl as [Ha Hn].
      exists f'. split; [exact Hin |]. split.
      + revert Ha. destruct (f_fault f'); [discriminate | reflexivity].
      + apply Nat.eqb_eq in Hn. apply length_zero_iff_nil. exact Hn.
    - destruct (existsb (String.eqb u) _) eqn:Ex; [| reflexivity].
      apply existsb_eqb_In in Ex. apply spaUrls_static in Ex.
      destruct Ex as [_ [f' [Hin [Hf' Hn]]]].
      assert (Hl : lists_nothing cheerioLoad u f' = true).
      { unfold lists_nothing, analysed. rewrite Hf', Hn. reflexivity. }
      assert (Hex : existsb (lists_nothing cheerioLoad u) (f :: rest) = true).
      { apply existsb_exists. exists f'. split; [| exact Hl].
        rewrite <- Hruns. now apply runs_for_In. }
      congruence. }
  destruct (tier2_fold_find cheerioLoad input
              (tier2_queue input (results (after_static cheerioLoad input fetch)))
              later _ u _ Hold) as [r [Hr Hcase]].
  exists r. split; [exact Hr |]. rewrite Hq in Hcase.
  destruct (queued && renders later u).
  - split; [exact Hcase | discriminate].
  - subst r. split; reflexivity.
Qed.

Lemma record_is_rewritten_iff_rendered_witness :
  run_actor spa_loader spa_input spa_fetch spa_browse
  = Ok (phase2 spa_loader spa_input spa_browse (after_static spa_loader spa_input spa_fetch))
  /\ exists r,
       find_result spa_url
         (results (phase2 spa_loader spa_input spa_browse
                     (after_static spa_loader spa_input spa_fetch))) = Some r
       /\ detectionMethod r = Some "browser".
Proof.
  split; [reflexivity |].
  destruct (record_is_rewritten_iff_rendered spa_loader spa_input spa_fetch spa_browse
              _ spa_url spa_fetched [] eq_refl (or_introl eq_refl) eq_refl eq_refl)
    as [r [H1 [H2 _]]].
  exists r. split; [exact H1 |]. rewrite H2. vm_compute. reflexivity.
Defined.
